(* ===== verification/_CoqProject ===== *)
-Q . S2P
Prelude.v
Machine.v
Logic.v
Console.v
Boards.v
Klog.v
Sync.v
Spin.v
Excl.v
ExclLock.v
ExclFair.v
Str.v
Boot.v
Pmm.v
FrameRace.v
Heap.v
Slab.v
SlabRace.v
Kheap.v
Mm.v
Hash.v
Ob.v
ObSpec.v
ObRace.v
Cap.v
CapSpec.v
ObTest.v
PageTree.v
RvPaging.v
ArmPaging.v
Cpu.v
Gic.v
Timer.v
Interrupts.v
Main.v
Start.v
