(* ===== verification/Prelude.v ===== *)
(** * Vectra: a verification development for the Vectra micro-kernel

    Vectra is a small kernel for arm64 (QEMU virt and Orange Pi) and RISC-V
    (QEMU virt).  From its entry point it logs to a UART, builds three memory
    allocators one on top of the other, turns paging on (RISC-V), waits for the
    timer, starts an object manager, runs a test of it and jumps to a first user
    process.  This library translates its C code, function by function, into
    definitions that run ([vm_compute] boots the kernel), and proves what the
    parts promise each other.

    ** The model

    [Machine.v] has byte-addressed memory, one record of the kernel's globals,
    and the monad [M]: a C function of result [A] is a value of [M A], which
    returns ([Ok]), panics ([Panicked]), is in a loop that never ends ([Hung]) or
    makes an access outside memory ([Fault]).  Integers are [Z] with every
    wrap-around written ([wrap8], [wrap32], [wrap64]); structs live in memory at
    their C offsets; a pointer is an address.  Statics whose address is not
    taken are fields of [kstate]; for the others the address is a parameter.
    The class [Platform] holds what hardware, the link script and the Makefile
    fix: architecture, board, accessible memory, and the answers of device
    ([dev_read]) and system registers ([reg_read]) as functions of the trace
    [k_io] of everything done to devices before.  [Logic.v] is the program logic:
    [wp c s Q E] says that [c] run from [s] neither faults nor loops, ends in
    [Q] if it returns and in [E] if it panics; with [E] false it is total
    correctness.

    ** The files and the code they model (paths under src/)

    - [Prelude.v]: words, alignment, lists and ranges, shared tactics.
    - [Machine.v], [Logic.v], [Boards.v]: the machine, its logic, two concrete
      boards on which theorems are instantiated.
    - [Console.v], [Klog.v]: libkern/framework.c, platform/*/uart.c,
      libkern/klog.c: [klog_vprintf], the seven log levels, [panic].  The class
      [Console] is the interface: a UART that takes every byte.
    - [Sync.v], [Spin.v], [Excl.v], [ExclLock.v], [ExclFair.v]:
      include/sync/*.hpp.  Sync.v: atomics and locks as the effect one hart has;
      Spin.v: the same lock between any number of harts, as a step relation over
      the shared memory; Excl.v: the assembly of a64lock.hpp and rvlock.hpp, a
      step being one instruction of one hart; ExclLock.v, ExclFair.v: the lock of
      Spin.v over those instructions.
    - [Str.v]: libkern/string.c.
    - [Boot.v], [Pmm.v], [Slab.v], [Kheap.v], [Mm.v]: base/mm/*.c, each
      allocator over the one before; [Heap.v] is the interface between them
      (ownership of memory outside the free frames).  [SlabRace.v]: the slab
      allocator between any number of harts that share a cache.  [FrameRace.v]:
      two harts in [pmm_alloc_frame].
    - [Hash.v]: libkern/hash.c.
    - [Ob.v], [ObSpec.v], [ObTest.v]: base/ob/ob.c and its own test.  The code
      behind a type's function pointers is the class [Callbacks], and what is
      asked of it ([CallbacksOk]) is that it writes only its object's payload,
      devices and a static of its own.  [ObRace.v]:
      reference counting and destruction between any number of harts, cut at
      each access to the object's header.
    - [Cap.v], [CapSpec.v]: base/ob/cap.c, and the abstract machine of objects
      and handles that ob.c and cap.c together implement.
    - [PageTree.v]: page tables as trees of frames, for any entry format (class
      [FormatOk]); [RvPaging.v] (arch/riscv/paging.c, Sv39) and [ArmPaging.v]
      (arch/arm64/paging.c, four levels and address-space identifiers) are its
      instances.
    - [Cpu.v]: arch/*/cpu.c, arch/*/regswrp.c, arch/riscv/opensbi.c,
      include/boot/cpu.hpp.
    - [Gic.v]: platform/virt/gic.c; [Timer.v]: arch/*/timer.c; [Interrupts.v]:
      arch/*/interrupts.c.
    - [Main.v]: base/kernel.c, arch/*/bootstrap.c, arch/riscv/user.c: everything
      composed.  [Start.v]: what [kernel_main] reaches on any RISC-V machine.

    A C name that both architectures define keeps its name with an [arm64_] or
    [riscv_] prefix.

    ** What the theorems show

    - Capabilities and objects (CapSpec, ObSpec, ObTest): the code refines an
      abstract machine, for every legal sequence of calls; lookups never give a
      dead object; an object is destroyed when its references and handles are
      gone, unless it was made in memory that still says it is; creation can fail
      only by giving all back; the kernel's test passes, unless memory was not
      clear or frames run out.
    - Allocators (Boot, Pmm, Slab, Kheap, Mm): what is handed out is new, large
      enough and overlaps nothing in use; round trips give memory back; failures
      are the ones the code announces; start-up ends with all of them ready on a
      machine with memory behind every frame the code takes for memory.  The
      memory this repository's loaders describe is less than that: the region
      managed starts at the image and is as long as all of memory
      ([mm_frames_past_ram]).
      Pmm refines a pool of frames.  Harts that share a slab cache never get the
      same object nor disturb each other's, however their accesses interleave
      (SlabRace); run by one hart the accesses are [slab_alloc] and [slab_free].
      The frame allocator below, which takes no lock, can give two harts the same
      frame (FrameRace): sharing two caches is not safe.
    - Containers and strings (Hash, Str): the hash table refines an association
      list, memmove is right under overlap, strlen terminates.
    - Log (Klog): a reference parser and renderer gives the same bytes.
    - Locks (Spin): mutual exclusion and hand-over of what the lock guards, in
      every reachable state; freedom from deadlock in fair runs; the steps, run
      by one hart alone, are [spin_lock].
    - Below them (Excl, ExclLock, ExclFair): each atomic operation takes effect
      at one moment between call and return, however its instructions interleave;
      the lock so made is that of Spin.  Where a [sev] takes effect after the
      store before it, arm64's [wfe] and [sev] lose no wake-up and arm64's lock is
      free of deadlock while exclusive stores may fail and harts sleep; the code
      has no barrier to ask for that order, and without it a hart can be left
      asleep on a free lock ([a64_wakeup_lost]).
    - Objects between harts (ObRace): at most one hart decides to destroy an
      object, in every interleaving until its memory is given away; an object in no table is destroyed once,
      when nobody has it, and not leaked; run by one hart the accesses are
      [object_deref].  An object in a table can be destroyed in use.
    - Paging (RvPaging, ArmPaging): an address space is a finite map from pages
      to entries, and map, unmap, translate, create and destroy are the
      operations on that map, on every branch, with the states in which each
      refuses, fails or panics; destruction terminates and frees every frame; the kernel's own table maps it to itself with no page both
      writable and executable.
    - Interrupts (Gic, Timer, Interrupts): dispatch by cause, on every branch;
      the acknowledge and end-of-interrupt protocol, numbers past the end of the
      handler table included; [timer_wait] returns when interrupts keep coming.
    - Start-up (Main, Start): what [boot_main] of RISC-V does with the first hart
      and with later ones; from any layout of memory that start-up can work with
      [kernel_main] gets to the object manager, and with a frame left for that
      to [create_user_process], or panics for lack of frames; on one machine the
      RISC-V kernel runs from cold to the jump to
      user mode; the arm64 kernel stops in [timer_wait].

    Where the code does something else than it means to, the theorem states what
    it does, and the comment before it says so.

    ** Bounds and fuel

    [while] has fuel for 2^64 rounds, in binary so that evaluation stops when
    the loop does: no loop of the program that ends needs more, since each
    counts in 64 bits or walks distinct addresses.  Totality is always proved
    through [wp], by a measure; loops that never end are proved to be [Hung].
    The recursions of arm64 paging take the number of levels left, which is what
    the code's [level] counts up to.

    ** Not modelled

    - Assembly (entry.S, exceptions.S, regs.S), link scripts and Makefile:
      addresses they define, and the routines C calls there, are parameters.
    - What hardware does on its own: translation through the page tables once
      [satp] is written (the kernel maps itself to itself, [vmm_init_correct]),
      caches and weak memory order (but for the [sev] of Excl.v), secondary harts
      other than in the lock files, FrameRace.v, SlabRace.v, ObRace.v and
      [boot_main], and interrupts anywhere but between two polls of [timer_wait].
    - base/sync/spinlock.{c,cpp} hold no code.
    - Prototypes without a body, and constants no code uses. *)

From stdpp Require Export base numbers list gmap strings.
From Stdlib Require Export ZArith Lia.

#[global] Open Scope Z_scope.

(** ** Machine words

    C's unsigned integers are [Z] values in [0, 2^w); every operation that can
    leave that interval is wrapped explicitly. *)

Definition wrap8 (x : Z) : Z := x mod 2 ^ 8.
Definition wrap32 (x : Z) : Z := x mod 2 ^ 32.
Definition wrap64 (x : Z) : Z := x mod 2 ^ 64.

(** Two's complement reading of the low [w] bits, for [int] and [long]. *)
Definition signed (w x : Z) : Z :=
  let y := x mod 2 ^ w in if y <? 2 ^ (w - 1) then y else y - 2 ^ w.

Definition u8 (x : Z) : Prop := 0 <= x < 2 ^ 8.
Definition u32 (x : Z) : Prop := 0 <= x < 2 ^ 32.
Definition u64 (x : Z) : Prop := 0 <= x < 2 ^ 64.

(** [ALIGN_UP(num, align)] of include/osdef.hpp on [uint64_t] operands:
    [((num) + ((align) - 1)) & ~((align) - 1)]. *)
Definition ALIGN_UP (num align : Z) : Z :=
  Z.land (wrap64 (num + (align - 1))) (wrap64 (Z.lnot (align - 1))).

Create HintDb kernel.
Create Rewrite HintDb words.

Ltac unfold_words := unfold u8, u32, u64, wrap8, wrap32, wrap64 in *.
Ltac zlia := unfold_words; try lia; Z.div_mod_to_equations; lia.

Lemma wrap64_small x : u64 x -> wrap64 x = x.
Proof. intros; unfold wrap64; apply Z.mod_small; assumption. Qed.

Lemma wrap32_small x : u32 x -> wrap32 x = x.
Proof. intros; unfold wrap32; apply Z.mod_small; assumption. Qed.

Lemma wrap8_small x : u8 x -> wrap8 x = x.
Proof. intros; unfold wrap8; apply Z.mod_small; assumption. Qed.

Lemma wrap64_range x : u64 (wrap64 x).
Proof. apply Z.mod_pos_bound; lia. Qed.

Lemma wrap32_range x : u32 (wrap32 x).
Proof. apply Z.mod_pos_bound; lia. Qed.

#[export] Hint Rewrite wrap64_small wrap32_small wrap8_small using (unfold_words; lia) : words.

(** Setting low bits that are clear is adding them. *)
Lemma lor_mul x y k : 0 <= k -> 0 <= y < 2 ^ k -> Z.lor (x * 2 ^ k) y = x * 2 ^ k + y.
Proof.
  intros Hk Hy. symmetry. apply Z.add_nocarry_lor.
  rewrite <- (Z.mod_small y (2 ^ k)) by done. rewrite <- Z.land_ones by done.
  rewrite (Z.land_comm y), Z.land_assoc, Z.land_ones by done. rewrite Z.mod_mul by (apply Z.pow_nonzero; lia). done.
Qed.

Lemma lor_bound a b k : 0 <= k -> 0 <= a < 2 ^ k -> 0 <= b < 2 ^ k -> 0 <= Z.lor a b < 2 ^ k.
Proof.
  intros Hk Ha Hb. rewrite <- (Z.mod_small a (2 ^ k)), <- (Z.mod_small b (2 ^ k)) by done.
  rewrite <- !Z.land_ones, <- Z.land_lor_distr_l, Z.land_ones by done. apply Z.mod_pos_bound. lia.
Qed.

(** The low bits of a number are those of its remainder. *)
Lemma land_mod x y k : 0 <= k -> 0 <= y < 2 ^ k -> Z.land x y = Z.land (x mod 2 ^ k) y.
Proof.
  intros Hk Hy. rewrite <- (Z.mod_small y (2 ^ k)) at 1 by done. rewrite <- !Z.land_ones by done.
  by rewrite (Z.land_comm y), Z.land_assoc.
Qed.

(** Clearing the low [k] bits is rounding down to a multiple of [2^k]. *)
Lemma land_lnot_ones x k : 0 <= k -> Z.land x (Z.lnot (Z.ones k)) = x - x mod 2 ^ k.
Proof.
  intros Hk. rewrite <- Z.ldiff_land, Z.ldiff_ones_r by lia.
  rewrite Z.shiftl_mul_pow2, Z.shiftr_div_pow2 by lia.
  pose proof (Z.div_mod x (2 ^ k) ltac:(apply Z.pow_nonzero; lia)). lia.
Qed.

Lemma land_wrap_lnot x k :
  u64 x -> 0 <= k <= 64 -> Z.land x (wrap64 (Z.lnot (2 ^ k - 1))) = x - x mod 2 ^ k.
Proof.
  intros Hx Hk. rewrite <- land_lnot_ones by lia.
  unfold wrap64. rewrite <- Z.land_ones by lia.
  rewrite Z.land_assoc, (Z.land_comm x), <- Z.land_assoc.
  replace (Z.land x (Z.ones 64)) with x.
  - rewrite Z.ones_equiv. rewrite Z.land_comm, <- Z.sub_1_r. reflexivity.
  - rewrite Z.land_ones by lia. symmetry. apply Z.mod_small. exact Hx.
Qed.

Lemma ALIGN_UP_eq num k :
  0 <= k <= 63 -> 0 <= num -> num + (2 ^ k - 1) < 2 ^ 64 ->
  ALIGN_UP num (2 ^ k) = (num + (2 ^ k - 1)) / 2 ^ k * 2 ^ k.
Proof.
  intros Hk Hn Hov. unfold ALIGN_UP.
  assert (0 < 2 ^ k) by (apply Z.pow_pos_nonneg; lia).
  rewrite wrap64_small by (unfold u64; lia).
  rewrite land_wrap_lnot by (unfold u64; lia).
  pose proof (Z.div_mod (num + (2 ^ k - 1)) (2 ^ k)). lia.
Qed.

(** [ALIGN_UP] is the least multiple of the alignment not below its operand. *)
Lemma ALIGN_UP_bounds num k :
  0 <= k <= 63 -> 0 <= num -> num + (2 ^ k - 1) < 2 ^ 64 ->
  num <= ALIGN_UP num (2 ^ k) < num + 2 ^ k /\ (2 ^ k | ALIGN_UP num (2 ^ k)).
Proof.
  intros Hk Hn Hov. rewrite ALIGN_UP_eq by lia.
  assert (0 < 2 ^ k) by (apply Z.pow_pos_nonneg; lia).
  pose proof (Z.div_mod (num + (2 ^ k - 1)) (2 ^ k) ltac:(lia)).
  pose proof (Z.mod_pos_bound (num + (2 ^ k - 1)) (2 ^ k) ltac:(lia)).
  split; [nia|]. exists ((num + (2 ^ k - 1)) / 2 ^ k). reflexivity.
Qed.

(** ** Finite sets *)

Lemma gset_absorb (F : gset Z) x : x ∈ F -> F ∪ {[x]} = F.
Proof. intros Hx. apply set_eq. intros y. rewrite elem_of_union, elem_of_singleton.
  split; [by intros [?| ->]|by left].
Qed.

Lemma gset_remove_absent (F : gset Z) x : x ∉ F -> F ∖ {[x]} = F.
Proof. intros Hx. apply set_eq. intros y. rewrite elem_of_difference, elem_of_singleton.
  split; [by intros [? ?]|]. intros Hy. split; [done|congruence].
Qed.

(** ** Lists *)

Lemma delete_list_insert {A} (l : list A) i x : delete i (<[i := x]> l) = delete i l.
Proof. revert i. induction l as [|y l IH]; intros [|i]; simpl; [done..|]. by f_equal. Qed.

(** Taking out or replacing the [i]-th element, up to the order of the rest. *)
Lemma insert_Permutation {A} (l : list A) i x y :
  l !! i = Some x -> <[i := y]> l ≡ₚ y :: delete i l.
Proof.
  intros Hl. rewrite (delete_Permutation (<[i := y]> l) i y).
  - by rewrite delete_list_insert.
  - apply list_lookup_insert_eq. by eapply lookup_lt_Some.
Qed.

(** [solve_perm] proves that two concatenations have the same pieces. *)
Lemma perm_move {A} (x p q : list A) : x ++ p ++ q ≡ₚ p ++ x ++ q.
Proof. rewrite !app_assoc. apply Permutation_app_tail, Permutation_app_comm. Qed.

Lemma perm_nil {A} (x : list A) : x ++ [] ≡ₚ x.
Proof. by rewrite app_nil_r. Qed.

Ltac perm_bring x :=
  lazymatch goal with
  | |- _ ≡ₚ x ++ _ => reflexivity
  | |- _ ≡ₚ x => apply (perm_nil x)
  | |- _ ≡ₚ ?p ++ _ => etransitivity; [|apply (Permutation_app_head p); perm_bring x]; apply (perm_move x p)
  | |- ?l ≡ₚ ?a :: ?r => change (l ≡ₚ [a] ++ r); perm_bring x
  end.

Ltac perm_loop :=
  lazymatch goal with
  | |- ?x ≡ₚ ?x => reflexivity
  | |- ?x ++ ?l ≡ₚ ?r => etransitivity; [|perm_bring x]; apply (Permutation_app_head x); rewrite ?app_nil_r; perm_loop
  | |- [?a] ≡ₚ ?r => perm_bring [a]
  | |- ?a :: ?l ≡ₚ ?r => change ([a] ++ l ≡ₚ r); perm_loop
  end.

Ltac solve_perm := rewrite ?app_nil_r, <- ?app_comm_cons, <- ?app_assoc; perm_loop.

(** Pigeonhole: distinct positive numbers below [hi] are fewer than [hi]. *)
Lemma NoDup_bounded (l : list Z) hi :
  0 < hi -> NoDup l -> Forall (fun x => 0 < x < hi) l -> Z.of_nat (length l) < hi.
Proof.
  intros Hhi Hnd Hl.
  assert (Hsub : l ⊆+ seqZ 1 (hi - 1)).
  { apply NoDup_submseteq; [done|]. intros x Hx. apply (proj1 (Forall_forall _ _) Hl) in Hx.
    apply elem_of_seqZ. lia. }
  apply submseteq_length in Hsub. rewrite length_seqZ in Hsub. lia.
Qed.
