(* ===== verification/Machine.v ===== *)
(** * The machine: memory, devices, the kernel's global state and its effects

    Every later file is written in the monad [M] of this one.  A C function
    becomes a value of type [M A]: it reads and writes the kernel state, and it
    either returns ([Ok]), has called [panic] ([Panicked], whose [halt] never
    returns), is stuck in a loop that never ends ([Hung]), or has made an
    access outside the machine's memory ([Fault]). *)

From S2P Require Import Prelude.

(** ** The platform: what the link script, the Makefile and the board fix *)

Inductive arch_t := ARM64 | RISCV.
Inductive board_t := Virt | VirtRV | Opi.

#[global] Instance arch_eq_dec : EqDecision arch_t.
Proof. solve_decision. Defined.
#[global] Instance board_eq_dec : EqDecision board_t.
Proof. solve_decision. Defined.

(** What the hardware outside memory sees of the kernel: volatile accesses to
    device registers, accesses to the cpu's system registers (the CSRs of
    RISC-V), named as the assembler names them, and the other instructions of
    an asm statement. *)
Inductive io_event :=
| IoRead (addr val : Z)
| IoWrite (addr val : Z)
| RegRead (reg : string) (val : Z)
| RegWrite (reg : string) (val : Z)
| Instr (i : string).

#[global] Instance io_event_eq_dec : EqDecision io_event.
Proof. solve_decision. Defined.

Class Platform := {
  arch : arch_t;
  board : board_t;
  (** the [(start, length)] ranges of memory that can be accessed *)
  ranges : list (Z * Z);
  (** a device register's answer, given everything done to devices so far *)
  dev_read : list io_event -> Z -> Z;
  (** a system register's value, likewise *)
  reg_read : list io_event -> string -> Z;
  (** what the assembly of arch/*/regs.S and the [tp] register report when a
      panic asks for the registers and the number of the running cpu *)
  dump_register : list io_event -> nat -> Z;
  cpu_id : Z;
  (** link-time addresses of the statics whose address the code takes *)
  cache_metadata_cache : Z;
  g_om : Z
}.

(** ** Byte-addressed memory *)

Abbreviation memory := (gmap Z Z).

Definition get8 (m : memory) (a : Z) : Z := default 0 (m !! a) mod 2 ^ 8.
Definition put8 (m : memory) (a v : Z) : memory := <[a := v mod 2 ^ 8]> m.

(** [n]-byte little-endian words. *)
Fixpoint getw (n : nat) (m : memory) (a : Z) : Z :=
  match n with
  | O => 0
  | S n' => get8 m a + 2 ^ 8 * getw n' m (a + 1)
  end.

Fixpoint putw (n : nat) (m : memory) (a v : Z) : memory :=
  match n with
  | O => m
  | S n' => putw n' (put8 m a v) (a + 1) (v / 2 ^ 8)
  end.

Abbreviation get32 := (getw 4).
Abbreviation get64 := (getw 8).
Abbreviation put32 := (putw 4).
Abbreviation put64 := (putw 8).

(** [[a, a+n)] lies inside one accessible range. *)
Definition valid `{Platform} (a n : Z) : bool :=
  existsb (fun '(lo, len) => (lo <=? a) && (a + n <=? lo + len)) ranges.

(** ** The kernel's global state, one record per file with statics *)

(** [boot_info_t] of include/osdef.hpp. *)
Record boot_info_t := mkBootInfo {
  early_heap_start : Z;
  early_heap_end : Z;
  kernel_image_start : Z;
  kernel_image_end : Z;
  kernel_readonly_end : Z;
  machine_ram_base : Z;
  machine_ram_total : Z
}.

Record boot_state := mkBoot { boot_heap_ptr : Z; boot_heap_end : Z }.

Record pmm_state := mkPmm {
  frame_bitmap : Z;
  total_frames : Z;
  free_frames : Z;
  mem_phys_base : Z;
  last_free_index : Z
}.

Record kheap_state := mkKheap {
  kmalloc_caches : list Z;
  kheap_initialized : bool
}.

Record kstate := mkState {
  k_mem : memory;
  k_io : list io_event;            (* device accesses, most recent first *)
  k_boot : boot_state;             (* base/mm/bootalloc.c *)
  k_pmm : pmm_state;               (* base/mm/physframe.c *)
  cache_meta_initialized : bool;   (* base/mm/slab.c *)
  k_kheap : kheap_state;           (* base/mm/kheap.c *)
  g_test_destroyed : bool          (* base/ob/ob.c *)
}.

Definition set_mem (s : kstate) (m : memory) : kstate :=
  mkState m (k_io s) (k_boot s) (k_pmm s) (cache_meta_initialized s) (k_kheap s) (g_test_destroyed s).
Definition set_io (s : kstate) (t : list io_event) : kstate :=
  mkState (k_mem s) t (k_boot s) (k_pmm s) (cache_meta_initialized s) (k_kheap s) (g_test_destroyed s).
Definition set_boot (s : kstate) (b : boot_state) : kstate :=
  mkState (k_mem s) (k_io s) b (k_pmm s) (cache_meta_initialized s) (k_kheap s) (g_test_destroyed s).
Definition set_pmm (s : kstate) (p : pmm_state) : kstate :=
  mkState (k_mem s) (k_io s) (k_boot s) p (cache_meta_initialized s) (k_kheap s) (g_test_destroyed s).
Definition set_slab (s : kstate) (b : bool) : kstate :=
  mkState (k_mem s) (k_io s) (k_boot s) (k_pmm s) b (k_kheap s) (g_test_destroyed s).
Definition set_kheap (s : kstate) (h : kheap_state) : kstate :=
  mkState (k_mem s) (k_io s) (k_boot s) (k_pmm s) (cache_meta_initialized s) h (g_test_destroyed s).
Definition set_test (s : kstate) (b : bool) : kstate :=
  mkState (k_mem s) (k_io s) (k_boot s) (k_pmm s) (cache_meta_initialized s) (k_kheap s) b.

(** ** The effect monad *)

Inductive outcome (A : Type) :=
| Ok (a : A) (s : kstate)
| Panicked (s : kstate)
| Hung (s : kstate)
| Fault (s : kstate).
Arguments Ok {A} a s.
Arguments Panicked {A} s.
Arguments Hung {A} s.
Arguments Fault {A} s.

Definition M (A : Type) := kstate -> outcome A.

Definition ret {A} (a : A) : M A := fun s => Ok a s.
Definition bind {A B} (c : M A) (f : A -> M B) : M B := fun s =>
  match c s with
  | Ok a s' => f a s'
  | Panicked s' => Panicked s'
  | Hung s' => Hung s'
  | Fault s' => Fault s'
  end.

Declare Scope kernel_scope.
Delimit Scope kernel_scope with K.
Notation "x <- c ;; k" := (bind c (fun x => k))
  (at level 100, c at next level, k at level 200, right associativity) : kernel_scope.
Notation "c ;; k" := (bind c (fun _ => k))
  (at level 100, k at level 200, right associativity) : kernel_scope.
#[global] Open Scope kernel_scope.

Definition gets {A} (f : kstate -> A) : M A := fun s => Ok (f s) s.
Definition modify (f : kstate -> kstate) : M unit := fun s => Ok tt (f s).
Definition halted {A} : M A := fun s => Panicked s.
Definition hang {A} : M A := fun s => Hung s.
Definition fault {A} : M A := fun s => Fault s.
Definition when (b : bool) (c : M unit) : M unit := if b then c else ret tt.

(** Loads and stores of [n]-byte words through a pointer. *)
Definition load `{Platform} (n : nat) (a : Z) : M Z := fun s =>
  if valid a (Z.of_nat n) then Ok (getw n (k_mem s) a) s else Fault s.
Definition store `{Platform} (n : nat) (a v : Z) : M unit := fun s =>
  if valid a (Z.of_nat n) then Ok tt (set_mem s (putw n (k_mem s) a v)) else Fault s.

Abbreviation load8 := (load 1).
Abbreviation load32 := (load 4).
Abbreviation load64 := (load 8).
Abbreviation store8 := (store 1).
Abbreviation store32 := (store 4).
Abbreviation store64 := (store 8).

(** Volatile accesses to device registers. *)
Definition dev_write (a v : Z) : M unit :=
  modify (fun s => set_io s (IoWrite a v :: k_io s)).
Definition dev_load `{Platform} (a : Z) : M Z := fun s =>
  let v := dev_read (k_io s) a in Ok v (set_io s (IoRead a v :: k_io s)).

(** Accesses to system registers, and instructions with no other effect. *)
Definition reg_write (r : string) (v : Z) : M unit :=
  modify (fun s => set_io s (RegWrite r v :: k_io s)).
Definition reg_load `{Platform} (r : string) : M Z := fun s =>
  let v := reg_read (k_io s) r in Ok v (set_io s (RegRead r v :: k_io s)).
Definition instr (i : string) : M unit :=
  modify (fun s => set_io s (Instr i :: k_io s)).

(** ** Loops

    [for_n n i body] runs [body i], ..., [body (i + n - 1)]; [for_ret] is the
    same loop with a [return] in its body.  [while] is the unbounded loop: its
    body yields [inl] to go round again and [inr] to leave.  Its fuel is 2^64
    iterations, written in binary so that evaluation stops at the first [inr];
    no loop of the program that ends needs that many rounds, since each of them
    either counts in a [uint64_t] or walks distinct objects in a 64-bit address
    space, so running out of it means the loop never ends ([Hung]). *)

Fixpoint for_n (n : nat) (i : Z) (body : Z -> M unit) : M unit :=
  match n with
  | O => ret tt
  | S n' => body i ;; for_n n' (i + 1) body
  end.

Fixpoint for_ret {R} (n : nat) (i : Z) (body : Z -> M (option R)) : M (option R) :=
  match n with
  | O => ret None
  | S n' => r <- body i ;;
            match r with
            | Some _ => ret r
            | None => for_ret n' (i + 1) body
            end
  end.

Fixpoint iter_pos {X R} (p : positive) (body : X -> M (X + R)) (x : X) : M (X + R) :=
  match p with
  | xH => body x
  | xO p' => r <- iter_pos p' body x ;;
             match r with inl x' => iter_pos p' body x' | inr _ => ret r end
  | xI p' => r <- body x ;;
             match r with
             | inl x' => r' <- iter_pos p' body x' ;;
                         match r' with inl x'' => iter_pos p' body x'' | inr _ => ret r' end
             | inr _ => ret r
             end
  end.

Definition loop_fuel : positive := 18446744073709551616.

Definition while {X R} (body : X -> M (X + R)) (x : X) : M R :=
  r <- iter_pos loop_fuel body x ;;
  match r with inl _ => hang | inr v => ret v end.

(** ** Laws of the memory *)

Lemma get8_range m a : 0 <= get8 m a < 2 ^ 8.
Proof. apply Z.mod_pos_bound; lia. Qed.

Lemma get8_put8 m a v b :
  get8 (put8 m a v) b = if decide (a = b) then v mod 2 ^ 8 else get8 m b.
Proof.
  unfold get8, put8. rewrite lookup_insert. case_decide; [|done].
  simpl. apply Z.mod_mod. lia.
Qed.

Lemma getw_range n m a : 0 <= getw n m a < 2 ^ (8 * Z.of_nat n).
Proof.
  revert a. induction n as [|n IH]; intros a; simpl getw; [simpl; lia|].
  pose proof (get8_range m a). specialize (IH (a + 1)).
  replace (8 * Z.of_nat (S n)) with (8 + 8 * Z.of_nat n) by lia.
  rewrite Z.pow_add_r by lia. lia.
Qed.

Lemma get64_u64 m a : u64 (get64 m a).
Proof. apply (getw_range 8). Qed.

Lemma get32_u32 m a : u32 (get32 m a).
Proof. apply (getw_range 4). Qed.

Lemma get8_putw n m a v b :
  get8 (putw n m a v) b =
  if decide (a <= b < a + Z.of_nat n) then (v / 2 ^ (8 * (b - a))) mod 2 ^ 8 else get8 m b.
Proof.
  revert m a v. induction n as [|n IH]; intros m a v; simpl putw.
  { rewrite decide_False by lia. done. }
  rewrite IH, get8_put8.
  repeat case_decide; try lia; try done.
  - rewrite Z.div_div by lia. rewrite <- Z.pow_add_r by lia. do 3 f_equal. lia.
  - subst. rewrite Z.sub_diag. simpl. by rewrite Z.div_1_r.
Qed.

Lemma getw_ext n m m' a :
  (forall b, a <= b < a + Z.of_nat n -> get8 m' b = get8 m b) -> getw n m' a = getw n m a.
Proof.
  revert a. induction n as [|n IH]; intros a H; simpl; [done|].
  rewrite (H a), (IH (a + 1)) by (intros; try apply H; lia). done.
Qed.

Lemma getw_zero n m a : (forall b, a <= b < a + Z.of_nat n -> get8 m b = 0) -> getw n m a = 0.
Proof.
  revert a. induction n as [|n IH]; intros a H; simpl; [done|].
  rewrite (H a), (IH (a + 1)) by (intros; try apply H; lia). done.
Qed.

Lemma getw_putw n m a v : 0 <= v < 2 ^ (8 * Z.of_nat n) -> getw n (putw n m a v) a = v.
Proof.
  revert m a v. induction n as [|n IH]; intros m a v Hv.
  { change (2 ^ (8 * Z.of_nat 0)) with 1 in Hv. simpl. lia. }
  simpl. rewrite get8_putw, decide_False, get8_put8, decide_True by lia. rewrite IH.
  - pose proof (Z.div_mod v (2 ^ 8)). lia.
  - replace (8 * Z.of_nat (S n)) with (8 + 8 * Z.of_nat n) in Hv by lia.
    rewrite Z.pow_add_r in Hv by lia.
    split; [apply Z.div_pos; lia|apply Z.div_lt_upper_bound; lia].
Qed.

Lemma getw_putw_ne n k m a b v :
  a + Z.of_nat n <= b \/ b + Z.of_nat k <= a -> getw k (putw n m a v) b = getw k m b.
Proof. intros H. apply getw_ext. intros c Hc. rewrite get8_putw, decide_False by lia. done. Qed.

Lemma getw_1 m a : getw 1 m a = get8 m a.
Proof. change (getw 1 m a) with (get8 m a + 2 ^ 8 * 0). lia. Qed.

(** Whatever is stored, its low [n] bytes are what is read back. *)
Lemma getw_putw_mod n m a v : getw n (putw n m a v) a = v mod 2 ^ (8 * Z.of_nat n).
Proof.
  assert (Hp : 0 < 2 ^ (8 * Z.of_nat n)) by (apply Z.pow_pos_nonneg; lia).
  rewrite <- (getw_putw n m a (v mod 2 ^ (8 * Z.of_nat n))) by (apply Z.mod_pos_bound; lia).
  apply getw_ext. intros b Hb. rewrite !get8_putw, !decide_True by lia.
  rewrite <- !Z.shiftr_div_pow2, <- !Z.land_ones by lia.
  apply Z.bits_inj'. intros i Hi. rewrite !Z.land_spec, !Z.shiftr_spec by lia.
  rewrite Z.land_spec. destruct (decide (i < 8)).
  - rewrite !Z.ones_spec_low by lia. by rewrite !andb_true_r.
  - rewrite (Z.ones_spec_high 8) by lia. by rewrite !andb_false_r.
Qed.

Lemma get8_put1 m a v b :
  0 <= v < 2 ^ 8 -> get8 (putw 1 m a v) b = if decide (b = a) then v else get8 m b.
Proof.
  intros Hv. rewrite get8_putw. repeat case_decide; try lia.
  subst. rewrite Z.sub_diag. change (2 ^ (8 * 0)) with 1. rewrite Z.div_1_r. by apply Z.mod_small.
Qed.

(** A word read inside a larger written one, and the bytes of a word. *)
Lemma get8_getw n m a k :
  0 <= k < Z.of_nat n -> get8 m (a + k) = (getw n m a / 2 ^ (8 * k)) mod 2 ^ 8.
Proof.
  revert a k. induction n as [|n IH]; intros a k Hk; [lia|]. simpl getw.
  pose proof (get8_range m a).
  destruct (decide (k = 0)) as [->|].
  - rewrite Z.add_0_r, Z.mul_0_r, Z.pow_0_r, Z.div_1_r.
    rewrite Z.mul_comm, Z.mod_add by lia. by rewrite Z.mod_small.
  - replace (a + k) with ((a + 1) + (k - 1)) by lia. rewrite IH by lia.
    replace (8 * k) with (8 + 8 * (k - 1)) by lia.
    rewrite Z.pow_add_r, <- Z.div_div by lia.
    replace (get8 m a + 2 ^ 8 * getw n m (a + 1)) with (getw n m (a + 1) * 2 ^ 8 + get8 m a) by lia.
    rewrite Z.div_add_l by lia. rewrite (Z.div_small (get8 m a)), Z.add_0_r by lia. done.
Qed.

(** Two memories with the same bytes: coarser than equality of the maps, since
    an address never written and one holding 0 read the same. *)
Definition mem_eq (m m' : memory) : Prop := forall a, get8 m a = get8 m' a.

#[global] Instance mem_eq_equiv : Equivalence mem_eq.
Proof. split; unfold mem_eq; repeat intro; congruence. Qed.

#[global] Instance getw_proper n : Proper (mem_eq ==> eq ==> eq) (getw n).
Proof. intros m m' Hm a ? <-. symmetry. apply getw_ext. intros b _. symmetry. apply (Hm b). Qed.

#[global] Instance putw_proper n : Proper (mem_eq ==> eq ==> eq ==> mem_eq) (putw n).
Proof. intros m m' Hm a ? <- v ? <- b. rewrite !get8_putw. case_decide; [done|apply Hm]. Qed.

(** ** Footprints

    [mods rs m m']: going from [m] to [m'], only bytes of the ranges [rs]
    changed. *)

Definition outside (rs : list (Z * Z)) (b : Z) : Prop :=
  Forall (fun r => b < r.1 \/ r.1 + r.2 <= b) rs.

Definition mods (rs : list (Z * Z)) (m m' : memory) : Prop :=
  forall b, outside rs b -> get8 m' b = get8 m b.

(** Two address ranges without a common byte. *)
Definition apart (r r' : Z * Z) : Prop := r.1 + r.2 <= r'.1 \/ r'.1 + r'.2 <= r.1.

Lemma outside_cons a n rs b :
  outside ((a, n) :: rs) b <-> (b < a \/ a + n <= b) /\ outside rs b.
Proof. unfold outside. by rewrite Forall_cons. Qed.

Lemma mods_refl rs m : mods rs m m.
Proof. by intros b _. Qed.

Lemma mods_trans rs rs' m1 m2 m3 : mods rs m1 m2 -> mods rs' m2 m3 -> mods (rs ++ rs') m1 m3.
Proof.
  intros H1 H2 b [? ?]%Forall_app. rewrite (H2 b), (H1 b); done.
Qed.

Lemma mods_weaken rs rs' m m' : rs ⊆ rs' -> mods rs m m' -> mods rs' m m'.
Proof.
  intros Hs H b Hb. apply H. apply Forall_forall. intros r Hr.
  by apply (proj1 (Forall_forall _ _) Hb), Hs.
Qed.

Lemma mods_step rs m1 m2 m3 : mods rs m1 m2 -> mods rs m2 m3 -> mods rs m1 m3.
Proof. intros H1 H2 b Hb. rewrite (H2 b), (H1 b); done. Qed.

Lemma mods_putw n m a v : mods [(a, Z.of_nat n)] m (putw n m a v).
Proof.
  intros b [Hb _]%outside_cons.
  rewrite get8_putw, decide_False by lia. done.
Qed.

Lemma mods_put_in n m a v lo len rs :
  (lo, len) ∈ rs -> lo <= a -> a + Z.of_nat n <= lo + len -> mods rs m (putw n m a v).
Proof.
  intros Hin Hlo Hhi b Hb. apply (proj1 (Forall_forall _ _) Hb) in Hin. simpl in Hin.
  rewrite get8_putw, decide_False by lia. done.
Qed.

Lemma mods_getw rs n m m' a :
  mods rs m m' -> Forall (apart (a, Z.of_nat n)) rs -> getw n m' a = getw n m a.
Proof.
  intros H Ha. apply getw_ext. intros b Hb. apply H.
  eapply Forall_impl; [exact Ha|]. intros [lo len]. unfold apart. simpl. lia.
Qed.

Lemma mods_get8 rs m m' a :
  mods rs m m' -> Forall (apart (a, 1)) rs -> get8 m' a = get8 m a.
Proof.
  intros H Ha. apply H. eapply Forall_impl; [exact Ha|].
  intros [lo len]. unfold apart. simpl. lia.
Qed.

(** ** Accessible addresses *)

Section valid.
Context `{Platform}.

Lemma valid_spec a n :
  valid a n = true <-> exists lo len, (lo, len) ∈ ranges /\ lo <= a /\ a + n <= lo + len.
Proof.
  unfold valid. rewrite existsb_exists. split.
  - intros ([lo len] & Hin & Hb). exists lo, len.
    apply list_elem_of_In in Hin. split; [done|]. lia.
  - intros (lo & len & Hin & H1 & H2). exists (lo, len).
    split; [by apply list_elem_of_In|]. lia.
Qed.

Lemma valid_sub a n b k : valid a n = true -> a <= b -> b + k <= a + n -> valid b k = true.
Proof.
  rewrite !valid_spec. intros (lo & len & Hin & H1 & H2) Hb Hk.
  exists lo, len. split; [done|]. lia.
Qed.
End valid.

#[global] Arguments getw : simpl never.
#[global] Arguments putw : simpl never.
#[global] Arguments get8 : simpl never.
#[global] Arguments put8 : simpl never.
#[global] Arguments valid : simpl never.
#[global] Arguments while : simpl never.
