(* ===== verification/Logic.v ===== *)
(** * A program logic for the kernel monad

    [wp c s Q E]: run from [s], the computation [c] makes no faulting access
    and is not stuck in a loop; if it returns [a] in state [s'] then [Q a s'],
    and if it panics in [s'] then [E s'].  With [E := fun _ => False] it says
    that [c] returns: total correctness.  The file has the rule of each
    construct of the monad, and the tactics that apply them. *)

From S2P Require Import Prelude Machine.

Definition wp {A} (c : M A) (s : kstate) (Q : A -> kstate -> Prop) (E : kstate -> Prop) : Prop :=
  match c s with
  | Ok a s' => Q a s'
  | Panicked s' => E s'
  | Hung _ | Fault _ => False
  end.

(** Never panics. *)
Abbreviation safe c s Q := (wp c s Q (fun _ => False)).

Section rules.
Context {A B : Type}.
Implicit Types (Q : A -> kstate -> Prop) (E : kstate -> Prop) (s : kstate).

Lemma wp_ret (a : A) s Q E : Q a s -> wp (ret a) s Q E.
Proof. done. Qed.

Lemma wp_bind (c : M B) (f : B -> M A) s Q E :
  wp c s (fun b s' => wp (f b) s' Q E) E -> wp (bind c f) s Q E.
Proof. unfold wp, bind. by destruct (c s). Qed.

Lemma wp_gets (f : kstate -> A) s Q E : Q (f s) s -> wp (gets f) s Q E.
Proof. done. Qed.

Lemma wp_halted s Q E : E s -> wp halted s Q E.
Proof. done. Qed.

Lemma wp_mono (c : M A) s Q Q' E E' :
  wp c s Q E -> (forall a s', Q a s' -> Q' a s') -> (forall s', E s' -> E' s') ->
  wp c s Q' E'.
Proof. unfold wp. intros H HQ HE. destruct (c s); auto. Qed.

Lemma wp_weaken (c : M A) s Q Q' E :
  wp c s Q E -> (forall a s', Q a s' -> Q' a s') -> wp c s Q' E.
Proof. eauto using wp_mono. Qed.

(** A computation proved never to panic can be used under any [E]. *)
Lemma safe_wp (c : M A) s Q Q' E :
  safe c s Q -> (forall a s', Q a s' -> Q' a s') -> wp c s Q' E.
Proof. intros H HQ. by eapply wp_mono; [exact H|exact HQ|]. Qed.

Lemma wp_and (c : M A) s Q Q' E E' :
  wp c s Q E -> wp c s Q' E' ->
  wp c s (fun a s' => Q a s' /\ Q' a s') (fun s' => E s' /\ E' s').
Proof. unfold wp. destruct (c s); auto. Qed.

Lemma wp_run (c : M A) s a s' Q E : c s = Ok a s' -> Q a s' -> wp c s Q E.
Proof. unfold wp. by intros ->. Qed.

Lemma wp_cases (c : M A) s Q E :
  wp c s Q E -> (exists a s', c s = Ok a s' /\ Q a s') \/ (exists s', c s = Panicked s' /\ E s').
Proof. unfold wp. destruct (c s) as [a s'|s'| |]; [left|right|done|done]; eauto. Qed.

Lemma safe_run (c : M A) s Q : safe c s Q <-> exists a s', c s = Ok a s' /\ Q a s'.
Proof.
  unfold wp. destruct (c s) as [a s'| | |]; split; try done; try (by intros (? & ? & ? & ?)).
  - intros HQ. by exists a, s'.
  - by intros (? & ? & [= <- <-] & HQ).
Qed.

Lemma safe_eq (c : M A) s a s' : safe c s (fun a' s'' => a' = a /\ s'' = s') <-> c s = Ok a s'.
Proof.
  rewrite safe_run. split; [by intros (? & ? & ? & -> & ->)|]. intros ->. eauto.
Qed.
End rules.

(** ** Rewriting a run from the front *)

Lemma run_bind {A B} (c : M A) (f : A -> M B) s a s1 : c s = Ok a s1 -> bind c f s = f a s1.
Proof. unfold bind. by intros ->. Qed.

Lemma store_run `{Platform} n a v s :
  valid a (Z.of_nat n) = true -> store n a v s = Ok tt (set_mem s (putw n (k_mem s) a v)).
Proof. unfold store. by intros ->. Qed.

Lemma load_run `{Platform} n a s : valid a (Z.of_nat n) = true -> load n a s = Ok (getw n (k_mem s) a) s.
Proof. unfold load. by intros ->. Qed.

Lemma wp_modify f s (Q : unit -> kstate -> Prop) E : Q tt (f s) -> wp (modify f) s Q E.
Proof. done. Qed.

Lemma wp_when (b : bool) c s (Q : unit -> kstate -> Prop) E :
  (b = true -> wp c s Q E) -> (b = false -> Q tt s) -> wp (when b c) s Q E.
Proof. intros H1 H2. destruct b; [by apply H1|by apply wp_ret, H2]. Qed.

Lemma wp_if {A} (b : bool) (c d : M A) s Q E :
  (b = true -> wp c s Q E) -> (b = false -> wp d s Q E) -> wp (if b then c else d) s Q E.
Proof. intros H1 H2. destruct b; [by apply H1|by apply H2]. Qed.

Section memory.
Context `{Platform}.

Lemma wp_load n a s Q E :
  valid a (Z.of_nat n) = true -> Q (getw n (k_mem s) a) s -> wp (load n a) s Q E.
Proof. unfold wp, load. by intros ->. Qed.

Lemma wp_store n a v s Q E :
  valid a (Z.of_nat n) = true -> Q tt (set_mem s (putw n (k_mem s) a v)) ->
  wp (store n a v) s Q E.
Proof. unfold wp, store. by intros ->. Qed.
End memory.

(** ** Loops *)

(** A counted loop: an invariant indexed by the counter. *)
Lemma wp_for_n (I : Z -> kstate -> Prop) n i body s (Q : unit -> kstate -> Prop) E :
  I i s ->
  (forall j s', i <= j < i + Z.of_nat n -> I j s' ->
     wp (body j) s' (fun _ s'' => I (j + 1) s'') E) ->
  (forall s', I (i + Z.of_nat n) s' -> Q tt s') ->
  wp (for_n n i body) s Q E.
Proof.
  revert i s. induction n as [|n IH]; intros i s Hi Hb HQ; simpl.
  - apply wp_ret, HQ. by rewrite Z.add_0_r.
  - apply wp_bind. eapply wp_weaken; [apply (Hb i); [lia|done]|].
    intros [] s' Hs'. apply IH; [done| |].
    + intros j s'' Hj. apply Hb. lia.
    + intros s'' Hs''. apply HQ. replace (i + Z.of_nat (S n)) with (i + 1 + Z.of_nat n) by lia. done.
Qed.

(** A counted loop with a return in its body. *)
Lemma wp_for_ret {R} (I : Z -> kstate -> Prop) n i (body : Z -> M (option R)) s Q E :
  I i s ->
  (forall j s', i <= j < i + Z.of_nat n -> I j s' ->
     wp (body j) s' (fun r s'' => match r with None => I (j + 1) s'' | Some _ => Q r s'' end) E) ->
  (forall s', I (i + Z.of_nat n) s' -> Q None s') ->
  wp (for_ret n i body) s Q E.
Proof.
  revert i s. induction n as [|n IH]; intros i s Hi Hb HQ; simpl.
  - apply wp_ret, HQ. by rewrite Z.add_0_r.
  - apply wp_bind. eapply wp_weaken; [apply (Hb i); [lia|done]|].
    intros [r|] s' Hs'; [by apply wp_ret|]. apply IH; [done| |].
    + intros j s'' Hj. apply Hb. lia.
    + intros s'' Hs''. apply HQ. replace (i + Z.of_nat (S n)) with (i + 1 + Z.of_nat n) by lia. done.
Qed.

(** [iter_pos] is iteration: its binary fuel stands for as many rounds. *)
Fixpoint iter_nat {X R} (n : nat) (body : X -> M (X + R)) (x : X) : M (X + R) :=
  match n with
  | O => ret (inl x)
  | S n' => r <- body x ;; match r with inl x' => iter_nat n' body x' | inr _ => ret r end
  end.

Lemma iter_nat_add {X R} n k (body : X -> M (X + R)) x s :
  iter_nat (n + k) body x s =
  (r <- iter_nat n body x ;; match r with inl x' => iter_nat k body x' | inr _ => ret r end) s.
Proof.
  revert x s. induction n as [|n IH]; intros x s; simpl; [done|].
  unfold bind at 1 3. unfold bind at 1. destruct (body x s) as [[x'|r] s'| | |]; simpl; try done.
Qed.

Lemma iter_pos_nat {X R} p (body : X -> M (X + R)) x s :
  iter_pos p body x s = iter_nat (Pos.to_nat p) body x s.
Proof.
  revert x s. induction p as [p IH|p IH|]; intros x s.
  - replace (Pos.to_nat p~1) with (S (Pos.to_nat p + Pos.to_nat p)) by lia.
    simpl. unfold bind at 1 3. destruct (body x s) as [[x'|r] s'| | |]; try done.
    rewrite iter_nat_add. unfold bind. rewrite IH.
    destruct (iter_nat _ body x' s') as [[x''|r] s''| | |]; try done.
  - replace (Pos.to_nat p~0) with (Pos.to_nat p + Pos.to_nat p)%nat by lia.
    simpl. rewrite iter_nat_add. unfold bind. rewrite IH.
    destruct (iter_nat _ body x s) as [[x''|r] s''| | |]; try done.
  - change (Pos.to_nat 1) with 1%nat. simpl. unfold bind.
    destruct (body x s) as [[x'|r] s'| | |]; done.
Qed.

#[global] Arguments iter_pos : simpl never.

(** A loop whose measure decreases ends within its fuel. *)
Lemma wp_while {X R} (I : nat -> X -> kstate -> Prop) n (body : X -> M (X + R)) x s Q E :
  Z.of_nat n < 2 ^ 64 -> I n x s ->
  (forall k y s', I k y s' ->
     wp (body y) s' (fun r s'' => match r with
                                  | inl y' => exists k', (k' < k)%nat /\ I k' y' s''
                                  | inr v => Q v s''
                                  end) E) ->
  wp (while body x) s Q E.
Proof.
  intros Hn HI Hb. unfold while. apply wp_bind.
  assert (Hf : (n < Pos.to_nat loop_fuel)%nat) by (unfold loop_fuel; lia).
  unfold wp at 1. rewrite iter_pos_nat. revert Hf. generalize (Pos.to_nat loop_fuel) as f.
  clear Hn. revert x s n HI. intros x s n HI f. revert x s n HI.
  induction f as [|f IH]; intros x s n HI Hf; [lia|].
  simpl. unfold bind. pose proof (Hb _ _ _ HI) as Hw. unfold wp in Hw.
  destruct (body x s) as [[x'|v] s'| | |]; try done.
  destruct Hw as (k' & Hk & HI'). apply (IH _ _ _ HI'). lia.
Qed.

(** A loop that always goes round again, from a set of states it never leaves,
    never ends, and is still in that set when its fuel has gone. *)
Lemma while_stuck_in {X R} (I : X -> kstate -> Prop) (body : X -> M (X + R)) x s x1 s1 :
  body x s = Ok (inl x1) s1 -> I x1 s1 ->
  (forall y s', I y s' -> exists y' s'', body y s' = Ok (inl y') s'' /\ I y' s'') ->
  exists y s', I y s' /\ while body x s = Hung s'.
Proof.
  intros H1 HI Hb. unfold while, bind. rewrite iter_pos_nat.
  destruct (Pos2Nat.is_succ loop_fuel) as [f ->]. simpl. unfold bind at 1. rewrite H1. clear H1 x s.
  revert x1 s1 HI. induction f as [|f IH]; intros x s HI; simpl; [by eauto|].
  unfold bind at 1. destruct (Hb _ _ HI) as (y' & s'' & -> & HI'). by apply IH.
Qed.

Lemma while_stuck {X R} (I : X -> kstate -> Prop) (body : X -> M (X + R)) x s :
  I x s -> (forall y s', I y s' -> exists y' s'', body y s' = Ok (inl y') s'' /\ I y' s'') ->
  exists s', while body x s = Hung s'.
Proof.
  intros HI Hb. destruct (Hb _ _ HI) as (x1 & s1 & H1 & HI1).
  destruct (while_stuck_in I body x s x1 s1 H1 HI1 Hb) as (y & s' & _ & Hs'). by exists s'.
Qed.

(** A loop whose first round hangs. *)
Lemma while_hung {X R} (body : X -> M (X + R)) x s s' :
  body x s = Hung s' -> while body x s = Hung s'.
Proof.
  intros Hb. unfold while, bind. rewrite iter_pos_nat.
  destruct (Pos2Nat.is_succ loop_fuel) as [n ->]. simpl. unfold bind. by rewrite Hb.
Qed.

(** At most [n] rounds of a loop, and what they end with. *)
Fixpoint run_for {X R} (n : nat) (body : X -> M (X + R)) (x : X) (s : kstate) : option (R * kstate) :=
  match n with
  | O => None
  | S n => match body x s with
           | Ok (inl y) s' => run_for n body y s'
           | Ok (inr v) s' => Some (v, s')
           | _ => None
           end
  end.

Lemma while_run_for {X R} n (body : X -> M (X + R)) x s v s' :
  Z.of_nat n < 2 ^ 64 -> run_for n body x s = Some (v, s') -> while body x s = Ok v s'.
Proof.
  intros Hn Hr. apply safe_eq.
  apply (wp_while (fun k y t => run_for k body y t = Some (v, s')) n); [done|done|].
  intros [|k] y t Hk; simpl in Hk; [done|]. unfold wp.
  destruct (body y t) as [[y'|v'] t'| | |]; simplify_eq; [|done]. exists k. split; [lia|done].
Qed.

(** The same with what else the rounds can end in. *)
Fixpoint run_all {X R} (n : nat) (body : X -> M (X + R)) (x : X) (s : kstate) : option (outcome R) :=
  match n with
  | O => None
  | S n => match body x s with
           | Ok (inl y) s' => run_all n body y s'
           | Ok (inr v) s' => Some (Ok v s')
           | Panicked s' => Some (Panicked s')
           | Hung s' => Some (Hung s')
           | Fault s' => Some (Fault s')
           end
  end.

Lemma while_run_all {X R} n (body : X -> M (X + R)) x s r :
  Z.of_nat n < 2 ^ 64 -> run_all n body x s = Some r -> while body x s = r.
Proof.
  intros Hn Hr. unfold while, bind. rewrite iter_pos_nat.
  assert (Hf : (n <= Pos.to_nat loop_fuel)%nat) by (unfold loop_fuel; lia).
  revert Hf. generalize (Pos.to_nat loop_fuel) as f. clear Hn. revert x s Hr.
  induction n as [|n IH]; intros x s Hr [|f] Hf; [done|done|lia|]. simpl in Hr. simpl. unfold bind.
  destruct (body x s) as [[y|v] s'|s'|s'|s']; simplify_eq; [|done..]. apply IH; [done|lia].
Qed.

(** ** Automation *)

Lemma set_mem_mem s m m' : set_mem (set_mem s m) m' = set_mem s m'.
Proof. done. Qed.
Lemma set_mem_id s : set_mem s (k_mem s) = s.
Proof. by destruct s. Qed.

(** Closes [valid b k = true] from a [valid a n = true] that covers it. *)
Ltac solve_valid :=
  match goal with
  | H : valid ?a ?n = true |- valid ?b ?k = true =>
      first [exact H | solve [apply (valid_sub a n b k H); lia]]
  end.

(** One rule of the logic, chosen by the head of the computation. *)
Ltac wp_step :=
  lazymatch goal with
  | |- wp (bind _ _) _ _ _ => apply wp_bind
  | |- wp (ret _) _ _ _ => apply wp_ret
  | |- wp (gets _) _ _ _ => apply wp_gets
  | |- wp (modify _) _ _ _ => apply wp_modify
  | |- wp halted _ _ _ => apply wp_halted
  | |- wp (load _ _) _ _ _ => apply wp_load; [solve_valid|]
  | |- wp (store _ _ _) _ _ _ => apply wp_store; [solve_valid|]
  end.

Ltac wp_steps := repeat (wp_step; simpl); rewrite ?set_mem_mem; simpl.
