(* ===== verification/Console.v ===== *)
(** * Device registers, the UART and the kernel log

    libkern/framework.c, platform/{virt,virt_rv,opi}/uart.c and
    libkern/klog.c.  A C string is a Rocq [string] without NUL characters; a
    [va_list] is the list of the arguments still to be read. *)

From Stdlib Require Import Ascii String.
From S2P Require Import Prelude Machine Logic.

#[local] Open Scope string_scope.
#[local] Open Scope Z_scope.

Definition char_code (c : ascii) : Z := Z.of_N (N_of_ascii c).
Definition nl : ascii := ascii_of_nat 10.
Definition endl : string := String nl EmptyString.
Definition esc (s : string) : string := String (ascii_of_nat 27) s.

(** ** libkern/framework.c *)

Section framework.
Context `{Platform}.

Definition io_read32 (address offset : Z) : M Z :=
  v <- dev_load (wrap64 (address + offset)) ;; ret (wrap32 v).
Definition io_write32 (address offset value : Z) : M unit :=
  dev_write (wrap64 (address + offset)) (wrap32 value).
Definition io_read64 (address offset : Z) : M Z :=
  v <- dev_load (wrap64 (address + offset)) ;; ret (wrap64 v).
Definition io_write64 (address offset value : Z) : M unit :=
  dev_write (wrap64 (address + offset)) (wrap64 value).
End framework.

(** ** platform/*/uart.c *)

Section uart.
Context `{Platform}.

Definition UART2_BASE : Z := 0xFE660000.
Definition UART_LSR : Z := UART2_BASE + 0x14.

(** platform/opi/uart.c waits for the transmitter first. *)
Definition opi_uart_putc (c : Z) : M unit :=
  while (fun _ : unit =>
           lsr <- dev_load UART_LSR ;;
           ret (if Z.land lsr (Z.shiftl 1 5) =? 0 then inl tt else inr tt)) tt ;;
  dev_write UART2_BASE c.

Definition uart_base : Z :=
  match board with
  | Virt => 0x09000000
  | VirtRV => 0x10000000
  | Opi => UART2_BASE
  end.

Definition uart_putc (c : Z) : M unit :=
  match board with
  | Virt => dev_write 0x09000000 c
  | VirtRV => dev_write 0x10000000 c
  | Opi => opi_uart_putc c
  end.

Fixpoint uart_puts (str : string) : M unit :=
  match str with
  | EmptyString => ret tt
  | String c rest =>
      when (Ascii.eqb c nl) (uart_putc 13) ;;
      uart_putc (char_code c) ;;
      uart_puts rest
  end.

(** Sending a sequence of bytes: the reference for everything that prints. *)
Fixpoint putcs (cs : list Z) : M unit :=
  match cs with
  | [] => ret tt
  | c :: cs' => uart_putc c ;; putcs cs'
  end.
End uart.

(** ** libkern/klog.c *)

Inductive KLogLevel := Debug_ | Info_ | Notice_ | Warning_ | Error_ | Critical_ | Panic_.

Definition COLOR_RESET := esc "[0m".
Definition COLOR_RED := esc "[1;31m".
Definition COLOR_GREEN := esc "[1;32m".
Definition COLOR_YELLOW := esc "[1;33m".
Definition COLOR_BLUE := esc "[1;34m".
Definition COLOR_MAGENTA := esc "[1;35m".
Definition COLOR_CYAN := esc "[1;36m".
Definition COLOR_WHITE := esc "[1;37m".

Definition level_name (level : KLogLevel) : string :=
  match level with
  | Debug_ => COLOR_CYAN ++ "[debug]" ++ COLOR_RESET
  | Info_ => COLOR_CYAN ++ "[info]" ++ COLOR_RESET
  | Notice_ => COLOR_BLUE ++ "[notice]" ++ COLOR_RESET
  | Warning_ => COLOR_YELLOW ++ "[warning]" ++ COLOR_RESET
  | Error_ => COLOR_RED ++ "[error]" ++ COLOR_RESET
  | Critical_ => COLOR_RED ++ "[critical]" ++ COLOR_RESET
  | Panic_ => COLOR_RED ++ "[panic]" ++ COLOR_RESET
  end.

(** A variadic argument: an integer or pointer in its 64-bit slot, or a string
    pointer ([None] for a null one). *)
Inductive varg := VInt (v : Z) | VStr (s : option string).

Section klog.
Context `{Platform}.

(** The character of a digit; [ten] is 'a' or 'A'. *)
Definition digit_char (ten digit : Z) : Z :=
  wrap8 (if digit <? 10 then 48 + digit else ten + (digit - 10)).

(** The digit loop shared by [put_unsigned] and the [%X] case: [buf] is the
    part of the array written so far, the last cell first, and [size] the
    array's length. *)
Definition digit_loop (size : nat) (ten base value : Z) : M (list Z) :=
  while (fun '(value, buf) =>
           if value =? 0 then ret (inr buf)
           else if (length buf <? size)%nat
                then ret (inl (value / base, digit_char ten (wrap32 (value mod base)) :: buf))
                else fault)
        (value, []).

Definition put_unsigned (value base : Z) : M unit :=
  if value =? 0 then uart_putc 48
  else buf <- digit_loop 32 97 base value ;; putcs buf.

Definition put_signed (value : Z) : M unit :=
  if value <? 0 then
    uart_putc 45 ;;
    let magnitude := wrap64 (wrap64 (- (value + 1)) + 1) in
    put_unsigned magnitude 10
  else put_unsigned value 10.

(** The [%X] case of [klog_vprintf]. *)
Definition put_upper_hex (value : Z) : M unit :=
  if value =? 0 then uart_putc 48
  else buf <- digit_loop 16 65 16 value ;; putcs buf.

(** [va_arg]: reading an argument of the wrong kind, or past the last one, is
    undefined. *)
Definition va_int (args : list varg) : M (Z * list varg) :=
  match args with VInt v :: args' => ret (v, args') | _ => fault end.
Definition va_str (args : list varg) : M (option string * list varg) :=
  match args with VStr s :: args' => ret (s, args') | _ => fault end.

(** What each conversion does with the argument it reads. *)
Definition conv_int (put : Z -> M unit) (args : list varg) : M (list varg) :=
  va <- va_int args ;; put (fst va) ;; ret (snd va).

Definition conv_str (args : list varg) : M (list varg) :=
  va <- va_str args ;;
  uart_puts (match fst va with Some str => str | None => "(null)" end) ;;
  ret (snd va).

Definition put_ptr (v : Z) : M unit := uart_puts "0x" ;; put_unsigned (wrap64 v) 16.

(** [put_signed] takes an [int], so every signed conversion passes it the low
    32 bits of its argument. *)
Fixpoint klog_vprintf (format : string) (args : list varg) : M unit :=
  match format with
  | EmptyString => ret tt
  | String c f =>
      if negb (Ascii.eqb c "%") then uart_putc (char_code c) ;; klog_vprintf f args
      else match f with
      | EmptyString =>
          (* the default case at the terminator; [format++] then passes it *)
          uart_putc 37 ;; uart_putc 0 ;; fault
      | String "%" f => uart_putc 37 ;; klog_vprintf f args
      | String "c" f => a <- conv_int (fun v => uart_putc (wrap8 v)) args ;; klog_vprintf f a
      | String "s" f => a <- conv_str args ;; klog_vprintf f a
      | String "d" f => a <- conv_int (fun v => put_signed (signed 32 v)) args ;; klog_vprintf f a
      | String "u" f => a <- conv_int (fun v => put_unsigned (wrap32 v) 10) args ;; klog_vprintf f a
      | String "x" f => a <- conv_int (fun v => put_unsigned (wrap32 v) 16) args ;; klog_vprintf f a
      | String "X" f => a <- conv_int (fun v => put_upper_hex (wrap32 v)) args ;; klog_vprintf f a
      | String "p" f => a <- conv_int put_ptr args ;; klog_vprintf f a
      | String "l" f =>
          match f with
          | EmptyString => fault
          | String "d" f => a <- conv_int (fun v => put_signed (signed 32 v)) args ;; klog_vprintf f a
          | String "u" f => a <- conv_int (fun v => put_unsigned (wrap64 v) 10) args ;; klog_vprintf f a
          | String "x" f => a <- conv_int (fun v => put_unsigned (wrap64 v) 16) args ;; klog_vprintf f a
          | String "l" f =>
              match f with
              | EmptyString => fault
              | String "d" f => a <- conv_int (fun v => put_signed (signed 32 v)) args ;; klog_vprintf f a
              | String "u" f => a <- conv_int (fun v => put_unsigned (wrap64 v) 10) args ;; klog_vprintf f a
              | String "x" f => a <- conv_int (fun v => put_unsigned (wrap64 v) 16) args ;; klog_vprintf f a
              | String _ f => klog_vprintf f args
              end
          | String _ f => klog_vprintf f args
          end
      | String d f => uart_putc 37 ;; uart_putc (char_code d) ;; klog_vprintf f args
      end
  end.

Definition klog (level : KLogLevel) (subsystem format : string) (args : list varg) : M unit :=
  uart_puts (level_name level) ;;
  uart_puts " " ;;
  uart_puts COLOR_MAGENTA ;;
  uart_puts subsystem ;;
  uart_puts COLOR_RESET ;;
  uart_puts ": " ;;
  klog_vprintf format args ;;
  uart_puts endl.

(** The bodies DEFINE_KLOG_FUNCTION expands to print what [klog] prints at
    their level. *)
Definition klog_info := klog Info_.
Definition klog_notice := klog Notice_.
Definition klog_warn := klog Warning_.
Definition klog_error := klog Error_.
Definition klog_critical := klog Critical_.
Definition klog_debug := klog Debug_.
Definition klog_panic := klog Panic_.

(** Nothing calls it. *)
Definition klog_init : M unit := klog_info "log" "logging initialized" [].
End klog.

(** The format of the register dump, arch by arch. *)
Definition arm64_dump_format : string :=
  "x0 =0x%llx  x1 =0x%llx x2 =0x%llx  x3 =0x%llx" ++ endl ++
  "x4 =0x%llx  x5 =0x%llx x6 =0x%llx  x7 =0x%llx" ++ endl ++
  "x8 =0x%llx  x9 =0x%llx x10=0x%llx  x11=0x%llx" ++ endl ++
  "x12=0x%llx  x13=0x%llx x14=0x%llx  x15=0x%llx" ++ endl ++
  "x16=0x%llx  x17=0x%llx x18=0x%llx  x19=0x%llx" ++ endl ++
  "x20=0x%llx  x21=0x%llx x22=0x%llx  x23=0x%llx" ++ endl ++
  "x24=0x%llx  x25=0x%llx x26=0x%llx  x27=0x%llx" ++ endl ++
  "x28=0x%llx  fp =0x%llx lr =0x%llx  sp =0x%llx".

Definition riscv_dump_format : string :=
  "x0 =0x%llx  ra =0x%llx sp =0x%llx  gp =0x%llx" ++ endl ++
  "tp =0x%llx  t0 =0x%llx t1 =0x%llx  t2 =0x%llx" ++ endl ++
  "s0 =0x%llx  s1 =0x%llx a0 =0x%llx  a1 =0x%llx" ++ endl ++
  "a2 =0x%llx  a3 =0x%llx a4 =0x%llx  a5 =0x%llx" ++ endl ++
  "a6 =0x%llx  a7 =0x%llx s2 =0x%llx  s3 =0x%llx" ++ endl ++
  "s4 =0x%llx  s5 =0x%llx s6 =0x%llx  s7 =0x%llx" ++ endl ++
  "s8 =0x%llx  s9 =0x%llx s10=0x%llx  s11=0x%llx" ++ endl ++
  "t3 =0x%llx  t4 =0x%llx t5 =0x%llx  t6 =0x%llx".

Section panic.
Context `{Platform}.

(** The 32 registers [dump_registers] reports, in the order of the format. *)
Definition dump_registers : M (list varg) :=
  gets (fun s => map (fun i => VInt (dump_register (k_io s) i)) (seq 0 32)).

(** [panic] prints and halts: it has every result type, since it never
    returns. *)
Definition panic {A} (subsystem format : string) (args : list varg) : M A :=
  let cpu := match arch with RISCV => cpu_id | ARM64 => 0 end in
  klog_panic "panic" "panic on cpu %d" [VInt cpu] ;;
  uart_puts (level_name Panic_) ;;
  uart_puts " " ;;
  uart_puts COLOR_MAGENTA ;;
  uart_puts subsystem ;;
  uart_puts COLOR_RESET ;;
  uart_puts ": " ;;
  klog_vprintf format args ;;
  uart_puts endl ;;
  regs <- dump_registers ;;
  klog_panic "cpu" (match arch with ARM64 => arm64_dump_format | RISCV => riscv_dump_format end) regs ;;
  halted.
End panic.

(** ** What a format prints: the reference

    A format is parsed into pieces; a piece and its argument determine bytes. *)

#[local] Open Scope list_scope.

Inductive conv := CChar | CStr | CDec | CUns (w base : Z) | CUpper | CPtr.
Inductive piece := Lit (c : Z) | Conv (k : conv).

Fixpoint parse (format : string) : option (list piece) :=
  match format with
  | EmptyString => Some []
  | String c f =>
      if negb (Ascii.eqb c "%") then cons (Lit (char_code c)) <$> parse f
      else match f with
      | EmptyString => None
      | String "%" f => cons (Lit 37) <$> parse f
      | String "c" f => cons (Conv CChar) <$> parse f
      | String "s" f => cons (Conv CStr) <$> parse f
      | String "d" f => cons (Conv CDec) <$> parse f
      | String "u" f => cons (Conv (CUns 32 10)) <$> parse f
      | String "x" f => cons (Conv (CUns 32 16)) <$> parse f
      | String "X" f => cons (Conv CUpper) <$> parse f
      | String "p" f => cons (Conv CPtr) <$> parse f
      | String "l" f =>
          match f with
          | EmptyString => None
          | String "d" f => cons (Conv CDec) <$> parse f
          | String "u" f => cons (Conv (CUns 64 10)) <$> parse f
          | String "x" f => cons (Conv (CUns 64 16)) <$> parse f
          | String "l" f =>
              match f with
              | EmptyString => None
              | String "d" f => cons (Conv CDec) <$> parse f
              | String "u" f => cons (Conv (CUns 64 10)) <$> parse f
              | String "x" f => cons (Conv (CUns 64 16)) <$> parse f
              | String _ f => parse f
              end
          | String _ f => parse f
          end
      | String d f => (fun ps => Lit 37 :: Lit (char_code d) :: ps) <$> parse f
      end
  end.

(** The digits of a number, the most significant first; none for 0. *)
Fixpoint digits_upto (n : nat) (base v : Z) : list Z :=
  match n with
  | O => []
  | S n' => if v =? 0 then [] else digits_upto n' base (v / base) ++ [v mod base]
  end.

Definition digits (base v : Z) : list Z := if v =? 0 then [0] else digits_upto 64 base v.

Definition value_of (base : Z) (ds : list Z) : Z := foldl (fun acc d => acc * base + d) 0 ds.

Definition unsigned_text (base v : Z) : list Z := map (digit_char 97) (digits base v).
Definition signed_text (v : Z) : list Z :=
  if v <? 0 then 45 :: unsigned_text 10 (- v) else unsigned_text 10 v.

(** The bytes the UART sends for a string: a newline is preceded by a carriage
    return. *)
Fixpoint crlf (str : string) : list Z :=
  match str with
  | EmptyString => []
  | String c rest => (if Ascii.eqb c nl then [13] else []) ++ char_code c :: crlf rest
  end.

Definition conv_text (k : conv) (a : varg) : option (list Z) :=
  match k, a with
  | CStr, VStr s => Some (crlf (default "(null)" s))
  | CChar, VInt v => Some [wrap8 v]
  | CDec, VInt v => Some (signed_text (signed 32 v))
  | CUns w base, VInt v => Some (unsigned_text base (v mod 2 ^ w))
  | CUpper, VInt v => Some (map (digit_char 65) (digits 16 (wrap32 v)))
  | CPtr, VInt v => Some (48 :: 120 :: unsigned_text 16 (wrap64 v))
  | _, _ => None
  end.

Fixpoint render (ps : list piece) (args : list varg) : option (list Z) :=
  match ps with
  | [] => Some []
  | Lit c :: ps' => cons c <$> render ps' args
  | Conv k :: ps' =>
      match args with
      | [] => None
      | a :: args' =>
          match conv_text k a, render ps' args' with
          | Some t, Some out => Some (t ++ out)
          | _, _ => None
          end
      end
  end.

Definition header_text (level : KLogLevel) (subsystem : string) : list Z :=
  crlf (level_name level ++ " " ++ COLOR_MAGENTA ++ subsystem ++ COLOR_RESET ++ ": ")%string.

(** ** Printing is sending bytes *)

Section sends.
Context `{Platform}.

(** [c] does nothing but send the bytes [cs]. *)
Definition sends (c : M unit) (cs : list Z) : Prop := forall s, c s = putcs cs s.

Lemma putcs_app a b s : (putcs a ;; putcs b) s = putcs (a ++ b) s.
Proof.
  revert s. induction a as [|c a IH]; intros s; simpl; [done|].
  unfold bind. destruct (uart_putc c s) as [[] s'| | |]; try done. apply IH.
Qed.

Lemma sends_bind c d a b : sends c a -> sends d b -> sends (c ;; d) (a ++ b).
Proof.
  intros Hc Hd s. rewrite <- putcs_app. unfold bind. rewrite (Hc s).
  destruct (putcs a s); done || apply Hd.
Qed.

Lemma sends_ret : sends (ret tt) [].
Proof. done. Qed.

Lemma sends_putc c : sends (uart_putc c) [c].
Proof. intros s. simpl. unfold bind. by destruct (uart_putc c s) as [[] ?| | |]. Qed.

Lemma sends_putcs cs : sends (putcs cs) cs.
Proof. done. Qed.

Lemma sends_uart_puts str : sends (uart_puts str) (crlf str).
Proof.
  induction str as [|c str IH]; simpl; [apply sends_ret|].
  destruct (Ascii.eqb c nl); simpl.
  - apply (sends_bind _ _ [13] (char_code c :: _)), (sends_bind _ _ [_]); auto using sends_putc.
  - apply (sends_bind _ _ [] (char_code c :: _)), (sends_bind _ _ [_]); auto using sends_putc, sends_ret.
Qed.

Lemma digits_upto_bound n base v k :
  1 < base -> 0 <= v < base ^ Z.of_nat k -> (k <= n)%nat ->
  digits_upto n base v = digits_upto k base v.
Proof.
  intros Hb. revert n v. induction k as [|k IH]; intros n v Hv Hn.
  - assert (v = 0) as -> by (simpl in Hv; lia). by destruct n.
  - destruct n as [|n]; [lia|]. simpl. destruct (Z.eqb_spec v 0) as [->|Hv0]; [done|].
    rewrite (IH n); [done| |lia].
    rewrite Nat2Z.inj_succ, Z.pow_succ_r in Hv by lia.
    split; [apply Z.div_pos; lia|apply Z.div_lt_upper_bound; lia].
Qed.

(** The digit loop leaves the digits in the buffer and never writes past its
    end. *)
Lemma digit_loop_run size n ten base value s :
  1 < base < 2 ^ 32 -> 0 <= value < base ^ Z.of_nat n -> (n <= size)%nat -> (n <= 64)%nat ->
  digit_loop size ten base value s = Ok (map (digit_char ten) (digits_upto n base value)) s.
Proof.
  intros Hb Hv Hn Hn64. apply safe_eq. unfold digit_loop.
  set (goal := map (digit_char ten) (digits_upto n base value)).
  apply (wp_while (fun k st s' => s' = s /\ 0 <= st.1 < base ^ Z.of_nat k /\
    (k + length st.2 <= size)%nat /\ map (digit_char ten) (digits_upto k base st.1) ++ st.2 = goal) n).
  - lia.
  - simpl. rewrite app_nil_r. done || (repeat split; try lia; done).
  - intros k [v buf] s' (-> & Hk & Hl & Hg). simpl in *.
    destruct (Z.eqb_spec v 0) as [->|Hv0].
    + apply wp_ret. split; [|done]. rewrite <- Hg. by destruct k.
    + destruct k as [|k]; [simpl in Hk; lia|].
      destruct (Nat.ltb_spec (length buf) size); [|lia].
      apply wp_ret. exists k. simpl.
      rewrite Nat2Z.inj_succ, Z.pow_succ_r in Hk by lia.
      repeat split; try lia.
      * apply Z.div_pos; lia.
      * apply Z.div_lt_upper_bound; lia.
      * rewrite <- Hg. simpl. destruct (Z.eqb_spec v 0); [done|].
        rewrite map_app, <- app_assoc. simpl. rewrite wrap32_small; [done|].
        pose proof (Z.mod_pos_bound v base ltac:(lia)). unfold u32. lia.
Qed.

Lemma sends_digits size n ten base v :
  1 < base < 2 ^ 32 -> 0 <= v < base ^ Z.of_nat n -> (n <= size)%nat -> (n <= 64)%nat ->
  ten = 97 \/ 48 = digit_char ten 0 ->
  sends (if v =? 0 then uart_putc 48 else (buf <- digit_loop size ten base v ;; putcs buf))
        (map (digit_char ten) (digits base v)).
Proof.
  intros Hb Hv Hs Hn Ht. unfold digits. destruct (Z.eqb_spec v 0) as [->|].
  - replace (map _ _) with [48]; [apply sends_putc|]. simpl. by destruct Ht as [->| ->].
  - intros s. unfold bind. rewrite (digit_loop_run _ n) by done.
    by rewrite (digits_upto_bound 64 base v n) by lia.
Qed.

Lemma sends_put_unsigned v base :
  base = 10 \/ base = 16 -> u64 v -> sends (put_unsigned v base) (unsigned_text base v).
Proof.
  intros Hb Hv. apply (sends_digits 32 20); try lia.
  unfold u64 in Hv. destruct Hb as [->| ->]; lia.
Qed.

Lemma sends_put_signed v :
  - 2 ^ 31 <= v < 2 ^ 31 -> sends (put_signed v) (signed_text v).
Proof.
  intros Hv. unfold put_signed, signed_text. destruct (Z.ltb_spec v 0).
  - apply (sends_bind _ _ [45]); [apply sends_putc|].
    rewrite !wrap64_small by (unfold u64; rewrite ?wrap64_small by (unfold u64; lia); lia).
    replace (- (v + 1) + 1) with (- v) by lia. apply sends_put_unsigned; [by left|]. unfold u64; lia.
  - apply sends_put_unsigned; [by left|]. unfold u64; lia.
Qed.

Lemma sends_put_upper_hex v : u32 v -> sends (put_upper_hex v) (map (digit_char 65) (digits 16 v)).
Proof.
  intros Hv. apply (sends_digits 16 8); try lia; [|by right].
  unfold u32 in Hv. change (16 ^ Z.of_nat 8) with (2 ^ 32). lia.
Qed.

Lemma signed32_range v : - 2 ^ 31 <= signed 32 v < 2 ^ 31.
Proof.
  unfold signed. pose proof (Z.mod_pos_bound v (2 ^ 32) ltac:(lia)).
  change (32 - 1) with 31. destruct (Z.ltb_spec (v mod 2 ^ 32) (2 ^ 31)); lia.
Qed.
End sends.

Section klog_theorems.
Context `{Platform}.

Lemma sends_conv_int put v t args (k : list varg -> M unit) out :
  sends (put v) t -> sends (k args) out ->
  sends (a <- conv_int put (VInt v :: args) ;; k a) (t ++ out).
Proof. intros Hp Hk. apply (sends_bind _ (k args) t out) in Hp; [|done]. intros s. rewrite <- Hp.
  unfold conv_int, va_int, bind, ret; simpl. by destruct (put v s) as [[] ?| | |]. Qed.

Lemma sends_conv_str str args (k : list varg -> M unit) out :
  sends (k args) out ->
  sends (a <- conv_str (VStr str :: args) ;; k a) (crlf (default "(null)"%string str) ++ out).
Proof.
  intros Hk. pose proof (sends_bind _ _ _ _ (sends_uart_puts (default "(null)"%string str)) Hk) as Hp.
  intros s. rewrite <- Hp. cbv [conv_str va_str bind ret fst snd].
  change (match str with Some str => str | None => "(null)"%string end)
    with (default "(null)"%string str).
  by destruct (uart_puts (default "(null)"%string str) s) as [[] ?| | |].
Qed.

Lemma sends_put_ptr v : sends (put_ptr v) (48 :: 120 :: unsigned_text 16 (wrap64 v)).
Proof.
  apply (sends_bind _ _ [48; 120]); [apply (sends_uart_puts "0x")|].
  apply sends_put_unsigned; [by right|apply wrap64_range].
Qed.

Lemma render_conv k ps args out :
  render (Conv k :: ps) args = Some out ->
  exists a args' t out', args = a :: args' /\ conv_text k a = Some t /\
    render ps args' = Some out' /\ out = t ++ out'.
Proof.
  simpl. destruct args as [|a args]; [done|].
  destruct (conv_text k a) as [t|] eqn:?; [|done].
  destruct (render ps args) as [out'|] eqn:?; [|done]. intros [= <-]. naive_solver.
Qed.

(** The conversions print what [conv_text] says. *)
Lemma sends_conv k a t args (f : list varg -> M unit) out :
  conv_text k a = Some t -> sends (f args) out ->
  match k with
  | CChar => sends (x <- conv_int (fun v => uart_putc (wrap8 v)) (a :: args) ;; f x) (t ++ out)
  | CStr => sends (x <- conv_str (a :: args) ;; f x) (t ++ out)
  | CDec => sends (x <- conv_int (fun v => put_signed (signed 32 v)) (a :: args) ;; f x) (t ++ out)
  | CUns w base =>
      w = 32 \/ w = 64 -> base = 10 \/ base = 16 ->
      sends (x <- conv_int (fun v => put_unsigned (v mod 2 ^ w) base) (a :: args) ;; f x) (t ++ out)
  | CUpper => sends (x <- conv_int (fun v => put_upper_hex (wrap32 v)) (a :: args) ;; f x) (t ++ out)
  | CPtr => sends (x <- conv_int put_ptr (a :: args) ;; f x) (t ++ out)
  end.
Proof.
  intros Hc Hf. destruct k, a; try discriminate Hc; injection Hc as <-.
  - apply sends_conv_int; [apply sends_putc|done].
  - by apply sends_conv_str.
  - apply sends_conv_int; [apply sends_put_signed, signed32_range|done].
  - intros Hw Hb. apply sends_conv_int; [|done]. apply sends_put_unsigned; [done|].
    destruct Hw as [-> | ->]; unfold u64; pose proof (Z.mod_pos_bound v (2 ^ 32)); pose proof (Z.mod_pos_bound v (2 ^ 64)); lia.
  - apply sends_conv_int; [apply sends_put_upper_hex, wrap32_range|done].
  - apply sends_conv_int; [apply sends_put_ptr|done].
Qed.


(** One case of [klog_vprintf]: a conversion, or bytes printed as they are. *)
Ltac conv_case IH :=
  match goal with
  | Hp : _ <$> parse ?f = Some ?ps, Hr : render ?ps _ = Some _ |- _ =>
      apply fmap_Some in Hp as (? & Hp & ->);
      first
        [ apply render_conv in Hr as (? & ? & ? & ? & -> & Hc & Hr & ->);
          first [ refine (sends_conv _ _ _ _ (klog_vprintf f) _ Hc _)
                | refine (sends_conv _ _ _ _ (klog_vprintf f) _ Hc _ _ _); auto ]
        | simpl in Hr; repeat (apply fmap_Some in Hr as (? & Hr & ->));
          repeat (apply (sends_bind _ _ [_]); [apply sends_putc|]) ];
      exact (IH _ _ _ _ Hp Hr)
  | Hp : parse ?f = Some ?ps, Hr : render ?ps _ = Some _ |- _ => exact (IH _ _ _ _ Hp Hr)
  end.

Lemma klog_vprintf_sends format args ps out :
  parse format = Some ps -> render ps args = Some out -> sends (klog_vprintf format args) out.
Proof.
  revert format args ps out. fix IH 1. intros format args ps out Hp Hr.
  destruct format as [|c f].
  { injection Hp as <-. injection Hr as <-. apply sends_ret. }
  cbn [klog_vprintf parse] in *. destruct (negb (Ascii.eqb c "%")).
  { conv_case IH. }
  destruct f as [|d f]; [discriminate Hp|].
  repeat match type of Hp with
  | context [match ?x with _ => _ end] => is_var x; destruct x; try discriminate Hp; try conv_case IH
  end.
Qed.

Lemma klog_sends level subsystem format args ps out :
  parse format = Some ps -> render ps args = Some out ->
  sends (klog level subsystem format args) (header_text level subsystem ++ out ++ [13; 10]).
Proof.
  intros Hp Hr. unfold klog, header_text.
  assert (Hcat : forall a b, crlf (a ++ b)%string = crlf a ++ crlf b).
  { intros a b. induction a as [|c a IHa]; simpl; [done|]. rewrite IHa, <- app_assoc. done. }
  rewrite !Hcat, <- !app_assoc.
  repeat (apply sends_bind; [first [apply sends_uart_puts | by eapply klog_vprintf_sends]|]).
  apply (sends_uart_puts endl).
Qed.
End klog_theorems.

(** ** The console as an interface

    The rest of the kernel only needs to know that printing returns and does
    nothing but extend the device trace. *)

Class Console `{Platform} :=
  uart_putc_ok : forall c s, exists t, uart_putc c s = Ok tt (set_io s (t ++ k_io s)).

(** The QEMU boards' UARTs are always ready. *)
Lemma virt_console `{Platform} : board = Virt \/ board = VirtRV -> Console.
Proof.
  intros Hb c s. unfold uart_putc. destruct Hb as [-> | ->]; by eexists [_].
Qed.

(** The Orange Pi's is one when its transmitter is ready whenever polled. *)
Lemma opi_console `{Platform} :
  board = Opi -> (forall t, Z.land (dev_read t UART_LSR) (Z.shiftl 1 5) <> 0) -> Console.
Proof.
  intros Hb Hr c s. unfold uart_putc. rewrite Hb.
  exists [IoWrite UART2_BASE c; IoRead UART_LSR (dev_read (k_io s) UART_LSR)].
  apply safe_eq. unfold opi_uart_putc. apply wp_bind.
  apply (wp_while (fun _ _ s' => s' = s) 1); [lia|done|].
  intros k [] s' ->. apply wp_bind. unfold dev_load, wp at 1.
  apply wp_ret. destruct (Z.eqb_spec (Z.land (dev_read (k_io s) UART_LSR) (Z.shiftl 1 5)) 0) as [He|];
    [by apply Hr in He|]. done.
Qed.

(** A format and the kinds of its arguments agree. *)
Fixpoint args_ok (ps : list piece) (args : list varg) : bool :=
  match ps, args with
  | [], _ => true
  | Lit _ :: ps', _ => args_ok ps' args
  | Conv CStr :: ps', VStr _ :: args' => args_ok ps' args'
  | Conv CStr :: _, _ => false
  | Conv _ :: ps', VInt _ :: args' => args_ok ps' args'
  | Conv _ :: _, _ => false
  end.

Definition log_ok (format : string) (args : list varg) : bool :=
  match parse format with Some ps => args_ok ps args | None => false end.

Lemma args_ok_render ps args : args_ok ps args = true -> is_Some (render ps args).
Proof.
  revert args. induction ps as [|[c|k] ps IH]; intros args Ha; simpl in *; [done| |].
  - destruct (IH _ Ha) as [out ->]. by eexists.
  - destruct k, args as [|[v|str] args]; simpl in *; try discriminate Ha;
      destruct (IH _ Ha) as [out ->]; by eexists.
Qed.

Section console_rules.
Context `{Console}.

Lemma putcs_io cs s : exists t, putcs cs s = Ok tt (set_io s (t ++ k_io s)).
Proof.
  revert s. induction cs as [|c cs IH]; intros s; simpl.
  - exists []. by destruct s.
  - destruct (uart_putc_ok c s) as [t Ht]. unfold bind. rewrite Ht.
    destruct (IH (set_io s (t ++ k_io s))) as [t' ->]. exists (t' ++ t). by rewrite <- app_assoc.
Qed.

Lemma wp_sends_app c out s (Q : unit -> kstate -> Prop) E :
  sends c out -> (forall t, Q tt (set_io s (t ++ k_io s))) -> wp c s Q E.
Proof. intros Hc HQ. destruct (putcs_io out s) as [t Ht]. unfold wp. by rewrite Hc, Ht. Qed.

Lemma wp_sends c out s (Q : unit -> kstate -> Prop) E :
  sends c out -> (forall t, Q tt (set_io s t)) -> wp c s Q E.
Proof. intros Hc HQ. by eapply wp_sends_app. Qed.

(** For the callers whose specification speaks of the trace. *)
Lemma wp_klog_app level sub format args s (Q : unit -> kstate -> Prop) E :
  log_ok format args = true -> (forall t, Q tt (set_io s (t ++ k_io s))) -> wp (klog level sub format args) s Q E.
Proof.
  unfold log_ok. destruct (parse format) as [ps|] eqn:Hp; [|done].
  intros [out Hr]%args_ok_render HQ. eapply wp_sends_app; [|done]. by eapply klog_sends.
Qed.

Lemma wp_klog level sub format args s (Q : unit -> kstate -> Prop) E :
  log_ok format args = true -> (forall t, Q tt (set_io s t)) -> wp (klog level sub format args) s Q E.
Proof. intros Hl HQ. by apply wp_klog_app. Qed.

Lemma wp_panic {A} sub format args s (Q : A -> kstate -> Prop) (E : kstate -> Prop) :
  log_ok format args = true -> (forall t, E (set_io s t)) -> wp (panic sub format args) s Q E.
Proof.
  unfold log_ok. destruct (parse format) as [ps|] eqn:Hp; [|done].
  intros [out Hr]%args_ok_render HE. unfold panic, klog_panic.
  apply wp_bind, wp_klog; [done|]. intros t0.
  repeat (apply wp_bind; eapply wp_sends; [first [apply sends_uart_puts|by eapply klog_vprintf_sends]|intros ?]).
  apply wp_bind, wp_gets. apply wp_bind, wp_klog; [by destruct arch|]. intros t8. simpl.
  apply wp_halted. apply HE.
Qed.
End console_rules.

Ltac wp_print :=
  lazymatch goal with
  | |- wp (klog_info _ _ _) _ _ _ => apply wp_klog; [reflexivity|intros ?]
  | |- wp (klog _ _ _ _) _ _ _ => apply wp_klog; [reflexivity|intros ?]
  | |- wp (klog_critical _ _ _) _ _ _ => apply wp_klog; [reflexivity|intros ?]
  | |- wp (panic _ _ _) _ _ _ => apply wp_panic; [reflexivity|intros ?]
  end.
