(* ===== verification/Boards.v ===== *)
(** * Concrete machines

    The two QEMU boards the Makefile builds for, with small address maps, on
    which the theorems of the other files are instantiated. *)

From S2P Require Import Prelude Machine Logic Console.

(** QEMU virt with ARCH=arm64 and with ARCH=riscv; devices answer 0. *)
Definition arm64_virt : Platform := {|
  arch := ARM64; board := Virt;
  ranges := [(0x40080000, 0x1000000)];
  dev_read := fun _ _ => 0;
  reg_read := fun _ _ => 0;
  dump_register := fun _ _ => 0;
  cpu_id := 0;
  cache_metadata_cache := 0x40090000;
  g_om := 0x40092000
|}.

Definition riscv_virt : Platform := {|
  arch := RISCV; board := VirtRV;
  ranges := [(0x80200000, 0x1000000)];
  dev_read := fun _ _ => 0;
  reg_read := fun _ _ => 0;
  dump_register := fun _ _ => 0;
  cpu_id := 0;
  cache_metadata_cache := 0x80210000;
  g_om := 0x80212000
|}.

Lemma arm64_console : @Console arm64_virt.
Proof. apply virt_console. by left. Qed.

Lemma riscv_console : @Console riscv_virt.
Proof. apply virt_console. by right. Qed.

(** The statics as the loader leaves them. *)
Definition cold_state : kstate :=
  mkState ∅ [] (mkBoot 0 0) (mkPmm 0 0 0 0 0) false (mkKheap (replicate 8 0) false) false.

(** The state a run ends in, with its device trace forgotten. *)
Definition final {A} (c : M A) (s : kstate) : kstate :=
  match c s with
  | Ok _ s' | Panicked s' | Hung s' | Fault s' => set_io s' []
  end.

(** What a run returns, if it returns. *)
Definition result {A} (o : outcome A) : option A :=
  match o with Ok a _ => Some a | _ => None end.

(** A specification at a concrete run that is known to return [a]. *)
Lemma wp_result {A} (c : M A) s Q E a :
  wp c s Q E -> result (c s) = Some a -> exists s', c s = Ok a s' /\ Q a s'.
Proof. unfold wp. destruct (c s) as [a' s'| | |]; simpl; try done. intros HQ [= <-]. by exists s'. Qed.

(** A property of the state a run ends in. *)
Lemma wp_final {A} (P : kstate -> Prop) (c : M A) s Q E :
  wp c s Q E -> (forall a s', Q a s' -> P (set_io s' [])) -> (forall s', E s' -> P (set_io s' [])) ->
  P (final c s).
Proof. unfold wp, final. destruct (c s) as [a s'|s'| |]; [intros HQ H _|intros HE _ H|done|done]; eauto. Qed.

(** The same of a run that is known to return [v]. *)
Lemma os_final {A} (c : M A) s v (P : kstate -> Prop) E :
  wp c s (fun a s' => a = v -> P (set_io s' [])) E -> result (c s) = Some v -> P (final c s).
Proof.
  intros Hw Hres. destruct (wp_result _ _ _ _ v Hw Hres) as (s' & Hrun & Hp). unfold final. rewrite Hrun. by apply Hp.
Qed.
