(* ===== verification/Klog.v ===== *)
(** * What the log prints: properties of libkern/klog.c

    The printing code of Console.v against its reference: a format is parsed
    into pieces, and the pieces and the arguments determine the bytes. *)

From Stdlib Require Import String.
From S2P Require Import Prelude Machine Logic Console Boards.

#[local] Open Scope string_scope.
#[local] Open Scope list_scope.
#[local] Open Scope Z_scope.

Section digits.
Context `{Platform}.

Lemma value_of_snoc base ds d : value_of base (ds ++ [d]) = value_of base ds * base + d.
Proof. unfold value_of. by rewrite foldl_snoc. Qed.

Lemma digits_upto_value n base v :
  1 < base -> 0 <= v < base ^ Z.of_nat n ->
  value_of base (digits_upto n base v) = v /\ Forall (fun d => 0 <= d < base) (digits_upto n base v).
Proof.
  intros Hb. revert v. induction n as [|n IH]; intros v Hv; simpl.
  { simpl in Hv. split; [unfold value_of; simpl; lia|constructor]. }
  destruct (Z.eqb_spec v 0) as [->|Hv0]; [by split|].
  assert (Hq : 0 <= v / base < base ^ Z.of_nat n).
  { rewrite Nat2Z.inj_succ, Z.pow_succ_r in Hv by lia.
    split; [apply Z.div_pos; lia|apply Z.div_lt_upper_bound; lia]. }
  destruct (IH _ Hq) as [Hval Hds]. rewrite value_of_snoc, Hval. split.
  - pose proof (Z.div_mod v base). lia.
  - apply Forall_app. split; [done|]. constructor; [apply Z.mod_pos_bound; lia|done].
Qed.

Lemma digits_upto_head n base v d ds :
  1 < base -> 0 <= v < base ^ Z.of_nat n -> digits_upto n base v = d :: ds -> d <> 0.
Proof.
  intros Hb. revert v d ds. induction n as [|n IH]; intros v d ds Hv Hds; simpl in Hds; [done|].
  destruct (Z.eqb_spec v 0) as [->|Hv0]; [done|].
  assert (Hq : 0 <= v / base < base ^ Z.of_nat n).
  { rewrite Nat2Z.inj_succ, Z.pow_succ_r in Hv by lia.
    split; [apply Z.div_pos; lia|apply Z.div_lt_upper_bound; lia]. }
  destruct (digits_upto n base (v / base)) as [|d' ds'] eqn:Hd.
  - injection Hds as <- <-. destruct (digits_upto_value n base (v / base) Hb Hq) as [Hval _].
    rewrite Hd in Hval. unfold value_of in Hval. simpl in Hval. pose proof (Z.div_mod v base). lia.
  - injection Hds as -> _. by eapply (IH (v / base)).
Qed.

Lemma length_digits_upto n base v : (length (digits_upto n base v) <= n)%nat.
Proof.
  revert v. induction n as [|n IH]; intros v; simpl; [done|]. destruct (v =? 0); simpl; [lia|].
  rewrite length_app. simpl. specialize (IH (v / base)). lia.
Qed.

(** The bytes on the line of a board whose UART is always ready. *)
Lemma putcs_virt cs s :
  board <> Opi -> putcs cs s = Ok tt (set_io s (rev (map (IoWrite uart_base) cs) ++ k_io s)).
Proof.
  intros Hb. revert s. induction cs as [|c cs IH]; intros s; simpl.
  - unfold ret. f_equal. by destruct s.
  - unfold bind. assert (Hc : uart_putc c s = Ok tt (set_io s (IoWrite uart_base c :: k_io s))).
    { unfold uart_putc, uart_base. by destruct board. }
    rewrite Hc, IH. by rewrite <- app_assoc.
Qed.
End digits.

(** ** Properties *)

Section klog_properties.
Context `{Platform}.

(** C38: A log line is what its format says.  On the QEMU boards [klog] sends
    exactly the coloured level name, the subsystem, the rendering of the format
    with the arguments, and a carriage return and newline, byte by byte to the
    UART's data register, and changes nothing else. *)
Theorem klog_line level subsystem format args ps out s :
  board <> Opi -> parse format = Some ps -> render ps args = Some out ->
  klog level subsystem format args s =
  Ok tt (set_io s (rev (map (IoWrite uart_base) (header_text level subsystem ++ out ++ [13; 10])) ++ k_io s)).
Proof. intros Hb Hp Hr. rewrite <- putcs_virt by done. by eapply klog_sends. Qed.

(** [put_unsigned] prints a number: the digits it sends are digits of the
    base, have the number as their value, start with a zero only for 0, and
    are never more than the 32 cells of its buffer. *)
Theorem put_unsigned_prints v base s :
  base = 10 \/ base = 16 -> 0 <= v < 2 ^ 64 ->
  exists ds, put_unsigned v base s = putcs (map (digit_char 97) ds) s /\
    value_of base ds = v /\ Forall (fun d => 0 <= d < base) ds /\ (length ds <= 20)%nat /\
    (head ds = Some 0 -> v = 0).
Proof.
  intros Hb Hv. exists (digits base v). split; [by apply sends_put_unsigned|].
  unfold digits. destruct (Z.eqb_spec v 0) as [->|Hv0].
  { split; [unfold value_of; simpl; lia|]. split; [constructor; [lia|constructor]|]. split; [simpl; lia|done]. }
  assert (Hb1 : 1 < base) by lia.
  assert (Hv20 : 0 <= v < base ^ Z.of_nat 20) by (destruct Hb as [->| ->]; simpl; lia).
  rewrite (digits_upto_bound 64 base v 20) by (done || lia).
  destruct (digits_upto_value 20 base v Hb1 Hv20) as [Hval Hds].
  split; [done|]. split; [done|]. split; [apply length_digits_upto|].
  destruct (digits_upto 20 base v) as [|d ds] eqn:Hd; [done|]. intros [= ->].
  by destruct (digits_upto_head 20 base v 0 ds).
Qed.

(** Every signed conversion goes through an [int]: a 64-bit argument of
    [%ld] and [%lld] loses its upper half, so two arguments equal modulo 2^32
    print alike. *)
Theorem klog_signed_truncates v k s :
  klog_vprintf "%lld" [VInt (v + k * 2 ^ 32)] s = klog_vprintf "%lld" [VInt v] s /\
  klog_vprintf "%ld" [VInt (v + k * 2 ^ 32)] s = klog_vprintf "%ld" [VInt v] s.
Proof.
  assert (Hs : signed 32 (v + k * 2 ^ 32) = signed 32 v) by (unfold signed; by rewrite Z.mod_add).
  cbn [klog_vprintf negb Ascii.eqb Bool.eqb]. unfold conv_int, va_int, bind, ret. simpl. by rewrite Hs.
Qed.
End klog_properties.

(** ** Witnesses *)

Lemma klog_line_witness :
  exists ps out, parse "%d%% of 0x%x" = Some ps /\ render ps [VInt (-7); VInt 255] = Some out /\
    klog (H := arm64_virt) Info_ "mm" "%d%% of 0x%x" [VInt (-7); VInt 255] cold_state =
    Ok tt (set_io cold_state
             (rev (map (IoWrite 0x9000000) (header_text Info_ "mm" ++ out ++ [13; 10])) ++ [])).
Proof.
  destruct (parse "%d%% of 0x%x") as [ps|] eqn:Hp; [|discriminate Hp].
  destruct (render ps [VInt (-7); VInt 255]) as [out|] eqn:Hr;
    [|vm_compute in Hp; injection Hp as <-; discriminate Hr].
  exists ps, out. split; [reflexivity|]. split; [exact Hr|].
  exact (@klog_line arm64_virt Info_ "mm" _ _ ps out cold_state ltac:(discriminate) Hp Hr).
Defined.

Lemma put_unsigned_prints_witness :
  exists ds, put_unsigned (H := arm64_virt) 255 16 cold_state = putcs (H := arm64_virt) (map (digit_char 97) ds) cold_state /\
    value_of 16 ds = 255.
Proof.
  destruct (@put_unsigned_prints arm64_virt 255 16 cold_state ltac:(by right) ltac:(lia))
    as (ds & Hr & Hv & _). exists ds. exact (conj Hr Hv).
Defined.
