(* ===== verification/Sync.v ===== *)
(** * Atomic operations and spin locks, as one hart runs them

    include/sync/a64lock.hpp, include/sync/rvlock.hpp and
    include/sync/atomic.hpp.  Here an atomic operation is its effect on memory;
    a lock held by nobody else is never released while we spin, so spinning on
    it hangs. *)

From S2P Require Import Prelude Machine Logic.

(** [offsetof(spinlock_t, locked)] is 0: a lock is its 32-bit word. *)
Section sync.
Context `{Platform}.

Definition cpu_relax : M unit := ret tt.

Definition atomic_exchange_acquire (ptr new_val : Z) : M Z :=
  old_val <- load32 ptr ;; store32 ptr new_val ;; ret old_val.

(** The RISC-V version stores the zero register, whatever [new_val] is. *)
Definition atomic_store_release (ptr new_val : Z) : M unit :=
  match arch with
  | ARM64 => store32 ptr new_val
  | RISCV => store32 ptr 0
  end.

Definition atomic_load (ptr : Z) : M Z := load32 ptr.

Definition atomic_fetch_add (ptr val : Z) : M Z :=
  old_val <- load32 ptr ;; store32 ptr (wrap32 (old_val + val)) ;; ret old_val.

Definition atomic_fetch_sub (ptr val : Z) : M Z :=
  match arch with
  | ARM64 => old_val <- load32 ptr ;; store32 ptr (wrap32 (old_val - val)) ;; ret old_val
  | RISCV =>
      let tmp := wrap64 (- val) in
      old_val <- load32 ptr ;; store32 ptr (wrap32 (old_val + tmp)) ;; ret old_val
  end.

Definition spin_lock_init (lock : Z) : M unit := store32 lock 0.

(** [while (lock->locked != 0) cpu_relax();] *)
Definition wait_unlocked (lock : Z) : M unit :=
  while (fun _ : unit =>
           l <- load32 lock ;;
           if l =? 0 then ret (inr tt) else cpu_relax ;; ret (inl tt)) tt.

Definition arm64_spin_lock (lock : Z) : M unit :=
  while (fun _ : unit =>
           old <- atomic_exchange_acquire lock 1 ;;
           if old =? 0 then ret (inr tt) else wait_unlocked lock ;; ret (inl tt)) tt.

(** The [while (1)] of the RISC-V version. *)
Definition riscv_spin (lock : Z) : M unit :=
  while (fun _ : unit =>
           l <- atomic_load lock ;;
           if l =? 0 then
             old <- atomic_exchange_acquire lock 1 ;;
             if old =? 0 then ret (inr tt) else cpu_relax ;; ret (inl tt)
           else cpu_relax ;; ret (inl tt)) tt.

Definition riscv_spin_lock (lock : Z) : M unit :=
  old <- atomic_exchange_acquire lock 1 ;;
  if old =? 0 then ret tt else riscv_spin lock.

Definition spin_lock (lock : Z) : M unit :=
  match arch with
  | ARM64 => arm64_spin_lock lock
  | RISCV => riscv_spin_lock lock
  end.

Definition spin_unlock (lock : Z) : M unit := atomic_store_release lock 0.

(** ** Rules *)

Lemma wp_fetch_add p v s (Q : Z -> kstate -> Prop) E :
  valid p 4 = true ->
  Q (get32 (k_mem s) p) (set_mem s (put32 (k_mem s) p (wrap32 (get32 (k_mem s) p + v)))) ->
  wp (atomic_fetch_add p v) s Q E.
Proof. intros Hv HQ. unfold atomic_fetch_add. wp_steps. done. Qed.

(** Subtraction by adding the 64-bit [neg]. *)
Lemma wrap32_add_neg x v : wrap32 (x + wrap64 (- v)) = wrap32 (x - v).
Proof.
  unfold wrap32, wrap64. rewrite <- (Z.add_mod_idemp_r x) by lia.
  replace ((- v) mod 2 ^ 64) with (- v + 2 ^ 32 * (2 ^ 32 * - (- v / 2 ^ 64))).
  - rewrite (Z.mul_comm (2 ^ 32)), Z.mod_add by lia. rewrite Z.add_mod_idemp_r by lia.
    f_equal; lia.
  - rewrite (Z.mod_eq (- v)) by lia. lia.
Qed.

Lemma wp_fetch_sub p v s (Q : Z -> kstate -> Prop) E :
  valid p 4 = true ->
  Q (get32 (k_mem s) p) (set_mem s (put32 (k_mem s) p (wrap32 (get32 (k_mem s) p - v)))) ->
  wp (atomic_fetch_sub p v) s Q E.
Proof.
  intros Hv HQ. unfold atomic_fetch_sub. destruct arch; wp_steps; [done|].
  by rewrite wrap32_add_neg.
Qed.

Lemma wp_store_release p v s (Q : unit -> kstate -> Prop) E :
  valid p 4 = true ->
  Q tt (set_mem s (put32 (k_mem s) p (match arch with ARM64 => v | RISCV => 0 end))) ->
  wp (atomic_store_release p v) s Q E.
Proof. intros Hv HQ. unfold atomic_store_release. destruct arch; by apply wp_store. Qed.

Lemma wp_spin_lock l s (Q : unit -> kstate -> Prop) E :
  valid l 4 = true -> get32 (k_mem s) l = 0 ->
  Q tt (set_mem s (put32 (k_mem s) l 1)) -> wp (spin_lock l) s Q E.
Proof.
  intros Hv Hl HQ. unfold spin_lock. destruct arch.
  - unfold arm64_spin_lock.
    apply (wp_while (fun _ _ s' => s' = s) 1); [lia|done|]. intros k [] s' ->.
    unfold atomic_exchange_acquire. wp_steps. rewrite Hl. by wp_steps.
  - unfold riscv_spin_lock, atomic_exchange_acquire. wp_steps. rewrite Hl. by wp_steps.
Qed.

Lemma wp_spin_unlock l s (Q : unit -> kstate -> Prop) E :
  valid l 4 = true -> Q tt (set_mem s (put32 (k_mem s) l 0)) -> wp (spin_unlock l) s Q E.
Proof. intros Hv HQ. apply wp_store_release; [done|]. by destruct arch. Qed.

(** A loop that goes round in one state ends, its fuel gone, in that state. *)
Lemma while_at {X R} (body : X -> M (X + R)) x s :
  (forall y, exists y', body y s = Ok (inl y') s) -> while body x s = Hung s.
Proof.
  intros Hb. destruct (Hb x) as [x1 H1].
  destruct (while_stuck_in (fun _ s' => s' = s) body x s x1 s H1) as (y & s' & -> & Hs'); [done| |done].
  intros y s' ->. destruct (Hb y) as [y' ?]. by exists y', s.
Qed.

(** Spinning on a lock that is held and that nobody releases never ends. *)
Lemma while_held_hangs l s :
  valid l 4 = true -> get32 (k_mem s) l <> 0 ->
  spin_lock l s = Hung (set_mem s (put32 (k_mem s) l 1)).
Proof.
  intros Hv Hl.
  set (s1 := set_mem s (put32 (k_mem s) l 1)).
  assert (Hx : atomic_exchange_acquire l 1 s = Ok (get32 (k_mem s) l) s1).
  { apply safe_eq. unfold atomic_exchange_acquire. by wp_steps. }
  assert (Hl1 : get32 (k_mem s1) l = 1) by (apply (getw_putw 4); lia).
  assert (Hload : load32 l s1 = Ok 1 s1).
  { apply safe_eq. apply wp_load; [done|]. by rewrite Hl1. }
  apply Z.eqb_neq in Hl. unfold spin_lock. destruct arch.
  - unfold arm64_spin_lock. apply while_hung. unfold bind. rewrite Hx, Hl.
    unfold wait_unlocked. rewrite while_at; [done|].
    intros []. exists tt. unfold bind. rewrite Hload. reflexivity.
  - unfold riscv_spin_lock, bind. rewrite Hx, Hl. unfold riscv_spin. apply while_at.
    intros []. exists tt. unfold atomic_load, bind. rewrite Hload. reflexivity.
Qed.
End sync.
