(* ===== verification/Spin.v ===== *)
(** * Spin locks between harts

    [spin_lock] and [spin_unlock] of include/sync/atomic.hpp, cut at their
    accesses to the lock word and interleaved.  Each hart is at one of four
    points of the code; a step of the machine is one access of one hart, or
    some work of a hart outside the two functions.  Atomic operations and
    accesses of the lock word are taken in one order, the same for every hart,
    which is what acquire and release order on a single word gives. *)

From S2P Require Import Prelude Machine Logic Boards Sync.

(** Where a hart is: not using the lock; about to try the exchange; about to
    read the word again; past [spin_lock] and before [spin_unlock]. *)
Inductive pc := Idle | Xchg | Poll | Crit.

#[global] Instance pc_eq_dec : EqDecision pc.
Proof. solve_decision. Defined.

Record config := mkConfig { c_state : kstate; c_pcs : list pc }.

(** What bytes of [rs] do not change. *)
Definition unchanged (rs : list (Z * Z)) (m m' : memory) : Prop :=
  forall b, ~ outside rs b -> get8 m' b = get8 m b.

Section spin.
Context `{Platform}.
(** The lock, the memory it guards, and what holds of that memory whenever the
    lock is free. *)
Context (lock : Z) (guarded : list (Z * Z)) (I : memory -> Prop).

(** One access of a hart inside [spin_lock]. *)
Definition spin_step (p : pc) : M pc :=
  match p with
  | Idle => ret Xchg
  | Xchg => old <- atomic_exchange_acquire lock 1 ;;
            ret (if old =? 0 then Crit else Poll)
  | Poll => l <- atomic_load lock ;;
            if l =? 0 then ret Xchg else cpu_relax ;; ret Poll
  | Crit => ret Crit
  end.

(** The steps of one hart, run until it has the lock. *)
Definition spin_alone : M unit :=
  while (fun p => p' <- spin_step p ;;
                  match p' with Crit => ret (inr tt) | _ => ret (inl p') end) Xchg.

(** A step of hart [i].  Outside its critical section a hart leaves the
    guarded memory alone, and it gives the lock back with [I] restored. *)
Inductive hart_step (i : nat) : config -> config -> Prop :=
| step_lock p p' s s' pcs :
    pcs !! i = Some p -> p <> Crit -> spin_step p s = Ok p' s' ->
    hart_step i (mkConfig s pcs) (mkConfig s' (<[i := p']> pcs))
| step_unlock s s' pcs :
    pcs !! i = Some Crit -> I (k_mem s) -> spin_unlock lock s = Ok tt s' ->
    hart_step i (mkConfig s pcs) (mkConfig s' (<[i := Idle]> pcs))
| step_critical s s' pcs :
    pcs !! i = Some Crit -> unchanged [(lock, 4)] (k_mem s) (k_mem s') ->
    hart_step i (mkConfig s pcs) (mkConfig s' pcs)
| step_elsewhere s s' pcs :
    pcs !! i = Some Idle -> unchanged ((lock, 4) :: guarded) (k_mem s) (k_mem s') ->
    hart_step i (mkConfig s pcs) (mkConfig s' pcs).

Definition initial (c : config) : Prop :=
  Forall (eq Idle) (c_pcs c) /\ I (k_mem (c_state c)) /\
  exists s, spin_lock_init lock s = Ok tt (c_state c).

Inductive reachable : config -> Prop :=
| reach_initial c : initial c -> reachable c
| reach_step c i c' : reachable c -> hart_step i c c' -> reachable c'.

(** ** The invariant *)

Definition critical (c : config) (i : nat) : Prop := c_pcs c !! i = Some Crit.

Definition lock_free (c : config) : Prop :=
  get32 (k_mem (c_state c)) lock = 0 /\ (forall i, ~ critical c i) /\ I (k_mem (c_state c)).

Definition lock_held (c : config) (i : nat) : Prop :=
  get32 (k_mem (c_state c)) lock = 1 /\ critical c i /\ forall j, critical c j -> j = i.

Definition lock_inv (c : config) : Prop := lock_free c \/ exists i, lock_held c i.

Hypothesis lock_valid : valid lock 4 = true.
Hypothesis lock_apart : Forall (apart (lock, 4)) guarded.
(** [I] is about the guarded memory. *)
Hypothesis I_guarded : forall m m', unchanged guarded m m' -> I m -> I m'.

Lemma unchanged_lock rs m m' :
  (lock, 4) ∈ rs -> unchanged rs m m' -> get32 m' lock = get32 m lock.
Proof.
  intros Hin Hk. apply getw_ext. intros b Hb. apply Hk. intros Ho.
  apply (proj1 (Forall_forall _ _) Ho) in Hin. simpl in Hin. lia.
Qed.

Lemma unchanged_incl rs rs' m m' : rs ⊆ rs' -> unchanged rs' m m' -> unchanged rs m m'.
Proof.
  intros Hs Hk b Hb. apply Hk. intros Ho. apply Hb. apply Forall_forall. intros r Hr.
  by apply (proj1 (Forall_forall _ _) Ho), Hs.
Qed.

Lemma unchanged_put_lock m v : unchanged guarded m (put32 m lock v).
Proof.
  intros b Hb. rewrite get8_putw. case_decide; [|done]. destruct Hb. apply Forall_forall.
  intros [lo len] Hr. apply (proj1 (Forall_forall _ _) lock_apart) in Hr.
  unfold apart in Hr. simpl in *. lia.
Qed.

Lemma I_put_lock m v : I m -> I (put32 m lock v).
Proof. apply I_guarded, unchanged_put_lock. Qed.

(** What each access of [spin_lock] does. *)
Lemma spin_step_run p s :
  spin_step p s =
  match p with
  | Idle => Ok Xchg s
  | Xchg => Ok (if get32 (k_mem s) lock =? 0 then Crit else Poll)
               (set_mem s (put32 (k_mem s) lock 1))
  | Poll => Ok (if get32 (k_mem s) lock =? 0 then Xchg else Poll) s
  | Crit => Ok Crit s
  end.
Proof.
  destruct p; apply safe_eq; unfold spin_step, atomic_exchange_acquire, atomic_load;
    wp_steps; try done.
  destruct (_ =? 0); by wp_steps.
Qed.

Lemma spin_unlock_run s : spin_unlock lock s = Ok tt (set_mem s (put32 (k_mem s) lock 0)).
Proof. apply safe_eq. by apply wp_spin_unlock. Qed.

Lemma critical_insert s pcs i p j :
  critical (mkConfig s (<[i := p]> pcs)) j <->
  j = i /\ p = Crit /\ (i < length pcs)%nat \/ j <> i /\ critical (mkConfig s pcs) j.
Proof. unfold critical. simpl. rewrite list_lookup_insert_Some. naive_solver lia. Qed.

Lemma lock_inv_unchanged s s' pcs i :
  lock_inv (mkConfig s pcs) ->
  unchanged [(lock, 4)] (k_mem s) (k_mem s') ->
  critical (mkConfig s pcs) i \/ unchanged guarded (k_mem s) (k_mem s') ->
  lock_inv (mkConfig s' pcs).
Proof.
  unfold lock_inv, lock_free, lock_held. simpl. intros Hinv Hk Hg.
  assert (Hl : get32 (k_mem s') lock = get32 (k_mem s) lock) by (by eapply unchanged_lock; [left|]).
  destruct Hinv as [(Hf & Hn & HI)|(j & Hh & Hj & Hu)].
  - left. repeat split; [congruence|done|]. destruct Hg as [Hc|Hk']; [by destruct (Hn i)|].
    by eapply I_guarded.
  - right. exists j. repeat split; [congruence|done..].
Qed.

Lemma hart_step_inv i c c' : hart_step i c c' -> lock_inv c -> lock_inv c'.
Proof.
  intros [p p' s s' pcs Hi Hp Hrun|s s' pcs Hi HI Hrun|s s' pcs Hi Hk|s s' pcs Hi Hk] Hinv.
  - rewrite spin_step_run in Hrun.
    assert (Hb : (i < length pcs)%nat) by (by eapply lookup_lt_Some).
    assert (Hni : ~ critical (mkConfig s pcs) i) by (unfold critical; simpl; congruence).
    unfold lock_inv, lock_free, lock_held in *. simpl in *.
    setoid_rewrite (critical_insert s' pcs i p').
    destruct Hinv as [(Hf & Hn & HI)|(j & Hh & Hj & Hu)].
    + rewrite Hf in Hrun. destruct p; simplify_eq; simpl.
      * left. naive_solver.
      * right. exists i. rewrite (getw_putw 4) by lia. naive_solver.
      * left. naive_solver.
    + rewrite Hh in Hrun. right. exists j. destruct p; simplify_eq; simpl.
      * naive_solver.
      * rewrite (getw_putw 4) by lia. naive_solver.
      * naive_solver.
  - rewrite spin_unlock_run in Hrun. simplify_eq. left.
    destruct Hinv as [(_ & Hn & _)|(j & Hh & Hj & Hu)]; [by destruct (Hn i)|].
    split_and!; simpl; [by rewrite (getw_putw 4)| |by apply I_put_lock].
    intros k. rewrite critical_insert. intros [(_ & ? & _)|[Hk Hc]]; [done|].
    rewrite (Hu i) in Hk by done. by apply Hk, Hu.
  - by eapply lock_inv_unchanged; eauto.
  - eapply lock_inv_unchanged; [done| |right]; (eapply unchanged_incl; [|exact Hk]); set_solver.
    Unshelve. exact 0%nat.
Qed.

Lemma reachable_inv c : reachable c -> lock_inv c.
Proof.
  induction 1 as [c (Hidle & HI & s & Hs)|c i c' _ IH Hstep]; [|by eapply hart_step_inv].
  assert (Hi : spin_lock_init lock s = Ok tt (set_mem s (put32 (k_mem s) lock 0))).
  { apply safe_eq. unfold spin_lock_init. by wp_steps. }
  rewrite Hi in Hs. injection Hs as Hs. left. split_and!; [|..|done].
  - rewrite <- Hs. apply (getw_putw 4). lia.
  - intros i Hc. apply (proj1 (Forall_lookup _ _)) with (i := i) (x := Crit) in Hidle; done.
Qed.

(** ** Progress *)

Definition waiting (c : config) (i : nat) : Prop :=
  c_pcs c !! i = Some Xchg \/ c_pcs c !! i = Some Poll.

(** A step that ends some hart's [spin_lock]. *)
Definition acquires (c c' : config) : Prop := exists j, ~ critical c j /\ critical c' j.

Lemma free_step j c c' : lock_inv c' -> hart_step j c c' -> lock_free c -> acquires c c' \/ lock_free c'.
Proof.
  intros [Hf|(i & Hh & Hi & _)] Hs Hc; [by right|].
  left. exists i. split; [apply Hc|done].
Qed.

(** A hart's place changes only in its own steps. *)
Lemma step_pcs i j c c' : hart_step j c c' -> j <> i -> c_pcs c' !! i = c_pcs c !! i.
Proof. intros [] Hne; simpl; try done; by rewrite list_lookup_insert_ne. Qed.

Lemma waiting_step i c c' :
  lock_free c -> waiting c i -> hart_step i c c' ->
  acquires c c' \/ c_pcs c !! i = Some Poll /\ c_pcs c' !! i = Some Xchg.
Proof.
  intros (Hl & Hn & _) Hw Hs. unfold waiting, acquires in *.
  destruct Hs as [p p' s s' pcs Hi Hp Hrun|s s' pcs Hi _ _|s s' pcs Hi _|s s' pcs Hi _]; simpl in *;
    try (destruct Hw; congruence).
  rewrite spin_step_run in Hrun. rewrite Hl in Hrun.
  assert (i < length pcs)%nat by (by eapply lookup_lt_Some).
  destruct Hw as [Hw|Hw]; rewrite Hw in Hi; simplify_eq; simpl in *.
  - left. exists i. split; [apply Hn|]. unfold critical. simpl. by rewrite list_lookup_insert_eq.
  - right. by rewrite list_lookup_insert_eq.
Qed.

(** A waiting hart waits until it has the lock. *)
Lemma waiting_still i j c c' : hart_step j c c' -> waiting c i -> acquires c c' \/ waiting c' i.
Proof.
  intros Hs Hw. destruct (decide (j = i)) as [->|Hne];
    [|right; unfold waiting in *; by rewrite (step_pcs i _ _ _ Hs)].
  unfold acquires, critical, waiting in *.
  destruct Hs as [p p' s s' pcs Hi Hp Hst|s s' pcs Hi _ _|s s' pcs Hi _|s s' pcs Hi _]; simpl in *;
    try (destruct Hw; congruence).
  assert (i < length pcs)%nat by (by eapply lookup_lt_Some).
  rewrite spin_step_run in Hst.
  destruct (decide (p' = Crit)) as [->|Hc].
  - left. exists i. rewrite list_lookup_insert_eq by done. naive_solver.
  - right. rewrite list_lookup_insert_eq by done.
    destruct p; simplify_eq; repeat case_match; simplify_eq; eauto.
Qed.

(** A run of the machine: its configurations and the hart of each step. *)
Record run := mkRun { r_config : nat -> config; r_hart : nat -> nat }.

Definition run_of (r : run) : Prop :=
  reachable (r_config r 0) /\ forall n, hart_step (r_hart r n) (r_config r n) (r_config r (S n)).

(** A waiting hart is scheduled again, and no critical section is for ever. *)
Definition fair (r : run) : Prop :=
  (forall n i, waiting (r_config r n) i -> exists k, r_hart r (n + k) = i) /\
  (forall n i, critical (r_config r n) i -> exists k, ~ critical (r_config r (n + k)) i).

Definition acquired_from (r : run) (n : nat) : Prop :=
  exists k, acquires (r_config r (n + k)) (r_config r (S (n + k))).

Section progress.
Context (r : run) (Hrun : run_of r) (Hfair : fair r).

Lemma run_inv n : lock_inv (r_config r n).
Proof.
  destruct Hrun as [H0 Hs]. apply reachable_inv.
  induction n as [|n IH]; [done|]. by eapply reach_step.
Qed.

Lemma acquired_now n : acquires (r_config r n) (r_config r (S n)) -> acquired_from r n.
Proof. intros Ha. exists 0%nat. by rewrite Nat.add_0_r. Qed.

Lemma acquired_later n k : acquired_from r (n + k) -> acquired_from r n.
Proof. intros [k' Ha]. exists (k + k')%nat. by rewrite Nat.add_assoc. Qed.

Lemma acquired_succ n : acquired_from r (S n) -> acquired_from r n.
Proof. rewrite <- Nat.add_1_r. apply acquired_later. Qed.

(** With the lock free, either some hart takes it, or it is still free when a
    given hart has its turn. *)
Lemma next_turn i k : forall n,
  lock_free (r_config r n) -> r_hart r (n + k) = i ->
  acquired_from r n \/
  exists m, lock_free (r_config r (n + m)) /\ r_hart r (n + m) = i /\
            c_pcs (r_config r (n + m)) !! i = c_pcs (r_config r n) !! i.
Proof.
  induction k as [|k IH]; intros n Hf Hk; [right; exists 0%nat; by rewrite Nat.add_0_r in *|].
  destruct (decide (r_hart r n = i)) as [Hi|Hne]; [right; exists 0%nat; by rewrite Nat.add_0_r in *|].
  destruct Hrun as [_ Hs].
  destruct (free_step _ _ _ (run_inv (S n)) (Hs n) Hf) as [Ha|Hf']; [left; by apply acquired_now|].
  replace (n + S k)%nat with (S n + k)%nat in Hk by lia.
  destruct (IH _ Hf' Hk) as [Ha|(m & Hm & Hi & Hp)]; [left; by apply acquired_succ|].
  right. exists (S m). replace (n + S m)%nat with (S n + m)%nat by lia. split_and!; [done..|].
  by rewrite Hp, (step_pcs i _ _ _ (Hs n)).
Qed.

(** At its turn a waiting hart takes a free lock, or has seen it free. *)
Lemma free_turn i n :
  lock_free (r_config r n) -> waiting (r_config r n) i ->
  acquired_from r n \/
  c_pcs (r_config r n) !! i = Some Poll /\
  exists m, lock_free (r_config r (n + m)) /\ c_pcs (r_config r (n + m)) !! i = Some Xchg.
Proof.
  intros Hf Hw. destruct (proj1 Hfair n i Hw) as [k Hk]. destruct Hrun as [_ Hs].
  destruct (next_turn i k n Hf Hk) as [Ha|(m & Hm & Hi & Hp)]; [by left|].
  assert (Hstep := Hs (n + m)%nat). rewrite Hi in Hstep.
  destruct (waiting_step i _ _ Hm ltac:(unfold waiting; by rewrite Hp) Hstep) as [Ha|[Hpoll Hx]].
  { left. apply (acquired_later n m). by apply acquired_now. }
  destruct (free_step _ _ _ (run_inv (S (n + m))) Hstep Hm) as [Ha|Hf'].
  { left. apply (acquired_later n m). by apply acquired_now. }
  right. split; [by rewrite <- Hp|]. exists (S m). by rewrite Nat.add_succ_r.
Qed.

Lemma free_acquired i n :
  lock_free (r_config r n) -> waiting (r_config r n) i -> acquired_from r n.
Proof.
  intros Hf Hw. destruct (free_turn i n Hf Hw) as [Ha|(_ & m & Hf' & Hx)]; [done|].
  apply (acquired_later n m). destruct (free_turn i (n + m) Hf') as [Ha|[Hp _]]; [by left|done|].
  congruence.
Qed.

Lemma waiting_keeps i n :
  waiting (r_config r n) i -> acquired_from r n \/ waiting (r_config r (S n)) i.
Proof.
  intros Hw. destruct Hrun as [_ Hs].
  destruct (waiting_still i _ _ _ (Hs n) Hw) as [Ha|Hw']; [left; by apply acquired_now|by right].
Qed.

Lemma held_released i j k : forall n,
  lock_held (r_config r n) j -> waiting (r_config r n) i -> ~ critical (r_config r (n + k)) j ->
  acquired_from r n \/ exists m, lock_free (r_config r (n + m)) /\ waiting (r_config r (n + m)) i.
Proof.
  induction k as [|k IH]; intros n Hh Hw Hn; [rewrite Nat.add_0_r in Hn; by destruct Hh as (_ & ? & _)|].
  destruct (waiting_keeps i n Hw) as [Ha|Hw']; [by left|].
  destruct (run_inv (S n)) as [Hf|[j' Hh']].
  { right. exists 1%nat. by rewrite Nat.add_1_r. }
  destruct (decide (j' = j)) as [->|Hne].
  - replace (n + S k)%nat with (S n + k)%nat in Hn by lia.
    destruct (IH _ Hh' Hw' Hn) as [Ha|(m & Hm)]; [left; by apply acquired_succ|].
    right. exists (S m). by rewrite Nat.add_succ_r.
  - left. apply acquired_now. exists j'. split; [|apply Hh'].
    intros Hc. by apply Hne, (proj2 (proj2 Hh)).
Qed.
End progress.

(** A hart enters only when the lock is free, and its exchange leaves the
    guarded memory alone. *)
Lemma acquire_free i c c' :
  lock_inv c -> hart_step i c c' -> acquires c c' ->
  lock_free c /\ unchanged guarded (k_mem (c_state c)) (k_mem (c_state c')).
Proof.
  intros Hinv Hs (k & Hn & Hc).
  destruct Hs as [p p' s s' pcs Hi Hp Hst|s s' pcs Hi _ _|s s' pcs Hi _|s s' pcs Hi _]; try done.
  - apply critical_insert in Hc as [(-> & -> & _)|[_ Hc]]; [|done].
    rewrite spin_step_run in Hst. destruct p; try done.
    + injection Hst as Hf <-. destruct (_ =? 0) eqn:Hl; [|done]. apply Z.eqb_eq in Hl.
      split; [|apply unchanged_put_lock].
      destruct Hinv as [?|(j & Hh & _)]; [done|]. simpl in Hh. lia.
    + injection Hst as Hf <-. by destruct (_ =? 0).
  - by apply critical_insert in Hc as [(_ & ? & _)|[_ Hc]].
Qed.
End spin.

(** ** What the lock promises *)

Section theorems.
Context `{Platform}.

(** C2: The lock excludes and hands over: in every state the harts can reach, at
    most one of them is between its [spin_lock] and its [spin_unlock]; the word
    is 0 exactly when none is; and whatever each hart re-establishes before it
    unlocks holds of the guarded memory when the next one enters. *)
Theorem spin_lock_excludes lock guarded I c :
  valid lock 4 = true -> Forall (apart (lock, 4)) guarded ->
  (forall m m', unchanged guarded m m' -> I m -> I m') ->
  reachable lock guarded I c ->
  (forall i j, critical c i -> critical c j -> i = j) /\
  (get32 (k_mem (c_state c)) lock = 0 <-> forall i, ~ critical c i) /\
  (forall i c', hart_step lock guarded I i c c' -> acquires c c' -> I (k_mem (c_state c'))).
Proof.
  intros Hv Ha HI Hr. apply reachable_inv in Hr as Hinv; [|done..]. split_and!.
  - destruct Hinv as [(_ & Hn & _)|(k & _ & _ & Hu)]; intros i j Hi Hj; [by destruct (Hn i)|].
    by rewrite (Hu i), (Hu j).
  - destruct Hinv as [(Hl & Hn & _)|(k & Hl & Hk & _)]; [done|].
    split; [rewrite Hl; lia|intros Hn; by destruct (Hn k)].
  - intros i c' Hs Hq.
    destruct (acquire_free lock guarded I Hv Ha i c c' Hinv Hs Hq) as [(_ & _ & Hm) Hk].
    by eapply HI.
Qed.

(** C25: The lock is free of deadlock: in a run where a waiting hart is always
    scheduled again and no hart stays in its critical section for ever, as long
    as some hart waits for the lock, some hart gets it. *)
Theorem spin_lock_progress lock guarded I r n i :
  valid lock 4 = true -> Forall (apart (lock, 4)) guarded ->
  (forall m m', unchanged guarded m m' -> I m -> I m') ->
  run_of lock guarded I r -> fair r ->
  waiting (r_config r n) i ->
  acquired_from r n.
Proof.
  intros Hv Ha HI Hr Hf Hw.
  destruct (run_inv lock guarded I Hv Ha HI r Hr n) as [Hfree|[j Hh]].
  { by eapply free_acquired. }
  destruct (proj2 Hf n j (proj1 (proj2 Hh))) as [k Hk].
  destruct (held_released lock guarded I Hv Ha HI r Hr i j k n Hh Hw Hk) as [Hq|(m & Hm & Hw')]; [done|].
  apply (acquired_later r n m). by eapply free_acquired.
Qed.

(** C30: The steps of one hart are the code: run with no other hart, they do what
    [spin_lock] does on either architecture, also when the lock is held. *)
Theorem spin_alone_is_spin_lock lock s :
  valid lock 4 = true -> spin_alone lock s = spin_lock lock s.
Proof.
  intros Hv. destruct (decide (get32 (k_mem s) lock = 0)) as [Hl|Hl].
  - transitivity (Ok tt (set_mem s (put32 (k_mem s) lock 1))); [|symmetry]; apply safe_eq.
    + unfold spin_alone. apply (wp_while (fun _ p s' => p = Xchg /\ s' = s) 1); [lia|done|]. intros k p s' [-> ->].
      apply wp_bind. unfold wp at 1. rewrite spin_step_run by done. by rewrite Hl.
    + by apply wp_spin_lock.
  - rewrite while_held_hangs by done. apply Z.eqb_neq in Hl as Hb.
    set (s1 := set_mem s (put32 (k_mem s) lock 1)).
    assert (Hl1 : get32 (k_mem s1) lock =? 0 = false).
    { apply Z.eqb_neq. unfold s1. simpl. rewrite (getw_putw 4) by lia. lia. }
    destruct (while_stuck_in (fun p s' => p = Poll /\ s' = s1)
                (fun p => p' <- spin_step lock p ;;
                          match p' with Crit => ret (inr tt) | _ => ret (inl p') end)
                Xchg s Poll s1) as (y & s' & [-> ->] & Hh).
    + unfold bind. rewrite spin_step_run by done. by rewrite Hb.
    + done.
    + intros p s' [-> ->]. exists Poll, s1. split; [|done].
      unfold bind. rewrite spin_step_run by done. by rewrite Hl1.
    + unfold spin_alone. exact Hh.
Qed.
End theorems.

(** ** Two harts and one lock *)

Section two_harts.
Abbreviation lk := 0x40090000.
Abbreviation pair := [(lk + 8, 16)].

(** The lock guards two counters that agree whenever it is free. *)
Definition agree (m : memory) : Prop := get64 m (lk + 8) = get64 m (lk + 16).

Definition at_lock (w : Z) (p0 p1 : pc) : config :=
  mkConfig (set_mem cold_state (put32 ∅ lk w)) [p0; p1].

(** Hart 0 takes the lock, hart 1 finds it taken, and gets it later. *)
Definition round : list (nat * config) :=
  [(0%nat, at_lock 0 Idle Idle); (1%nat, at_lock 0 Xchg Idle); (0%nat, at_lock 0 Xchg Xchg);
   (1%nat, at_lock 1 Crit Xchg); (0%nat, at_lock 1 Crit Poll); (1%nat, at_lock 0 Idle Poll);
   (1%nat, at_lock 0 Idle Xchg); (1%nat, at_lock 1 Idle Crit)].

Definition turn (n : nat) : nat * config := nth (n mod 8) round (0%nat, at_lock 0 Idle Idle).
Definition rounds : run := mkRun (fun n => (turn n).2) (fun n => (turn n).1).

Lemma agree_guarded m m' : unchanged pair m m' -> agree m -> agree m'.
Proof.
  intros Hk Hm. unfold agree.
  rewrite !(getw_ext 8 m m'); [done|..]; intros b Hb; apply Hk;
    unfold outside; rewrite Forall_singleton; simpl; lia.
Qed.

Lemma turn_mod (n k : nat) : turn (n + k) = turn (n mod 8 + k).
Proof. unfold turn. by rewrite Nat.Div0.add_mod_idemp_l. Qed.

(** What holds at each turn of a round holds at every turn. *)
Lemma every_turn (P : nat -> Prop) (n : nat) : Forall P (seq 0 8) -> P (n mod 8)%nat.
Proof.
  intros HP. apply (proj1 (Forall_forall _ _) HP), elem_of_seq.
  pose proof (Nat.mod_upper_bound n 8). lia.
Qed.

Lemma at_lock_initial : initial (H := arm64_virt) lk agree (at_lock 0 Idle Idle).
Proof. split; [by repeat constructor|]. split; [done|]. by exists (set_mem cold_state ∅). Qed.

Lemma lock_move i p p' s s' pcs pcs' :
  pcs !! i = Some p -> p <> Crit -> spin_step (H := arm64_virt) lk p s = Ok p' s' ->
  <[i := p']> pcs = pcs' ->
  hart_step (H := arm64_virt) lk pair agree i (mkConfig s pcs) (mkConfig s' pcs').
Proof. intros Hi Hp Hs <-. by eapply step_lock. Qed.

Lemma unlock_move i s s' pcs pcs' :
  pcs !! i = Some Crit -> agree (k_mem s) -> spin_unlock (H := arm64_virt) lk s = Ok tt s' ->
  <[i := Idle]> pcs = pcs' ->
  hart_step (H := arm64_virt) lk pair agree i (mkConfig s pcs) (mkConfig s' pcs').
Proof. intros Hi Ha Hs <-. by eapply step_unlock. Qed.

Ltac hart_moves :=
  first [ eapply lock_move; [reflexivity|discriminate|vm_compute; reflexivity|reflexivity]
        | eapply unlock_move; [reflexivity|vm_compute; reflexivity|vm_compute; reflexivity|reflexivity] ].

Lemma turns_run (n : nat) :
  hart_step (H := arm64_virt) lk pair agree (turn n).1 (turn n).2 (turn (S n)).2.
Proof.
  rewrite <- (Nat.add_1_r n), (turn_mod n 1).
  replace (turn n) with (turn (n mod 8))
    by (rewrite <- (Nat.add_0_r n) at 2; by rewrite turn_mod, Nat.add_0_r).
  pattern (n mod 8)%nat. apply every_turn.
  repeat apply Forall_cons_2; [..|apply Forall_nil_2]; unfold turn; simpl; unfold at_lock; hart_moves.
Qed.

Lemma rounds_run : run_of (H := arm64_virt) lk pair agree rounds.
Proof. split; [apply reach_initial, at_lock_initial|exact turns_run]. Qed.

Ltac within k := first [exists k; first [reflexivity|discriminate] | within (S k)].

Lemma rounds_fair : fair rounds.
Proof.
  split; intros n i; simpl; replace (turn n) with (turn (n mod 8))
    by (rewrite <- (Nat.add_0_r n) at 2; by rewrite turn_mod, Nat.add_0_r);
    setoid_rewrite (turn_mod n); pattern (n mod 8)%nat; apply every_turn;
    (repeat apply Forall_cons_2; [..|apply Forall_nil_2]);
    unfold turn, waiting, critical; simpl;
    (destruct i as [|[|i]]; simpl; [..|try (intros [?|?]; discriminate); discriminate]);
    intros _; within 0%nat.
Qed.

Lemma spin_lock_excludes_witness :
  let c := at_lock 1 Crit Poll in
  reachable (H := arm64_virt) lk pair agree c /\
  (forall i j, critical c i -> critical c j -> i = j) /\
  (get32 (k_mem (c_state c)) lk = 0 <-> forall i, ~ critical c i) /\
  (forall i c', hart_step (H := arm64_virt) lk pair agree i c c' -> acquires c c' ->
     agree (k_mem (c_state c'))).
Proof.
  intros c.
  assert (Hr : reachable (H := arm64_virt) lk pair agree c).
  { eapply reach_step; [|exact (turns_run 3)]. eapply reach_step; [|exact (turns_run 2)].
    eapply reach_step; [|exact (turns_run 1)]. eapply reach_step; [|exact (turns_run 0)].
    apply reach_initial, at_lock_initial. }
  split; [exact Hr|].
  apply (@spin_lock_excludes arm64_virt lk pair agree c);
    [reflexivity|by repeat constructor|exact agree_guarded|exact Hr].
Defined.

Lemma spin_lock_progress_witness : waiting (r_config rounds 4) 1 /\ acquired_from rounds 4.
Proof.
  split; [by right|].
  apply (@spin_lock_progress arm64_virt lk pair agree rounds 4 1);
    [reflexivity|by repeat constructor|exact agree_guarded|exact rounds_run|exact rounds_fair|by right].
Defined.

Lemma spin_alone_is_spin_lock_witness :
  let s := c_state (at_lock 1 Idle Idle) in
  spin_alone (H := riscv_virt) 0x80210000 s = spin_lock (H := riscv_virt) 0x80210000 s /\
  spin_alone (H := arm64_virt) lk s = spin_lock (H := arm64_virt) lk s.
Proof.
  split; [apply (@spin_alone_is_spin_lock riscv_virt)|apply (@spin_alone_is_spin_lock arm64_virt)];
    reflexivity.
Defined.
End two_harts.
