(* ===== verification/Excl.v ===== *)
(** * The atomic operations, instruction by instruction

    include/sync/a64lock.hpp and include/sync/rvlock.hpp.  Their operations are
    short blocks of assembly, which other harts interleave with: loops around
    [ldaxr] and [stlxr] on arm64, one or two instructions around an [amo] on
    RISC-V.  Here each block is the list of its instructions, a step of the
    machine is one instruction of one hart, and the theorem is that harts
    calling these blocks in any order see what they would if each operation of
    [Sync] happened at once, at some moment between its call and its return.

    Of an arm64 processor the model has the exclusive monitor and the event
    register of each hart.  An exclusive store may fail for no reason; a write
    to the word clears the monitor of every other hart, which also sets its
    event register; [wfe] goes on once the event register is set, and an event
    may come at any time.  Instructions take effect in program order, with one
    exception: nothing in [atomic_store_release] makes the [sev] wait for the
    [stlr] before it, so the model is given whether it does ([Order]).  What is
    proved here holds either way; that no wake-up is lost ([ExclLock],
    [ExclFair]) holds when it does, and only then. *)

From S2P Require Import Prelude Machine Logic Boards Sync.

(** ** Instructions *)

(** The operands of the blocks: [ptr] is the word, and the [tmp] of RISC-V's
    [atomic_fetch_sub] is in [new_val]. *)
Inductive reg := old_val | new_val | status | val.

Inductive insn :=
| Ldaxr (d : reg)
| Stxr (st v : reg)
| Cbnz (r : reg) (target : nat)
| Add (d a b : reg)
| Sub (d a b : reg)
| Ldr (d : reg)
| Stlr (v : reg)
| Sev
| Wfe
| Amoswap (d v : reg)
| Amoadd (d v : reg)
| Neg (d a : reg)
| SwZero
| Fence.

(** These are instructions above with an order that harts which take effect one
    instruction at a time have anyway. *)
Abbreviation Ldar := Ldr.
Abbreviation Lw := Ldr.
Abbreviation Stlxr := Stxr.

Record regs := mkRegs { r_old : Z; r_new : Z; r_status : Z; r_val : Z }.

Definition get_reg (g : regs) (r : reg) : Z :=
  match r with old_val => r_old g | new_val => r_new g | status => r_status g | val => r_val g end.

Definition set_reg (g : regs) (r : reg) (x : Z) : regs :=
  match r with
  | old_val => mkRegs x (r_new g) (r_status g) (r_val g)
  | new_val => mkRegs (r_old g) x (r_status g) (r_val g)
  | status => mkRegs (r_old g) (r_new g) x (r_val g)
  | val => mkRegs (r_old g) (r_new g) (r_status g) x
  end.

(** Whether a [sev] takes effect after the stores before it.  The architecture
    asks for a [dsb] between the two, which the code does not have.  Where it
    does not, the event may come before the store can be seen, as one like any
    other, and nothing comes when the [sev] is over. *)
Class Order := sev_in_order : bool.

(** ** The blocks *)

(** What a hart calls, with its argument.  [Read] is the plain read of the word
    in [spin_lock]. *)
Inductive call :=
| Exchange (v : Z) | Store (v : Z) | Load | Read | FetchAdd (v : Z) | FetchSub (v : Z) | Relax.

Definition arm64_cpu_relax_asm : list insn := [Wfe].

Definition arm64_exchange_acquire_asm : list insn :=
  [Ldaxr old_val; Stxr status new_val; Cbnz status 0].

Definition arm64_store_release_asm : list insn := [Stlr new_val; Sev].

Definition arm64_load_asm : list insn := [Ldar old_val].

Definition arm64_fetch_add_asm : list insn :=
  [Ldaxr old_val; Add new_val old_val val; Stlxr status new_val; Cbnz status 0].

Definition arm64_fetch_sub_asm : list insn :=
  [Ldaxr old_val; Sub new_val old_val val; Stlxr status new_val; Cbnz status 0].

Definition riscv_cpu_relax_asm : list insn := [Fence].

Definition riscv_exchange_acquire_asm : list insn := [Amoswap old_val new_val].

Definition riscv_store_release_asm : list insn := [Fence; SwZero].

Definition riscv_load_asm : list insn := [Lw old_val; Fence].

Definition riscv_fetch_add_asm : list insn := [Amoadd old_val val].

Definition riscv_fetch_sub_asm : list insn := [Neg new_val val; Amoadd old_val new_val].

Definition code (isa : arch_t) (c : call) : list insn :=
  match isa, c with
  | ARM64, Exchange _ => arm64_exchange_acquire_asm
  | ARM64, Store _ => arm64_store_release_asm
  | ARM64, Load => arm64_load_asm
  | ARM64, FetchAdd _ => arm64_fetch_add_asm
  | ARM64, FetchSub _ => arm64_fetch_sub_asm
  | ARM64, Relax => arm64_cpu_relax_asm
  | RISCV, Exchange _ => riscv_exchange_acquire_asm
  | RISCV, Store _ => riscv_store_release_asm
  | RISCV, Load => riscv_load_asm
  | RISCV, FetchAdd _ => riscv_fetch_add_asm
  | RISCV, FetchSub _ => riscv_fetch_sub_asm
  | RISCV, Relax => riscv_cpu_relax_asm
  | _, Read => [Ldr old_val]
  end.

(** The arguments are in their registers; the outputs hold anything. *)
Definition loaded (c : call) (g : regs) : Prop :=
  match c with
  | Exchange v | Store v => r_new g = v
  | FetchAdd v | FetchSub v => r_val g = v
  | Load | Read | Relax => True
  end.

#[global] Instance loaded_dec c g : Decision (loaded c g).
Proof. destruct c; simpl; apply _. Defined.

(** What a call returns, 0 for [void]. *)
Definition result (c : call) (g : regs) : Z :=
  match c with Store _ | Relax => 0 | _ => r_old g end.

(** ** Harts *)

(** A block that is running. *)
Record frame := mkFrame { f_call : call; f_pc : nat; f_regs : regs }.

(** A hart of some program, whose places are in [C]. *)
Record hart C := mkHart {
  h_at : C;
  h_frame : option frame;
  h_monitor : bool;
  h_event : bool
}.
Arguments mkHart {C}.
Arguments h_at {C}.
Arguments h_frame {C}.
Arguments h_monitor {C}.
Arguments h_event {C}.

Record machine C := mkMachine { x_state : kstate; x_harts : list (hart C) }.
Arguments mkMachine {C}.
Arguments x_state {C}.
Arguments x_harts {C}.

(** What the other harts notice of an instruction. *)
Inductive signal := Quiet | Wrote | Event.

Definition notice {C} (sg : signal) (h : hart C) : hart C :=
  match sg with
  | Quiet => h
  | Wrote => mkHart (h_at h) (h_frame h) false (h_monitor h || h_event h)
  | Event => mkHart (h_at h) (h_frame h) (h_monitor h) true
  end.

Section blocks.
Context {sev_order : Order} (isa : arch_t) (ptr : Z).

(** One instruction on the word, the registers, the monitor and the event
    register of its hart; [ok] is whether an exclusive store that can succeed
    does, and whether a [sev] that need not take effect late does.  [None]: it
    does not complete. *)
Definition exec (ok : bool) (o : insn) (s : kstate) (f : frame) (mon ev : bool) :
    option (kstate * frame * bool * bool * signal) :=
  let 'mkFrame c pc g := f in
  let next g := mkFrame c (S pc) g in
  match o with
  | Ldaxr d => Some (s, next (set_reg g d (get32 (k_mem s) ptr)), true, ev, Quiet)
  | Stxr st v =>
      if mon && ok
      then Some (set_mem s (put32 (k_mem s) ptr (get_reg g v)), next (set_reg g st 0), false, ev, Wrote)
      else Some (s, next (set_reg g st 1), false, ev, Quiet)
  | Cbnz r target =>
      Some (s, mkFrame c (if get_reg g r =? 0 then S pc else target) g, mon, ev, Quiet)
  | Add d a b => Some (s, next (set_reg g d (wrap32 (get_reg g a + get_reg g b))), mon, ev, Quiet)
  | Sub d a b => Some (s, next (set_reg g d (wrap32 (get_reg g a - get_reg g b))), mon, ev, Quiet)
  | Ldr d => Some (s, next (set_reg g d (get32 (k_mem s) ptr)), mon, ev, Quiet)
  | Stlr v => Some (set_mem s (put32 (k_mem s) ptr (get_reg g v)), next g, mon, ev, Wrote)
  | Sev => if sev_in_order || ok then Some (s, next g, mon, true, Event) else Some (s, next g, mon, ev, Quiet)
  | Wfe => if ev then Some (s, next g, mon, false, Quiet) else None
  | Amoswap d v =>
      Some (set_mem s (put32 (k_mem s) ptr (get_reg g v)),
            next (set_reg g d (get32 (k_mem s) ptr)), mon, ev, Wrote)
  | Amoadd d v =>
      Some (set_mem s (put32 (k_mem s) ptr (wrap32 (get32 (k_mem s) ptr + get_reg g v))),
            next (set_reg g d (get32 (k_mem s) ptr)), mon, ev, Wrote)
  | Neg d a => Some (s, next (set_reg g d (wrap64 (- get_reg g a))), mon, ev, Quiet)
  | SwZero => Some (set_mem s (put32 (k_mem s) ptr 0), next g, mon, ev, Wrote)
  | Fence => Some (s, next g, mon, ev, Quiet)
  end.

(** ** The machine *)

Context {C : Type}.
(** The program: what it calls at each place, where it goes with the result, and
    its steps outside the blocks. *)
Context (calls : C -> option call) (returns : C -> Z -> C)
        (silent : C -> kstate -> C -> kstate -> Prop).

Inductive event := Called (i : nat) (c : call) | Returned (i : nat) (c : call) (r : Z).

Inductive step (i : nat) : option event -> machine C -> machine C -> Prop :=
| step_call s hs p c g mon ev :
    hs !! i = Some (mkHart p None mon ev) -> calls p = Some c -> loaded c g ->
    step i (Some (Called i c)) (mkMachine s hs)
         (mkMachine s (<[i := mkHart p (Some (mkFrame c 0 g)) mon ev]> hs))
| step_insn ok o s hs p f mon ev s' f' mon' ev' sg :
    hs !! i = Some (mkHart p (Some f) mon ev) -> code isa (f_call f) !! f_pc f = Some o ->
    exec ok o s f mon ev = Some (s', f', mon', ev', sg) ->
    step i None (mkMachine s hs)
         (mkMachine s' (<[i := mkHart p (Some f') mon' ev']> (notice sg <$> hs)))
| step_return s hs p c g mon ev :
    hs !! i = Some (mkHart p (Some (mkFrame c (length (code isa c)) g)) mon ev) ->
    step i (Some (Returned i c (result c g))) (mkMachine s hs)
         (mkMachine s (<[i := mkHart (returns p (result c g)) None mon ev]> hs))
| step_silent s hs p p' s' mon ev :
    hs !! i = Some (mkHart p None mon ev) -> silent p s p' s' ->
    step i None (mkMachine s hs) (mkMachine s' (<[i := mkHart p' None mon ev]> hs))
| step_event s hs p f mon ev :
    hs !! i = Some (mkHart p f mon ev) ->
    step i None (mkMachine s hs) (mkMachine s (<[i := mkHart p f mon true]> hs)).

(** Before the program starts: no block is running, no monitor is set. *)
Definition at_start (x : machine C) : Prop :=
  Forall (fun h => h_frame h = None /\ h_monitor h = false) (x_harts x).

Definition emit (e : option event) (tr : list event) : list event :=
  match e with Some e => tr ++ [e] | None => tr end.

(** The machine's runs, with their calls and returns. *)
Inductive runs (x0 : machine C) : list event -> machine C -> Prop :=
| runs_start : runs x0 [] x0
| runs_step tr x i e x' : runs x0 tr x -> step i e x x' -> runs x0 (emit e tr) x'.

(** ** Playing a schedule *)

(** A scheduled step: [Begin g] starts the call of the hart's place with
    registers [g], [Go ok] is its next instruction, or its return. *)
Inductive move := Begin (g : regs) | Go (ok : bool) | Walk (p : C) | Wake.

(** The steps outside the blocks that keep the state. *)
Context (walks : C -> kstate -> C -> bool)
        (walks_ok : forall p s p', walks p s p' = true -> silent p s p' s).

Definition play1 (i : nat) (mv : move) (x : machine C) : option (option event * machine C) :=
  let 'mkMachine s hs := x in
  match hs !! i with None => None | Some (mkHart p f mon ev) =>
  match mv, f with
  | Begin g, None =>
      match calls p with None => None | Some c =>
      if decide (loaded c g)
      then Some (Some (Called i c), mkMachine s (<[i := mkHart p (Some (mkFrame c 0 g)) mon ev]> hs))
      else None end
  | Go ok, Some (mkFrame c pc g) =>
      match code isa c !! pc with
      | Some o =>
          match exec ok o s (mkFrame c pc g) mon ev with
          | Some (s', f', mon', ev', sg) =>
              Some (None, mkMachine s' (<[i := mkHart p (Some f') mon' ev']> (notice sg <$> hs)))
          | None => None
          end
      | None =>
          if (pc =? length (code isa c))%nat
          then Some (Some (Returned i c (result c g)),
                     mkMachine s (<[i := mkHart (returns p (result c g)) None mon ev]> hs))
          else None
      end
  | Walk p', None =>
      if walks p s p' then Some (None, mkMachine s (<[i := mkHart p' None mon ev]> hs)) else None
  | Wake, _ => Some (None, mkMachine s (<[i := mkHart p f mon true]> hs))
  | _, _ => None
  end end.

Fixpoint play (sched : list (nat * move)) (tr : list event) (x : machine C) : option (list event * machine C) :=
  match sched with
  | [] => Some (tr, x)
  | (i, mv) :: sched =>
      match play1 i mv x with Some (e, x') => play sched (emit e tr) x' | None => None end
  end.

Lemma play1_step i mv x e x' : play1 i mv x = Some (e, x') -> step i e x x'.
Proof.
  destruct x as [s hs]. unfold play1. intros Hp.
  destruct (hs !! i) as [[p f mon ev]|] eqn:Hi; [|done].
  destruct mv as [g|ok|p'|], f as [[c pc g']|]; try done; repeat case_match; simplify_eq.
  - eapply step_call; eauto.
  - by eapply step_insn.
  - match goal with H : (_ =? _)%nat = true |- _ => apply Nat.eqb_eq in H; subst end.
    by eapply step_return.
  - eapply step_silent; eauto.
  - by eapply step_event.
  - by eapply step_event.
Qed.

Lemma play_runs x0 sched : forall tr x tr' x',
  runs x0 tr x -> play sched tr x = Some (tr', x') -> runs x0 tr' x'.
Proof.
  induction sched as [|[i mv] sched IH]; intros tr x tr' x' Hr Hp; simpl in Hp; [by simplify_eq|].
  destruct (play1 i mv x) as [[e x1]|] eqn:H1; [|done].
  eapply IH; [|exact Hp]. eapply runs_step; [exact Hr|by eapply play1_step].
Qed.
End blocks.

(** ** Each call at once *)

(** What a call does when nothing comes between its instructions: the operation
    of [Sync]. *)
Definition perform `{Platform} (ptr : Z) (c : call) : M Z :=
  match c with
  | Exchange v => atomic_exchange_acquire ptr v
  | Store v => atomic_store_release ptr v ;; ret 0
  | Load => atomic_load ptr
  | Read => load32 ptr
  | FetchAdd v => atomic_fetch_add ptr v
  | FetchSub v => atomic_fetch_sub ptr v
  | Relax => cpu_relax ;; ret 0
  end.

(** The calls one after the other, each returning what is noted with it. *)
Fixpoint replay `{Platform} (ptr : Z) (log : list (call * Z)) (s s' : kstate) : Prop :=
  match log with
  | [] => s' = s
  | (c, r) :: log => exists s1, perform ptr c s = Ok r s1 /\ replay ptr log s1 s'
  end.

(** A run with a mark where each call takes effect. *)
Inductive mark := Seen (e : event) | Performed (i : nat) (c : call) (r : Z).

Definition visible (ms : list mark) : list event :=
  omap (fun m => match m with Seen e => Some e | Performed _ _ _ => None end) ms.

Definition performed (ms : list mark) : list (call * Z) :=
  omap (fun m => match m with Seen _ => None | Performed _ c r => Some (c, r) end) ms.

Definition mark_hart (m : mark) : nat :=
  match m with Seen (Called i _) | Seen (Returned i _ _) | Performed i _ _ => i end.

(** A hart calls, then the call takes effect, then it returns that answer. *)
Inductive phase := Free | Asked (c : call) | Answered (c : call) (r : Z).

#[global] Instance call_eq_dec : EqDecision call.
Proof. solve_decision. Defined.

Definition advance (i : nat) (p : option phase) (m : mark) : option phase :=
  if decide (mark_hart m = i) then
    match p, m with
    | Some Free, Seen (Called _ c) => Some (Asked c)
    | Some (Asked c), Performed _ c' r => if decide (c' = c) then Some (Answered c r) else None
    | Some (Answered c r), Seen (Returned _ c' r') =>
        if decide (c' = c /\ r' = r) then Some Free else None
    | _, _ => None
    end
  else p.

Definition obeys (i : nat) (ms : list mark) : option phase := foldl (advance i) (Some Free) ms.

Section atomic.
Context `{Platform} {sev_order : Order} (isa : arch_t) (ptr : Z).

Abbreviation word s := (get32 (k_mem s) ptr).

(** Whether a block ends in an exclusive store, which may fail, *)
Definition exclusive (c : call) : bool :=
  match isa, c with
  | ARM64, (Exchange _ | FetchAdd _ | FetchSub _) => true
  | _, _ => false
  end.

(** and where the instruction is at which it takes effect. *)
Definition effect_pc (c : call) : nat :=
  match isa, c with
  | ARM64, Exchange _ => 1
  | ARM64, (FetchAdd _ | FetchSub _) => 2
  | RISCV, (Store _ | FetchSub _) => 1
  | _, _ => 0
  end.

(** The call of a frame has taken effect. *)
Definition took_effect (f : frame) : bool :=
  let 'mkFrame c pc g := f in
  if exclusive c
  then (pc =? S (effect_pc c))%nat && (r_status g =? 0) || (S (S (effect_pc c)) <=? pc)%nat
  else (S (effect_pc c) <=? pc)%nat.

(** What a read-modify-write makes of the word. *)
Definition update (c : call) (old : Z) : Z :=
  match c with
  | Exchange v => v
  | FetchAdd v => wrap32 (old + v)
  | FetchSub v => wrap32 (old - v)
  | _ => old
  end.

(** What [new_val] holds when that instruction comes. *)
Definition prepared (c : call) (old : Z) : option Z :=
  match isa, c with
  | ARM64, (Exchange _ | FetchAdd _ | FetchSub _) => Some (update c old)
  | RISCV, FetchSub v => Some (wrap64 (- v))
  | _, _ => None
  end.

(** A set monitor vouches for the value that was read. *)
Definition frame_ok (w : Z) (mon : bool) (f : frame) : Prop :=
  let 'mkFrame c pc g := f in
  loaded c g /\ (pc <= length (code isa c))%nat /\
  (mon = true -> exclusive c = true /\ (0 < pc <= effect_pc c)%nat /\ r_old g = w) /\
  (pc = effect_pc c -> (0 < pc)%nat -> forall x, prepared c (r_old g) = Some x -> r_new g = x).

Lemma took_effect_start c g : took_effect (mkFrame c 0 g) = false.
Proof. unfold took_effect, exclusive, effect_pc. by destruct isa, c. Qed.

Lemma took_effect_done c g : took_effect (mkFrame c (length (code isa c)) g) = true.
Proof. unfold took_effect, exclusive, effect_pc. by destruct isa, c. Qed.

Lemma effect_pc_lt c : (effect_pc c < length (code isa c))%nat.
Proof. unfold effect_pc. destruct isa, c; simpl; lia. Qed.

Definition hart_ok {C} (w : Z) (h : hart C) : Prop :=
  match h_frame h with Some f => frame_ok w (h_monitor h) f | None => h_monitor h = false end.

Definition phase_of {C} (h : hart C) : phase :=
  match h_frame h with
  | None => Free
  | Some f => if took_effect f then Answered (f_call f) (result (f_call f) (f_regs f))
              else Asked (f_call f)
  end.

(** What an instruction does to its call: nothing to be seen, or all of it. *)
Definition tau_insn (s s' : kstate) (f f' : frame) : Prop :=
  s' = s /\ took_effect f' = took_effect f /\
  (took_effect f = true -> result (f_call f') (f_regs f') = result (f_call f) (f_regs f)).

Definition answer (c : call) (w : Z) : Z :=
  match c with Store _ | Relax => 0 | _ => w end.

(** RISC-V's [atomic_store_release] stores 0, whatever its argument. *)
Definition stored (v : Z) : Z := match isa with ARM64 => v | RISCV => 0 end.

Definition written (c : call) (w : Z) : Z :=
  match c with
  | Exchange _ | FetchAdd _ | FetchSub _ => wrap32 (update c w)
  | Store v => wrap32 (stored v)
  | Load | Read | Relax => w
  end.

Definition after (c : call) (s : kstate) : kstate :=
  match c with
  | Exchange _ | FetchAdd _ | FetchSub _ => set_mem s (put32 (k_mem s) ptr (update c (word s)))
  | Store v => set_mem s (put32 (k_mem s) ptr (stored v))
  | Load | Read | Relax => s
  end.

Definition effect_insn (s s' : kstate) (f f' : frame) : Prop :=
  took_effect f = false /\ took_effect f' = true /\
  result (f_call f') (f_regs f') = answer (f_call f) (word s) /\ s' = after (f_call f) s.

Lemma word_put m v : get32 (put32 m ptr v) ptr = wrap32 v.
Proof. apply (getw_putw_mod 4). Qed.

Lemma word_after c s : word (after c s) = written c (word s).
Proof. destruct c; simpl; by rewrite ?word_put. Qed.

Lemma exec_effect ok o s f mon ev s' f' mon' ev' sg :
  frame_ok (word s) mon f -> code isa (f_call f) !! f_pc f = Some o ->
  exec ptr ok o s f mon ev = Some (s', f', mon', ev', sg) ->
  f_call f' = f_call f /\ frame_ok (word s') mon' f' /\ (sg <> Wrote -> word s' = word s) /\
  (tau_insn s s' f f' \/ effect_insn s s' f f').
Proof.
  destruct f as [c pc g]. intros (Hl & Hpc & Hmon & Hnew) Ho He.
  unfold tau_insn, effect_insn, frame_ok, took_effect, after, exclusive, prepared, effect_pc, code, stored in *.
  destruct isa; destruct c; destruct pc as [|[|[|[|pc]]]]; simpl in *; simplify_eq/=;
    repeat (case_match; simplify_eq/=); rewrite ?word_put, ?orb_false_r;
    repeat match goal with
      | H : _ && _ = true |- _ => apply andb_prop in H as [-> ->]
      | H : (_ =? _) = _ |- _ => rewrite H
      end;
    try (destruct (Hmon eq_refl) as (? & _ & <-)); try (destruct mon'; [by destruct (Hmon eq_refl) as (? & ? & _); lia|]);
    try (specialize (Hnew eq_refl ltac:(lia) _ eq_refl));
    rewrite ?Hnew, ?wrap32_add_neg; try (by intuition (try lia; try congruence)).
Qed.

Lemma hart_ok_notice {C} w w' sg (h : hart C) :
  (sg <> Wrote -> w' = w) -> hart_ok w h -> hart_ok w' (notice sg h).
Proof.
  destruct sg; simpl; intros Hw.
  - by rewrite Hw.
  - destruct h as [p [[c pc g]|] mon ev]; [|done]. intros (Hl & Hp & _ & Hn). by split_and!.
  - rewrite Hw by done. by destruct h.
Qed.

Lemma phase_of_notice {C} sg (h : hart C) : phase_of (notice sg h) = phase_of h.
Proof. by destruct sg. Qed.

(** The blocks are those of the board's architecture. *)
Context (isa_arch : arch = isa) (ptr_valid : valid ptr 4 = true).

Lemma perform_run c s :
  exists s1, perform ptr c s = Ok (answer c (word s)) s1 /\ word s1 = written c (word s).
Proof.
  cut (safe (perform ptr c) s (fun r s1 => r = answer c (word s) /\ word s1 = written c (word s))).
  { intros (r & s1 & Hr & -> & Hs)%safe_run. eauto. }
  destruct c; unfold perform, atomic_exchange_acquire, atomic_load, cpu_relax; wp_steps; simpl;
    rewrite ?word_put; try done;
    [apply wp_store_release|apply wp_fetch_add|apply wp_fetch_sub]; try done; rewrite ?isa_arch;
    wp_steps; simpl; by rewrite word_put.
Qed.

Lemma replay_snoc log c r s s1 s2 :
  replay ptr log s s1 -> perform ptr c s1 = Ok r s2 -> replay ptr (log ++ [(c, r)]) s s2.
Proof.
  revert s. induction log as [|[c' r'] log IH]; intros s; simpl; [intros ->; eauto|].
  intros (s' & Hp & Hr) Hc. eauto.
Qed.

Lemma obeys_snoc i ms m : obeys i (ms ++ [m]) = advance i (obeys i ms) m.
Proof. apply foldl_snoc. Qed.

Lemma visible_snoc ms m : visible (ms ++ [m]) = visible ms ++ visible [m].
Proof. apply omap_app. Qed.

Lemma performed_snoc ms m : performed (ms ++ [m]) = performed ms ++ performed [m].
Proof. apply omap_app. Qed.

Section runs.
Context {C : Type} (calls : C -> option call) (returns : C -> Z -> C)
        (silent : C -> kstate -> C -> kstate -> Prop).
(** What a hart does between its calls leaves the word alone. *)
Context (silent_word : forall p s p' s', silent p s p' s' -> word s' = word s).
Context (x0 : machine C) (start : at_start x0).

Abbreviation phase_at x i := (from_option phase_of Free (x_harts x !! i)).

Definition harts_ok (x : machine C) : Prop := Forall (hart_ok (word (x_state x))) (x_harts x).

(** The marks of a run so far. *)
Definition marked (tr : list event) (x : machine C) (ms : list mark) : Prop :=
  visible ms = tr /\
  (exists s', replay ptr (performed ms) (x_state x0) s' /\ word s' = word (x_state x)) /\
  forall i, obeys i ms = Some (phase_at x i).

Lemma step_harts_ok i e x x' : step isa ptr calls returns silent i e x x' -> harts_ok x -> harts_ok x'.
Proof.
  unfold harts_ok. intros Hs Hok.
  assert (Hat : forall h, x_harts x !! i = Some h -> hart_ok (word (x_state x)) h)
    by (intros h; apply (proj1 (Forall_lookup _ _) Hok)).
  destruct Hs as [s hs p c g mon ev Hi _ Hl|ok o s hs p f mon ev s' f' mon' ev' sg Hi Ho He
                 |s hs p c g mon ev Hi|s hs p p' s' mon ev Hi Hs|s hs p f mon ev Hi];
    apply Hat in Hi; unfold hart_ok in Hi; simpl in *.
  - apply Forall_insert; [done|]. unfold hart_ok, frame_ok. simpl. subst. split_and!; [done|lia|done|lia].
  - destruct (exec_effect _ _ _ _ _ _ _ _ _ _ _ Hi Ho He) as (_ & Hf & Hw & _).
    apply Forall_insert; [|done]. apply Forall_fmap. eapply Forall_impl; [exact Hok|].
    intros h Hh. by eapply hart_ok_notice.
  - apply Forall_insert; [done|]. destruct Hi as (_ & _ & Hm & _).
    unfold hart_ok. simpl. destruct mon; [|done].
    destruct (Hm eq_refl) as (_ & ? & _). pose proof (effect_pc_lt c). lia.
  - rewrite (silent_word _ _ _ _ Hs). by apply Forall_insert.
  - by apply Forall_insert.
Qed.

(** A step that moves no hart to another phase needs no mark; *)
Lemma marked_same tr x x' ms :
  marked tr x ms -> word (x_state x') = word (x_state x) ->
  (forall j, phase_at x' j = phase_at x j) -> marked tr x' ms.
Proof.
  intros (Hv & Hr & Ho) Hw Hp. split_and!; [done|by rewrite Hw|]. intros j. by rewrite Ho, Hp.
Qed.

(** one that does moves one hart, as its mark says. *)
Lemma marked_snoc m tr x x' ms :
  marked tr x ms ->
  match m with
  | Seen _ => word (x_state x') = word (x_state x)
  | Performed _ c r => r = answer c (word (x_state x)) /\
                       word (x_state x') = written c (word (x_state x))
  end ->
  (forall j, j <> mark_hart m -> phase_at x' j = phase_at x j) ->
  advance (mark_hart m) (Some (phase_at x (mark_hart m))) m = Some (phase_at x' (mark_hart m)) ->
  marked (tr ++ visible [m]) x' (ms ++ [m]).
Proof.
  intros (Hv & (s' & Hr & Hw) & Ho) Hm Hne Heq. split_and!.
  - by rewrite visible_snoc, Hv.
  - rewrite performed_snoc. destruct m as [|i c r]; simpl; [rewrite app_nil_r, Hm; eauto|].
    destruct Hm as [-> ->]. destruct (perform_run c s') as (s1 & Hp & Hw1). rewrite Hw in Hp, Hw1.
    exists s1. split; [by eapply replay_snoc|done].
  - intros j. rewrite obeys_snoc, Ho. destruct (decide (j = mark_hart m)) as [->|Hj]; [done|].
    unfold advance. by rewrite decide_False, Hne.
Qed.

Lemma phase_insert (hs : list (hart C)) i h h' j sg :
  hs !! i = Some h ->
  from_option phase_of Free (<[i := h']> (notice sg <$> hs) !! j) =
  if decide (j = i) then phase_of h' else from_option phase_of Free (hs !! j).
Proof.
  intros Hi. case_decide as Hj; [subst j|].
  - rewrite list_lookup_insert_eq; [done|]. rewrite length_fmap. by eapply lookup_lt_Some.
  - rewrite list_lookup_insert_ne, list_lookup_fmap by done. destruct (hs !! j); [|done].
    apply phase_of_notice.
Qed.

Lemma phase_insert_quiet (hs : list (hart C)) i h h' j :
  hs !! i = Some h ->
  from_option phase_of Free (<[i := h']> hs !! j) =
  if decide (j = i) then phase_of h' else from_option phase_of Free (hs !! j).
Proof. intros Hi. rewrite <- (phase_insert hs i h h' j Quiet Hi). by rewrite list_fmap_id. Qed.

Lemma insn_marked ok o i s hs p f mon ev s' f' mon' ev' sg tr ms :
  hs !! i = Some (mkHart p (Some f) mon ev) -> frame_ok (word s) mon f ->
  code isa (f_call f) !! f_pc f = Some o -> exec ptr ok o s f mon ev = Some (s', f', mon', ev', sg) ->
  marked tr (mkMachine s hs) ms ->
  exists ms', marked tr (mkMachine s' (<[i := mkHart p (Some f') mon' ev']> (notice sg <$> hs))) ms'.
Proof.
  intros Hi Hf Ho He Hm.
  destruct (exec_effect _ _ _ _ _ _ _ _ _ _ _ Hf Ho He) as (Hc & _ & _ & [(-> & Ht & Hr)|(Hn & Ht & Hr & ->)]).
  - exists ms. eapply marked_same; [exact Hm|done|]. intros j. simpl. rewrite (phase_insert _ _ _ _ _ _ Hi).
    case_decide as Hj; [|done]. subst j. rewrite Hi. unfold phase_of. simpl. rewrite Ht, Hc in *.
    destruct (took_effect f); [|done]. by rewrite Hr.
  - exists (ms ++ [Performed i (f_call f) (result (f_call f') (f_regs f'))]).
    rewrite <- (app_nil_r tr).
    eapply (marked_snoc (Performed i (f_call f) _)); simpl; [exact Hm|by rewrite word_after|..].
    + intros j Hj. by rewrite (phase_insert _ _ _ _ _ _ Hi), decide_False.
    + cbn [x_harts]. rewrite (phase_insert _ _ _ _ _ _ Hi), !decide_True, Hi by done. unfold phase_of, advance. simpl.
      by rewrite Hn, Ht, !decide_True, Hc by done.
Qed.

Lemma step_marked i e x x' tr ms :
  step isa ptr calls returns silent i e x x' -> harts_ok x -> marked tr x ms ->
  exists ms', marked (emit e tr) x' ms'.
Proof.
  intros Hs Hok Hm.
  assert (Hat : forall h, x_harts x !! i = Some h -> hart_ok (word (x_state x)) h)
    by (intros h; apply (proj1 (Forall_lookup _ _) Hok)).
  destruct Hs as [s hs p c g mon ev Hi _ Hl|ok o s hs p f mon ev s' f' mon' ev' sg Hi Ho He
                 |s hs p c g mon ev Hi|s hs p p' s' mon ev Hi Hs|s hs p f mon ev Hi]; simpl in *.
  - exists (ms ++ [Seen (Called i c)]).
    eapply (marked_snoc (Seen (Called i c))); simpl; [exact Hm|done|..].
    + intros j Hj. by rewrite (phase_insert_quiet _ _ _ _ _ Hi), decide_False.
    + cbn [x_harts]. rewrite (phase_insert_quiet _ _ _ _ _ Hi), decide_True, Hi by done. unfold phase_of, advance. cbn -[took_effect].
      by rewrite took_effect_start, decide_True by done.
  - eapply insn_marked; [exact Hi|exact (Hat _ Hi)|done..].
  - exists (ms ++ [Seen (Returned i c (result c g))]).
    eapply (marked_snoc (Seen (Returned i c _))); simpl; [exact Hm|done|..].
    + intros j Hj. by rewrite (phase_insert_quiet _ _ _ _ _ Hi), decide_False.
    + cbn [x_harts]. rewrite (phase_insert_quiet _ _ _ _ _ Hi), decide_True, Hi by done. unfold phase_of, advance. cbn -[took_effect].
      by rewrite took_effect_done, !decide_True by done.
  - exists ms. eapply marked_same; [exact Hm|by eapply silent_word|]. intros j. simpl.
    rewrite (phase_insert_quiet _ _ _ _ _ Hi). case_decide; [|done]. subst j. by rewrite Hi.
  - exists ms. eapply marked_same; [exact Hm|done|]. intros j. simpl.
    rewrite (phase_insert_quiet _ _ _ _ _ Hi). case_decide; [|done]. subst j. by rewrite Hi.
Qed.

Lemma runs_marked tr x :
  runs isa ptr calls returns silent x0 tr x -> harts_ok x /\ exists ms, marked tr x ms.
Proof.
  induction 1 as [|tr x i e x' _ [Hok [ms Hms]] Hs].
  - split.
    + eapply Forall_impl; [exact start|]. intros h [Hf Hm]. unfold hart_ok. by rewrite Hf.
    + exists []. split_and!; [done|by exists (x_state x0)|]. intros i. unfold obeys. simpl.
      destruct (_ !! i) as [h|] eqn:Hi; [|done]. simpl.
      apply (proj1 (Forall_lookup _ _) start) in Hi as [Hf _]. unfold phase_of. by rewrite Hf.
  - split; [by eapply step_harts_ok|by eapply step_marked].
Qed.
End runs.
End atomic.

(** C17: The assembly blocks are atomic, on both architectures: however harts
    interleave the instructions of their calls, whichever exclusive stores fail,
    and whether or not a [sev] may overtake the store before it, the run can be marked with one moment for each call that took effect,
    between its call and its return, such that the operations of [Sync] done at
    once at those moments, in that order, return what the harts were given and
    leave the word as it is. *)
Theorem blocks_atomic `{Platform} {sev_order : Order} {C} ptr (calls : C -> option call) returns silent x0 tr x :
  valid ptr 4 = true ->
  (forall p s p' s', silent p s p' s' -> get32 (k_mem s') ptr = get32 (k_mem s) ptr) ->
  at_start x0 -> runs arch ptr calls returns silent x0 tr x ->
  exists ms, visible ms = tr /\
    (exists s', replay ptr (performed ms) (x_state x0) s' /\
                get32 (k_mem s') ptr = get32 (k_mem (x_state x)) ptr) /\
    forall i, is_Some (obeys i ms).
Proof.
  intros Hv Hs H0 Hr.
  destruct (runs_marked arch ptr eq_refl Hv calls returns silent Hs x0 H0 tr x Hr) as [_ (ms & Ht & Hw & Ho)].
  exists ms. split_and!; [done..|]. intros i. by rewrite Ho.
Qed.

(** ** Two harts at one counter *)

Section contention.
#[local] Instance contention_order : Order := false.
Abbreviation ctr a := (match a with ARM64 => 0x40090100 | RISCV => 0x80211100 end).

(** A program that makes the calls of a list, whatever they return. *)
Definition no_walk (p : list call) (s : kstate) (p' : list call) (s' : kstate) : Prop := False.

Definition counter_at (a : arch_t) (w : Z) : machine (list call) :=
  mkMachine (set_mem cold_state (put32 ∅ (ctr a) w))
    [mkHart [FetchAdd 5; Load] None false false; mkHart [FetchSub 7; Exchange 1] None false false].

Definition junk (v : Z) : regs := mkRegs 3 v 9 v.

Abbreviation once i := (i%nat, Go true).
Abbreviation begins := [(0%nat, Begin (junk 5)); (1%nat, Begin (junk 7))].

(** Both harts are in their calls when hart 1 changes the counter; on arm64 both
    have read it, so hart 0 goes round again. *)
Definition contended (a : arch_t) : list (nat * move (C := list call)) :=
  match a with
  | ARM64 => begins ++ [once 0; once 1; once 0; once 1; once 1; once 0; once 1; once 0; once 1; once 0;
                        once 0; once 0; once 0; once 0; (1%nat, Begin (junk 1)); once 1]
  | RISCV => begins ++ [once 1; once 1; once 0; once 1; once 0; (1%nat, Begin (junk 1))]
  end.

Definition contention_trace : list event :=
  [Called 0 (FetchAdd 5); Called 1 (FetchSub 7); Returned 1 (FetchSub 7) 2;
   Returned 0 (FetchAdd 5) (2 ^ 32 - 5); Called 1 (Exchange 1)].

Abbreviation played a :=
  (play a (ctr a) head (fun p _ => tail p) (fun _ _ _ => false) (contended a) [] (counter_at a 2)).

Definition contention_end (a : arch_t) : machine (list call) := from_option snd (counter_at a 2) (played a).

Lemma contention_plays a : played a = Some (contention_trace, contention_end a).
Proof. destruct a; vm_compute; reflexivity. Qed.

Lemma contention_runs a :
  runs a (ctr a) head (fun p _ => tail p) no_walk (counter_at a 2) contention_trace (contention_end a).
Proof. eapply play_runs; [|apply runs_start|exact (contention_plays a)]. done. Qed.

Abbreviation explained b a :=
  (exists ms, visible ms = contention_trace /\
    (exists s', replay (H := b) (ctr a) (performed ms) (x_state (counter_at a 2)) s' /\
                get32 (k_mem s') (ctr a) = get32 (k_mem (x_state (contention_end a))) (ctr a)) /\
    forall i, is_Some (obeys i ms)).

Lemma blocks_atomic_witness :
  get32 (k_mem (x_state (contention_end ARM64))) (ctr ARM64) = 0 /\
  get32 (k_mem (x_state (contention_end RISCV))) (ctr RISCV) = 0 /\
  explained arm64_virt ARM64 /\ explained riscv_virt RISCV.
Proof.
  split; [vm_compute; reflexivity|]. split; [vm_compute; reflexivity|].
  split; [apply (@blocks_atomic arm64_virt _ (list call) _ head (fun p _ => tail p) no_walk
                   (counter_at ARM64 2) contention_trace (contention_end ARM64))
         |apply (@blocks_atomic riscv_virt _ (list call) _ head (fun p _ => tail p) no_walk
                   (counter_at RISCV 2) contention_trace (contention_end RISCV))];
    [reflexivity|done|by repeat constructor|apply (contention_runs ARM64)
    |reflexivity|done|by repeat constructor|apply (contention_runs RISCV)].
Defined.
End contention.
