(* ===== verification/ExclLock.v ===== *)
(** * The spin lock, instruction by instruction

    [spin_lock] and [spin_unlock] of include/sync/atomic.hpp over the blocks of
    [Excl]: the C code is a program of that machine, and its runs are runs of
    the lock of [Spin], whose steps are whole accesses.  What [Spin] proves of
    the lock so holds of the instructions, on both architectures.  Besides,
    where a [sev] takes effect after the store before it, no hart of arm64
    sleeps with nobody left to wake it; where it need not, one can. *)

From S2P Require Import Prelude Machine Logic Boards Sync Spin Excl.

(** The places of the code: outside the two functions; before the first exchange
    of RISC-V's [spin_lock]; before the exchange, the read and [cpu_relax] of
    the loop; between the two functions; before the store of [spin_unlock]. *)
Inductive lock_place := AtIdle | AtFirst | AtExchange | AtRead | AtRelax | AtCritical | AtStore.

Definition lock_entry (isa : arch_t) : lock_place :=
  match isa with ARM64 => AtExchange | RISCV => AtFirst end.

(** arm64 reads the word as it is, RISC-V with [atomic_load]. *)
Definition lock_calls (isa : arch_t) (p : lock_place) : option call :=
  match p with
  | AtFirst | AtExchange => Some (Exchange 1)
  | AtRead => Some (match isa with ARM64 => Read | RISCV => Load end)
  | AtRelax => Some Relax
  | AtStore => Some (Store 0)
  | AtIdle | AtCritical => None
  end.

(** The conditions of [spin_lock]: two loops on arm64, one on RISC-V. *)
Definition lock_returns (isa : arch_t) (p : lock_place) (r : Z) : lock_place :=
  match p with
  | AtFirst => if r =? 0 then AtCritical else AtRead
  | AtExchange => if r =? 0 then AtCritical
                  else match isa with ARM64 => AtRead | RISCV => AtRelax end
  | AtRead => if r =? 0 then AtExchange else AtRelax
  | AtRelax => AtRead
  | AtStore => AtIdle
  | AtIdle | AtCritical => p
  end.

#[global] Instance lock_place_eq_dec : EqDecision lock_place.
Proof. solve_decision. Defined.

Section lock.
(** As in [Spin]. *)
Context `{Platform} {sev_order : Order} (isa : arch_t).
Context (lock : Z) (guarded : list (Z * Z)) (I : memory -> Prop).

(** A hart works outside the functions as [Spin.hart_step] lets it. *)
Inductive lock_silent : lock_place -> kstate -> lock_place -> kstate -> Prop :=
| silent_enter s : lock_silent AtIdle s (lock_entry isa) s
| silent_leave s : I (k_mem s) -> lock_silent AtCritical s AtStore s
| silent_critical s s' :
    unchanged [(lock, 4)] (k_mem s) (k_mem s') -> lock_silent AtCritical s AtCritical s'
| silent_elsewhere s s' :
    unchanged ((lock, 4) :: guarded) (k_mem s) (k_mem s') -> lock_silent AtIdle s AtIdle s'.

Abbreviation lock_step := (step isa lock (lock_calls isa) (lock_returns isa) lock_silent).
Abbreviation lock_runs := (runs isa lock (lock_calls isa) (lock_returns isa) lock_silent).

Definition lock_start (x : machine lock_place) : Prop :=
  Forall (fun h => h_at h = AtIdle /\ h_frame h = None /\ h_monitor h = false) (x_harts x) /\
  I (k_mem (x_state x)) /\ exists s, spin_lock_init lock s = Ok tt (x_state x).

(** ** The places of [Spin] *)

(** Where a hart is, taking a call to be over once it has taken effect. *)
Definition place_of (h : hart lock_place) : lock_place :=
  match phase_of isa h with Answered _ r => lock_returns isa (h_at h) r | _ => h_at h end.

Definition point (p : lock_place) : pc :=
  match p with
  | AtIdle => Idle
  | AtFirst | AtExchange => Xchg
  | AtRead | AtRelax => Poll
  | AtCritical | AtStore => Crit
  end.

Definition spot (h : hart lock_place) : pc := point (place_of h).

Definition abs (x : machine lock_place) : config :=
  mkConfig (x_state x) (spot <$> x_harts x).

Hypothesis lock_valid : valid lock 4 = true.
Hypothesis lock_apart : Forall (apart (lock, 4)) guarded.
Hypothesis I_guarded : forall m m', unchanged guarded m m' -> I m -> I m'.

Abbreviation word s := (get32 (k_mem s) lock).

(** A running block is the one of its place, and a hart at the store has the
    memory in order. *)
Definition at_call (h : hart lock_place) : Prop :=
  forall f, h_frame h = Some f -> lock_calls isa (h_at h) = Some (f_call f).

Definition stores_ok (hs : list (hart lock_place)) (s : kstate) : Prop :=
  Forall (fun h => place_of h = AtStore -> I (k_mem s)) hs.

Definition lock_ok (x : machine lock_place) : Prop :=
  harts_ok isa lock x /\ Forall at_call (x_harts x) /\
  stores_ok (x_harts x) (x_state x) /\
  reachable lock guarded I (abs x).

Lemma lock_silent_word p s p' s' : lock_silent p s p' s' -> word s' = word s.
Proof.
  intros [| |s1 s2 Hk|s1 s2 Hk]; [done..|by eapply unchanged_lock; [left|]|].
  by eapply unchanged_lock; [left|].
Qed.

Lemma place_of_notice sg h : place_of (notice sg h) = place_of h.
Proof. unfold place_of. rewrite phase_of_notice. by destruct sg. Qed.

Lemma place_before p f mon ev : took_effect isa f = false -> place_of (mkHart p (Some f) mon ev) = p.
Proof. unfold place_of, phase_of. simpl. by intros ->. Qed.

Lemma place_after p f mon ev :
  took_effect isa f = true ->
  place_of (mkHart p (Some f) mon ev) = lock_returns isa p (result (f_call f) (f_regs f)).
Proof. unfold place_of, phase_of. simpl. by intros ->. Qed.

Lemma place_tau p s s' f f' mon ev mon' ev' :
  tau_insn isa s s' f f' -> f_call f' = f_call f ->
  place_of (mkHart p (Some f') mon' ev') = place_of (mkHart p (Some f) mon ev).
Proof.
  intros (_ & Ht & Hr) Hc. unfold place_of, phase_of. simpl. rewrite Ht.
  destruct (took_effect isa f); [|done]. by rewrite Hr.
Qed.

Abbreviation points hs := (spot <$> hs).

Lemma points_insert (hs : list (hart lock_place)) i h' sg :
  points (<[i := h']> (notice sg <$> hs)) = <[i := spot h']> (points hs).
Proof.
  rewrite list_fmap_insert. f_equal. rewrite <- list_fmap_compose. apply list_fmap_ext.
  intros j h _. unfold spot. simpl. by rewrite place_of_notice.
Qed.

Lemma points_insert_quiet (hs : list (hart lock_place)) i h' :
  points (<[i := h']> hs) = <[i := spot h']> (points hs).
Proof. apply list_fmap_insert. Qed.

Lemma points_lookup (hs : list (hart lock_place)) i h :
  hs !! i = Some h -> points hs !! i = Some (spot h).
Proof. intros Hi. by rewrite list_lookup_fmap, Hi. Qed.

Lemma points_same (hs : list (hart lock_place)) i h q :
  hs !! i = Some h -> q = spot h -> <[i := q]> (points hs) = points hs.
Proof. intros Hi ->. apply list_insert_id. by apply points_lookup. Qed.

(** The instruction at which a call takes effect is a step of [Spin]. *)
Lemma effect_abs i s hs p f mon ev s' f' mon' ev' :
  hs !! i = Some (mkHart p (Some f) mon ev) -> lock_calls isa p = Some (f_call f) ->
  f_call f' = f_call f -> effect_insn isa lock s s' f f' ->
  (p = AtStore -> I (k_mem s)) ->
  let pcs := <[i := spot (mkHart p (Some f') mon' ev')]> (points hs) in
  mkConfig s' pcs = mkConfig s (points hs) \/
  hart_step lock guarded I i (mkConfig s (points hs)) (mkConfig s' pcs).
Proof.
  intros Hi Hp Hc (Hn & Ht & Hr & ->) HI pcs. subst pcs.
  apply points_lookup in Hi as Hi'. unfold spot in *.
  rewrite place_before in Hi' by done. rewrite place_after, Hr by done.
  destruct p, isa; simpl in Hp; try done; injection Hp as Hp; rewrite <- Hp; simpl in Hi' |- *;
    first
      [ by left; rewrite list_insert_id
      | right; eapply step_lock; [exact Hi'|done|]; rewrite spin_step_run by done; by destruct (_ =? 0)
      | right; eapply step_unlock; [exact Hi'|by apply HI|]; by rewrite spin_unlock_run ].
Qed.

(** What one step is in [Spin]: nothing, or one step of the same hart. *)
Lemma step_abs i e x x' :
  lock_step i e x x' -> lock_ok x -> abs x' = abs x \/ hart_step lock guarded I i (abs x) (abs x').
Proof.
  intros Hs (Hok & Hcalls & HI & _). unfold abs.
  destruct Hs as [s hs p c g mon ev Hi Hc Hl|ok o s hs p f mon ev s' f' mon' ev' sg Hi Ho He
                 |s hs p c g mon ev Hi|s hs p p' s' mon ev Hi Hs|s hs p f mon ev Hi]; simpl in *;
    rewrite ?points_insert, ?points_insert_quiet.
  - left. f_equal. eapply points_same; [exact Hi|]. unfold spot. rewrite place_before; [done|]. apply took_effect_start.
  - destruct (exec_effect _ _ _ _ _ _ _ _ _ _ _ _ _ (proj1 (Forall_lookup _ _) Hok _ _ Hi) Ho He)
      as (Hc & _ & _ & [Ht|Ht]).
    + left. f_equal; [apply Ht|]. eapply points_same; [exact Hi|]. unfold spot. f_equal. by eapply place_tau.
    + eapply effect_abs; [exact Hi| |done..|]; [by apply (proj1 (Forall_lookup _ _) Hcalls _ _ Hi)|].
      intros ->. apply (proj1 (Forall_lookup _ _) HI _ _ Hi), place_before, Ht.
  - left. f_equal. eapply points_same; [exact Hi|]. unfold spot. by rewrite place_after by apply took_effect_done.
  - apply points_lookup in Hi as Hp. destruct Hs as [s|s HIs|s s' Hk|s s' Hk]; unfold spot, place_of in *; simpl in *.
    + right. destruct isa; by eapply step_lock.
    + left. by rewrite list_insert_id.
    + right. rewrite list_insert_id by done. by eapply step_critical.
    + right. rewrite list_insert_id by done. by eapply step_elsewhere.
  - left. f_equal. by eapply points_same.
Qed.

(** ** The invariant *)

Lemma stores_ok_notice hs s s' sg :
  (I (k_mem s) -> I (k_mem s')) -> stores_ok hs s -> stores_ok (notice sg <$> hs) s'.
Proof.
  intros HI Hs. apply Forall_fmap. eapply Forall_impl; [exact Hs|]. intros h Hh. simpl.
  rewrite place_of_notice. auto.
Qed.

(** Nobody else is at the store when a hart is in its critical section. *)
Lemma stores_ok_critical hs s s' i p mon ev :
  reachable lock guarded I (mkConfig s (points hs)) ->
  hs !! i = Some (mkHart p None mon ev) -> p = AtCritical -> stores_ok hs s'.
Proof.
  intros Hr Hi ->. apply reachable_inv in Hr; [|done..]. apply Forall_lookup. intros j h Hj Hp.
  apply points_lookup in Hi as Hc. apply points_lookup in Hj as Hc'. unfold spot in Hc'. rewrite Hp in Hc'.
  destruct Hr as [(_ & Hn & _)|(k & _ & _ & Hu)]; [by destruct (Hn i)|].
  assert (j = i) as -> by (by rewrite (Hu j), (Hu i)). rewrite Hi in Hj. by injection Hj as <-.
Qed.

Lemma exec_stores ok o s f mon ev s' f' mon' ev' sg :
  exec lock ok o s f mon ev = Some (s', f', mon', ev', sg) -> I (k_mem s) -> I (k_mem s').
Proof.
  destruct f as [c pc g], o; simpl; intros He HI; repeat case_match; simplify_eq; try done;
    by apply (I_put_lock lock guarded).
Qed.

Lemma step_stores_ok i e x x' :
  lock_step i e x x' -> lock_ok x -> stores_ok (x_harts x') (x_state x').
Proof.
  intros Hs (Hok & Hcalls & HI & Hr).
  assert (Hat : forall i h, x_harts x !! i = Some h -> place_of h = AtStore -> I (k_mem (x_state x)))
    by apply (proj1 (Forall_lookup _ _) HI).
  destruct Hs as [s hs p c g mon ev Hi Hc Hl|ok o s hs p f mon ev s' f' mon' ev' sg Hi Ho He
                 |s hs p c g mon ev Hi|s hs p p' s' mon ev Hi Hs|s hs p f mon ev Hi]; simpl in *.
  - apply Forall_insert; [done|]. rewrite place_before by apply took_effect_start.
    intros ->. by apply (Hat _ _ Hi).
  - apply Forall_insert; [eapply stores_ok_notice; [|exact HI]; by eapply exec_stores|].
    destruct (exec_effect _ _ _ _ _ _ _ _ _ _ _ _ _ (proj1 (Forall_lookup _ _) Hok _ _ Hi) Ho He)
      as (Hc & _ & _ & [Ht|Ht]).
    + rewrite (place_tau p s s' f f' mon ev) by done. intros Hp. eapply exec_stores; [exact He|].
      by eapply Hat.
    + rewrite place_after by apply Ht. destruct p; simpl; repeat case_match; done.
  - apply Forall_insert; [done|]. unfold place_of. simpl. destruct p; simpl; repeat case_match; try done.
  - destruct Hs as [s|s HIs|s s' Hk|s s' Hk].
    + apply Forall_insert; [done|]. by destruct isa.
    + by apply Forall_insert.
    + apply Forall_insert; [|done]. by eapply stores_ok_critical.
    + apply Forall_insert; [|done]. eapply Forall_impl; [exact HI|]. intros h Hh Hp.
      eapply I_guarded; [|by apply Hh]. eapply unchanged_incl; [|exact Hk]. set_solver.
  - apply Forall_insert; [done|]. intros Hp. by eapply Hat.
Qed.

Lemma step_calls_ok i e x x' :
  lock_step i e x x' -> lock_ok x -> Forall at_call (x_harts x').
Proof.
  intros Hs (Hok & Hcalls & _).
  assert (Hat : forall i h, x_harts x !! i = Some h -> at_call h)
    by apply (proj1 (Forall_lookup _ _) Hcalls).
  destruct Hs as [s hs p c g mon ev Hi Hc Hl|ok o s hs p f mon ev s' f' mon' ev' sg Hi Ho He
                 |s hs p c g mon ev Hi|s hs p p' s' mon ev Hi Hs|s hs p f mon ev Hi]; simpl in *;
    apply Forall_insert; try done.
  - intros f Hf. simpl in Hf. injection Hf as <-. exact Hc.
  - apply Forall_fmap. eapply Forall_impl; [exact Hcalls|]. intros h Hh. by destruct sg.
  - destruct (exec_effect _ _ _ _ _ _ _ _ _ _ _ _ _ (proj1 (Forall_lookup _ _) Hok _ _ Hi) Ho He)
      as (Hf & _). intros f1 [= <-]. simpl. rewrite Hf. by apply (Hat _ _ Hi).
  - apply (Hat _ _ Hi).
Qed.

Lemma step_lock_ok i e x x' : lock_step i e x x' -> lock_ok x -> lock_ok x'.
Proof.
  intros Hs Hok. split_and!.
  - eapply step_harts_ok; [exact lock_silent_word|exact Hs|apply Hok].
  - by eapply step_calls_ok.
  - by eapply step_stores_ok.
  - destruct (step_abs i e x x' Hs Hok) as [->|Hh]; [apply Hok|].
    eapply reach_step; [apply Hok|exact Hh].
Qed.

Lemma start_lock_ok x : lock_start x -> lock_ok x.
Proof.
  intros (Hs & HI & Hi). split_and!.
  - eapply Forall_impl; [exact Hs|]. intros h (_ & Hf & Hm). unfold hart_ok. by rewrite Hf.
  - eapply Forall_impl; [exact Hs|]. intros h (_ & Hf & _) f. by rewrite Hf.
  - eapply Forall_impl; [exact Hs|]. done.
  - apply reach_initial. split_and!; [|done..]. apply Forall_fmap. eapply Forall_impl; [exact Hs|].
    intros [p f mon ev] (Hp & Hf & _). simpl in Hp, Hf. by subst.
Qed.

Lemma runs_lock_ok x0 tr x : lock_start x0 -> lock_runs x0 tr x -> lock_ok x.
Proof. intros H0. induction 1; [by apply start_lock_ok|by eapply step_lock_ok]. Qed.

End lock.

(** ** Sleeping and waking *)

(** Every [sev] takes effect after the store before it. *)
Definition in_order : Order := true.

Section sleep.
#[local] Existing Instance in_order.
(** [wfe] and [sev] are arm64's. *)
Context `{Platform} (lock : Z) (guarded : list (Z * Z)) (I : memory -> Prop).

Abbreviation place_of := (place_of ARM64).
Abbreviation spot := (spot ARM64).
Abbreviation took_effect := (took_effect ARM64).
Abbreviation at_call := (at_call ARM64).
Abbreviation lock_silent := (lock_silent ARM64 lock guarded I).
Abbreviation lock_step := (step ARM64 lock (lock_calls ARM64) (lock_returns ARM64) lock_silent).
Abbreviation lock_runs := (runs ARM64 lock (lock_calls ARM64) (lock_returns ARM64) lock_silent).
Abbreviation lock_ok := (lock_ok ARM64 lock guarded I).
Abbreviation lock_start := (lock_start lock I).
Abbreviation word s := (get32 (k_mem s) lock).

Hypothesis lock_valid : valid lock 4 = true.
Hypothesis lock_apart : Forall (apart (lock, 4)) guarded.
Hypothesis I_guarded : forall m m', unchanged guarded m m' -> I m -> I m'.

(** A hart is bound to sleep, or sleeps, until an event. *)
Definition drowsy (h : hart lock_place) : Prop := h_event h = false /\ place_of h = AtRelax.

(** A hart between the two instructions of its [spin_unlock]. *)
Definition at_sev (h : hart lock_place) : Prop := exists g, h_frame h = Some (mkFrame (Store 0) 1 g).

Definition wakeable (x : machine lock_place) : Prop :=
  Exists drowsy (x_harts x) -> word (x_state x) <> 0 \/ Exists at_sev (x_harts x).

Lemma drowsy_notice sg h : drowsy (notice sg h) -> sg <> Event /\ drowsy h.
Proof.
  unfold drowsy. rewrite place_of_notice. destruct sg; simpl; [done| |by intros []].
  intros [(_ & He)%orb_false_iff Hp]. done.
Qed.

Lemma at_sev_notice sg h : at_sev h -> at_sev (notice sg h).
Proof. by destruct sg. Qed.

Lemma drowsy_insert (hs : list (hart lock_place)) i h' sg :
  Exists drowsy (<[i := h']> (notice sg <$> hs)) ->
  drowsy h' \/ sg <> Event /\ Exists drowsy hs.
Proof.
  rewrite Exists_exists. intros (h & (j & Hj)%list_elem_of_lookup & Hd).
  destruct (decide (j = i)) as [->|Hne].
  - rewrite list_lookup_insert_Some in Hj. destruct Hj as [(_ & <- & _)|[? _]]; [by left|done].
  - rewrite list_lookup_insert_ne, list_lookup_fmap in Hj by done.
    destruct (hs !! j) as [h0|] eqn:Hh; [|done]. injection Hj as <-.
    apply drowsy_notice in Hd as [Hsg Hd]. right. split; [done|].
    apply Exists_exists. exists h0. split; [by eapply list_elem_of_lookup_2|done].
Qed.

Lemma at_sev_insert (hs : list (hart lock_place)) i h h' sg :
  hs !! i = Some h -> (at_sev h -> at_sev h') -> Exists at_sev hs ->
  Exists at_sev (<[i := h']> (notice sg <$> hs)).
Proof.
  intros Hi Hk. rewrite !Exists_exists. intros (h0 & (j & Hj)%list_elem_of_lookup & Ha).
  destruct (decide (j = i)) as [->|Hne].
  - exists h'. split; [|apply Hk; congruence]. apply (list_elem_of_lookup_2 _ i).
    apply list_lookup_insert_eq. rewrite length_fmap. by eapply lookup_lt_Some.
  - exists (notice sg h0). split; [|by apply at_sev_notice]. apply (list_elem_of_lookup_2 _ j).
    by rewrite list_lookup_insert_ne, list_lookup_fmap, Hj.
Qed.

Lemma at_sev_now (hs : list (hart lock_place)) i h h' :
  hs !! i = Some h -> at_sev h' -> forall sg, Exists at_sev (<[i := h']> (notice sg <$> hs)).
Proof.
  intros Hi Ha sg. apply Exists_exists. exists h'. split; [|done]. apply (list_elem_of_lookup_2 _ i).
  apply list_lookup_insert_eq. rewrite length_fmap. by eapply lookup_lt_Some.
Qed.

(** Who may make the lock free, or leave [sev] behind. *)
Lemma wakeable_step s s' hs i h h' sg :
  hs !! i = Some h ->
  (drowsy h' -> drowsy h \/ word s' <> 0) ->
  (word s <> 0 -> word s' <> 0 \/ at_sev h') ->
  (at_sev h -> at_sev h' \/ sg = Event /\ ~ drowsy h') ->
  wakeable (mkMachine s hs) -> wakeable (mkMachine s' (<[i := h']> (notice sg <$> hs))).
Proof.
  unfold wakeable. simpl. intros Hi Hd Hw Ha Hx Hx'.
  assert (Hcase : word s' <> 0 \/ (sg = Event -> drowsy h') /\ Exists drowsy hs).
  { apply drowsy_insert in Hx' as [Hh'|[Hsg He]]; [|by right].
    destruct (Hd Hh') as [Hh|Hn]; [|by left]. right. split; [done|].
    apply Exists_exists. exists h. split; [by eapply list_elem_of_lookup_2|done]. }
  destruct Hcase as [Hn|[Hsg He]]; [by left|]. destruct (Hx He) as [Hn|Hs].
  - destruct (Hw Hn) as [?|Hh']; [by left|]. right. by eapply at_sev_now.
  - right. eapply at_sev_insert; [exact Hi| |exact Hs]. intros Hh.
    destruct (Ha Hh) as [?|[-> Hnd]]; [done|]. by destruct Hnd; apply Hsg.
Qed.

Lemma wakeable_step_quiet s s' hs i h h' :
  hs !! i = Some h ->
  (drowsy h' -> drowsy h \/ word s' <> 0) ->
  (word s <> 0 -> word s' <> 0 \/ at_sev h') ->
  (at_sev h -> at_sev h') ->
  wakeable (mkMachine s hs) -> wakeable (mkMachine s' (<[i := h']> hs)).
Proof.
  intros Hi Hd Hw Ha Hx. rewrite <- (list_fmap_id hs). eapply (wakeable_step _ _ _ _ _ _ Quiet); eauto.
Qed.

Lemma exec_event ok o s f mon ev s' f' mon' ev' sg :
  code ARM64 (f_call f) !! f_pc f = Some o ->
  exec lock ok o s f mon ev = Some (s', f', mon', ev', sg) ->
  ev' = ev /\ o <> Sev \/ o = Sev /\ sg = Event /\ ev' = true \/ f_call f = Relax /\ f_pc f = 0%nat.
Proof.
  destruct f as [c pc g]. intros Ho He. destruct o; simpl in He; repeat case_match; simplify_eq; auto.
  right. right. simpl in *. destruct c; destruct pc as [|[|[|[|pc]]]]; by simplify_eq/=.
Qed.

Lemma at_sev_insn p f mon ev o :
  at_sev (mkHart p (Some f) mon ev) -> code ARM64 (f_call f) !! f_pc f = Some o -> o = Sev.
Proof. intros [g [= ->]] Ho. by simplify_eq/=. Qed.

(** The instruction at which a call takes effect. *)
Lemma wakeable_effect i s hs p f mon ev o ok s' f' mon' ev' sg :
  hs !! i = Some (mkHart p (Some f) mon ev) -> lock_calls ARM64 p = Some (f_call f) ->
  code ARM64 (f_call f) !! f_pc f = Some o -> exec lock ok o s f mon ev = Some (s', f', mon', ev', sg) ->
  effect_insn ARM64 lock s s' f f' -> f_call f' = f_call f ->
  wakeable (mkMachine s hs) ->
  wakeable (mkMachine s' (<[i := mkHart p (Some f') mon' ev']> (notice sg <$> hs))).
Proof.
  intros Hi Hp Ho He (Hn & Ht & Hr & Hs) Hc. eapply wakeable_step; [exact Hi|..].
  - intros [_ Hd]. right. rewrite place_after, Hr in Hd by done. subst s'.
    destruct p; simpl in Hp; try done; injection Hp as Hp; rewrite <- Hp in *; simpl in *;
      repeat case_match; try done; lia.
  - intros Hw. subst s'. destruct p; simpl in Hp; try done; injection Hp as Hp; rewrite <- Hp in *;
      simpl; [left; by rewrite word_put|left; by rewrite word_put|by left|by left|right].
    destruct f as [c [|[|pc]] g]; simpl in Hp, Hn; subst c; simplify_eq/=. by eexists.
  - intros Ha. assert (Hsev := at_sev_insn _ _ _ _ _ Ha Ho). destruct Ha as [g [= ->]]. done.
Qed.

Lemma step_wakeable i e x x' : lock_step i e x x' -> lock_ok x -> wakeable x -> wakeable x'.
Proof.
  intros Hs (Hok & Hcalls & _) Hx.
  destruct Hs as [s hs p c g mon ev Hi Hc Hl|ok o s hs p f mon ev s' f' mon' ev' sg Hi Ho He
                 |s hs p c g mon ev Hi|s hs p p' s' mon ev Hi Hs|s hs p f mon ev Hi]; simpl in *.
  - eapply wakeable_step_quiet; [exact Hi|..|exact Hx]; [|by left|by intros [? [=]]].
    intros [He Hp]. left. rewrite place_before in Hp by apply took_effect_start. done.
  - destruct (exec_effect _ _ _ _ _ _ _ _ _ _ _ _ _ (proj1 (Forall_lookup _ _) Hok _ _ Hi) Ho He)
      as (Hc & _ & _ & [Ht|Ht]).
    2: { eapply wakeable_effect; [exact Hi| |done..]. by apply (proj1 (Forall_lookup _ _) Hcalls _ _ Hi). }
    assert (Hplace : place_of (mkHart p (Some f') mon' ev') = place_of (mkHart p (Some f) mon ev))
      by by eapply place_tau.
    destruct Ht as (-> & Ht & _).
    destruct (exec_event _ _ _ _ _ _ _ _ _ _ _ Ho He) as [[-> Hns]|[(-> & -> & ->)|[Hr Hpc]]].
    + eapply wakeable_step; [exact Hi|..|exact Hx]; [|by left|].
      * intros [Hev Hp]. left. split; [done|congruence].
      * intros Ha. by destruct Hns; eapply at_sev_insn.
    + eapply wakeable_step; [exact Hi|..|exact Hx]; [by intros []|by left|].
      intros _. right. split; [done|]. by intros [].
    + exfalso. destruct f as [c pc g]. simpl in Hr, Hpc. subst c pc. injection Ho as <-.
      simpl in He. destruct ev; by simplify_eq/=.
  - eapply wakeable_step_quiet; [exact Hi|..|exact Hx]; [|by left|].
    + intros [He Hp]. left. split; [done|]. by rewrite place_after by apply took_effect_done.
    + intros [g' Hf]. by simplify_eq/=.
  - eapply wakeable_step_quiet; [exact Hi|..|exact Hx]; [|by rewrite (lock_silent_word _ _ _ _ _ _ _ _ Hs); left|by intros [? [=]]].
    intros [_ Hp]. by destruct Hs.
  - eapply wakeable_step_quiet; [exact Hi|by intros []|by left|done|exact Hx].
Qed.

Lemma runs_wakeable x0 tr x : lock_start x0 -> lock_runs x0 tr x -> wakeable x.
Proof.
  intros H0. induction 1 as [|tr x i e x' Hr IH Hs].
  - intros (h & Hh & _ & Hp)%Exists_exists. destruct H0 as [H0 _].
    apply (proj1 (Forall_forall _ _) H0) in Hh as (Ha & Hf & _). unfold place_of, phase_of in Hp.
    rewrite Hf, Ha in Hp. done.
  - eapply step_wakeable; [exact Hs|by eapply runs_lock_ok|exact IH].
Qed.

(** A hart in its [wfe]. *)
Definition asleep (h : hart lock_place) : Prop :=
  h_event h = false /\ exists g, h_frame h = Some (mkFrame Relax 0 g).

Lemma asleep_drowsy h : at_call h -> asleep h -> drowsy h.
Proof.
  destruct h as [p f mon ev]. intros Hc [He [g Hf]]. split; [done|]. simpl in *. subst f.
  specialize (Hc _ eq_refl). simpl in Hc. rewrite place_before by done. by destruct p.
Qed.

(** Whoever is at its [sev] wakes every hart with it. *)
Lemma sev_wakes j hj e x x' :
  x_harts x !! j = Some hj -> at_sev hj -> lock_step j e x x' ->
  (exists hj', x_harts x' !! j = Some hj' /\ at_sev hj') \/ Forall (fun h => ~ asleep h) (x_harts x').
Proof.
  intros Hj [g Hf] Hs.
  destruct Hs as [s hs p c g' mon ev Hi _ _|ok o s hs p f mon ev s' f' mon' ev' sg Hi Ho He
                 |s hs p c g' mon ev Hi|s hs p p' s' mon ev Hi _|s hs p f mon ev Hi]; simpl in *;
    simplify_eq/=.
  - right. apply Forall_insert; [|by intros []].
    apply Forall_fmap, Forall_forall. intros h _. by intros [].
  - left. eexists. split; [apply list_lookup_insert_eq; by eapply lookup_lt_Some|by eexists].
Qed.

Lemma held_or_sev x :
  lock_ok x -> wakeable x -> Exists asleep (x_harts x) ->
  Exists (fun h => spot h = Crit \/ at_sev h) (x_harts x).
Proof.
  intros (_ & Hc & _ & Hr) Hw Ha. destruct Hw as [Hw|Hs].
  - apply Exists_exists in Ha as (h & Hh & Ha). apply Exists_exists. exists h. split; [done|].
    apply asleep_drowsy; [|done]. by apply (proj1 (Forall_forall _ _) Hc).
  - apply reachable_inv in Hr; [|done..]. destruct Hr as [(H0 & _)|(j & _ & Hj & _)]; [done|].
    unfold critical in Hj. simpl in Hj. rewrite list_lookup_fmap in Hj.
    destruct (x_harts x !! j) as [h|] eqn:Hh; [|done]. injection Hj as Hj.
    apply Exists_exists. exists h. split; [by eapply list_elem_of_lookup_2|by left].
  - eapply Exists_impl; [exact Hs|]. by right.
Qed.
End sleep.

(** The lock's machine, on either architecture, and arm64's with its [sev] in
    order. *)
Abbreviation lock_step_of isa lock guarded I :=
  (step isa lock (lock_calls isa) (lock_returns isa) (lock_silent isa lock guarded I)).
Abbreviation lock_runs_of isa lock guarded I :=
  (runs isa lock (lock_calls isa) (lock_returns isa) (lock_silent isa lock guarded I)).
Abbreviation lock_step_in_order lock guarded I :=
  (step (sev_order := in_order) ARM64 lock (lock_calls ARM64) (lock_returns ARM64)
     (lock_silent ARM64 lock guarded I)).
Abbreviation lock_runs_in_order lock guarded I :=
  (runs (sev_order := in_order) ARM64 lock (lock_calls ARM64) (lock_returns ARM64)
     (lock_silent ARM64 lock guarded I)).

(** ** What the instructions promise *)

Section theorems.
Context `{Platform}.

(** C18: The lock, instruction by instruction, is the lock of [Spin], on both
    architectures and whether or not a [sev] may overtake the store before it:
    each of its states is one that the whole accesses of [Spin]
    reach, and each instruction of a hart either changes nothing there or is one
    step of that hart. *)
Theorem lock_refines_spin {sev_order : Order} lock guarded I x0 tr x :
  valid lock 4 = true -> Forall (apart (lock, 4)) guarded ->
  (forall m m', unchanged guarded m m' -> I m -> I m') ->
  lock_start lock I x0 -> lock_runs_of arch lock guarded I x0 tr x ->
  reachable lock guarded I (abs arch x) /\
  forall i e x', lock_step_of arch lock guarded I i e x x' ->
    abs arch x' = abs arch x \/ hart_step lock guarded I i (abs arch x) (abs arch x').
Proof.
  intros Hv Ha HI H0 Hr.
  assert (Hok := runs_lock_ok arch lock guarded I Hv Ha HI x0 tr x H0 Hr).
  split; [apply Hok|]. intros i e x' Hs. by eapply step_abs.
Qed.

(** C20: No wake-up is lost on an arm64 machine where a [sev] takes effect after
    the [stlr] before it: while any hart sleeps in the [wfe] of [spin_lock], some
    hart holds the lock or is about to run the [sev] of its [spin_unlock]; and
    when that hart goes on, no hart is asleep any more.  The code does not ask
    for that order, and without it a wake-up can be lost ([a64_wakeup_lost]). *)
Theorem a64_no_lost_wakeup lock guarded I x0 tr x :
  valid lock 4 = true -> Forall (apart (lock, 4)) guarded ->
  (forall m m', unchanged guarded m m' -> I m -> I m') ->
  lock_start lock I x0 -> lock_runs_in_order lock guarded I x0 tr x ->
  Exists asleep (x_harts x) ->
  Exists (fun h => spot ARM64 h = Crit \/ at_sev h) (x_harts x) /\
  forall j hj e x', x_harts x !! j = Some hj -> at_sev hj ->
    lock_step_in_order lock guarded I j e x x' ->
    (exists hj', x_harts x' !! j = Some hj' /\ at_sev hj') \/ Forall (fun h => ~ asleep h) (x_harts x').
Proof.
  intros Hv Ha HI H0 Hr Hs. split; [|intros; by eapply sev_wakes].
  assert (Hok := runs_lock_ok ARM64 lock guarded I Hv Ha HI x0 tr x H0 Hr).
  assert (Hw := runs_wakeable lock guarded I Hv Ha HI x0 tr x H0 Hr).
  by eapply held_or_sev.
Qed.
End theorems.

(** ** Two harts and one lock *)

Section two_harts.
#[local] Existing Instance in_order.
Abbreviation lk a := (match a with ARM64 => 0x40090000 | RISCV => 0x80210000 end).
Abbreviation pair := [(0x40090000 + 8, 16)].

Definition fresh_lock (a : arch_t) : machine lock_place :=
  mkMachine (set_mem cold_state (put32 ∅ (lk a) 0))
    [mkHart AtIdle None false false; mkHart AtIdle None false true].

Definition lock_walks (a : arch_t) (p : lock_place) (s : kstate) (p' : lock_place) : bool :=
  match p with
  | AtIdle => bool_decide (p' = lock_entry a)
  | AtCritical =>
      bool_decide (p' = AtStore) && (get64 (k_mem s) (0x40090000 + 8) =? get64 (k_mem s) (0x40090000 + 16))
  | _ => false
  end.

Lemma lock_walks_silent a lock p s p' :
  lock_walks a p s p' = true -> lock_silent a lock pair agree p s p' s.
Proof.
  destruct p; try done; simpl.
  - intros ->%bool_decide_eq_true_1. apply silent_enter.
  - intros [->%bool_decide_eq_true_1 Ha%Z.eqb_eq]%andb_prop. by apply silent_leave.
Qed.

Abbreviation junk v := (mkRegs 3 v 9 v).
Abbreviation go i n := (repeat (i%nat, Go true) n).

(** Hart 0 takes the lock and hart 1 finds it taken; on arm64, with an old event
    pending, hart 1 goes through its first [wfe] and sleeps in its second; hart 0
    gives the lock back and, on arm64, has its [sev] ahead. *)
Definition handover (a : arch_t) : list (nat * move (C := lock_place)) :=
  match a with
  | ARM64 =>
      [(0%nat, Walk AtExchange); (0%nat, Begin (junk 1))] ++ go 0 4 ++
      [(1%nat, Walk AtExchange); (1%nat, Begin (junk 1))] ++ go 1 4 ++
      [(1%nat, Begin (junk 0))] ++ go 1 2 ++ [(1%nat, Begin (junk 0))] ++ go 1 2 ++
      [(1%nat, Begin (junk 0))] ++ go 1 2 ++ [(1%nat, Begin (junk 0))] ++
      [(0%nat, Walk AtStore); (0%nat, Begin (junk 0)); (0%nat, Go true)]
  | RISCV =>
      [(0%nat, Walk AtFirst); (1%nat, Walk AtFirst); (0%nat, Begin (junk 1)); (1%nat, Begin (junk 1))] ++
      go 0 2 ++ go 1 2 ++ [(1%nat, Begin (junk 0))] ++ go 1 3 ++ [(1%nat, Begin (junk 0))] ++ go 1 2 ++
      [(0%nat, Walk AtStore); (0%nat, Begin (junk 0))] ++ go 0 2
  end.

Abbreviation played a :=
  (play a (lk a) (lock_calls a) (lock_returns a) (lock_walks a) (handover a) [] (fresh_lock a)).

Definition handover_trace (a : arch_t) : list event := from_option fst [] (played a).
Definition handover_end (a : arch_t) : machine lock_place := from_option snd (fresh_lock a) (played a).

Lemma handover_plays a : played a = Some (handover_trace a, handover_end a).
Proof. destruct a; vm_compute; reflexivity. Qed.

Lemma handover_runs a :
  lock_runs_of a (lk a) pair agree (fresh_lock a) (handover_trace a) (handover_end a).
Proof.
  eapply (play_runs _ _ _ _ _ (lock_walks a)); [|apply runs_start|exact (handover_plays a)].
  apply lock_walks_silent.
Qed.

Lemma fresh_lock_start : lock_start (H := arm64_virt) (lk ARM64) agree (fresh_lock ARM64).
Proof. split; [by repeat constructor|]. split; [done|]. by exists (set_mem cold_state ∅). Qed.

Lemma fresh_lock_start_riscv : lock_start (H := riscv_virt) (lk RISCV) agree (fresh_lock RISCV).
Proof. split; [by repeat constructor|]. split; [done|]. by exists (set_mem cold_state ∅). Qed.

Abbreviation refined b a :=
  (c_pcs (abs a (handover_end a)) = [Idle; Poll] /\
   reachable (H := b) (lk a) pair agree (abs a (handover_end a)) /\
   forall i e x', lock_step_of a (lk a) pair agree i e (handover_end a) x' ->
     abs a x' = abs a (handover_end a) \/
     hart_step (H := b) (lk a) pair agree i (abs a (handover_end a)) (abs a x')).

Lemma lock_refines_spin_witness : refined arm64_virt ARM64 /\ refined riscv_virt RISCV.
Proof.
  split; (split; [vm_compute; reflexivity|]).
  - apply (@lock_refines_spin arm64_virt in_order (lk ARM64) pair agree (fresh_lock ARM64)
             (handover_trace ARM64) (handover_end ARM64));
      [reflexivity|by repeat constructor|exact agree_guarded|exact fresh_lock_start
      |apply (handover_runs ARM64)].
  - apply (@lock_refines_spin riscv_virt in_order (lk RISCV) pair agree (fresh_lock RISCV)
             (handover_trace RISCV) (handover_end RISCV));
      [reflexivity|by repeat constructor|exact agree_guarded|exact fresh_lock_start_riscv
      |apply (handover_runs RISCV)].
Defined.

Abbreviation slept := (handover_end ARM64).

Lemma a64_no_lost_wakeup_witness :
  Exists asleep (x_harts slept) /\
  Exists (fun h => spot ARM64 h = Crit \/ at_sev h) (x_harts slept) /\
  forall j hj e x', x_harts slept !! j = Some hj -> at_sev hj ->
    lock_step_in_order (lk ARM64) pair agree j e slept x' ->
    (exists hj', x_harts x' !! j = Some hj' /\ at_sev hj') \/ Forall (fun h => ~ asleep h) (x_harts x').
Proof.
  assert (Hs : Exists asleep (x_harts slept)).
  { assert (H1 : x_harts slept !! 1%nat =
        Some (mkHart AtRelax (Some (mkFrame Relax 0 (junk 0))) false false)) by (vm_compute; reflexivity).
    apply Exists_exists. eexists. split; [exact (list_elem_of_lookup_2 _ _ _ H1)|].
    split; [reflexivity|eexists; reflexivity]. }
  split; [exact Hs|].
  apply (@a64_no_lost_wakeup arm64_virt (lk ARM64) pair agree (fresh_lock ARM64)
           (handover_trace ARM64) slept);
    [reflexivity|by repeat constructor|exact agree_guarded|exact fresh_lock_start
    |apply (handover_runs ARM64)|exact Hs].
Defined.

(** ** A lost wake-up *)

(** A [sev] may overtake the store before it. *)
Definition any_order : Order := false.

(** As above; then the [sev] of hart 0 comes too early to wake anybody. *)
Definition early_sev : list (nat * move (C := lock_place)) :=
  handover ARM64 ++ [(0%nat, Go false); (0%nat, Go true)].

Abbreviation lost :=
  (play (sev_order := any_order) ARM64 (lk ARM64) (lock_calls ARM64) (lock_returns ARM64)
     (lock_walks ARM64) early_sev [] (fresh_lock ARM64)).

(** Where a [sev] may overtake the [stlr] before it, a wake-up can be lost: the
    lock can end up free, with no hart at work on it, and a hart asleep waiting
    for it. *)
Theorem a64_wakeup_lost : exists tr x,
  runs (sev_order := any_order) ARM64 (lk ARM64) (lock_calls ARM64) (lock_returns ARM64)
    (lock_silent ARM64 (lk ARM64) pair agree) (fresh_lock ARM64) tr x /\
  get32 (k_mem (x_state x)) (lk ARM64) = 0 /\
  Exists asleep (x_harts x) /\
  Forall (fun h => asleep h \/ h_at h = AtIdle /\ h_frame h = None) (x_harts x).
Proof.
  assert (Hp : exists tr x, lost = Some (tr, x) /\ get32 (k_mem (x_state x)) (lk ARM64) = 0 /\
            exists ev, x_harts x = [mkHart AtIdle None false ev;
                        mkHart AtRelax (Some (mkFrame Relax 0 (junk 0))) false false]).
  { eexists _, _. split; [vm_compute; reflexivity|]. split; [vm_compute; reflexivity|by eexists]. }
  destruct Hp as (tr & x & Hp & Hw & ev & Hx).
  exists tr, x. split_and!; [|exact Hw|..].
  - eapply (play_runs _ _ _ _ _ (lock_walks ARM64)); [|apply runs_start|exact Hp].
    apply lock_walks_silent.
  - rewrite Hx. apply Exists_cons_tl, Exists_cons_hd. split; [done|by eexists].
  - rewrite Hx. apply Forall_cons. split; [by right|]. apply Forall_singleton. left. split; [done|by eexists].
Qed.
End two_harts.
