(* ===== verification/ExclFair.v ===== *)
(** * Progress of the arm64 spin lock

    [Spin] shows that the lock is free of deadlock when its accesses happen at
    once.  Here the same is shown of its instructions, where a hart may sleep in
    [wfe] and an exclusive store may fail: of a hart that is in [spin_lock] or
    [spin_unlock] and awake, only that it goes on; of exclusive stores, only
    that one hart's do not fail for ever.  A [sev] takes effect after the store
    before it, which the code leaves to the hart: otherwise a hart can be left
    asleep on a free lock ([ExclLock.a64_wakeup_lost]). *)

From S2P Require Import Prelude Machine Logic Boards Sync Spin Excl ExclLock.

#[local] Existing Instance in_order.

#[global] Instance regs_eq_dec : EqDecision regs.
Proof. solve_decision. Defined.

#[global] Instance frame_eq_dec : EqDecision frame.
Proof. solve_decision. Defined.

(** Where a hart is, and its registers. *)
Definition position (h : hart lock_place) : lock_place * option frame := (h_at h, h_frame h).

(** A run, with every [sev] after the store before it: its states, the hart of each step and what the step shows. *)
Record xrun := mkXrun {
  xr_at : nat -> machine lock_place;
  xr_hart : nat -> nat;
  xr_event : nat -> option event
}.

Definition hart_of (r : xrun) (n i : nat) : option (hart lock_place) := x_harts (xr_at r n) !! i.

Definition xrun_of `{Platform} lock guarded I (r : xrun) : Prop :=
  lock_start lock I (xr_at r 0) /\
  forall n, lock_step_in_order lock guarded I
              (xr_hart r n) (xr_event r n) (xr_at r n) (xr_at r (S n)).

(** Hart [i] gets further in its code at step [n]. *)
Definition moves (r : xrun) (n i : nat) : Prop :=
  xr_hart r n = i /\ position <$> hart_of r (S n) i <> position <$> hart_of r n i.

(** In one of the two functions. *)
Definition busy (p : lock_place) : Prop := p <> AtIdle /\ p <> AtCritical.

(** An exclusive store of hart [i] with its monitor set, at step [n], and what
    came of it. *)
Definition attempt (r : xrun) (n i : nat) (st : Z) : Prop :=
  exists h h' g g', hart_of r n i = Some h /\ h_monitor h = true /\
    h_frame h = Some (mkFrame (Exchange 1) 1 g) /\
    hart_of r (S n) i = Some h' /\ h_frame h' = Some (mkFrame (Exchange 1) 2 g') /\ r_status g' = st.

(** From step [n] on, hart [i] does not fail for ever without a success in
    between. *)
Inductive patient (r : xrun) (i : nat) : nat -> Prop :=
| patient_intro n :
    (forall m, (n <= m)%nat -> (forall m', (n <= m' < m)%nat -> ~ attempt r m' i 0) ->
               attempt r m i 1 -> patient r i (S m)) ->
    patient r i n.

(** A hart that is awake in the two functions goes on, no critical section is
    for ever, and exclusive stores do not fail for ever. *)
Definition xfair (r : xrun) : Prop :=
  (forall n i h, hart_of r n i = Some h -> busy (h_at h) -> ~ asleep h -> exists k, moves r (n + k) i) /\
  (forall n i h, hart_of r n i = Some h -> h_at h = AtCritical ->
     exists k, position <$> hart_of r (n + k) i <> Some (position h)) /\
  (forall n i, patient r i n).

Definition xwaiting (r : xrun) (n i : nat) : Prop := waiting (abs ARM64 (xr_at r n)) i.

Definition xacquired_from (r : xrun) (n : nat) : Prop :=
  exists k, acquires (abs ARM64 (xr_at r (n + k))) (abs ARM64 (xr_at r (S (n + k)))).

Section progress.
Context `{Platform} (lock : Z) (guarded : list (Z * Z)) (I : memory -> Prop).
Hypothesis lock_valid : valid lock 4 = true.
Hypothesis lock_apart : Forall (apart (lock, 4)) guarded.
Hypothesis I_guarded : forall m m', unchanged guarded m m' -> I m -> I m'.
Context (r : xrun) (Hrun : xrun_of lock guarded I r) (Hfair : xfair r).

Abbreviation x n := (xr_at r n).
Abbreviation word s := (get32 (k_mem s) lock).
Abbreviation abs := (abs ARM64).
Abbreviation spot := (spot ARM64).
Abbreviation lock_calls := (lock_calls ARM64).
Abbreviation lock_returns := (lock_returns ARM64).
Abbreviation lock_silent := (lock_silent ARM64).
Abbreviation code := (code ARM64).
Abbreviation hart_ok := (hart_ok ARM64).
Abbreviation at_call := (at_call ARM64).
Abbreviation lock_ok := (lock_ok ARM64).
Abbreviation lock_step := (lock_step_in_order lock guarded I).
Abbreviation free n := (lock_free lock I (abs (x n))).

Lemma run_ok n : lock_ok lock guarded I (x n).
Proof.
  destruct Hrun as [H0 Hs]. induction n as [|n IH]; [by apply start_lock_ok|].
  eapply step_lock_ok; [..|exact IH]; eauto.
Qed.

Lemma run_step n : lock_step (xr_hart r n) (xr_event r n) (x n) (x (S n)).
Proof. apply Hrun. Qed.

Lemma run_wakeable n : wakeable lock (x n).
Proof.
  induction n as [|n IH].
  - eapply runs_wakeable; [..|apply runs_start]; eauto. apply Hrun.
  - eapply step_wakeable; [..|apply run_ok|exact IH]; [done..|apply run_step].
Qed.

Lemma xrun_inv n : lock_inv lock I (abs (x n)).
Proof. eapply reachable_inv; eauto. apply run_ok. Qed.

Lemma run_abs n : abs (x (S n)) = abs (x n) \/ hart_step lock guarded I (xr_hart r n) (abs (x n)) (abs (x (S n))).
Proof. eapply step_abs; eauto using run_ok, run_step. Qed.

Lemma xacquired_now n : acquires (abs (x n)) (abs (x (S n))) -> xacquired_from r n.
Proof. intros Ha. exists 0%nat. by rewrite Nat.add_0_r. Qed.

Lemma xacquired_later n k : xacquired_from r (n + k) -> xacquired_from r n.
Proof. intros [k' Ha]. exists (k + k')%nat. by rewrite Nat.add_assoc. Qed.

Lemma xacquired_succ n : xacquired_from r (S n) -> xacquired_from r n.
Proof. rewrite <- Nat.add_1_r. apply xacquired_later. Qed.

(** The lock stays free until some hart takes it, and a hart waits until some
    hart does. *)
Lemma stays_free n : free n -> xacquired_from r n \/ free (S n).
Proof.
  intros Hf. destruct (run_abs n) as [->|Hs]; [by right|].
  destruct (free_step lock guarded I _ _ _ (xrun_inv (S n)) Hs Hf) as [Ha|Hf']; [|by right].
  left. by apply xacquired_now.
Qed.

Lemma stays_waiting n i : xwaiting r n i -> xacquired_from r n \/ xwaiting r (S n) i.
Proof.
  unfold xwaiting. intros Hw. destruct (run_abs n) as [->|Hs]; [by right|].
  destruct (waiting_still lock guarded I lock_valid i _ _ _ Hs Hw) as [Ha|Hw']; [|by right].
  left. by apply xacquired_now.
Qed.

Lemma position_notice sg h : position (notice sg h) = position h.
Proof. by destruct sg. Qed.

(** A step, as its own hart sees it. *)
Inductive own (s s' : kstate) : hart lock_place -> hart lock_place -> signal -> Prop :=
| own_call p c g mon ev :
    lock_calls p = Some c -> s' = s ->
    own s s' (mkHart p None mon ev) (mkHart p (Some (mkFrame c 0 g)) mon ev) Quiet
| own_insn ok o p f mon ev f' mon' ev' sg :
    lock_calls p = Some (f_call f) -> code (f_call f) !! f_pc f = Some o ->
    exec lock ok o s f mon ev = Some (s', f', mon', ev', sg) ->
    own s s' (mkHart p (Some f) mon ev) (mkHart p (Some f') mon' ev') sg
| own_return p c g mon ev :
    lock_calls p = Some c -> s' = s ->
    own s s' (mkHart p (Some (mkFrame c (length (code c)) g)) mon ev)
      (mkHart (lock_returns p (result c g)) None mon ev) Quiet
| own_silent p p' mon ev :
    lock_silent lock guarded I p s p' s' ->
    own s s' (mkHart p None mon ev) (mkHart p' None mon ev) Quiet
| own_event p f mon ev :
    s' = s -> own s s' (mkHart p f mon ev) (mkHart p f mon true) Quiet.

Lemma step_own n :
  let i := xr_hart r n in
  exists h h' sg, hart_of r n i = Some h /\ hart_of r (S n) i = Some h' /\
    hart_ok (word (x_state (x n))) h /\
    own (x_state (x n)) (x_state (x (S n))) h h' sg /\
    forall j, j <> i -> hart_of r (S n) j = notice sg <$> hart_of r n j.
Proof.
  destruct (run_ok n) as (Hok & Hcalls & _). assert (Hs := run_step n). unfold hart_of. simpl.
  assert (Hat : forall h, x_harts (x n) !! xr_hart r n = Some h ->
            hart_ok (word (x_state (x n))) h /\ at_call h)
    by (intros h Hh; split; by eapply (proj1 (Forall_lookup _ _))).
  destruct Hs as [s hs p c g mon ev Hi Hc _|ok o s hs p f mon ev s' f' mon' ev' sg Hi Ho He
                 |s hs p c g mon ev Hi|s hs p p' s' mon ev Hi Hs|s hs p f mon ev Hi]; simpl in *;
    destruct (Hat _ Hi) as [Hh Hcl]; do 3 eexists;
    (split_and!; [exact Hi|rewrite list_lookup_insert_eq; [done|] |exact Hh|..]);
    try (rewrite ?length_fmap; by eapply lookup_lt_Some).
  all: try (intros j Hj; rewrite list_lookup_insert_ne by done; instantiate (1 := Quiet); by destruct (hs !! j)).
  - by apply own_call.
  - eapply own_insn; [by apply (Hcl f)|exact Ho|exact He].
  - intros j Hj. by rewrite list_lookup_insert_ne, list_lookup_fmap by done.
  - apply own_return; [|done]. by specialize (Hcl _ eq_refl).
  - by apply own_silent.
  - by apply own_event.
Qed.

(** A step leaves the other harts where they are. *)
Lemma step_other n i h :
  hart_of r n i = Some h -> xr_hart r n <> i ->
  exists h', hart_of r (S n) i = Some h' /\ position h' = position h.
Proof.
  intros Hi Hne. destruct (step_own n) as (h0 & h1 & sg & _ & _ & _ & _ & Ho).
  exists (notice sg h). rewrite (Ho i), Hi by done. by rewrite position_notice.
Qed.

Lemma hart_stays n i h : hart_of r n i = Some h -> exists h', hart_of r (S n) i = Some h'.
Proof.
  intros Hi. destruct (decide (xr_hart r n = i)) as [<-|Hne].
  - destruct (step_own n) as (h0 & h1 & sg & _ & H1 & _). eauto.
  - destruct (step_other n i h Hi Hne) as (h' & Hh' & _). eauto.
Qed.

(** ** Who holds the lock gives it back *)

Definition hold (h : hart lock_place) : nat :=
  match h_at h, h_frame h with
  | (AtFirst | AtExchange), Some f => if (f_pc f =? 2)%nat then 5 else 4
  | AtCritical, _ => 3
  | AtStore, None => 2
  | _, _ => 1
  end.

Definition hold_less (h h' : hart lock_place) : Prop :=
  position h' = position h \/ spot h' <> Crit \/ (hold h' < hold h)%nat.

Lemma hold_own s s' h h' sg :
  hart_ok (word s) h -> own s s' h h' sg -> spot h = Crit -> hold_less h h'.
Proof.
  intros Hok Ho Hs. unfold hold_less, spot, place_of, phase_of in *.
  destruct Ho as [p c g mon ev Hc _|ok o p [c pc g] mon ev f' mon' ev' sg Hc Ho He
                 |p c g mon ev Hc _|p p' mon ev Hsil|p f mon ev _]; simpl in *.
  - destruct p; simplify_eq/=. right. right. by apply Nat.ltb_lt.
  - destruct p; simpl in Hc; try done; injection Hc as <-;
      destruct pc as [|[|[|pc]]]; simplify_eq/=; repeat (case_match; simplify_eq/=);
      first [by right; left|right; right; by apply Nat.ltb_lt].
  - destruct p; simpl in Hc; try done; injection Hc as <-; simpl in *;
      repeat (case_match; simplify_eq/=); right; right; by apply Nat.ltb_lt.
  - destruct Hsil; simpl in *; try done; [right; right; by apply Nat.ltb_lt|by left].
  - by left.
Qed.

Lemma hold_step n j h :
  hart_of r n j = Some h -> spot h = Crit ->
  exists h', hart_of r (S n) j = Some h' /\ hold_less h h'.
Proof.
  intros Hj Hc. destruct (decide (xr_hart r n = j)) as [<-|Hne].
  - destruct (step_own n) as (h0 & h1 & sg & H0 & H1 & Hok & Ho & _).
    exists h1. split; [done|]. rewrite Hj in H0. injection H0 as <-. by eapply hold_own.
  - destruct (step_other n j h Hj Hne) as (h' & Hh' & Hp). exists h'. split; [done|by left].
Qed.

Lemma position_spot h h' : position h' = position h -> spot h' = spot h.
Proof.
  destruct h as [p f mon ev], h' as [p' f' mon' ev']. unfold position. simpl. intros [= -> ->].
  by unfold spot, place_of, phase_of.
Qed.

Lemma position_hold h h' : position h' = position h -> hold h' = hold h.
Proof. destruct h, h'. unfold position, hold. simpl. by intros [= -> ->]. Qed.

Lemma awake_moves n i h :
  hart_of r n i = Some h -> busy (h_at h) -> ~ asleep h ->
  exists k, position <$> hart_of r (n + k) i <> Some (position h).
Proof.
  intros Hi Hb Ha. destruct (proj1 Hfair n i h Hi Hb Ha) as (k & _ & Hm).
  destruct (decide (position <$> hart_of r (n + k) i = Some (position h))) as [He|He]; [|by exists k].
  exists (S k). rewrite Nat.add_succ_r. by rewrite <- He.
Qed.

Lemma asleep_spot n i h : hart_of r n i = Some h -> asleep h -> spot h = Poll.
Proof.
  intros Hi Ha. destruct (run_ok n) as (_ & Hc & _).
  apply (proj1 (Forall_lookup _ _) Hc) in Hi. destruct (asleep_drowsy h Hi Ha) as [_ Hp].
  unfold spot. by rewrite Hp.
Qed.

Lemma holder_moves n j h :
  hart_of r n j = Some h -> spot h = Crit ->
  exists k, position <$> hart_of r (n + k) j <> Some (position h).
Proof.
  intros Hj Hc. destruct (decide (h_at h = AtCritical)) as [Hcr|Hncr]; [by eapply Hfair|].
  eapply awake_moves; [exact Hj| |].
  - split; [|done]. intros Hi. unfold spot, place_of in Hc. rewrite Hi in Hc.
    destruct (phase_of ARM64 h); done.
  - intros Ha. by rewrite (asleep_spot n j h) in Hc.
Qed.

Lemma hold_changes j k : forall n h,
  hart_of r n j = Some h -> spot h = Crit ->
  position <$> hart_of r (n + k) j <> Some (position h) ->
  exists k' h', hart_of r (n + k') j = Some h' /\ (spot h' <> Crit \/ (hold h' < hold h)%nat).
Proof.
  induction k as [|k IH]; intros n h Hj Hc Hp; [rewrite Nat.add_0_r, Hj in Hp; done|].
  destruct (hold_step n j h Hj Hc) as (h1 & H1 & [Hs|Hl]).
  2: { exists 1%nat, h1. by rewrite Nat.add_1_r. }
  replace (n + S k)%nat with (S n + k)%nat in Hp by lia. rewrite <- Hs in Hp.
  destruct (IH (S n) h1 H1) as (k' & h' & Hk & Hd); [by rewrite (position_spot h h1)|done|].
  exists (S k'), h'. rewrite (position_hold h h1 Hs) in Hd. by rewrite Nat.add_succ_r.
Qed.

Lemma holder_leaves j v : forall n h,
  hart_of r n j = Some h -> hold h = v ->
  exists k h', hart_of r (n + k) j = Some h' /\ spot h' <> Crit.
Proof.
  induction (lt_wf v) as [v _ IH]. intros n h Hj Hv.
  destruct (decide (spot h = Crit)) as [Hc|Hc]; [|exists 0%nat, h; by rewrite Nat.add_0_r].
  destruct (holder_moves n j h Hj Hc) as [k Hk].
  destruct (hold_changes j k n h Hj Hc Hk) as (k1 & h1 & H1 & [Hs|Hl]); [by exists k1, h1|].
  destruct (IH (hold h1) ltac:(lia) (n + k1)%nat h1 H1 eq_refl) as (k2 & h2 & H2 & Hs).
  exists (k1 + k2)%nat, h2. by rewrite Nat.add_assoc.
Qed.

Lemma abs_lookup n i : c_pcs (abs (x n)) !! i = spot <$> hart_of r n i.
Proof. apply list_lookup_fmap. Qed.

Lemma held_freed i j k : forall n,
  lock_held lock (abs (x n)) j -> xwaiting r n i -> ~ critical (abs (x (n + k))) j ->
  xacquired_from r n \/ exists m, free (n + m) /\ xwaiting r (n + m) i.
Proof.
  induction k as [|k IH]; intros n Hh Hw Hn; [rewrite Nat.add_0_r in Hn; by destruct Hh as (_ & ? & _)|].
  destruct (stays_waiting n i Hw) as [Ha|Hw']; [by left|].
  destruct (xrun_inv (S n)) as [Hf|[j' Hh']]; [right; exists 1%nat; by rewrite Nat.add_1_r|].
  destruct (decide (j' = j)) as [->|Hne].
  - replace (n + S k)%nat with (S n + k)%nat in Hn by lia.
    destruct (IH _ Hh' Hw' Hn) as [Ha|(m & Hm)]; [left; by apply xacquired_succ|].
    right. exists (S m). by rewrite Nat.add_succ_r.
  - left. apply xacquired_now. exists j'. split; [|apply Hh']. intros Hc. by apply Hne, (proj2 (proj2 Hh)).
Qed.

Lemma waiting_free i n :
  xwaiting r n i -> xacquired_from r n \/ exists m, free (n + m) /\ xwaiting r (n + m) i.
Proof.
  intros Hw. destruct (xrun_inv n) as [Hf|[j Hh]]; [right; exists 0%nat; by rewrite Nat.add_0_r|].
  assert (Hc := proj1 (proj2 Hh)). unfold critical in Hc. rewrite abs_lookup in Hc.
  destruct (hart_of r n j) as [h|] eqn:Hj; [|done].
  destruct (holder_leaves j (hold h) n h Hj eq_refl) as (k & h' & Hk & Hs).
  eapply (held_freed i j k); [done..|]. unfold critical. rewrite abs_lookup, Hk. simpl. congruence.
Qed.

(** ** A waiting hart gets a free lock *)

(** How far a waiting hart is from an exclusive store that the monitor lets
    through. *)
Definition variant (h : hart lock_place) : nat :=
  match h_at h, h_frame h with
  | (AtFirst | AtExchange), None => 4
  | (AtFirst | AtExchange), Some (mkFrame _ 0 _) => 1
  | (AtFirst | AtExchange), Some (mkFrame _ 1 _) => if h_monitor h then 0 else 3
  | (AtFirst | AtExchange), Some (mkFrame _ 2 g) => if r_status g =? 0 then 9 else 2
  | (AtFirst | AtExchange), Some _ => 8
  | AtRead, None => 7
  | AtRead, Some (mkFrame _ 0 _) => 6
  | AtRead, Some (mkFrame _ _ g) => if r_old g =? 0 then 5 else 11
  | AtRelax, None => 10
  | AtRelax, Some (mkFrame _ 0 _) => 9
  | AtRelax, Some _ => 8
  | _, _ => 0
  end.

Definition view (h : hart lock_place) : lock_place * option frame * bool := (position h, h_monitor h).

Lemma view_variant h h' : view h' = view h -> variant h' = variant h.
Proof. destruct h, h'. unfold view, position, variant. simpl. by intros [= -> -> ->]. Qed.

Lemma view_position h h' : view h' = view h -> position h' = position h.
Proof. intros Hv. change ((view h').1 = (view h).1). by rewrite Hv. Qed.

Lemma view_notice sg h : sg <> Wrote -> view (notice sg h) = view h.
Proof. by destruct sg. Qed.

(** With the lock free before and after it, a step writes nothing, *)
Lemma free_quiet s s' h h' sg :
  hart_ok (word s) h -> own s s' h h' sg -> word s' = 0 -> spot h <> Crit -> sg <> Wrote.
Proof.
  intros Hok Ho Hw Hs ->. inversion Ho as [|ok o p [c pc g] mon ev f' mon' ev' sg Hc Hcode He| | |]; subst.
  unfold spot, place_of, phase_of in Hs. destruct Hok as (Hl & _).
  destruct p; simpl in Hc; try done; injection Hc as <-; destruct pc as [|[|[|pc]]]; simplify_eq/=;
    repeat (case_match; simplify_eq/=); by rewrite Hl, word_put in Hw.
Qed.

(** and a waiting hart stays, or gets nearer, or fails. *)
Lemma free_variant s s' h h' sg :
  hart_ok (word s) h -> own s s' h h' sg -> word s = 0 -> word s' = 0 ->
  spot h = Xchg \/ spot h = Poll ->
  view h' = view h \/ (variant h' < variant h)%nat \/
  exists g g', h_monitor h = true /\ h_frame h = Some (mkFrame (Exchange 1) 1 g) /\
               h_frame h' = Some (mkFrame (Exchange 1) 2 g') /\ r_status g' = 1.
Proof.
  intros Hok Ho Hw Hw' Hs. unfold spot, place_of, phase_of in Hs.
  destruct Ho as [p c g mon ev Hc _|ok o p [c pc g] mon ev f' mon' ev' sg Hc Ho He
                 |p c g mon ev Hc _|p p' mon ev Hsil|p f mon ev _]; simpl in *.
  - right. left. destruct p; simplify_eq/=; first [by apply Nat.ltb_lt|by destruct Hs].
  - destruct Hok as (Hl & _ & Hm & _). right.
    destruct p; simpl in Hc; try done; injection Hc as <-;
      destruct pc as [|[|[|pc]]]; simplify_eq/=; repeat (case_match; simplify_eq/=);
      unfold variant; simpl;
      first
        [ left; by apply Nat.ltb_lt
        | by destruct Hs
        | by rewrite Hl, word_put in Hw'
        | destruct mon; [right; by do 2 eexists|left; by apply Nat.ltb_lt]
        | left; match goal with H : (_ =? 0) = _ |- _ => rewrite H end; by apply Nat.ltb_lt
        | left; rewrite Hw; by apply Nat.ltb_lt ].
  - right. left. destruct p; simpl in Hc; try done; injection Hc as <-; unfold variant; simpl in *;
      repeat (case_match; simplify_eq/=); first [by apply Nat.ltb_lt|by destruct Hs].
  - destruct Hsil; simpl in Hs; by destruct Hs.
  - by left.
Qed.

Lemma free_word n : free n -> word (x_state (x n)) = 0.
Proof. by intros (Hw & _). Qed.

Lemma free_spot n i h : free n -> hart_of r n i = Some h -> spot h <> Crit.
Proof. intros (_ & Hn & _) Hi Hc. apply (Hn i). unfold critical. by rewrite abs_lookup, Hi, <- Hc. Qed.

Lemma waiting_spot n i h :
  hart_of r n i = Some h -> xwaiting r n i <-> spot h = Xchg \/ spot h = Poll.
Proof.
  intros Hi. unfold xwaiting, waiting. rewrite !abs_lookup, Hi. simpl.
  split; [intros [Hs|Hs]; injection Hs; auto|intros [ -> | -> ]; auto].
Qed.

Lemma waiting_busy h : spot h = Xchg \/ spot h = Poll -> busy (h_at h).
Proof.
  unfold spot, place_of. intros Hs. split; intros Hp; rewrite Hp in Hs; destruct (phase_of ARM64 h);
    by destruct Hs.
Qed.

(** While the lock is free the other harts stay as they are. *)
Lemma free_other n i h :
  free n -> free (S n) -> hart_of r n i = Some h -> xr_hart r n <> i ->
  exists h', hart_of r (S n) i = Some h' /\ view h' = view h.
Proof.
  intros Hf Hf' Hi Hne. destruct (step_own n) as (h0 & h1 & sg & H0 & _ & Hok & Ho & Hother).
  exists (notice sg h). rewrite (Hother i), Hi by done. split; [done|]. apply view_notice.
  eapply free_quiet; [exact Hok|exact Ho|by apply free_word|exact (free_spot _ _ _ Hf H0)].
Qed.

Lemma free_no_success n i : free n -> free (S n) -> ~ attempt r n i 0.
Proof.
  intros Hf Hf' (h & h' & g & g' & Hi & Hm & Hfr & Hi' & Hfr' & Hst).
  destruct (decide (xr_hart r n = i)) as [<-|Hne].
  2: { destruct (step_other n i h Hi Hne) as (h1 & H1 & Hp). rewrite Hi' in H1. injection H1 as <-.
       unfold position in Hp. rewrite Hfr, Hfr' in Hp. done. }
  destruct (step_own n) as (h0 & h1 & sg & H0 & H1 & Hok & Ho & _).
  rewrite Hi in H0. rewrite Hi' in H1. injection H0 as <-. injection H1 as <-.
  assert (Hq := free_quiet _ _ _ _ _ Hok Ho (free_word _ Hf') (free_spot _ _ _ Hf Hi)).
  destruct Ho as [p c g0 mon ev Hc _|ok o p f mon ev f' mon' ev' sg Hc Ho He
                 |p c g0 mon ev Hc _|p p' mon ev Hsil|p f mon ev _]; simpl in *; simplify_eq/=.
  destruct ok; by simplify_eq/=.
Qed.

Lemma free_step_own n i h :
  free n -> free (S n) -> xwaiting r n i -> hart_of r n i = Some h ->
  exists h', hart_of r (S n) i = Some h' /\
    (view h' = view h \/ (variant h' < variant h)%nat \/ attempt r n i 1).
Proof.
  intros Hf Hf' Hw Hi. destruct (decide (xr_hart r n = i)) as [<-|Hne].
  2: { destruct (free_other n i h Hf Hf' Hi Hne) as (h' & Hh' & Hv). eauto. }
  destruct (step_own n) as (h0 & h1 & sg & H0 & H1 & Hok & Ho & _).
  rewrite Hi in H0. injection H0 as <-. exists h1. split; [done|].
  apply (waiting_spot _ _ _ Hi) in Hw.
  destruct (free_variant _ _ _ _ _ Hok Ho (free_word _ Hf) (free_word _ Hf') Hw)
    as [Hv|[Hv|(g & g' & Hm & Hg & Hg' & Hst)]]; [by left|by right; left|].
  right. right. exists h, h1, g, g'. done.
Qed.

(** Until a free lock is taken, a hart that gets somewhere gets nearer, or
    fails; it does not succeed. *)
Definition nearer (n m i v : nat) : Prop :=
  free (n + m) /\ xwaiting r (n + m) i /\
  (forall m', (n <= m' < n + m)%nat -> ~ attempt r m' i 0) /\
  ((exists h', hart_of r (n + m) i = Some h' /\ (variant h' < v)%nat) \/
   exists q, (n + m = S q)%nat /\ (n <= q)%nat /\ attempt r q i 1).

Lemma nearer_succ n m i v : free n -> free (S n) -> nearer (S n) m i v -> nearer n (S m) i v.
Proof.
  intros Hf Hf' (Hfm & Hw & Hn & Hd). unfold nearer. replace (n + S m)%nat with (S n + m)%nat by lia.
  split_and!; [done..| |].
  - intros m' Hm'. destruct (decide (m' = n)) as [->|?]; [by apply free_no_success|apply Hn; lia].
  - destruct Hd as [?|(q & Hq & Hle & Ha)]; [by left|]. right. exists q. split_and!; [done|lia|done].
Qed.

Lemma free_changes i k : forall n h,
  free n -> xwaiting r n i -> hart_of r n i = Some h ->
  position <$> hart_of r (n + k) i <> Some (position h) ->
  xacquired_from r n \/ exists m, nearer n m i (variant h).
Proof.
  induction k as [|k IH]; intros n h Hf Hw Hi Hp; [by rewrite Nat.add_0_r, Hi in Hp|].
  destruct (stays_free n Hf) as [Ha|Hf']; [by left|].
  destruct (stays_waiting n i Hw) as [Ha|Hw']; [by left|].
  destruct (free_step_own n i h Hf Hf' Hw Hi) as (h1 & H1 & Hd).
  assert (Hno : forall m', (n <= m' < n + 1)%nat -> ~ attempt r m' i 0).
  { intros m' Hm'. replace m' with n by lia. by apply free_no_success. }
  destruct Hd as [Hv|Hd].
  - replace (n + S k)%nat with (S n + k)%nat in Hp by lia. rewrite <- (view_position h h1 Hv) in Hp.
    destruct (IH (S n) h1 Hf' Hw' H1 Hp) as [Ha|[m Hm]]; [left; by apply xacquired_succ|].
    right. exists (S m). apply nearer_succ; [done..|]. by rewrite <- (view_variant h h1).
  - right. exists 1%nat. unfold nearer. rewrite Nat.add_1_r in *. split_and!; [done..|].
    destruct Hd as [Hv|Ha]; [left; eauto|right; exists n; auto].
Qed.

(** ** A sleeping hart wakes *)

Lemma asleep_still h h' : view h' = view h -> asleep h -> asleep h' \/ h_event h' = true.
Proof.
  intros Hv [_ [g Hf]]. apply view_position in Hv. destruct (h_event h') eqn:He; [by right|].
  left. split; [done|]. exists g. rewrite <- Hf. by injection Hv.
Qed.

Lemma awake h : h_event h = true -> ~ asleep h.
Proof. intros He [He' _]. congruence. Qed.

(** A sleeping hart makes no step but to wake, and the step of the hart at its
    [sev] wakes it. *)
Lemma asleep_step n i j h hj :
  free n -> free (S n) -> hart_of r n i = Some h -> asleep h -> hart_of r n j = Some hj -> at_sev hj ->
  exists h', hart_of r (S n) i = Some h' /\ view h' = view h /\
    (h_event h' = true \/
     asleep h' /\ exists hj', hart_of r (S n) j = Some hj' /\ at_sev hj' /\ position hj' = position hj).
Proof.
  intros Hf Hf' Hi Ha Hj [gj Hsev].
  destruct (step_own n) as (h0 & h1 & sg & H0 & H1 & Hok & Ho & Hother).
  destruct (decide (xr_hart r n = i)) as [Hk|Hne].
  - rewrite Hk in *. rewrite Hi in H0. injection H0 as <-. exists h1. split; [done|].
    destruct Ha as [He [g Hfr]].
    destruct Ho as [p c g0 mon ev Hc _|ok o p f mon ev f' mon' ev' sg Hc Ho He'
                   |p c g0 mon ev Hc _|p p' mon ev Hsil|p f mon ev _]; simpl in *; simplify_eq/=.
    split; [done|by left].
  - destruct (free_other n i h Hf Hf' Hi Hne) as (h' & Hh' & Hv). exists h'. split; [done|].
    split; [done|]. destruct (asleep_still h h' Hv Ha) as [Ha'|?]; [|by left].
    destruct (decide (xr_hart r n = j)) as [Hkj|Hnj].
    + rewrite Hkj in *. rewrite Hj in H0. injection H0 as <-.
      destruct Ho as [p c g0 mon ev Hc _|ok o p f mon ev f' mon' ev' sg Hc Ho He'
                     |p c g0 mon ev Hc _|p p' mon ev Hsil|p f mon ev _]; simpl in *; simplify_eq/=.
      * left. rewrite (Hother i) in Hh' by done. rewrite Hi in Hh'. by injection Hh' as <-.
      * right. split; [done|]. eexists. split_and!; [exact H1|by eexists|done].
    + right. split; [done|]. destruct (step_other n j hj Hj Hnj) as (hj' & Hj' & Hp).
      exists hj'. split_and!; [done| |done]. exists gj. rewrite <- Hsev. by injection Hp.
Qed.

Definition wakes (n m i : nat) (h : hart lock_place) : Prop :=
  free (n + m) /\ xwaiting r (n + m) i /\
  (forall m', (n <= m' < n + m)%nat -> ~ attempt r m' i 0) /\
  exists h', hart_of r (n + m) i = Some h' /\ view h' = view h /\ ~ asleep h'.

Lemma wake_up i j k : forall n h hj,
  free n -> xwaiting r n i -> hart_of r n i = Some h -> asleep h ->
  hart_of r n j = Some hj -> at_sev hj ->
  position <$> hart_of r (n + k) j <> Some (position hj) ->
  xacquired_from r n \/ exists m, wakes n m i h.
Proof.
  induction k as [|k IH]; intros n h hj Hf Hw Hi Ha Hj Hs Hp; [by rewrite Nat.add_0_r, Hj in Hp|].
  destruct (stays_free n Hf) as [Hq|Hf']; [by left|].
  destruct (stays_waiting n i Hw) as [Hq|Hw']; [by left|].
  destruct (asleep_step n i j h hj Hf Hf' Hi Ha Hj Hs) as (h' & Hh' & Hv & [He|(Ha' & hj' & Hj' & Hs' & Hp')]).
  - right. exists 1%nat. unfold wakes. rewrite Nat.add_1_r. split_and!; [done..| |].
    + intros m' Hm'. replace m' with n by lia. by apply free_no_success.
    + exists h'. split_and!; [done..|by apply awake].
  - replace (n + S k)%nat with (S n + k)%nat in Hp by lia. rewrite <- Hp' in Hp.
    destruct (IH (S n) h' hj' Hf' Hw' Hh' Ha' Hj' Hs' Hp) as [Hq|(m & Hfm & Hwm & Hn & h2 & H2 & Hv2 & Hna)];
      [left; by apply xacquired_succ|].
    right. exists (S m). unfold wakes. replace (n + S m)%nat with (S n + m)%nat by lia.
    split_and!; [done..| |].
    + intros m' Hm'. destruct (decide (m' = n)) as [->|?]; [by apply free_no_success|apply Hn; lia].
    + exists h2. split_and!; [done|congruence|done].
Qed.

Lemma asleep_wakes n i h :
  free n -> xwaiting r n i -> hart_of r n i = Some h -> asleep h ->
  xacquired_from r n \/ exists m, wakes n m i h.
Proof.
  intros Hf Hw Hi Ha. destruct (run_ok n) as (_ & Hc & _).
  assert (Hcall := proj1 (Forall_lookup _ _) Hc _ _ Hi).
  destruct (run_wakeable n) as [Hz|Hs].
  - apply Exists_exists. exists h. split; [by eapply list_elem_of_lookup_2|by apply asleep_drowsy].
  - by destruct Hz; apply free_word.
  - apply Exists_exists in Hs as (hj & (j & Hj)%list_elem_of_lookup & Hs).
    assert (Hat := proj1 (Forall_lookup _ _) Hc _ _ Hj). destruct Hs as [g Hg]. specialize (Hat _ Hg).
    destruct (awake_moves n j hj Hj) as [k Hk].
    + destruct (h_at hj); by split.
    + intros [_ [g' Hg']]. congruence.
    + eapply (wake_up i j k); [done..|by eexists|done].
Qed.

(** ** Together *)

Lemma asleep_dec h : {asleep h} + {~ asleep h}.
Proof.
  destruct (h_event h) eqn:He; [right; by apply awake|].
  destruct (h_frame h) as [[c [|pc] g]|] eqn:Hf; [destruct c|..];
    first [left; split; [done|by exists g]|right; intros [_ [g' Hg]]; congruence].
Qed.

Lemma waiting_nearer n i h :
  free n -> xwaiting r n i -> hart_of r n i = Some h ->
  xacquired_from r n \/ exists m, nearer n m i (variant h).
Proof.
  intros Hf Hw Hi.
  assert (Hawake : xacquired_from r n \/ exists m, wakes n m i h).
  { destruct (asleep_dec h) as [Ha|Ha]; [by apply asleep_wakes|].
    right. exists 0%nat. unfold wakes. rewrite Nat.add_0_r. split_and!; [done..|lia|eauto]. }
  destruct Hawake as [Ha|(m & Hfm & Hwm & Hn & h' & Hh' & Hv & Hna)]; [by left|].
  destruct (awake_moves (n + m) i h' Hh') as [k Hk]; [|done|].
  { by apply waiting_busy, (waiting_spot (n + m) i). }
  destruct (free_changes i k (n + m) h' Hfm Hwm Hh' Hk) as [Ha|(m2 & Hf2 & Hw2 & Hn2 & Hd)];
    [left; by eapply xacquired_later|].
  right. exists (m + m2)%nat. unfold nearer. rewrite Nat.add_assoc, <- (view_variant h h' Hv).
  split_and!; [done..| |].
  - intros m' Hm'. destruct (decide (m' < n + m)%nat); [apply Hn|apply Hn2]; lia.
  - destruct Hd as [?|(q & ? & ? & ?)]; [by left|]. right. exists q. split_and!; [done|lia|done].
Qed.

Lemma xfree_acquired i n0 : patient r i n0 -> forall v n h,
  (n0 <= n)%nat -> (forall m', (n0 <= m' < n)%nat -> ~ attempt r m' i 0) ->
  free n -> xwaiting r n i -> hart_of r n i = Some h -> variant h = v -> xacquired_from r n.
Proof.
  induction 1 as [n0 _ IHp]. intros v. induction (lt_wf v) as [v _ IHv].
  intros n h Hle Hno Hf Hw Hi Hv.
  destruct (waiting_nearer n i h Hf Hw Hi) as [Ha|(m & Hfm & Hwm & Hn & Hd)]; [done|].
  apply (xacquired_later n m).
  assert (Hno' : forall m', (n0 <= m' < n + m)%nat -> ~ attempt r m' i 0).
  { intros m' Hm'. destruct (decide (m' < n)%nat); [apply Hno|apply Hn]; lia. }
  destruct Hd as [(h' & Hh' & Hlt)|(q & Hq & Hle' & Ha)].
  - eapply (IHv (variant h')); [lia|lia|done..].
  - assert (exists h', hart_of r (n + m) i = Some h') as [h' Hh'].
    { rewrite Hq. destruct Ha as (? & h' & ? & ? & _ & _ & _ & ? & _). by exists h'. }
    eapply (IHp q); [lia| |exact Ha|lia| |exact Hfm|exact Hwm|exact Hh'|done].
    + intros m' Hm'. apply Hno'. lia.
    + intros m' Hm'. lia.
Qed.
End progress.

(** C19: Where a [sev] takes effect after the [stlr] before it, the lock is free of
    deadlock, instruction by instruction: in a run where a hart in [spin_lock] or
    [spin_unlock] that is not asleep goes on, no hart stays in its critical
    section for ever and no hart's exclusive stores fail for ever, as long as
    some hart waits for the lock, asleep or not, some hart gets it.  The code has
    no barrier that asks for this order; without it the last hart to wait can
    stay asleep on a free lock ([a64_wakeup_lost]). *)
Theorem a64_lock_progress `{Platform} lock guarded I r n i :
  valid lock 4 = true -> Forall (apart (lock, 4)) guarded ->
  (forall m m', unchanged guarded m m' -> I m -> I m') ->
  xrun_of lock guarded I r -> xfair r ->
  xwaiting r n i -> xacquired_from r n.
Proof.
  intros Hv Ha HI Hr Hf Hw.
  destruct (waiting_free lock guarded I Hv Ha HI r Hr Hf i n Hw) as [Hq|(m & Hfree & Hw')]; [done|].
  apply (xacquired_later r n m).
  assert (Hs := Hw'). unfold xwaiting, waiting in Hs. rewrite abs_lookup in Hs.
  destruct (hart_of r (n + m) i) as [h|] eqn:Hi; [|by destruct Hs].
  eapply (xfree_acquired lock guarded I Hv Ha HI r Hr Hf i (n + m)); [apply Hf|done|lia|done..].
Qed.

(** ** Two harts taking turns for ever *)

Section turns.
Abbreviation lk := 0x40090000.
Abbreviation pair := [(lk + 8, 16)].
Abbreviation junk v := (mkRegs 3 v 9 v).
Abbreviation go i n := (repeat (i%nat, Go true) n).

Definition idle_lock : machine lock_place :=
  mkMachine (set_mem cold_state (put32 ∅ lk 0))
    [mkHart AtIdle None false true; mkHart AtIdle None false true].

(** Hart 0 takes the lock; hart 1 finds it taken, spends its event on one [wfe]
    and sleeps in the next; hart 0 gives the lock back and wakes hart 1, which
    takes it and gives it back. *)
Definition round : list (nat * move (C := lock_place)) :=
  [(0%nat, Walk AtExchange); (0%nat, Begin (junk 1))] ++ go 0 4 ++
  [(1%nat, Walk AtExchange); (1%nat, Begin (junk 1))] ++ go 1 4 ++
  [(1%nat, Begin (junk 0))] ++ go 1 2 ++ [(1%nat, Begin (junk 0))] ++ go 1 2 ++
  [(1%nat, Begin (junk 0))] ++ go 1 2 ++ [(1%nat, Begin (junk 0))] ++
  [(0%nat, Walk AtStore); (0%nat, Begin (junk 0))] ++ go 0 3 ++ go 1 2 ++
  [(1%nat, Begin (junk 0))] ++ go 1 2 ++ [(1%nat, Begin (junk 1))] ++ go 1 4 ++
  [(1%nat, Walk AtStore); (1%nat, Begin (junk 0))] ++ go 1 3.

Abbreviation round_play1 := (play1 ARM64 lk (lock_calls ARM64) (lock_returns ARM64) (lock_walks ARM64)).

(** The states of a round, with the hart and the event of the step that
    follows. *)
Fixpoint film (sched : list (nat * move (C := lock_place))) (y : machine lock_place) :
    list (machine lock_place * nat * option event) :=
  match sched with
  | [] => []
  | (i, mv) :: sched =>
      match round_play1 i mv y with Some (e, y') => (y, i, e) :: film sched y' | None => [] end
  end.

Definition shots : list (machine lock_place * nat * option event) := Eval vm_compute in film round idle_lock.
Definition shot (n : nat) : machine lock_place * nat * option event :=
  nth (n mod 47) shots (idle_lock, 0%nat, None).

Definition turns : xrun := mkXrun (fun n => (shot n).1.1) (fun n => (shot n).1.2) (fun n => (shot n).2).

(** What holds at each turn of a round holds at every turn. *)
Lemma every_shot (P : nat -> Prop) (n : nat) : Forall P (seq 0 47) -> P (n mod 47)%nat.
Proof.
  intros HP. apply (proj1 (Forall_forall _ _) HP), elem_of_seq.
  pose proof (Nat.mod_upper_bound n 47). lia.
Qed.

Lemma shot_mod (n : nat) : shot (n mod 47) = shot n.
Proof. unfold shot. by rewrite Nat.Div0.mod_mod. Qed.

Lemma shot_succ_mod (n : nat) : shot (S (n mod 47)) = shot (S n).
Proof. unfold shot. rewrite <- (Nat.add_1_r n), <- (Nat.add_1_r (n mod 47)). by rewrite Nat.Div0.add_mod_idemp_l. Qed.

(** The move of each step. *)
Definition move_at (n : nat) : move := (nth (n mod 47) round (0%nat, Wake)).2.

Lemma turns_play n :
  round_play1 (xr_hart turns n) (move_at n) (xr_at turns n) = Some (xr_event turns n, xr_at turns (S n)).
Proof.
  simpl. rewrite <- (shot_succ_mod n), <- !(shot_mod n).
  replace (move_at n) with (move_at (n mod 47)) by (unfold move_at; by rewrite Nat.Div0.mod_mod).
  pattern (n mod 47)%nat. apply every_shot. repeat constructor; vm_compute; reflexivity.
Qed.

Lemma xturns_run : xrun_of (H := arm64_virt) lk pair agree turns.
Proof.
  split.
  - split; [by repeat constructor|]. split; [done|]. by exists (set_mem cold_state ∅).
  - intros n. eapply (play1_step _ _ _ _ _ (lock_walks ARM64) (lock_walks_silent ARM64 lk)). exact (turns_play n).
Qed.

(** Every step of the round comes again. *)
Lemma comes_again (n m : nat) : (m < 47)%nat -> exists k, ((n + k) mod 47 = m)%nat.
Proof.
  intros Hm. exists (m + 47 - n mod 47)%nat. pose proof (Nat.mod_upper_bound n 47).
  assert (Hn := Nat.div_mod_eq n 47).
  replace (n + (m + 47 - n mod 47))%nat with (m + (S (n / 47)) * 47)%nat by lia.
  rewrite Nat.Div0.mod_add. by apply Nat.mod_small.
Qed.

Lemma hart_of_mod (n i : nat) : hart_of turns n i = hart_of turns (n mod 47) i.
Proof. unfold hart_of. cbn [xr_at turns]. by rewrite shot_mod. Qed.

Lemma hart_of_succ_mod (n i : nat) : hart_of turns (S n) i = hart_of turns (S (n mod 47)) i.
Proof. unfold hart_of. cbn [xr_at turns]. by rewrite shot_succ_mod. Qed.

Lemma moves_mod (n i : nat) : moves turns n i <-> moves turns (n mod 47) i.
Proof. unfold moves. rewrite (hart_of_succ_mod n), (hart_of_mod n). cbn [xr_hart turns]. by rewrite shot_mod. Qed.

Lemma moves_again (n m i : nat) : (m < 47)%nat -> moves turns m i -> exists k, moves turns (n + k) i.
Proof.
  intros Hm Hv. destruct (comes_again n m Hm) as [k Hk]. exists k. apply moves_mod. by rewrite Hk.
Qed.

Lemma two_harts (n i : nat) h : hart_of turns n i = Some h -> i = 0%nat \/ i = 1%nat.
Proof.
  intros Hi. assert (Hl : length (x_harts (xr_at turns n)) = 2%nat).
  { cbn [xr_at turns]. rewrite <- (shot_mod n). pattern (n mod 47)%nat. apply every_shot. by repeat constructor. }
  apply lookup_lt_Some in Hi. lia.
Qed.

Lemma no_failure (n i : nat) : ~ attempt turns n i 1.
Proof.
  intros (h & h' & g & g' & Hi & _ & _ & Hi' & Hf & Hst).
  assert (Hok : forall i, (i < 2)%nat -> from_option (fun h => match h_frame h with
            | Some (mkFrame (Exchange 1) 2 g) => negb (r_status g =? 1) | _ => true end) true
            (hart_of turns (S n) i) = true).
  { intros j Hj. rewrite hart_of_succ_mod. pattern (n mod 47)%nat. apply every_shot.
    destruct j as [|[|j]]; [..|lia]; by repeat constructor. }
  specialize (Hok i). rewrite Hi' in Hok. simpl in Hok. rewrite Hf, Hst in Hok.
  discriminate Hok. destruct (two_harts _ _ _ Hi); lia.
Qed.

Lemma turns_fair : xfair turns.
Proof.
  split_and!.
  - intros n i h Hi _ _. destruct (two_harts n i h Hi) as [ -> | -> ].
    + apply (moves_again n 0); [lia|]. by split.
    + apply (moves_again n 6); [lia|]. by split.
  - intros n i h Hi Hc. destruct (comes_again n 0) as [k Hk]; [lia|]. exists k.
    rewrite hart_of_mod, Hk. unfold position. rewrite Hc.
    by destruct (two_harts n i h Hi) as [ -> | -> ].
  - intros n i. apply patient_intro. intros m _ _ Ha. by apply no_failure in Ha.
Qed.

(** After 22 steps hart 1 is asleep. *)
Lemma a64_lock_progress_witness :
  xwaiting turns 22 1 /\ (exists h, hart_of turns 22 1 = Some h /\ asleep h) /\ xacquired_from turns 22.
Proof.
  assert (Hw : xwaiting turns 22 1) by (right; vm_compute; reflexivity).
  split; [exact Hw|].
  split; [eexists; split; [vm_compute; reflexivity|split; [reflexivity|by eexists]]|].
  apply (@a64_lock_progress arm64_virt lk pair agree turns 22 1);
    [reflexivity|by repeat constructor|exact agree_guarded|exact xturns_run|exact turns_fair|exact Hw].
Defined.
End turns.
