(* ===== verification/Str.v ===== *)
(** * Byte strings in memory: libkern/string.c

    A pointer argument is an address; [dest], [src], [s], [str] are the code's
    names.  The loops are the code's, byte by byte and in its order. *)

From S2P Require Import Prelude Machine Logic Console Boards.

Section string.
Context `{Platform}.

(** ** Operations *)

(** [pdest[i] = psrc[i]] *)
Definition copy_byte (dest src i : Z) : M unit :=
  b <- load8 (src + i) ;; store8 (dest + i) b.

Definition memcpy (dest src n : Z) : M Z :=
  for_n (Z.to_nat n) 0 (copy_byte dest src) ;; ret dest.

Definition memset (s c n : Z) : M Z :=
  for_n (Z.to_nat n) 0 (fun i => store8 (s + i) (wrap8 c)) ;; ret s.

Definition memmove (dest src n : Z) : M Z :=
  (if src >? dest then for_n (Z.to_nat n) 0 (copy_byte dest src)
   else if src <? dest then
     (* for (i = n; i > 0; i--) pdest[i-1] = psrc[i-1]; round k has i = n - k *)
     for_n (Z.to_nat n) 0 (fun k => copy_byte dest src (n - k - 1))
   else ret tt) ;;
  ret dest.

Definition memcmp (s1 s2 n : Z) : M Z :=
  r <- for_ret (Z.to_nat n) 0 (fun i =>
         a <- load8 (s1 + i) ;; b <- load8 (s2 + i) ;;
         ret (if a =? b then None else Some (if a <? b then -1 else 1))) ;;
  ret (default 0 r).

Definition strlen (str : Z) : M Z :=
  if str =? 0 then ret 0
  else while (fun len => c <- load8 (str + len) ;;
                         ret (if c =? 0 then inr len else inl (wrap64 (len + 1)))) 0.

(** ** References *)

(** The bytes [[a, a+n)]. *)
Definition bytes (m : memory) (a : Z) (n : nat) : list Z :=
  map (fun i => get8 m (a + i)) (seqZ 0 (Z.of_nat n)).

(** Lexicographic order of byte strings, as [memcmp] reports it. *)
Fixpoint lex_compare (l1 l2 : list Z) : Z :=
  match l1, l2 with
  | x :: l1', y :: l2' => if x =? y then lex_compare l1' l2' else if x <? y then -1 else 1
  | _, _ => 0
  end.

(** ** Lemmas *)

Lemma bytes_eq m m' a a' n :
  (forall i, 0 <= i < Z.of_nat n -> get8 m (a + i) = get8 m' (a' + i)) ->
  bytes m a n = bytes m' a' n.
Proof.
  intros Hb. unfold bytes. apply map_ext_in. intros i Hi.
  apply list_elem_of_In, elem_of_seqZ in Hi. apply Hb. lia.
Qed.

Lemma bytes_lookup m a n i : 0 <= i < Z.of_nat n -> bytes m a n !! Z.to_nat i = Some (get8 m (a + i)).
Proof.
  intros Hi. unfold bytes. change (map ?f ?l) with (f <$> l).
  rewrite list_lookup_fmap, lookup_seqZ_lt by lia. simpl. do 2 f_equal. lia.
Qed.

Lemma bytes_cons m a n : bytes m a (S n) = get8 m a :: bytes m (a + 1) n.
Proof.
  unfold bytes. rewrite seqZ_cons by lia. simpl. rewrite Z.add_0_r. f_equal.
  replace (Z.pred (Z.of_nat (S n))) with (Z.of_nat n) by lia.
  change (Z.succ 0) with 1.
  apply list_eq. intros i. change (map ?f ?l) with (f <$> l).
  rewrite !list_lookup_fmap. destruct (decide (i < n)%nat).
  - rewrite !lookup_seqZ_lt by lia. simpl. f_equal. f_equal. lia.
  - rewrite !lookup_seqZ_ge by lia. done.
Qed.

Lemma wp_copy_byte dest src i s (Q : unit -> kstate -> Prop) E :
  valid (src + i) 1 = true -> valid (dest + i) 1 = true ->
  (let m' := putw 1 (k_mem s) (dest + i) (get8 (k_mem s) (src + i)) in Q tt (set_mem s m')) ->
  wp (copy_byte dest src i) s Q E.
Proof.
  intros Hs Hd HQ. unfold copy_byte. apply wp_bind, wp_load; [done|].
  apply wp_store; [done|]. by rewrite getw_1.
Qed.

(** The state reached by moving the bytes [[src, src+n)] to [dest]. *)
Definition copied (dest src n : Z) (m m' : memory) : Prop :=
  mods [(dest, n)] m m' /\ forall i, 0 <= i < n -> get8 m' (dest + i) = get8 m (src + i).

(** Copying upwards is right when the source is not overwritten before it is
    read: the ranges do not overlap or the destination starts below. *)
Lemma wp_copy_up dest src n s (Q : unit -> kstate -> Prop) E :
  0 <= n -> valid src n = true -> valid dest n = true ->
  dest <= src \/ src + n <= dest ->
  (forall m', copied dest src n (k_mem s) m' -> Q tt (set_mem s m')) ->
  wp (for_n (Z.to_nat n) 0 (copy_byte dest src)) s Q E.
Proof.
  intros Hn Hs Hd Hov HQ.
  apply (wp_for_n (fun i s' => exists m', s' = set_mem s m' /\ mods [(dest, i)] (k_mem s) m' /\
    forall k, 0 <= k < i -> get8 m' (dest + k) = get8 (k_mem s) (src + k))).
  - exists (k_mem s). rewrite set_mem_id. split; [done|]. split; [apply mods_refl|lia].
  - intros j s' Hj (m' & -> & Hm & Hk).
    apply wp_copy_byte; [solve_valid..|]. simpl. rewrite set_mem_mem. eexists. split; [done|].
    assert (Hsrc : get8 m' (src + j) = get8 (k_mem s) (src + j)).
    { apply Hm. apply outside_cons. split; [lia|constructor]. }
    rewrite Hsrc. split.
    + intros b [Hb _]%outside_cons. rewrite get8_put1 by apply get8_range.
      rewrite decide_False by lia. apply Hm, outside_cons. split; [lia|constructor].
    + intros k Hkj. rewrite get8_put1 by apply get8_range. case_decide; [f_equal; lia|].
      apply Hk. lia.
  - intros s' (m' & -> & Hm & Hk). rewrite Z.add_0_l, Z2Nat.id in * by lia. by apply HQ.
Qed.

(** Copying downwards is right when the destination starts above. *)
Lemma wp_copy_down dest src n s (Q : unit -> kstate -> Prop) E :
  0 <= n -> valid src n = true -> valid dest n = true -> src <= dest ->
  (forall m', copied dest src n (k_mem s) m' -> Q tt (set_mem s m')) ->
  wp (for_n (Z.to_nat n) 0 (fun k => copy_byte dest src (n - k - 1))) s Q E.
Proof.
  intros Hn Hs Hd Hov HQ.
  apply (wp_for_n (fun k s' => exists m', s' = set_mem s m' /\
    mods [(dest + (n - k), k)] (k_mem s) m' /\
    forall i, n - k <= i < n -> get8 m' (dest + i) = get8 (k_mem s) (src + i))).
  - exists (k_mem s). rewrite set_mem_id. split; [done|]. split; [apply mods_refl|lia].
  - intros j s' Hj (m' & -> & Hm & Hk).
    apply wp_copy_byte; [solve_valid..|]. simpl. rewrite set_mem_mem. eexists. split; [done|].
    assert (Hsrc : get8 m' (src + (n - j - 1)) = get8 (k_mem s) (src + (n - j - 1))).
    { apply Hm. apply outside_cons. split; [lia|constructor]. }
    rewrite Hsrc. split.
    + intros b [Hb _]%outside_cons. rewrite get8_put1 by apply get8_range.
      rewrite decide_False by lia. apply Hm, outside_cons. split; [lia|constructor].
    + intros k Hkj. rewrite get8_put1 by apply get8_range. case_decide; [f_equal; lia|].
      apply Hk. lia.
  - intros s' (m' & -> & Hm & Hk). rewrite Z.add_0_l, Z2Nat.id in * by lia. apply HQ.
    split; [|intros i Hi; apply Hk; lia]. by replace (dest + (n - n)) with dest in Hm by lia.
Qed.

Lemma wp_memset a c n s (Q : Z -> kstate -> Prop) E :
  0 <= n -> valid a n = true ->
  (forall m', mods [(a, n)] (k_mem s) m' ->
     (forall i, 0 <= i < n -> get8 m' (a + i) = wrap8 c) -> Q a (set_mem s m')) ->
  wp (memset a c n) s Q E.
Proof.
  intros Hn Hv HQ. unfold memset. apply wp_bind.
  apply (wp_for_n (fun i s' => exists m', s' = set_mem s m' /\ mods [(a, i)] (k_mem s) m' /\
    forall k, 0 <= k < i -> get8 m' (a + k) = wrap8 c)).
  - exists (k_mem s). rewrite set_mem_id. split; [done|]. split; [apply mods_refl|lia].
  - intros j s' Hj (m' & -> & Hm & Hk). apply wp_store; [solve_valid|]. simpl.
    rewrite set_mem_mem. eexists. split; [done|].
    assert (u8 (wrap8 c)) by (apply Z.mod_pos_bound; lia). split.
    + intros b [Hb _]%outside_cons. rewrite get8_put1, decide_False by (done || lia).
      apply Hm, outside_cons. split; [lia|constructor].
    + intros k Hkj. rewrite get8_put1 by done. case_decide; [done|]. apply Hk. lia.
  - intros s' (m' & -> & Hm & Hk). rewrite Z.add_0_l, Z2Nat.id in * by lia.
    apply wp_ret. by apply HQ.
Qed.

Lemma load8_run a s : valid a 1 = true -> load8 a s = Ok (get8 (k_mem s) a) s.
Proof. intros Hv. unfold load. change (Z.of_nat 1) with 1. by rewrite Hv, getw_1. Qed.

Lemma memcmp_loop n s1 s2 i s :
  valid (s1 + i) (Z.of_nat n) = true -> valid (s2 + i) (Z.of_nat n) = true ->
  for_ret n i (fun i => a <- load8 (s1 + i) ;; b <- load8 (s2 + i) ;;
     ret (if a =? b then None else Some (if a <? b then -1 else 1))) s =
  Ok (let c := lex_compare (bytes (k_mem s) (s1 + i) n) (bytes (k_mem s) (s2 + i) n) in
      if c =? 0 then None else Some c) s.
Proof.
  revert i. induction n as [|n IH]; intros i Hv1 Hv2; [done|].
  cbn [for_ret]. unfold bind. rewrite (load8_run (s1 + i)) by solve_valid.
  rewrite (load8_run (s2 + i)) by solve_valid. rewrite !bytes_cons. simpl.
  destruct (Z.eqb_spec (get8 (k_mem s) (s1 + i)) (get8 (k_mem s) (s2 + i))).
  - rewrite IH by solve_valid. by rewrite <- !Z.add_assoc.
  - by destruct (_ <? _).
Qed.

Lemma wp_strlen str n s (Q : Z -> kstate -> Prop) E :
  str <> 0 -> 0 <= n < 2 ^ 64 - 1 -> valid str (n + 1) = true ->
  (forall i, 0 <= i < n -> get8 (k_mem s) (str + i) <> 0) -> get8 (k_mem s) (str + n) = 0 ->
  Q n s -> wp (strlen str) s Q E.
Proof.
  intros Hnn Hn Hv Hb H0 HQ. unfold strlen. rewrite (proj2 (Z.eqb_neq _ _) Hnn).
  apply (wp_while (fun k len s' => s' = s /\ 0 <= len /\ len + Z.of_nat k = n) (Z.to_nat n));
    [lia|split; [done|lia]|].
  intros k len s' (-> & Hl & Hk). apply wp_bind, wp_load; [solve_valid|]. rewrite getw_1.
  apply wp_ret. destruct (Z.eqb_spec (get8 (k_mem s) (str + len)) 0) as [He|].
  - destruct (decide (len = n)) as [->|]; [done|]. by apply Hb in He; [|lia].
  - destruct (decide (len = n)) as [->|]; [done|]. exists (k - 1)%nat.
    rewrite wrap64_small by (unfold u64; lia). repeat split; lia.
Qed.
End string.


(** ** Properties *)

Section string_properties.
Context `{Platform}.

Lemma copied_bytes dest src n m m' :
  0 <= n -> copied dest src n m m' -> bytes m' dest (Z.to_nat n) = bytes m src (Z.to_nat n).
Proof. intros Hn [_ Hc]. apply bytes_eq. intros i Hi. apply Hc. lia. Qed.

(** [memmove] is right whatever the overlap: afterwards the destination
    holds the bytes the source held before the call, and no other byte of
    memory changed. *)
Theorem memmove_correct dest src n s :
  0 <= n -> valid src n = true -> valid dest n = true ->
  safe (memmove dest src n) s
    (fun r s' => r = dest /\ exists m', s' = set_mem s m' /\ mods [(dest, n)] (k_mem s) m' /\
                 bytes m' dest (Z.to_nat n) = bytes (k_mem s) src (Z.to_nat n)).
Proof.
  intros Hn Hs Hd. unfold memmove. apply wp_bind.
  assert (HQ : forall m', copied dest src n (k_mem s) m' ->
    safe (ret dest) (set_mem s m') (fun r s' => r = dest /\ exists m', s' = set_mem s m' /\
      mods [(dest, n)] (k_mem s) m' /\ bytes m' dest (Z.to_nat n) = bytes (k_mem s) src (Z.to_nat n))).
  { intros m' Hc. apply wp_ret. split; [done|]. exists m'. split; [done|]. split; [apply Hc|].
    by apply copied_bytes. }
  destruct (Z.gtb_spec src dest).
  - apply wp_copy_up; [done|done|done|lia|done].
  - destruct (Z.ltb_spec src dest).
    + apply wp_copy_down; [done|done|done|lia|done].
    + assert (src = dest) as -> by lia. apply wp_ret. rewrite <- (set_mem_id s) at 1. apply HQ.
      split; [apply mods_refl|done].
Qed.

(** [memcpy] of ranges that do not overlap copies the source, and [memset]
    fills with the low byte of its argument; neither changes another byte. *)
Theorem memcpy_memset_correct dest src n c s :
  0 <= n -> valid src n = true -> valid dest n = true -> apart (dest, n) (src, n) ->
  safe (memcpy dest src n) s
    (fun r s' => r = dest /\ exists m', s' = set_mem s m' /\ mods [(dest, n)] (k_mem s) m' /\
                 bytes m' dest (Z.to_nat n) = bytes (k_mem s) src (Z.to_nat n)) /\
  safe (memset dest c n) s
    (fun r s' => r = dest /\ exists m', s' = set_mem s m' /\ mods [(dest, n)] (k_mem s) m' /\
                 bytes m' dest (Z.to_nat n) = replicate (Z.to_nat n) (c mod 256)).
Proof.
  intros Hn Hs Hd Hap. split.
  - unfold memcpy. apply wp_bind, wp_copy_up; [done|done|done|unfold apart in Hap; simpl in Hap; lia|].
    intros m' Hc. apply wp_ret. split; [done|]. exists m'. split; [done|]. split; [apply Hc|].
    by apply copied_bytes.
  - apply wp_memset; [done|done|]. intros m' Hm Hc. split; [done|]. exists m'. split; [done|]. split; [done|].
    apply list_eq. intros i. destruct (decide (i < Z.to_nat n)%nat).
    + rewrite lookup_replicate_2 by done. rewrite <- (Nat2Z.id i), bytes_lookup by lia. by rewrite Hc by lia.
    + unfold bytes. change (map ?f ?l) with (f <$> l).
      rewrite list_lookup_fmap, lookup_seqZ_ge, lookup_ge_None_2 by (rewrite ?length_replicate; lia). done.
Qed.

Lemma lex_compare_0 l1 l2 : length l1 = length l2 -> lex_compare l1 l2 = 0 <-> l1 = l2.
Proof.
  revert l2. induction l1 as [|x l1 IH]; intros [|y l2] Hl; simpl in *; try done.
  destruct (Z.eqb_spec x y) as [->|Hne].
  - rewrite IH by lia. split; [by intros ->|by intros [= ->]].
  - destruct (x <? y); split; try done; by intros [= -> _].
Qed.

(** [memcmp] is the lexicographic order of the two byte strings: 0 exactly
    when they are equal, -1 or 1 by the first byte where they differ; it
    changes nothing. *)
Theorem memcmp_correct s1 s2 n s :
  0 <= n -> valid s1 n = true -> valid s2 n = true ->
  let l1 := bytes (k_mem s) s1 (Z.to_nat n) in
  let l2 := bytes (k_mem s) s2 (Z.to_nat n) in
  exists r, memcmp s1 s2 n s = Ok r s /\ (r = 0 <-> l1 = l2) /\
    forall p x y t1 t2, l1 = p ++ x :: t1 -> l2 = p ++ y :: t2 -> x <> y -> r = if x <? y then -1 else 1.
Proof.
  intros Hn Hv1 Hv2 l1 l2. exists (lex_compare l1 l2). split; [|split].
  - unfold memcmp. unfold bind at 1. rewrite memcmp_loop by (rewrite Z.add_0_r, Z2Nat.id by lia; done).
    rewrite !Z.add_0_r. fold l1 l2. simpl. unfold ret. f_equal.
    by destruct (Z.eqb_spec (lex_compare l1 l2) 0) as [->|].
  - apply lex_compare_0. unfold l1, l2, bytes. by rewrite !length_map.
  - intros p x y t1 t2 -> -> Hne. induction p as [|z p IH]; simpl.
    + by rewrite (proj2 (Z.eqb_neq _ _) Hne).
    + by rewrite Z.eqb_refl.
Qed.

(** [strlen] returns the distance to the first zero byte, and 0 for NULL. *)
Theorem strlen_correct str n s :
  0 <= n < 2 ^ 64 - 1 -> valid str (n + 1) = true ->
  (forall i, 0 <= i < n -> get8 (k_mem s) (str + i) <> 0) -> get8 (k_mem s) (str + n) = 0 ->
  strlen str s = Ok (if str =? 0 then 0 else n) s.
Proof.
  intros Hn Hv Hb H0. destruct (Z.eqb_spec str 0) as [->|]; [done|].
  apply safe_eq. by apply (wp_strlen str n).
Qed.
End string_properties.

(** ** Witnesses *)

Definition bytes_demo : kstate :=
  set_mem cold_state (putw 8 ∅ 0x40090000 0x8877665544332211).

Lemma memmove_correct_witness :
  exists s', memmove (H := arm64_virt) 0x40090002 0x40090000 6 bytes_demo = Ok 0x40090002 s' /\
    bytes (k_mem s') 0x40090002 6 = [0x11; 0x22; 0x33; 0x44; 0x55; 0x66].
Proof.
  pose proof (@memmove_correct arm64_virt 0x40090002 0x40090000 6 bytes_demo
                ltac:(lia) eq_refl eq_refl) as Hw.
  destruct (proj1 (safe_run _ _ _) Hw) as (r & s' & Hr & -> & m' & -> & _ & Hb).
  exists (set_mem bytes_demo m'). split; [exact Hr|]. exact Hb.
Defined.

Lemma memcpy_memset_correct_witness :
  safe (memcpy (H := arm64_virt) 0x40090100 0x40090000 3) bytes_demo
    (fun _ s' => bytes (k_mem s') 0x40090100 3 = [0x11; 0x22; 0x33]).
Proof.
  destruct (@memcpy_memset_correct arm64_virt 0x40090100 0x40090000 3 300 bytes_demo
              ltac:(lia) eq_refl eq_refl ltac:(by right)) as [Hw _].
  eapply wp_weaken; [exact Hw|]. intros r s' (_ & m' & -> & _ & Hb). exact Hb.
Defined.

Lemma memcmp_correct_witness :
  exists r, memcmp (H := arm64_virt) 0x40090000 0x40090001 4 bytes_demo = Ok r bytes_demo /\ r = -1.
Proof.
  destruct (@memcmp_correct arm64_virt 0x40090000 0x40090001 4 bytes_demo ltac:(lia) eq_refl eq_refl)
    as (r & Hr & _ & Hd).
  exists r. split; [exact Hr|].
  exact (Hd [] 0x11 0x22 [0x22; 0x33; 0x44] [0x33; 0x44; 0x55] eq_refl eq_refl ltac:(lia)).
Defined.

Lemma strlen_correct_witness :
  strlen (H := arm64_virt) 0x40090000 bytes_demo = Ok 8 bytes_demo.
Proof.
  refine (@strlen_correct arm64_virt 0x40090000 8 bytes_demo ltac:(lia) eq_refl _ eq_refl).
  intros i Hi. assert (Hc : i = 0 \/ i = 1 \/ i = 2 \/ i = 3 \/ i = 4 \/ i = 5 \/ i = 6 \/ i = 7) by lia.
  repeat destruct Hc as [->|Hc]; [vm_compute; discriminate..|]. subst i. vm_compute. discriminate.
Defined.
