(* ===== verification/Boot.v ===== *)
(** * The boot heap: base/mm/bootalloc.c

    A bump pointer over the region the link script reserves. *)

From Stdlib Require Import String.
From S2P Require Import Prelude Machine Logic Console Boards.

#[local] Open Scope string_scope.
#[local] Open Scope list_scope.
#[local] Open Scope Z_scope.

Section boot.
Context `{Platform}.

Definition mm_boot_init (boot_info : boot_info_t) : M unit :=
  klog_info "mm" "initializing boot memory" [] ;;
  modify (fun s => set_boot s (mkBoot (early_heap_start boot_info) (early_heap_end boot_info))) ;;
  klog_info "mm" "initialized boot heap at 0x%x - 0x%x"
    [VInt (early_heap_start boot_info); VInt (early_heap_end boot_info)].

Definition mm_boot_alloc (size : Z) : M Z :=
  b <- gets k_boot ;;
  if boot_heap_ptr b =? 0 then panic "mm" "uninitialized boot heap" []
  else
    let size := ALIGN_UP size 16 in
    if wrap64 (boot_heap_ptr b + size) >? boot_heap_end b then
      panic "mm" "boot heap ran out of memory" []
    else
      modify (fun s => set_boot s (mkBoot (wrap64 (boot_heap_ptr b + size)) (boot_heap_end b))) ;;
      ret (boot_heap_ptr b).

(** A sequence of requests, and the addresses it was given. *)
Fixpoint boot_alloc_all (sizes : list Z) : M (list Z) :=
  match sizes with
  | [] => ret []
  | n :: sizes' => p <- mm_boot_alloc n ;; ps <- boot_alloc_all sizes' ;; ret (p :: ps)
  end.

(** The heap is set up and ends below the top of the address space. *)
Definition boot_ok (s : kstate) : Prop :=
  0 < boot_heap_ptr (k_boot s) /\ u64 (boot_heap_ptr (k_boot s)) /\ u64 (boot_heap_end (k_boot s)).

(** A request small enough for the arithmetic of [mm_boot_alloc] not to wrap. *)
Definition boot_small (s : kstate) (size : Z) : Prop :=
  0 <= size /\ size + 15 < 2 ^ 64 /\ boot_heap_ptr (k_boot s) + ALIGN_UP size 16 < 2 ^ 64.

Definition bumped (s : kstate) (size : Z) : kstate :=
  set_boot s (mkBoot (boot_heap_ptr (k_boot s) + ALIGN_UP size 16) (boot_heap_end (k_boot s))).

Lemma ALIGN_UP_16 size : 0 <= size -> size + 15 < 2 ^ 64 ->
  size <= ALIGN_UP size 16 < size + 16 /\ (16 | ALIGN_UP size 16).
Proof. intros. change 16 with (2 ^ 4). apply ALIGN_UP_bounds; lia. Qed.
End boot.

Section boot_lemmas.
Context `{Console}.

(** The allocator returns the old pointer and moves it, or panics when the
    block would pass the end of the heap. *)
Lemma wp_boot_alloc size s (Q : Z -> kstate -> Prop) (E : kstate -> Prop) :
  boot_ok s -> boot_small s size ->
  (boot_heap_ptr (k_boot s) + ALIGN_UP size 16 <= boot_heap_end (k_boot s) ->
     Q (boot_heap_ptr (k_boot s)) (bumped s size)) ->
  (boot_heap_end (k_boot s) < boot_heap_ptr (k_boot s) + ALIGN_UP size 16 ->
     forall t, E (set_io s t)) ->
  wp (mm_boot_alloc size) s Q E.
Proof.
  intros (Hp & Hpu & He) (Hs & Hsm & Hsa) HQ HE. unfold mm_boot_alloc. wp_steps.
  unfold u64 in *. destruct (ALIGN_UP_16 size) as [Ha _]; [lia..|].
  rewrite (proj2 (Z.eqb_neq _ _)) by lia. rewrite wrap64_small by (unfold u64; lia).
  destruct (Z.gtb_spec (boot_heap_ptr (k_boot s) + ALIGN_UP size 16) (boot_heap_end (k_boot s))).
  - wp_print. apply HE. lia.
  - wp_steps. apply HQ. lia.
Qed.
End boot_lemmas.

(** ** Properties *)

Section boot_properties.
Context `{Console}.

(** The blocks lie one after the other in the heap. *)
Definition blocks_between (lo hi : Z) (ps sizes : list Z) : Prop :=
  length ps = length sizes /\
  (forall i p n, ps !! i = Some p -> sizes !! i = Some n ->
     lo <= p /\ p + n <= hi /\ (16 | p - lo)) /\
  (forall i j p q n, (i < j)%nat -> ps !! i = Some p -> ps !! j = Some q ->
     sizes !! i = Some n -> p + n <= q).

Lemma blocks_cons lo hi p n ps sizes :
  p = lo -> 0 <= n -> n + 15 < 2 ^ 64 -> lo + ALIGN_UP n 16 <= hi ->
  blocks_between (lo + ALIGN_UP n 16) hi ps sizes ->
  blocks_between lo hi (p :: ps) (n :: sizes).
Proof.
  intros -> Hn Hn2 Hhi (Hlen & Hin & Hord).
  destruct (ALIGN_UP_16 n) as [Ha Hd]; [done..|].
  split; [simpl; by rewrite Hlen|]. split.
  - intros [|i] p' n' Hp Hs; simpl in *.
    + injection Hp as <-. injection Hs as <-. repeat split; try lia. rewrite Z.sub_diag. apply Z.divide_0_r.
    + destruct (Hin i p' n') as (H1 & H2 & H3); [done..|]. repeat split; try lia.
      replace (p' - lo) with (p' - (lo + ALIGN_UP n 16) + ALIGN_UP n 16) by lia.
      by apply Z.divide_add_r.
  - intros [|i] [|j] p' q n' Hij Hp Hq Hs; simpl in *; [lia| |lia|].
    + injection Hp as <-. injection Hs as <-.
      destruct (lookup_lt_is_Some_2 sizes j) as [n'' Hn'']; [rewrite <- Hlen; by apply lookup_lt_Some in Hq|].
      destruct (Hin j q n'') as (? & _); [done..|]. lia.
    + apply (Hord i j p' q n'); try done. lia.
Qed.

(** The boot allocator hands out disjoint blocks.  Whatever the sequence
    of requests (each small enough not to wrap the address space), either it
    panics for lack of room, or every block it returns lies inside the heap,
    at a multiple of 16 from its start, and after all the earlier ones. *)
Theorem boot_alloc_all_disjoint sizes s :
  boot_ok s -> boot_heap_ptr (k_boot s) <= boot_heap_end (k_boot s) ->
  Forall (fun n => 0 <= n /\ boot_heap_end (k_boot s) + n + 15 < 2 ^ 64) sizes ->
  wp (boot_alloc_all sizes) s
     (fun ps s' => blocks_between (boot_heap_ptr (k_boot s)) (boot_heap_end (k_boot s)) ps sizes /\
                   boot_heap_end (k_boot s') = boot_heap_end (k_boot s) /\ k_mem s' = k_mem s)
     (fun s' => k_mem s' = k_mem s).
Proof.
  revert s. induction sizes as [|n sizes IH]; intros s Hok Hle Hall; simpl.
  - apply wp_ret. split; [|done]. split; [done|]. split; intros; discriminate.
  - apply Forall_cons in Hall as [[Hn Hsm] Hall]. pose proof Hok as (Hp0 & Hpu & Heu). unfold u64 in *.
    destruct (ALIGN_UP_16 n) as [Ha _]; [lia..|].
    apply wp_bind, wp_boot_alloc; [done|split; [done|lia]| |done].
    intros Hfit. apply wp_bind. eapply wp_mono; [apply (IH (bumped s n)); simpl| |done].
    + unfold boot_ok, u64. simpl. lia.
    + lia.
    + done.
    + simpl. intros ps s' (Hb & Hend & Hm). apply wp_ret. split; [|done].
      apply blocks_cons; by try lia.
Qed.
End boot_properties.

(** ** Witness *)

Definition boot_demo : kstate := set_boot cold_state (mkBoot 0x400F0000 0x400F0100).

Lemma boot_alloc_all_disjoint_witness :
  exists s', boot_alloc_all (H := arm64_virt) [1; 100; 16] boot_demo
               = Ok [0x400F0000; 0x400F0010; 0x400F0080] s' /\
    blocks_between 0x400F0000 0x400F0100 [0x400F0000; 0x400F0010; 0x400F0080] [1; 100; 16].
Proof.
  destruct (wp_result _ _ _ _ [0x400F0000; 0x400F0010; 0x400F0080]
              (@boot_alloc_all_disjoint arm64_virt arm64_console [1; 100; 16] boot_demo
                 ltac:(vm_compute; intuition discriminate) ltac:(vm_compute; discriminate)
                 ltac:(repeat constructor; vm_compute; intuition discriminate)))
    as (s' & Hr & Hb & _); [vm_compute; reflexivity|]. exists s'. split; [exact Hr|exact Hb].
Defined.
