(* ===== verification/Pmm.v ===== *)
(** * The physical frame allocator: base/mm/physframe.c

    One bit per 4 KiB frame of the managed region, in a bitmap taken from the
    boot heap; a next-fit cursor; a counter of free frames.  The abstract view
    is the set of frames whose bit is clear. *)

From Stdlib Require Import String.
From S2P Require Import Prelude Machine Logic Console Boards Boot.

#[local] Open Scope string_scope.
#[local] Open Scope list_scope.
#[local] Open Scope Z_scope.

Definition PAGE_SIZE : Z := 4096.
Definition BITMAP_BIT_SIZE : Z := 8.

Section pmm.
Context `{Platform}.

(** ** Operations *)

Definition bitmap_set (bit : Z) : M unit :=
  p <- gets k_pmm ;;
  b <- load8 (frame_bitmap p + bit / 8) ;;
  store8 (frame_bitmap p + bit / 8) (wrap8 (Z.lor b (Z.shiftl 1 (bit mod 8)))).

Definition bitmap_clear (bit : Z) : M unit :=
  p <- gets k_pmm ;;
  b <- load8 (frame_bitmap p + bit / 8) ;;
  store8 (frame_bitmap p + bit / 8) (wrap8 (Z.land b (Z.lnot (Z.shiftl 1 (bit mod 8))))).

Definition bitmap_test (bit : Z) : M bool :=
  p <- gets k_pmm ;;
  b <- load8 (frame_bitmap p + bit / 8) ;;
  ret (negb (Z.land b (Z.shiftl 1 (bit mod 8)) =? 0)).

Definition set_frame_bitmap (v : Z) (p : pmm_state) : pmm_state :=
  mkPmm v (total_frames p) (free_frames p) (mem_phys_base p) (last_free_index p).
Definition set_free_frames (v : Z) (p : pmm_state) : pmm_state :=
  mkPmm (frame_bitmap p) (total_frames p) v (mem_phys_base p) (last_free_index p).
Definition set_last_free_index (v : Z) (p : pmm_state) : pmm_state :=
  mkPmm (frame_bitmap p) (total_frames p) (free_frames p) (mem_phys_base p) v.
Definition modify_pmm (f : pmm_state -> pmm_state) : M unit :=
  modify (fun s => set_pmm s (f (k_pmm s))).

Definition pmm_init (ram_base ram_size : Z) : M unit :=
  modify_pmm (fun p => mkPmm (frame_bitmap p) (ram_size / PAGE_SIZE) (ram_size / PAGE_SIZE)
                             ram_base (last_free_index p)) ;;
  total <- gets (fun s => total_frames (k_pmm s)) ;;
  let bitmap_size := ALIGN_UP (total / BITMAP_BIT_SIZE) 8 in
  klog_info "mm" "allocating %u bytes for frame bitmap (%u total frames)"
    [VInt bitmap_size; VInt total] ;;
  bm <- mm_boot_alloc bitmap_size ;;
  modify_pmm (set_frame_bitmap bm) ;;
  (if bm =? 0 then panic "mm" "failed to allocate physical memory bitmap" [] else ret tt) ;;
  for_n (Z.to_nat bitmap_size) 0 (fun i =>
    p <- gets k_pmm ;; store8 (frame_bitmap p + i) 0xFF) ;;
  klog_info "mm" "physical frame allocator initialized successfully" [].

Definition pmm_free_region (base size : Z) : M unit :=
  p <- gets k_pmm ;;
  let start_frame := wrap64 (base - mem_phys_base p) / PAGE_SIZE in
  let count := size / PAGE_SIZE in
  for_n (Z.to_nat count) 0 (fun i =>
    used <- bitmap_test (wrap64 (start_frame + i)) ;;
    when used (
      bitmap_clear (wrap64 (start_frame + i)) ;;
      modify_pmm (fun p => set_free_frames (wrap64 (free_frames p + 1)) p))).

Definition pmm_reserve_region (base size : Z) : M unit :=
  p <- gets k_pmm ;;
  let start_frame := wrap64 (base - mem_phys_base p) / PAGE_SIZE in
  let count := ALIGN_UP size PAGE_SIZE / PAGE_SIZE in
  for_n (Z.to_nat count) 0 (fun i =>
    used <- bitmap_test (wrap64 (start_frame + i)) ;;
    when (negb used) (
      bitmap_set (wrap64 (start_frame + i)) ;;
      p <- gets k_pmm ;;
      when (free_frames p >? 0) (modify_pmm (set_free_frames (free_frames p - 1))))).

(** The body both scans of [pmm_alloc_frame] share. *)
Definition try_frame (i : Z) : M (option Z) :=
  used <- bitmap_test i ;;
  if used then ret None
  else
    bitmap_set i ;;
    modify_pmm (fun p => set_free_frames (wrap64 (free_frames p - 1)) p) ;;
    modify_pmm (set_last_free_index (wrap64 (i + 1))) ;;
    p <- gets k_pmm ;;
    ret (Some (wrap64 (mem_phys_base p + i * PAGE_SIZE))).

Definition pmm_alloc_frame : M Z :=
  p <- gets k_pmm ;;
  if free_frames p =? 0 then panic "mm" "out of physical memory frames" []
  else
    r <- for_ret (Z.to_nat (total_frames p - last_free_index p)) (last_free_index p) try_frame ;;
    match r with
    | Some phys => ret phys
    | None =>
        (* wrap around *)
        r <- for_ret (Z.to_nat (last_free_index p)) 0 try_frame ;;
        match r with Some phys => ret phys | None => ret 0 end
    end.

Definition pmm_free_frame (phys_addr : Z) : M unit :=
  p <- gets k_pmm ;;
  if phys_addr <? mem_phys_base p then ret tt
  else
    let frame_idx := (phys_addr - mem_phys_base p) / PAGE_SIZE in
    if frame_idx >=? total_frames p then ret tt
    else
      used <- bitmap_test frame_idx ;;
      when used (
        bitmap_clear frame_idx ;;
        modify_pmm (fun p => set_free_frames (wrap64 (free_frames p + 1)) p) ;;
        when (frame_idx <? last_free_index p) (modify_pmm (set_last_free_index frame_idx))).

(** ** The abstract view *)

(** Bit [i] of the bitmap at [bm]. *)
Definition bit_of (m : memory) (bm i : Z) : bool := Z.testbit (get8 m (bm + i / 8)) (i mod 8).

Definition frame_used (s : kstate) (i : Z) : bool := bit_of (k_mem s) (frame_bitmap (k_pmm s)) i.

Definition frame_addr (s : kstate) (i : Z) : Z := mem_phys_base (k_pmm s) + i * PAGE_SIZE.

Definition frame_free (s : kstate) (i : Z) : Prop :=
  0 <= i < total_frames (k_pmm s) /\ frame_used s i = false.

(** The set of the free frames. *)
Definition free_set (s : kstate) : gset Z :=
  list_to_set (filter (fun i => frame_used s i = false) (seqZ 0 (total_frames (k_pmm s)))).

(** What the allocator relies on: its bitmap is in memory and has a bit for
    each frame, the region does not wrap the address space, and the cursor is
    a frame number or one past the last. *)
Record pmm_ok (s : kstate) : Prop := {
  ok_total : 0 <= total_frames (k_pmm s);
  ok_base : 0 < mem_phys_base (k_pmm s);
  ok_top : mem_phys_base (k_pmm s) + total_frames (k_pmm s) * PAGE_SIZE < 2 ^ 64;
  ok_cursor : 0 <= last_free_index (k_pmm s) <= total_frames (k_pmm s);
  ok_count : u64 (free_frames (k_pmm s));
  ok_bitmap : valid (frame_bitmap (k_pmm s)) ((total_frames (k_pmm s) + 7) / 8) = true
}.

(** The bytes the frames' bits are in. *)
Definition bitmap_range (s : kstate) : Z * Z :=
  (frame_bitmap (k_pmm s), (total_frames (k_pmm s) + 7) / 8).

(** The memory with bit [i] turned on or off. *)
Definition put_bit (m : memory) (bm i : Z) (b : bool) : memory :=
  putw 1 m (bm + i / 8)
    (let x := get8 m (bm + i / 8) in
     wrap8 (if b then Z.lor x (Z.shiftl 1 (i mod 8)) else Z.land x (Z.lnot (Z.shiftl 1 (i mod 8))))).

(** Frame [i] marked used or free. *)
Definition mark (s : kstate) (i : Z) (b : bool) : kstate :=
  set_mem s (put_bit (k_mem s) (frame_bitmap (k_pmm s)) i b).

(** The state after frame [i] is handed out. *)
Definition taken (s : kstate) (i : Z) : kstate :=
  set_pmm (mark s i true)
    (mkPmm (frame_bitmap (k_pmm s)) (total_frames (k_pmm s)) (wrap64 (free_frames (k_pmm s) - 1))
           (mem_phys_base (k_pmm s)) (i + 1)).

(** The state after frame [i], in use, is given back. *)
Definition released (s : kstate) (i : Z) : kstate :=
  set_pmm (mark s i false)
    (mkPmm (frame_bitmap (k_pmm s)) (total_frames (k_pmm s)) (wrap64 (free_frames (k_pmm s) + 1))
           (mem_phys_base (k_pmm s)) (Z.min i (last_free_index (k_pmm s)))).

(** The first free frame among [i], ..., [i + n - 1]. *)
Fixpoint first_free (s : kstate) (n : nat) (i : Z) : option Z :=
  match n with
  | O => None
  | S n' => if frame_used s i then first_free s n' (i + 1) else Some i
  end.

(** Next fit: from the cursor to the end, then from the start to the cursor. *)
Definition next_fit (s : kstate) : option Z :=
  let last := last_free_index (k_pmm s) in
  match first_free s (Z.to_nat (total_frames (k_pmm s) - last)) last with
  | Some i => Some i
  | None => first_free s (Z.to_nat last) 0
  end.
End pmm.

(** ** Bits *)

Section bits.
Context `{Platform}.

Lemma land_pow2_test x k : 0 <= k -> negb (Z.land x (Z.shiftl 1 k) =? 0) = Z.testbit x k.
Proof.
  intros Hk. rewrite Z.shiftl_1_l. destruct (Z.testbit x k) eqn:Hb.
  - destruct (Z.eqb_spec (Z.land x (2 ^ k)) 0) as [He|]; [|done].
    assert (Hz : Z.testbit (Z.land x (2 ^ k)) k = true) by (by rewrite Z.land_spec, Hb, Z.pow2_bits_true).
    by rewrite He, Z.bits_0 in Hz.
  - replace (Z.land x (2 ^ k)) with 0; [done|]. symmetry. apply Z.bits_inj'. intros i Hi.
    rewrite Z.land_spec, Z.bits_0, Z.pow2_bits_eqb by lia.
    destruct (Z.eqb_spec k i) as [<-|]; [by rewrite Hb|apply andb_false_r].
Qed.

Lemma testbit_set_clear (x k j : Z) (b : bool) :
  0 <= k < 8 -> 0 <= j < 8 ->
  Z.testbit (wrap8 (if b then Z.lor x (Z.shiftl 1 k) else Z.land x (Z.lnot (Z.shiftl 1 k)))) j =
  if decide (k = j) then b else Z.testbit x j.
Proof.
  intros Hk Hj. unfold wrap8. rewrite Z.mod_pow2_bits_low, Z.shiftl_1_l by lia.
  destruct b; rewrite ?Z.lor_spec, ?Z.land_spec, ?Z.lnot_spec, Z.pow2_bits_eqb by lia.
  - case_decide; destruct (Z.eqb_spec k j); try lia; by rewrite ?orb_true_r, ?orb_false_r.
  - case_decide; destruct (Z.eqb_spec k j); try lia; simpl; by rewrite ?andb_true_r, ?andb_false_r.
Qed.

Lemma bit_put m bm i j b :
  0 <= i -> 0 <= j ->
  bit_of (put_bit m bm i b) bm j = if decide (i = j) then b else bit_of m bm j.
Proof.
  intros Hi Hj. unfold bit_of, put_bit. rewrite get8_put1 by (apply Z.mod_pos_bound; lia).
  pose proof (Z.mod_pos_bound i 8 ltac:(lia)). pose proof (Z.mod_pos_bound j 8 ltac:(lia)).
  pose proof (Z.div_mod i 8 ltac:(lia)). pose proof (Z.div_mod j 8 ltac:(lia)).
  case_decide as Hd.
  - replace (j / 8) with (i / 8) in * by lia. rewrite testbit_set_clear by lia.
    repeat case_decide; try done; try lia; exfalso; subst; lia.
  - case_decide; [by subst|done].
Qed.

Lemma put_bit_mods m bm i b len :
  0 <= i < 8 * len -> mods [(bm, len)] m (put_bit m bm i b).
Proof.
  intros Hi. eapply mods_put_in; [by left| |]; simpl; Z.div_mod_to_equations; lia.
Qed.

Lemma frame_used_mark s i j b :
  0 <= i -> 0 <= j -> frame_used (mark s i b) j = if decide (i = j) then b else frame_used s j.
Proof. intros. by apply bit_put. Qed.

Lemma elem_of_free_set s i : i ∈ free_set s <-> frame_free s i.
Proof.
  unfold free_set, frame_free. rewrite elem_of_list_to_set, list_elem_of_filter, elem_of_seqZ.
  intuition lia.
Qed.

Lemma byte_in_bitmap s i :
  pmm_ok s -> 0 <= i < total_frames (k_pmm s) -> valid (frame_bitmap (k_pmm s) + i / 8) 1 = true.
Proof.
  intros Hok Hi. eapply valid_sub; [apply (ok_bitmap _ Hok)| |]; Z.div_mod_to_equations; lia.
Qed.

Lemma wp_bitmap_test s i (Q : bool -> kstate -> Prop) E :
  valid (frame_bitmap (k_pmm s) + i / 8) 1 = true -> Q (frame_used s i) s ->
  wp (bitmap_test i) s Q E.
Proof.
  intros Hv HQ. unfold bitmap_test. wp_steps. rewrite getw_1, land_pow2_test; [done|].
  apply Z.mod_pos_bound; lia.
Qed.

Lemma wp_bitmap_set s i (Q : unit -> kstate -> Prop) E :
  valid (frame_bitmap (k_pmm s) + i / 8) 1 = true -> Q tt (mark s i true) ->
  wp (bitmap_set i) s Q E.
Proof.
  intros Hv HQ. unfold bitmap_set. wp_steps. rewrite getw_1. exact HQ.
Qed.

Lemma wp_bitmap_clear s i (Q : unit -> kstate -> Prop) E :
  valid (frame_bitmap (k_pmm s) + i / 8) 1 = true -> Q tt (mark s i false) ->
  wp (bitmap_clear i) s Q E.
Proof.
  intros Hv HQ. unfold bitmap_clear. wp_steps. rewrite getw_1. exact HQ.
Qed.
End bits.

(** ** What each operation does *)

Section pmm_lemmas.
Context `{Console}.

Lemma total_small s : pmm_ok s -> total_frames (k_pmm s) < 2 ^ 52.
Proof. intros [? ? Ht _ _ _]. unfold PAGE_SIZE in Ht. lia. Qed.

Lemma frame_addr_u64 s i : pmm_ok s -> 0 <= i < total_frames (k_pmm s) ->
  wrap64 (frame_addr s i) = frame_addr s i.
Proof.
  intros [? ? Ht _ _ _] Hi. apply wrap64_small. unfold u64, frame_addr, PAGE_SIZE in *. lia.
Qed.

Lemma try_frame_run s i :
  pmm_ok s -> 0 <= i < total_frames (k_pmm s) ->
  try_frame i s = if frame_used s i then Ok None s else Ok (Some (frame_addr s i)) (taken s i).
Proof.
  intros Hok Hi. pose proof (byte_in_bitmap s i Hok Hi) as Hv. pose proof (total_small s Hok).
  unfold try_frame. destruct (frame_used s i) eqn:Hu; apply safe_eq.
  - apply wp_bind, wp_bitmap_test; [done|]. rewrite Hu. by apply wp_ret.
  - apply wp_bind, wp_bitmap_test; [done|]. rewrite Hu. apply wp_bind, wp_bitmap_set; [done|].
    unfold modify_pmm. wp_steps. fold (frame_addr s i). rewrite frame_addr_u64 by done.
    split; [done|]. unfold taken, set_last_free_index, set_free_frames. simpl.
    by rewrite (wrap64_small (i + 1)) by (unfold u64; lia).
Qed.

Lemma scan_run s n i :
  pmm_ok s -> 0 <= i -> i + Z.of_nat n <= total_frames (k_pmm s) ->
  for_ret n i try_frame s =
  match first_free s n i with
  | Some j => Ok (Some (frame_addr s j)) (taken s j)
  | None => Ok None s
  end.
Proof.
  intros Hok. revert i. induction n as [|n IH]; intros i Hi Hn; simpl; [done|].
  unfold bind. rewrite try_frame_run by (done || lia).
  destruct (frame_used s i); [|done]. apply IH; lia.
Qed.

Lemma first_free_Some s n i j :
  first_free s n i = Some j ->
  i <= j < i + Z.of_nat n /\ frame_used s j = false /\ forall k, i <= k < j -> frame_used s k = true.
Proof.
  revert i. induction n as [|n IH]; intros i Hf; simpl in Hf; [done|].
  destruct (frame_used s i) eqn:Hu.
  - destruct (IH _ Hf) as (H1 & H2 & H3). split; [lia|]. split; [done|].
    intros k Hk. destruct (decide (k = i)) as [->|]; [done|]. apply H3. lia.
  - injection Hf as <-. split; [lia|]. split; [done|]. lia.
Qed.

Lemma first_free_None s n i k :
  first_free s n i = None -> i <= k < i + Z.of_nat n -> frame_used s k = true.
Proof.
  revert i. induction n as [|n IH]; intros i Hf Hk; simpl in Hf; [lia|].
  destruct (frame_used s i) eqn:Hu; [|done].
  destruct (decide (k = i)) as [->|]; [done|]. apply (IH (i + 1)); [done|lia].
Qed.

Lemma next_fit_Some s i : pmm_ok s -> next_fit s = Some i -> frame_free s i.
Proof.
  intros Hok. pose proof (ok_cursor _ Hok). unfold next_fit.
  destruct (first_free s _ (last_free_index (k_pmm s))) as [j|] eqn:Hf.
  - intros [= <-]. apply first_free_Some in Hf as (? & ? & _). split; [lia|done].
  - intros Hf2. apply first_free_Some in Hf2 as (? & ? & _). split; [lia|done].
Qed.

Lemma next_fit_None s : pmm_ok s -> next_fit s = None -> free_set s = ∅.
Proof.
  intros Hok. pose proof (ok_cursor _ Hok). unfold next_fit.
  destruct (first_free s _ (last_free_index (k_pmm s))) as [j|] eqn:Hf; [done|].
  intros Hf2. apply elem_of_equiv_empty_L. intros i [Hi Hu]%elem_of_free_set.
  destruct (decide (i < last_free_index (k_pmm s))).
  - rewrite (first_free_None _ _ _ i Hf2) in Hu by lia. done.
  - rewrite (first_free_None _ _ _ i Hf) in Hu by lia. done.
Qed.

(** The whole allocator: next fit. *)
Lemma pmm_alloc_run s :
  pmm_ok s -> free_frames (k_pmm s) <> 0 ->
  pmm_alloc_frame s =
  match next_fit s with
  | Some i => Ok (frame_addr s i) (taken s i)
  | None => Ok 0 s
  end.
Proof.
  intros Hok Hc. pose proof (ok_cursor _ Hok). unfold pmm_alloc_frame, gets, bind.
  rewrite (proj2 (Z.eqb_neq _ _) Hc). rewrite scan_run by (done || lia). unfold next_fit.
  destruct (first_free s _ (last_free_index (k_pmm s))); [done|].
  rewrite scan_run by (done || lia). by destruct (first_free s _ 0).
Qed.

Lemma wp_alloc_empty s Q (E : kstate -> Prop) :
  free_frames (k_pmm s) = 0 -> (forall t, E (set_io s t)) -> wp pmm_alloc_frame s Q E.
Proof.
  intros Hc HE. unfold pmm_alloc_frame. wp_steps. rewrite Hc. simpl. by wp_print.
Qed.

Lemma pmm_free_run s a :
  pmm_ok s ->
  pmm_free_frame a s =
  let i := (a - mem_phys_base (k_pmm s)) / PAGE_SIZE in
  if (a <? mem_phys_base (k_pmm s)) || (i >=? total_frames (k_pmm s)) || negb (frame_used s i)
  then Ok tt s else Ok tt (released s i).
Proof.
  intros Hok. cbv zeta. unfold pmm_free_frame, gets, bind at 1.
  destruct (Z.ltb_spec a (mem_phys_base (k_pmm s))) as [|Ha]; [done|]. simpl orb.
  set (i := (a - mem_phys_base (k_pmm s)) / PAGE_SIZE).
  destruct (i >=? total_frames (k_pmm s)) eqn:Hi; [done|]. simpl orb.
  assert (Hir : 0 <= i < total_frames (k_pmm s)).
  { split; [apply Z.div_pos; unfold PAGE_SIZE; lia|]. lia. }
  pose proof (byte_in_bitmap s i Hok Hir) as Hv.
  destruct (frame_used s i) eqn:Hu; simpl; apply safe_eq.
  - apply wp_bind, wp_bitmap_test; [done|]. rewrite Hu. simpl.
    apply wp_bind, wp_bitmap_clear; [done|]. unfold modify_pmm. wp_steps.
    destruct (Z.ltb_spec i (last_free_index (k_pmm s))); simpl; wp_steps; split; try done.
    + unfold released. by rewrite Z.min_l by lia.
    + unfold released. by rewrite Z.min_r by lia.
  - apply wp_bind, wp_bitmap_test; [done|]. rewrite Hu. by apply wp_ret.
Qed.

(** ** Preservation of well-formedness and the abstract effect *)

Lemma pmm_ok_taken s i : pmm_ok s -> 0 <= i < total_frames (k_pmm s) -> pmm_ok (taken s i).
Proof. intros [] Hi. split; simpl; try done; [lia|apply wrap64_range]. Qed.

Lemma pmm_ok_released s i : pmm_ok s -> 0 <= i < total_frames (k_pmm s) -> pmm_ok (released s i).
Proof. intros [] Hi. split; simpl; try done; [lia|apply wrap64_range]. Qed.

Lemma frame_used_taken s i j :
  0 <= i -> 0 <= j -> frame_used (taken s i) j = if decide (i = j) then true else frame_used s j.
Proof. intros. by apply bit_put. Qed.

Lemma frame_used_released s i j :
  0 <= i -> 0 <= j -> frame_used (released s i) j = if decide (i = j) then false else frame_used s j.
Proof. intros. by apply bit_put. Qed.

Lemma free_set_taken s i : frame_free s i -> free_set (taken s i) = free_set s ∖ {[i]}.
Proof.
  intros [Hi _]. apply set_eq. intros j. rewrite elem_of_difference, elem_of_singleton, !elem_of_free_set.
  unfold frame_free. simpl. split.
  - intros [Hj Hu]. rewrite frame_used_taken in Hu by lia. case_decide; [done|]. split; [done|lia].
  - intros [[Hj Hu] Hne]. split; [done|]. rewrite frame_used_taken by lia. by rewrite decide_False by lia.
Qed.

Lemma free_set_released s i :
  0 <= i < total_frames (k_pmm s) -> free_set (released s i) = free_set s ∪ {[i]}.
Proof.
  intros Hi. apply set_eq. intros j. rewrite elem_of_union, elem_of_singleton, !elem_of_free_set.
  unfold frame_free. simpl. split.
  - intros [Hj Hu]. rewrite frame_used_released in Hu by lia. case_decide; [by right|by left].
  - intros [[Hj Hu]| ->]; (split; [done|]); rewrite frame_used_released by lia; by case_decide.
Qed.
End pmm_lemmas.

(** ** Frames, accounting and regions *)

Section pmm_regions.
Context `{Console}.

(** Only the bitmap and the counters change. *)
Definition pmm_only (s s' : kstate) : Prop :=
  exists m ff lf,
    s' = set_pmm (set_mem s m)
           (mkPmm (frame_bitmap (k_pmm s)) (total_frames (k_pmm s)) ff (mem_phys_base (k_pmm s)) lf) /\
    mods [bitmap_range s] (k_mem s) m.

(** [free_frames] is the number of free frames plus a constant excess. *)
Definition accounted (k : Z) (s : kstate) : Prop :=
  free_frames (k_pmm s) = Z.of_nat (size (free_set s)) + k /\ 0 <= k <= 2 ^ 52.

Lemma pmm_only_refl s : pmm_only s s.
Proof.
  exists (k_mem s), (free_frames (k_pmm s)), (last_free_index (k_pmm s)).
  split; [by destruct s as [? ? ? [] ? ? ?]|apply mods_refl].
Qed.

Lemma pmm_only_trans s1 s2 s3 : pmm_only s1 s2 -> pmm_only s2 s3 -> pmm_only s1 s3.
Proof.
  intros (m & ff & lf & -> & Hm) (m' & ff' & lf' & -> & Hm'). exists m', ff', lf'.
  split; [done|]. by eapply mods_step.
Qed.

Lemma mark_mods s i b :
  0 <= i < total_frames (k_pmm s) ->
  mods [bitmap_range s] (k_mem s) (k_mem (mark s i b)).
Proof. intros Hi. apply put_bit_mods. Z.div_mod_to_equations; lia. Qed.

Lemma pmm_only_taken s i : 0 <= i < total_frames (k_pmm s) -> pmm_only s (taken s i).
Proof. intros Hi. eexists _, _, _. split; [done|]. by apply (mark_mods s i true). Qed.

Lemma pmm_only_released s i : 0 <= i < total_frames (k_pmm s) -> pmm_only s (released s i).
Proof. intros Hi. eexists _, _, _. split; [done|]. by apply (mark_mods s i false). Qed.

Lemma free_set_size s : pmm_ok s -> Z.of_nat (size (free_set s)) <= total_frames (k_pmm s).
Proof.
  intros Hok. pose proof (ok_total _ Hok).
  assert (Hs : free_set s ⊆ list_to_set (seqZ 0 (total_frames (k_pmm s)))).
  { intros i [Hi _]%elem_of_free_set. rewrite elem_of_list_to_set, elem_of_seqZ. lia. }
  apply subseteq_size in Hs. rewrite size_list_to_set in Hs by apply NoDup_seqZ.
  rewrite length_seqZ in Hs. lia.
Qed.

Lemma accounted_taken k s i : pmm_ok s -> frame_free s i -> accounted k s -> accounted k (taken s i).
Proof.
  intros Hok Hf [Hc Hk]. split; [|done]. rewrite free_set_taken by done.
  assert (Hin : {[i]} ⊆ free_set s) by (apply singleton_subseteq_l, elem_of_free_set, Hf).
  rewrite size_difference by done. rewrite size_singleton.
  apply subseteq_size in Hin as Hsz. rewrite size_singleton in Hsz. simpl.
  pose proof (free_set_size s Hok). pose proof (total_small s Hok).
  rewrite wrap64_small by (unfold u64; lia). lia.
Qed.

Lemma accounted_released k s i :
  pmm_ok s -> 0 <= i < total_frames (k_pmm s) -> frame_used s i = true ->
  accounted k s -> accounted k (released s i).
Proof.
  intros Hok Hi Hu [Hc Hk]. split; [|done]. rewrite free_set_released by done.
  rewrite size_union, size_singleton.
  - simpl. pose proof (free_set_size s Hok). pose proof (total_small s Hok).
    rewrite wrap64_small by (unfold u64; lia). lia.
  - apply disjoint_singleton_r. intros [_ Hf]%elem_of_free_set. congruence.
Qed.

(** The frames numbered [lo], ..., [lo + n - 1]. *)
Definition frames (lo n : Z) : gset Z := list_to_set (seqZ lo n).

Lemma elem_of_frames i lo n : i ∈ frames lo n <-> lo <= i < lo + n.
Proof. unfold frames. by rewrite elem_of_list_to_set, elem_of_seqZ. Qed.

Lemma frames_0 lo : frames lo 0 = ∅.
Proof. apply elem_of_equiv_empty_L. intros i Hi%elem_of_frames. lia. Qed.

Lemma frames_snoc lo n : 0 <= n -> frames lo (n + 1) = frames lo n ∪ {[lo + n]}.
Proof.
  intros Hn. apply set_eq. intros i. rewrite elem_of_union, elem_of_singleton, !elem_of_frames. lia.
Qed.

Lemma frames_cons lo n : 0 < n -> frames lo n = {[lo]} ∪ frames (lo + 1) (n - 1).
Proof.
  intros Hn. apply set_eq. intros i. rewrite elem_of_union, elem_of_singleton, !elem_of_frames. lia.
Qed.

(** A bit set or cleared without touching the cursor: what the region
    operations do to one frame. *)
Definition recount (s : kstate) (i : Z) (b : bool) (ff : Z) : kstate :=
  set_pmm (mark s i b)
    (mkPmm (frame_bitmap (k_pmm s)) (total_frames (k_pmm s)) ff (mem_phys_base (k_pmm s))
           (last_free_index (k_pmm s))).

(** What holds of every state a region operation goes through: [F] is the set
    of the free frames. *)
Record region_inv (k : Z) (s s' : kstate) (F : gset Z) : Prop := {
  ri_ok : pmm_ok s';
  ri_only : pmm_only s s';
  ri_acc : accounted k s';
  ri_free : free_set s' = F
}.

Lemma region_inv_same k s : pmm_ok s -> accounted k s -> region_inv k s s (free_set s).
Proof. intros. split; try done. apply pmm_only_refl. Qed.

Lemma region_inv_released k s s' F i :
  region_inv k s s' F -> 0 <= i < total_frames (k_pmm s') -> frame_used s' i = true ->
  region_inv k s (recount s' i false (wrap64 (free_frames (k_pmm s') + 1))) (F ∪ {[i]}).
Proof.
  intros [Hok Hon Hacc <-] Hi Hu.
  destruct (accounted_released k s' i Hok Hi Hu Hacc) as [Hc Hk].
  split.
  - destruct Hok. split; simpl; try done. apply wrap64_range.
  - eapply pmm_only_trans; [done|]. eexists _, _, _. split; [done|]. by apply mark_mods.
  - split; [|done]. exact Hc.
  - by rewrite <- (free_set_released s' i Hi).
Qed.

Lemma region_inv_taken k s s' F i :
  region_inv k s s' F -> frame_free s' i ->
  region_inv k s (recount s' i true (free_frames (k_pmm s') - 1)) (F ∖ {[i]}).
Proof.
  intros [Hok Hon Hacc <-] Hf. pose proof Hf as [Hi Hu].
  destruct (accounted_taken k s' i Hok Hf Hacc) as [Hc Hk].
  assert (Hge : 0 < free_frames (k_pmm s')).
  { destruct Hacc as [Ha ?]. assert (Hin : {[i]} ⊆ free_set s') by (apply singleton_subseteq_l, elem_of_free_set, Hf).
    apply subseteq_size in Hin. rewrite size_singleton in Hin. lia. }
  simpl in Hc. pose proof (ok_count _ Hok). rewrite wrap64_small in Hc by (unfold u64 in *; lia).
  split.
  - destruct Hok. split; simpl; try done. unfold u64 in *; lia.
  - eapply pmm_only_trans; [done|]. eexists _, _, _. split; [done|]. by apply mark_mods.
  - split; [|done]. exact Hc.
  - by rewrite <- (free_set_taken s' i Hf).
Qed.
End pmm_regions.

Section pmm_region_ops.
Context `{Console}.

(** A region that lies among the managed frames. *)
Definition in_region (s : kstate) (base count : Z) : Prop :=
  mem_phys_base (k_pmm s) <= base < 2 ^ 64 /\
  (base - mem_phys_base (k_pmm s)) / PAGE_SIZE + count <= total_frames (k_pmm s).

Definition region_start (s : kstate) (base : Z) : Z := (base - mem_phys_base (k_pmm s)) / PAGE_SIZE.

Lemma region_start_wrap s base count : pmm_ok s -> in_region s base count ->
  wrap64 (base - mem_phys_base (k_pmm s)) / PAGE_SIZE = region_start s base /\ 0 <= region_start s base.
Proof.
  intros [] [Hb Hc]. unfold region_start. rewrite wrap64_small by (unfold u64; lia).
  split; [done|]. apply Z.div_pos; unfold PAGE_SIZE; lia.
Qed.

Lemma in_region_total s s' : pmm_only s s' -> total_frames (k_pmm s') = total_frames (k_pmm s).
Proof. by intros (m & ff & lf & -> & _). Qed.

Lemma region_inv_total k s s' F :
  region_inv k s s' F -> total_frames (k_pmm s') = total_frames (k_pmm s).
Proof. intros []. by apply in_region_total. Qed.

Lemma wp_free_region k base size s (Q : unit -> kstate -> Prop) E :
  pmm_ok s -> accounted k s -> 0 <= size -> in_region s base (size / PAGE_SIZE) ->
  (forall s', region_inv k s s' (free_set s ∪ frames (region_start s base) (size / PAGE_SIZE)) -> Q tt s') ->
  wp (pmm_free_region base size) s Q E.
Proof.
  intros Hok Hacc Hs Hin HQ. unfold pmm_free_region. wp_steps.
  destruct (region_start_wrap s base _ Hok Hin) as [-> Hst]. destruct Hin as [Hb Htop].
  fold (region_start s base) in Htop. set (st := region_start s base) in *.
  assert (Hcount : 0 <= size / PAGE_SIZE) by (apply Z.div_pos; unfold PAGE_SIZE; lia).
  pose proof (total_small s Hok) as Hts.
  apply (wp_for_n (fun i s' => region_inv k s s' (free_set s ∪ frames st i))).
  - rewrite frames_0, union_empty_r_L. by apply region_inv_same.
  - intros i s' Hi Hinv. rewrite Z2Nat.id in Hi by lia.
    rewrite wrap64_small by (unfold u64; lia). rewrite frames_snoc, union_assoc_L by lia.
    pose proof (region_inv_total _ _ _ _ Hinv) as Htot. pose proof (ri_ok _ _ _ _ Hinv) as Hok'.
    pose proof (byte_in_bitmap s' (st + i) Hok' ltac:(lia)) as Hv.
    apply wp_bind, wp_bitmap_test; [done|]. apply wp_when; intros Hu.
    + apply wp_bind, wp_bitmap_clear; [done|]. unfold modify_pmm. wp_steps.
      apply (region_inv_released k s s'); [done|lia|done].
    + assert (Hel : st + i ∈ free_set s ∪ frames st i).
      { rewrite <- (ri_free _ _ _ _ Hinv). apply elem_of_free_set. split; [lia|done]. }
      by rewrite gset_absorb.
  - intros s' Hinv. rewrite Z.add_0_l, Z2Nat.id in Hinv by lia. by apply HQ.
Qed.

Lemma wp_reserve_region k base size s (Q : unit -> kstate -> Prop) E :
  pmm_ok s -> accounted k s -> 0 <= size -> size + 4095 < 2 ^ 64 ->
  in_region s base ((size + 4095) / PAGE_SIZE) ->
  (forall s', region_inv k s s' (free_set s ∖ frames (region_start s base) ((size + 4095) / PAGE_SIZE)) ->
     Q tt s') ->
  wp (pmm_reserve_region base size) s Q E.
Proof.
  intros Hok Hacc Hs Hov Hin HQ. unfold pmm_reserve_region. wp_steps.
  replace (ALIGN_UP size PAGE_SIZE / PAGE_SIZE) with ((size + 4095) / PAGE_SIZE)
    by (symmetry; change PAGE_SIZE with (2 ^ 12); rewrite ALIGN_UP_eq by lia; apply Z.div_mul; lia).
  destruct (region_start_wrap s base _ Hok Hin) as [-> Hst]. destruct Hin as [Hb Htop].
  fold (region_start s base) in Htop. set (st := region_start s base) in *.
  set (count := (size + 4095) / PAGE_SIZE) in *.
  assert (Hcount : 0 <= count) by (apply Z.div_pos; unfold PAGE_SIZE; lia).
  pose proof (total_small s Hok) as Hts.
  apply (wp_for_n (fun i s' => region_inv k s s' (free_set s ∖ frames st i))).
  - rewrite frames_0, difference_empty_L. by apply region_inv_same.
  - intros i s' Hi Hinv. rewrite Z2Nat.id in Hi by lia.
    rewrite wrap64_small by (unfold u64; lia). rewrite frames_snoc, <- difference_difference_l_L by lia.
    pose proof (region_inv_total _ _ _ _ Hinv) as Htot. pose proof (ri_ok _ _ _ _ Hinv) as Hok'.
    pose proof (byte_in_bitmap s' (st + i) Hok' ltac:(lia)) as Hv.
    apply wp_bind, wp_bitmap_test; [done|]. apply wp_when; intros Hu.
    + apply negb_true_iff in Hu. assert (Hf : frame_free s' (st + i)) by (split; [lia|done]).
      apply wp_bind, wp_bitmap_set; [done|]. unfold modify_pmm. wp_steps.
      pose proof (region_inv_taken k s s' _ _ Hinv Hf) as Hinv'.
      apply wp_when; intros Hff; simpl in Hff; [wp_steps; exact Hinv'|].
      exfalso. pose proof (ok_count _ (ri_ok _ _ _ _ Hinv')). simpl in *. unfold u64 in *. lia.
    + apply negb_false_iff in Hu.
      assert (Hel : st + i ∉ free_set s ∖ frames st i).
      { rewrite <- (ri_free _ _ _ _ Hinv). intros [_ Hf]%elem_of_free_set. congruence. }
      by rewrite gset_remove_absent.
  - intros s' Hinv. rewrite Z.add_0_l, Z2Nat.id in Hinv by lia. by apply HQ.
Qed.
End pmm_region_ops.

Section pmm_init.
Context `{Console}.

Definition bitmap_size_for (total : Z) : Z := ALIGN_UP (total / BITMAP_BIT_SIZE) 8.

(** What [pmm_init] needs: a boot heap in memory with room for the bitmap, a
    frame count for which that bitmap is long enough, and a region that does
    not wrap the address space. *)
Record init_pre (s : kstate) (ram_base ram_size : Z) : Prop := {
  ip_boot : boot_ok s;
  ip_heap : valid (boot_heap_ptr (k_boot s)) (boot_heap_end (k_boot s) - boot_heap_ptr (k_boot s)) = true;
  ip_size : 0 <= ram_size;
  ip_covers : (ram_size / PAGE_SIZE + 7) / 8 <= bitmap_size_for (ram_size / PAGE_SIZE);
  ip_base : 0 < ram_base;
  ip_top : ram_base + ram_size < 2 ^ 64;
  ip_cursor : last_free_index (k_pmm s) = 0;
  ip_fits : boot_heap_ptr (k_boot s) + ALIGN_UP (bitmap_size_for (ram_size / PAGE_SIZE)) 16
            <= boot_heap_end (k_boot s)
}.

(** The state it leaves: the bitmap all ones, every frame counted as free. *)
Definition initialised (s : kstate) (ram_base ram_size : Z) (m : memory) (t : list io_event) : kstate :=
  let total := ram_size / PAGE_SIZE in
  set_pmm (set_mem (set_io (bumped s (bitmap_size_for total)) t) m)
    (mkPmm (boot_heap_ptr (k_boot s)) total total ram_base (last_free_index (k_pmm s))).

Lemma bitmap_size_bounds total : 0 <= total < 2 ^ 52 ->
  total / 8 <= bitmap_size_for total < total / 8 + 8.
Proof.
  intros Ht. unfold bitmap_size_for, BITMAP_BIT_SIZE. change 8 with (2 ^ 3) at 2 3 4 5.
  apply ALIGN_UP_bounds; Z.div_mod_to_equations; lia.
Qed.

Lemma total_bound s b z : init_pre s b z -> 0 <= z / PAGE_SIZE < 2 ^ 52.
Proof.
  intros [? ? ? ? ? Ht _ _]. unfold PAGE_SIZE. Z.div_mod_to_equations; lia.
Qed.

Lemma wp_pmm_init ram_base ram_size s (Q : unit -> kstate -> Prop) E :
  init_pre s ram_base ram_size ->
  (forall m t, mods [(boot_heap_ptr (k_boot s), bitmap_size_for (ram_size / PAGE_SIZE))] (k_mem s) m ->
     (forall i, 0 <= i < bitmap_size_for (ram_size / PAGE_SIZE) ->
        get8 m (boot_heap_ptr (k_boot s) + i) = 0xFF) ->
     Q tt (initialised s ram_base ram_size m t)) ->
  wp (pmm_init ram_base ram_size) s Q E.
Proof.
  intros Hpre HQ. pose proof (total_bound _ _ _ Hpre) as Ht.
  pose proof (bitmap_size_bounds _ Ht) as Hbs. destruct Hpre as [Hboot Hheap Hsz Hcov Hb Htop Hcur Hfit].
  set (total := ram_size / PAGE_SIZE) in *. fold (bitmap_size_for total) in *.
  pose proof Hboot as (Hp0 & Hpu & Heu). unfold u64 in Hpu, Heu.
  assert (Hbs0 : 0 <= bitmap_size_for total) by (Z.div_mod_to_equations; lia).
  assert (Hbs1 : bitmap_size_for total < 2 ^ 50) by (Z.div_mod_to_equations; lia).
  destruct (ALIGN_UP_16 (bitmap_size_for total)) as [Ha _]; [lia..|].
  unfold pmm_init, modify_pmm. wp_steps. fold total. fold (bitmap_size_for total).
  wp_print. wp_steps. apply wp_boot_alloc; [done|split; simpl; lia| |simpl; intros; lia].
  intros _. simpl. wp_steps. rewrite (proj2 (Z.eqb_neq _ _)) by lia. wp_steps.
  apply (wp_for_n (fun i s' => exists m, s' = initialised s ram_base ram_size m t /\
    mods [(boot_heap_ptr (k_boot s), bitmap_size_for total)] (k_mem s) m /\
    forall k, 0 <= k < i -> get8 m (boot_heap_ptr (k_boot s) + k) = 0xFF)).
  - exists (k_mem s). split; [done|]. split; [apply mods_refl|lia].
  - intros j s' Hj (m & -> & Hm & Hk). wp_steps.
    exists (putw 1 m (boot_heap_ptr (k_boot s) + j) 0xFF). split; [done|]. split.
    + eapply mods_step; [done|]. eapply mods_put_in; [by left|lia|simpl; lia].
    + intros k Hkj. rewrite get8_put1 by lia. case_decide; [done|]. apply Hk. lia.
  - intros s' (m & -> & Hm & Hk). wp_print. apply (HQ m t0 Hm). intros i Hi. apply Hk. lia.
Qed.

Lemma initialised_used s b z m t i :
  init_pre s b z ->
  (forall k, 0 <= k < bitmap_size_for (z / PAGE_SIZE) -> get8 m (boot_heap_ptr (k_boot s) + k) = 0xFF) ->
  0 <= i < z / PAGE_SIZE -> frame_used (initialised s b z m t) i = true.
Proof.
  intros Hpre Hff Hi. unfold frame_used, bit_of. simpl.
  rewrite Hff; [|pose proof (ip_covers _ _ _ Hpre); Z.div_mod_to_equations; lia].
  change 0xFF with (Z.ones 8). apply Z.ones_spec_low, Z.mod_pos_bound. lia.
Qed.

Lemma initialised_ok s b z m t :
  init_pre s b z ->
  (forall k, 0 <= k < bitmap_size_for (z / PAGE_SIZE) -> get8 m (boot_heap_ptr (k_boot s) + k) = 0xFF) ->
  let s' := initialised s b z m t in
  pmm_ok s' /\ free_set s' = ∅ /\ accounted (z / PAGE_SIZE) s'.
Proof.
  intros Hpre Hff s'. pose proof (total_bound _ _ _ Hpre) as Ht.
  pose proof (bitmap_size_bounds _ Ht) as Hbs.
  assert (Hfree : free_set s' = ∅).
  { apply elem_of_equiv_empty_L. intros i [Hi Hu]%elem_of_free_set.
    unfold s' in Hu. rewrite (initialised_used s b z m t i Hpre Hff Hi) in Hu. done. }
  split; [|split; [done|]].
  - pose proof Hpre as [Hb Hheap Hsz Hcov Hb0 Htop Hcur Hfit]. split; simpl; try done; try lia.
    + unfold PAGE_SIZE in *. Z.div_mod_to_equations; lia.
    + unfold u64. lia.
    + destruct (ALIGN_UP_16 (bitmap_size_for (z / PAGE_SIZE))) as [Ha _]; [Z.div_mod_to_equations; lia..|].
      eapply valid_sub; [exact Hheap|lia|]. lia.
  - split; [|lia]. by rewrite Hfree, size_empty.
Qed.
End pmm_init.

(** ** The frame pool: what the allocator promises

    A pool is a set of frame numbers; a request takes one out or puts one
    back. *)

Inductive request := Alloc | Free (a : Z).

Section pool.
Context (base total : Z).

Inductive pool_step : gset Z -> request -> Z -> gset Z -> Prop :=
| pool_alloc F i : i ∈ F -> pool_step F Alloc (base + i * PAGE_SIZE) (F ∖ {[i]})
| pool_empty : pool_step ∅ Alloc 0 ∅
| pool_free F a :
    base <= a -> (a - base) / PAGE_SIZE < total ->
    pool_step F (Free a) 0 (F ∪ {[(a - base) / PAGE_SIZE]})
| pool_free_outside F a :
    a < base \/ total <= (a - base) / PAGE_SIZE -> pool_step F (Free a) 0 F.

Inductive pool_trace : gset Z -> list request -> list Z -> gset Z -> Prop :=
| pool_done F : pool_trace F [] [] F
| pool_more F1 r v F2 rs vs F3 :
    pool_step F1 r v F2 -> pool_trace F2 rs vs F3 -> pool_trace F1 (r :: rs) (v :: vs) F3.
End pool.

Section pmm_properties.
Context `{Console}.

Definition serve (r : request) : M Z :=
  match r with
  | Alloc => pmm_alloc_frame
  | Free a => pmm_free_frame a ;; ret 0
  end.

Fixpoint serve_all (rs : list request) : M (list Z) :=
  match rs with
  | [] => ret []
  | r :: rs' => v <- serve r ;; vs <- serve_all rs' ;; ret (v :: vs)
  end.

(** The allocator as its clients use it: a free frame, or 0 when there is
    none; a panic only when the counter is 0. *)
Lemma wp_alloc_frame s (Q : Z -> kstate -> Prop) (E : kstate -> Prop) :
  pmm_ok s ->
  (forall i, frame_free s i -> next_fit s = Some i -> Q (frame_addr s i) (taken s i)) ->
  (free_set s = ∅ -> Q 0 s) ->
  (free_frames (k_pmm s) = 0 -> forall t, E (set_io s t)) ->
  wp pmm_alloc_frame s Q E.
Proof.
  intros Hok HQ Hz HE. destruct (decide (free_frames (k_pmm s) = 0)) as [Hc|Hc].
  - apply wp_alloc_empty; auto.
  - unfold wp. rewrite pmm_alloc_run by done. destruct (next_fit s) as [i|] eqn:Hn.
    + apply HQ; [by apply next_fit_Some|done].
    + by apply Hz, next_fit_None.
Qed.

Lemma wp_free_frame s a (Q : unit -> kstate -> Prop) E :
  pmm_ok s ->
  (let i := (a - mem_phys_base (k_pmm s)) / PAGE_SIZE in
   (a < mem_phys_base (k_pmm s) \/ total_frames (k_pmm s) <= i -> Q tt s) /\
   (mem_phys_base (k_pmm s) <= a -> 0 <= i < total_frames (k_pmm s) ->
      (frame_used s i = false -> Q tt s) /\ (frame_used s i = true -> Q tt (released s i)))) ->
  wp (pmm_free_frame a) s Q E.
Proof.
  intros Hok [Hout Hin]. unfold wp. rewrite pmm_free_run by done. simpl.
  set (i := (a - mem_phys_base (k_pmm s)) / PAGE_SIZE) in *.
  destruct (Z.ltb_spec a (mem_phys_base (k_pmm s))); simpl; [apply Hout; lia|].
  destruct (i >=? total_frames (k_pmm s)) eqn:Hi; simpl; [apply Hout; lia|].
  assert (0 <= i) by (apply Z.div_pos; unfold PAGE_SIZE; lia).
  destruct Hin as [Hf Hu]; [done|lia|]. destruct (frame_used s i) eqn:Hb; simpl; auto.
Qed.

Lemma serve_step k r s :
  pmm_ok s -> accounted k s ->
  wp (serve r) s
     (fun v s' => pmm_ok s' /\ accounted k s' /\ pmm_only s s' /\
        pool_step (mem_phys_base (k_pmm s)) (total_frames (k_pmm s)) (free_set s) r v (free_set s'))
     (fun s' => r = Alloc /\ free_set s = ∅).
Proof.
  intros Hok Hacc. destruct r as [|a]; simpl.
  - apply wp_alloc_frame; [done| | |].
    + intros i Hf _. pose proof Hf as [Hi _]. rewrite free_set_taken by done.
      split; [by apply pmm_ok_taken|]. split; [by apply accounted_taken|].
      split; [by apply pmm_only_taken|]. apply pool_alloc. by apply elem_of_free_set.
    + intros He. split; [done|]. split; [done|]. split; [apply pmm_only_refl|]. rewrite He. constructor.
    + intros Hc t. split; [done|]. destruct Hacc as [Ha ?]. apply leibniz_equiv, size_empty_iff. lia.
  - apply wp_bind, wp_free_frame; [done|]. simpl. split.
    + intros Hout. apply wp_ret. split; [done|]. split; [done|]. split; [apply pmm_only_refl|].
      by apply pool_free_outside.
    + intros Hb Hi. split; intros Hu; apply wp_ret.
      * split; [done|]. split; [done|]. split; [apply pmm_only_refl|].
        rewrite <- (gset_absorb (free_set s) ((a - mem_phys_base (k_pmm s)) / PAGE_SIZE)) at 2
          by (by apply elem_of_free_set).
        apply pool_free; [done|lia].
      * split; [by apply pmm_ok_released|]. split; [by apply accounted_released|].
        split; [by apply pmm_only_released|]. rewrite free_set_released by done.
        apply pool_free; [done|lia].
Qed.

Lemma serve_all_trace k rs s :
  pmm_ok s -> accounted k s ->
  wp (serve_all rs) s
     (fun vs s' => pmm_ok s' /\ accounted k s' /\
        pool_trace (mem_phys_base (k_pmm s)) (total_frames (k_pmm s)) (free_set s) rs vs (free_set s'))
     (fun _ => exists rs1 rs2 vs, rs = rs1 ++ Alloc :: rs2 /\
        pool_trace (mem_phys_base (k_pmm s)) (total_frames (k_pmm s)) (free_set s) rs1 vs ∅).
Proof.
  revert s. induction rs as [|r rs IH]; intros s Hok Hacc; simpl.
  - apply wp_ret. split; [done|]. split; [done|]. constructor.
  - apply wp_bind. eapply wp_mono; [apply (serve_step k r s Hok Hacc)| |].
    + intros v s' (Hok' & Hacc' & (m & ff & lf & Hs' & _) & Hstep). apply wp_bind.
      eapply wp_mono; [apply (IH s' Hok' Hacc')| |]; rewrite Hs'; simpl; rewrite <- Hs'.
      * intros vs s'' (? & Hacc2 & Htr). apply wp_ret. split; [done|]. split; [done|]. by econstructor.
      * intros s'' (rs1 & rs2 & vs & -> & Htr). exists (r :: rs1), rs2, (v :: vs).
        split; [done|]. by econstructor.
    + intros s' [-> He]. exists [], rs, []. split; [done|]. rewrite He. constructor.
Qed.
End pmm_properties.

(** ** Decidable checks, for concrete states *)

Section pmm_check.
Context `{Platform}.

Definition u64b (x : Z) : bool := (0 <=? x) && (x <? 2 ^ 64).

Definition pmm_okb (s : kstate) : bool :=
  let p := k_pmm s in
  (0 <=? total_frames p) && (0 <? mem_phys_base p) &&
  (mem_phys_base p + total_frames p * PAGE_SIZE <? 2 ^ 64) &&
  (0 <=? last_free_index p) && (last_free_index p <=? total_frames p) &&
  u64b (free_frames p) && valid (frame_bitmap p) ((total_frames p + 7) / 8).

Lemma pmm_okb_ok s : pmm_okb s = true -> pmm_ok s.
Proof.
  unfold pmm_okb, u64b. rewrite !andb_true_iff, !Z.leb_le, !Z.ltb_lt.
  intros ((((((? & ?) & ?) & ?) & ?) & ?) & ?). by split.
Qed.

Definition accountedb (k : Z) (s : kstate) : bool :=
  (free_frames (k_pmm s) =? Z.of_nat (size (free_set s)) + k) && (0 <=? k) && (k <=? 2 ^ 52).

Lemma accountedb_ok k s : accountedb k s = true -> accounted k s.
Proof.
  unfold accountedb, accounted. rewrite !andb_true_iff, Z.eqb_eq, !Z.leb_le. lia.
Qed.
End pmm_check.

(** A machine with 16 frames at 0x40100000, frames 0 to 3 reserved. *)
Definition pmm_demo : kstate :=
  Eval vm_compute in
    final (mm_boot_init (H := arm64_virt)
             (mkBootInfo 0x400F0000 0x400F8000 0x40100000 0x40100000 0x40100000 0 0) ;;
           pmm_init (H := arm64_virt) 0x40100000 0x10000 ;;
           pmm_free_region (H := arm64_virt) 0x40100000 0x10000 ;;
           pmm_reserve_region (H := arm64_virt) 0x40100000 0x3800) cold_state.

Lemma pmm_demo_ok : pmm_ok (H := arm64_virt) pmm_demo.
Proof. apply pmm_okb_ok. vm_compute. reflexivity. Qed.

Lemma pmm_demo_accounted : accounted 16 pmm_demo.
Proof. apply accountedb_ok. vm_compute. reflexivity. Qed.

(** ** Properties *)

Section pmm_theorems.
Context `{Console}.

(** C6: [pmm_alloc_frame] is next fit.  On a well-formed allocator it never
    faults or loops; it returns the first frame whose bit is clear, searching
    from the cursor and then from the start, marks exactly that frame used
    and changes only the bitmap and its counters; it returns 0, changing
    nothing, only when no frame is free; and it panics only when the counter
    is 0. *)
Theorem pmm_alloc_correct s :
  pmm_ok s ->
  wp pmm_alloc_frame s
     (fun a s' =>
        (exists i, next_fit s = Some i /\ frame_free s i /\ a = frame_addr s i /\
           free_set s' = free_set s ∖ {[i]} /\ last_free_index (k_pmm s') = i + 1 /\
           pmm_ok s' /\ pmm_only s s') \/
        (a = 0 /\ free_set s = ∅ /\ s' = s))
     (fun s' => free_frames (k_pmm s) = 0 /\ k_mem s' = k_mem s).
Proof.
  intros Hok. apply wp_alloc_frame; [done| | |].
  - intros i Hf Hn. left. exists i. pose proof Hf as [Hi _].
    rewrite free_set_taken by done. split; [done|]. split; [done|]. split; [done|].
    split; [done|]. split; [done|]. split; [by apply pmm_ok_taken|by apply pmm_only_taken].
  - intros He. by right.
  - by intros Hc t.
Qed.

(** C14: The allocator refines a pool of frames.  For every sequence of
    allocations and frees of arbitrary addresses, started in a well-formed
    state whose counter is at least the number of free frames, no request
    faults or loops, the results are those of the abstract pool started with
    the free frames, and if an allocation panics the pool was empty. *)
Theorem pmm_refines_pool k rs s :
  pmm_ok s -> accounted k s ->
  wp (serve_all rs) s
     (fun vs s' => pmm_ok s' /\
        pool_trace (mem_phys_base (k_pmm s)) (total_frames (k_pmm s)) (free_set s) rs vs (free_set s'))
     (fun _ => exists rs1 rs2 vs, rs = rs1 ++ Alloc :: rs2 /\
        pool_trace (mem_phys_base (k_pmm s)) (total_frames (k_pmm s)) (free_set s) rs1 vs ∅).
Proof.
  intros Hok Hacc. eapply wp_weaken; [by apply (serve_all_trace k)|].
  simpl. tauto.
Qed.

(** In a trace of allocations the frames handed out are distinct free frames. *)
Lemma pool_allocs base total F rs vs F' :
  0 < base -> (forall i, i ∈ F -> 0 <= i) ->
  pool_trace base total F rs vs F' -> Forall (eq Alloc) rs ->
  NoDup (filter (fun v => v <> 0) vs) /\
  forall v, v ∈ vs -> v = 0 \/ exists i, i ∈ F /\ v = base + i * PAGE_SIZE.
Proof.
  intros Hb HF Htr. induction Htr as [F|F1 r v F2 rs vs F3 Hst Htr IH]; intros Hall.
  { split; [constructor|]. intros v Hv. by apply elem_of_nil in Hv. }
  apply Forall_cons in Hall as [<- Hall]. inversion Hst; subst.
  - destruct IH as [Hnd Hin]; [set_solver|done|]. assert (Hi : 0 <= i) by auto. split.
    + rewrite filter_cons_True by (unfold PAGE_SIZE; lia). apply NoDup_cons. split; [|done].
      rewrite list_elem_of_filter. intros [_ Hv]. apply Hin in Hv as [Hv|(j & Hj & Hv)]; [unfold PAGE_SIZE in *; lia|].
      assert (j = i) as -> by (unfold PAGE_SIZE in *; lia). set_solver.
    + intros v [->|Hv]%elem_of_cons; [right; by exists i|].
      apply Hin in Hv as [Hv|(j & Hj & Hv)]; [by left|]. right. exists j. set_solver.
  - destruct IH as [Hnd Hin]; [done|done|]. split; [by rewrite filter_cons_False by tauto|].
    intros v [->|Hv]%elem_of_cons; [by left|by apply Hin].
Qed.

(** No frame is handed out twice.  The non-zero results of any run of
    allocations are pairwise distinct, page aligned with the region's base,
    and were free before. *)
Theorem pmm_allocs_distinct k n s :
  pmm_ok s -> accounted k s ->
  wp (serve_all (replicate n Alloc)) s
     (fun vs _ => NoDup (filter (fun v => v <> 0) vs) /\
        forall v, v ∈ vs -> v = 0 \/ exists i, frame_free s i /\ v = frame_addr s i)
     (fun _ => True).
Proof.
  intros Hok Hacc. eapply wp_mono; [by apply (serve_all_trace k)| |done].
  simpl. intros vs s' (_ & _ & Htr).
  assert (HF : forall i, i ∈ free_set s -> 0 <= i) by (intros i [Hi _]%elem_of_free_set; lia).
  destruct (pool_allocs _ _ _ _ _ _ (ok_base _ Hok) HF Htr) as [Hnd Hin];
    [by apply Forall_replicate|].
  split; [done|]. intros v Hv. destruct (Hin v Hv) as [?|(i & Hi & ->)]; [by left|].
  right. exists i. by rewrite <- elem_of_free_set.
Qed.

(** Freeing is idempotent and safe.  Freeing any address twice is freeing
    it once, and a frame that was handed out comes back by freeing any
    address inside it. *)
Theorem pmm_free_correct s a :
  pmm_ok s ->
  bind (pmm_free_frame a) (fun _ => pmm_free_frame a) s = pmm_free_frame a s /\
  forall i, 0 <= i < total_frames (k_pmm s) -> frame_addr s i <= a < frame_addr s i + PAGE_SIZE ->
    exists s', pmm_free_frame a s = Ok tt s' /\ free_set s' = free_set s ∪ {[i]} /\
               pmm_ok s' /\ pmm_only s s'.
Proof.
  intros Hok. rewrite pmm_free_run by done. cbv zeta.
  set (j := (a - mem_phys_base (k_pmm s)) / PAGE_SIZE). split.
  - unfold bind. rewrite pmm_free_run by done. cbv zeta. fold j.
    destruct ((a <? _) || (j >=? _) || negb (frame_used s j)) eqn:Hc.
    { rewrite pmm_free_run by done. cbv zeta. fold j. by rewrite Hc. }
    apply orb_false_iff in Hc as [[Ha Hj]%orb_false_iff Hu].
    assert (0 <= j) by (apply Z.div_pos; unfold PAGE_SIZE; lia).
    rewrite pmm_free_run by (apply pmm_ok_released; [done|lia]). cbv zeta. simpl. fold j.
    rewrite frame_used_released, decide_True by done. by rewrite Ha, Hj.
  - intros i Hi Ha. unfold frame_addr in Ha.
    assert (j = i) as ->.
    { unfold j, PAGE_SIZE in *. Z.div_mod_to_equations; lia. }
    assert (Hlo : (a <? mem_phys_base (k_pmm s)) = false) by (unfold PAGE_SIZE in Ha; lia).
    assert (Hhi : (i >=? total_frames (k_pmm s)) = false) by lia. rewrite Hlo, Hhi. simpl.
    destruct (frame_used s i) eqn:Hu; simpl; eexists.
    + split; [done|]. split; [by apply free_set_released|].
      split; [by apply pmm_ok_released|by apply pmm_only_released].
    + split; [done|]. split; [by rewrite gset_absorb by (by apply elem_of_free_set)|].
      split; [done|apply pmm_only_refl].
Qed.

(** C37: The region operations.  Reserving a region of the managed memory takes
    exactly the frames it touches out of the free set; freeing one adds
    exactly the whole frames it has room for; both keep the allocator
    well-formed and its counter in step with the set. *)
Theorem pmm_regions_correct k base size s :
  pmm_ok s -> accounted k s -> 0 <= size -> size + 4095 < 2 ^ 64 ->
  in_region s base ((size + 4095) / PAGE_SIZE) ->
  safe (pmm_reserve_region base size) s (fun _ s' =>
    free_set s' = free_set s ∖ frames (region_start s base) ((size + 4095) / PAGE_SIZE) /\
    pmm_ok s' /\ accounted k s' /\ pmm_only s s') /\
  safe (pmm_free_region base size) s (fun _ s' =>
    free_set s' = free_set s ∪ frames (region_start s base) (size / PAGE_SIZE) /\
    pmm_ok s' /\ accounted k s' /\ pmm_only s s').
Proof.
  intros Hok Hacc Hs Hov Hin. split.
  - apply (wp_reserve_region k); try done. by intros s' [].
  - apply (wp_free_region k); try done.
    + destruct Hin as [? Hc]. split; [done|]. unfold PAGE_SIZE in *. Z.div_mod_to_equations; lia.
    + by intros s' [].
Qed.

(** The boot sequence counts every frame twice.  After [pmm_init] and the
    [pmm_free_region] of the whole region that [mm_init] runs, every frame is
    free, but [free_frames] is twice the number of frames: [pmm_init] already
    set it to that number while marking every frame used. *)
Theorem pmm_boot_overcounts base size s :
  init_pre s base size ->
  safe (pmm_init base size ;; pmm_free_region base size) s (fun _ s' =>
    free_set s' = frames 0 (size / PAGE_SIZE) /\
    free_frames (k_pmm s') = 2 * (size / PAGE_SIZE) /\ pmm_ok s').
Proof.
  intros Hpre. pose proof (total_bound _ _ _ Hpre) as Ht.
  apply wp_bind, wp_pmm_init; [done|]. intros m t Hm Hff.
  destruct (initialised_ok s base size m t Hpre Hff) as (Hok & Hf & Hacc).
  pose proof Hpre as [_ _ Hs _ Hb Htop _ _].
  apply (wp_free_region (size / PAGE_SIZE)); try done.
  - split; simpl; [lia|]. rewrite Z.sub_diag. rewrite Z.div_0_l by done. lia.
  - intros s' [Hok' _ [Hc _] Hfs]. rewrite Hf, union_empty_l_L in Hfs.
    unfold region_start in Hfs. simpl in Hfs. rewrite Z.sub_diag, Z.div_0_l in Hfs by done.
    split; [done|]. split; [|done]. rewrite Hc, Hfs. unfold frames.
    rewrite size_list_to_set by apply NoDup_seqZ. rewrite length_seqZ. lia.
Qed.
End pmm_theorems.

(** ** Witnesses *)

Lemma pmm_alloc_correct_witness :
  exists s', pmm_alloc_frame (H := arm64_virt) pmm_demo = Ok 0x40104000 s' /\
             free_set s' = free_set pmm_demo ∖ {[4]}.
Proof.
  pose proof (@pmm_alloc_correct arm64_virt arm64_console pmm_demo pmm_demo_ok) as Hw.
  destruct (wp_cases _ _ _ _ Hw) as [(a & s' & Hr & Hq)|(s' & _ & Hc & _)].
  - exists s'. destruct Hq as [(i & Hn & _ & -> & Hf & _)|(_ & He & _)].
    + vm_compute in Hn. injection Hn as <-. by split.
    + vm_compute in He. discriminate He.
  - vm_compute in Hc. discriminate Hc.
Defined.

(** Twelve frames are free: the thirteenth request gets 0, and the address it
    frees comes back. *)
Definition pool_demo_requests : list request :=
  replicate 13 Alloc ++ [Free 0x40107123; Alloc].

Lemma pmm_refines_pool_witness :
  exists vs s', serve_all (H := arm64_virt) pool_demo_requests pmm_demo = Ok vs s' /\
    pool_trace 0x40100000 16 (free_set pmm_demo) pool_demo_requests vs (free_set s') /\
    last vs = Some 0x40107000.
Proof.
  pose proof (@pmm_refines_pool arm64_virt arm64_console 16 pool_demo_requests pmm_demo
                pmm_demo_ok pmm_demo_accounted) as Hw.
  destruct (wp_cases _ _ _ _ Hw) as [(vs & s' & Hr & _ & Htr)|(s' & Hr & _)].
  - exists vs, s'. split; [exact Hr|]. split; [exact Htr|].
    vm_compute in Hr. injection Hr as <- <-. reflexivity.
  - vm_compute in Hr. discriminate Hr.
Defined.

Lemma pmm_allocs_distinct_witness :
  exists vs s', serve_all (H := arm64_virt) (replicate 12 Alloc) pmm_demo = Ok vs s' /\
    NoDup (filter (fun v => v <> 0) vs) /\ length vs = 12%nat.
Proof.
  pose proof (@pmm_allocs_distinct arm64_virt arm64_console 16 12 pmm_demo
                pmm_demo_ok pmm_demo_accounted) as Hw.
  destruct (wp_cases _ _ _ _ Hw) as [(vs & s' & Hr & Hnd & _)|(s' & Hr & _)].
  - exists vs, s'. split; [exact Hr|]. split; [exact Hnd|].
    vm_compute in Hr. injection Hr as <- <-. reflexivity.
  - vm_compute in Hr. discriminate Hr.
Defined.

Lemma pmm_free_correct_witness :
  exists s', pmm_free_frame (H := arm64_virt) 0x40102ABC pmm_demo = Ok tt s' /\
             free_set s' = free_set pmm_demo ∪ {[2]}.
Proof.
  destruct (@pmm_free_correct arm64_virt pmm_demo 0x40102ABC pmm_demo_ok) as [_ Hw].
  destruct (Hw 2) as (s' & Hr & Hf & _); [vm_compute; intuition discriminate..|]. by exists s'.
Defined.

Lemma pmm_regions_correct_witness :
  safe (pmm_reserve_region (H := arm64_virt) 0x40106000 0x2800) pmm_demo
    (fun _ s' => free_set s' = free_set pmm_demo ∖ frames 6 3).
Proof.
  destruct (@pmm_regions_correct arm64_virt 16 0x40106000 0x2800 pmm_demo
              pmm_demo_ok pmm_demo_accounted) as [Hw _]; [lia..|vm_compute; intuition discriminate|].
  eapply wp_weaken; [exact Hw|]. by intros [] s' [Hf _].
Defined.

Definition pmm_cold : kstate := set_boot cold_state (mkBoot 0x400F0000 0x400F8000).

Lemma pmm_boot_overcounts_witness :
  safe (pmm_init (H := arm64_virt) 0x40100000 0x10000 ;;
        pmm_free_region (H := arm64_virt) 0x40100000 0x10000) pmm_cold
    (fun _ s' => free_frames (k_pmm s') = 32 /\ size (free_set s') = 16%nat).
Proof.
  eapply wp_weaken.
  - apply (@pmm_boot_overcounts arm64_virt arm64_console 0x40100000 0x10000 pmm_cold).
    split; try (vm_compute; reflexivity); vm_compute; intuition discriminate.
  - intros [] s' (-> & -> & _). by split.
Defined.

(** The bitmap [pmm_init] asks for is too short when the frame count is just
    above a multiple of 64: 65 frames get 8 bytes. *)
Example bitmap_too_short : bitmap_size_for 65 * 8 < 65.
Proof. reflexivity. Qed.
