(* ===== verification/FrameRace.v ===== *)
(** * The frame allocator between harts

    [pmm_alloc_frame] of base/mm/physframe.c cut at its statements and run by
    several harts.  It takes no lock, while its callers hold at most the lock of
    one slab cache each: the file shows what two harts that grow two caches at
    once can get. *)

From S2P Require Import Prelude Machine Logic Console Boards Sync Boot Pmm.

#[local] Open Scope list_scope.

(** Where a hart is in [pmm_alloc_frame]. *)
Inductive frame_place :=
| FCall                         (* [if (free_frames == 0)] *)
| FScan (i : Z) | FWrap (i : Z) (* at the head of the first loop, of the second *)
| FMark (i : Z)                 (* [bitmap_set(i)] *)
| FCount (i : Z)                (* [free_frames--] *)
| FCursor (i : Z)               (* [last_free_index = i + 1] *)
| FBack (i : Z).                (* [return] *)

Section frames.
Context `{Platform}.

(** A statement of the code, or a test and the jump after it; the last one
    gives the result. *)
Definition frame_step (p : frame_place) : M (frame_place + Z) :=
  q <- gets k_pmm ;;
  match p with
  | FCall => if free_frames q =? 0 then panic "mm" "out of physical memory frames" []
             else ret (inl (FScan (last_free_index q)))
  | FScan i => if i <? total_frames q then
                 used <- bitmap_test i ;; ret (inl (if used : bool then FScan (wrap64 (i + 1)) else FMark i))
               else ret (inl (FWrap 0))
  | FWrap i => if i <? last_free_index q then
                 used <- bitmap_test i ;; ret (inl (if used : bool then FWrap (wrap64 (i + 1)) else FMark i))
               else ret (inr 0)
  | FMark i => bitmap_set i ;; ret (inl (FCount i))
  | FCount i => modify_pmm (set_free_frames (wrap64 (free_frames q - 1))) ;; ret (inl (FCursor i))
  | FCursor i => modify_pmm (set_last_free_index (wrap64 (i + 1))) ;; ret (inl (FBack i))
  | FBack i => ret (inr (wrap64 (mem_phys_base q + i * PAGE_SIZE)))
  end.

Definition frame_alone : M Z := while frame_step FCall.

(** Several harts in [pmm_alloc_frame]: each at its place, or with its result. *)
Inductive frame_race_step : kstate * list (frame_place + Z) -> kstate * list (frame_place + Z) -> Prop :=
| fr_step i p p' s s' hs :
    hs !! i = Some (inl p) -> frame_step p s = Ok p' s' ->
    frame_race_step (s, hs) (s', <[i := p']> hs).

(** ** One hart alone *)

(** What holds at each place of a call that began in [s]. *)
Definition at_place (s : kstate) (p : frame_place) (t : kstate) : Prop :=
  let last := last_free_index (k_pmm s) in
  let total := total_frames (k_pmm s) in
  match p with
  | FCall => t = s
  | FScan i => t = s /\ last <= i <= total /\
      first_free s (Z.to_nat (total - last)) last = first_free s (Z.to_nat (total - i)) i
  | FWrap i => t = s /\ 0 <= i <= last /\ first_free s (Z.to_nat (total - last)) last = None /\
      first_free s (Z.to_nat last) 0 = first_free s (Z.to_nat (last - i)) i
  | FMark i => next_fit s = Some i /\ t = s
  | FCount i => next_fit s = Some i /\ t = mark s i true
  | FCursor i => next_fit s = Some i /\
      t = set_pmm (mark s i true) (set_free_frames (wrap64 (free_frames (k_pmm s) - 1)) (k_pmm s))
  | FBack i => next_fit s = Some i /\ t = taken s i
  end.

(** How many steps are left, at most. *)
Definition left_of (s : kstate) (p : frame_place) : nat :=
  let last := last_free_index (k_pmm s) in
  let total := total_frames (k_pmm s) in
  match p with
  | FCall => Z.to_nat (total + 10)
  | FScan i => Z.to_nat (total - i + last + 8)
  | FWrap i => Z.to_nat (last - i + 6)
  | FMark _ => 4
  | FCount _ => 3
  | FCursor _ => 2
  | FBack _ => 1
  end%nat.
End frames.

Section alone.
Context `{Console}.

Lemma first_free_next s i n :
  0 <= i < n -> first_free s (Z.to_nat (n - i)) i =
  if frame_used s i then first_free s (Z.to_nat (n - (i + 1))) (i + 1) else Some i.
Proof. intros Hi. replace (Z.to_nat (n - i)) with (S (Z.to_nat (n - (i + 1)))) by lia. done. Qed.

Lemma frame_step_places s p t :
  pmm_ok s -> free_frames (k_pmm s) <> 0 -> at_place s p t ->
  match frame_step p t with
  | Ok (inl p') t' => at_place s p' t' /\ (left_of s p' < left_of s p)%nat
  | Ok (inr v) t' => match next_fit s with
                     | Some i => v = frame_addr s i /\ t' = taken s i
                     | None => v = 0 /\ t' = s
                     end
  | _ => False
  end.
Proof.
  intros Hok Hc Hp. pose proof (ok_cursor _ Hok) as Hlast. pose proof (total_small s Hok) as Htot.
  pose proof (byte_in_bitmap s) as Hbyte.
  change (wp (frame_step p) t (fun r t' => match r with
    | inl p' => at_place s p' t' /\ (left_of s p' < left_of s p)%nat
    | inr v => match next_fit s with Some i => v = frame_addr s i /\ t' = taken s i | None => v = 0 /\ t' = s end
    end) (fun _ => False)).
  destruct p as [|i|i|i|i|i|i]; simpl in Hp; unfold frame_step; apply wp_bind, wp_gets.
  - subst t. rewrite (proj2 (Z.eqb_neq _ _) Hc). apply wp_ret. simpl. split; [split_and!; [done|lia..|done]|lia].
  - destruct Hp as (-> & Hi & Hf). destruct (Z.ltb_spec i (total_frames (k_pmm s))) as [Hlt|Hge].
    + rewrite (first_free_next s i) in Hf by lia.
      apply wp_bind, wp_bitmap_test; [apply Hbyte; [done|lia]|]. apply wp_ret.
      destruct (frame_used s i); simpl.
      * rewrite wrap64_small by (unfold u64; lia). split; [split_and!; [done|lia..|done]|lia].
      * split; [|lia]. split; [|done]. unfold next_fit. by rewrite Hf.
    + apply wp_ret. simpl. rewrite Z.sub_0_r. replace i with (total_frames (k_pmm s)) in Hf by lia.
      rewrite (Z.sub_diag (total_frames (k_pmm s))) in Hf.
      split; [split_and!; [done|lia..|done|done]|lia].
  - destruct Hp as (-> & Hi & Hn & Hf). destruct (Z.ltb_spec i (last_free_index (k_pmm s))) as [Hlt|Hge].
    + rewrite (first_free_next s i) in Hf by lia.
      apply wp_bind, wp_bitmap_test; [apply Hbyte; [done|lia]|]. apply wp_ret.
      destruct (frame_used s i); simpl.
      * rewrite wrap64_small by (unfold u64; lia). split; [split_and!; [done|lia..|done|done]|lia].
      * split; [|lia]. split; [|done]. unfold next_fit. by rewrite Hn, Hf.
    + apply wp_ret. replace i with (last_free_index (k_pmm s)) in Hf by lia. rewrite Z.sub_diag in Hf.
      unfold next_fit. by rewrite Hn, Hf.
  - destruct Hp as [Hn ->]. pose proof (next_fit_Some _ _ Hok Hn) as [Hi _].
    apply wp_bind, wp_bitmap_set; [by apply Hbyte|]. apply wp_ret. split; [done|simpl; lia].
  - destruct Hp as [Hn ->]. unfold modify_pmm. apply wp_bind, wp_modify, wp_ret. split; [done|simpl; lia].
  - destruct Hp as [Hn ->]. pose proof (next_fit_Some _ _ Hok Hn) as [Hi _]. unfold modify_pmm.
    apply wp_bind, wp_modify, wp_ret. rewrite (wrap64_small (i + 1)) by (unfold u64; lia). split; [done|simpl; lia].
  - destruct Hp as [Hn ->]. pose proof (next_fit_Some _ _ Hok Hn) as [Hi _]. apply wp_ret.
    rewrite Hn. split; [|done]. exact (frame_addr_u64 s i Hok Hi).
Qed.

(** The statements one after the other are [pmm_alloc_frame]. *)
Lemma frame_alone_run s :
  pmm_ok s -> free_frames (k_pmm s) <> 0 -> frame_alone s = pmm_alloc_frame s.
Proof.
  intros Hok Hc. rewrite pmm_alloc_run by done. pose proof (ok_cursor _ Hok). pose proof (total_small s Hok).
  assert (Hw : safe frame_alone s (fun v t => match next_fit s with
                 | Some i => v = frame_addr s i /\ t = taken s i | None => v = 0 /\ t = s end)).
  { unfold frame_alone.
    apply (wp_while (fun n p t => at_place s p t /\ (left_of s p <= n)%nat) (left_of s FCall)).
    { unfold left_of. lia. }
    { split; [reflexivity|lia]. }
    intros n p t [Hp Hn]. pose proof (frame_step_places s p t Hok Hc Hp) as Hs.
    unfold wp. destruct (frame_step p t) as [[p'|v] t'| | |]; try done.
    destruct Hs as [Hp' Hl]. exists (left_of s p'). split; [lia|]. split; [exact Hp'|lia]. }
  destruct (next_fit s); by apply safe_eq.
Qed.

(** ** Two harts *)

Definition scanning (p : frame_place) : bool :=
  match p with FCall | FScan _ | FWrap _ => true | _ => false end.

Lemma frame_scan_next p s p' t :
  free_frames (k_pmm s) <> 0 -> scanning p = true -> frame_step p s = Ok (inl p') t -> scanning p' = true \/ exists j, p' = FMark j.
Proof.
  intros Hc Hp. unfold frame_step, bind, gets, ret. rewrite (proj2 (Z.eqb_neq _ _) Hc). destruct p as [|i|i| | | |]; try done.
  - intros [= <- <-]. by left.
  - destruct (_ <? _); [|intros [= <- <-]; by left].
    destruct (bitmap_test i s) as [[] ?| | |]; try done; intros [= <- <-]; eauto.
  - destruct (_ <? _); [|done].
    destruct (bitmap_test i s) as [[] ?| | |]; try done; intros [= <- <-]; eauto.
Qed.

Lemma frame_scan_none p s v t :
  free_frames (k_pmm s) <> 0 -> scanning p = true -> frame_step p s = Ok (inr v) t -> v = 0.
Proof.
  intros Hc Hp. unfold frame_step, bind, gets, ret. rewrite (proj2 (Z.eqb_neq _ _) Hc). destruct p as [|i|i| | | |]; try done.
  - destruct (_ <? _); [|done]. by destruct (bitmap_test i s).
  - destruct (_ <? _); [by destruct (bitmap_test i s)|]. by intros [= <- <-].
Qed.

(** A hart gets to the frame it finds free while nobody else moves. *)
Lemma frame_finds s i hs k p :
  pmm_ok s -> free_frames (k_pmm s) <> 0 -> next_fit s = Some i -> hs !! k = Some (inl p) ->
  scanning p = true -> at_place s p s ->
  rtc frame_race_step (s, hs) (s, <[k := inl (FMark i)]> hs).
Proof.
  intros Hok Hc Hn. remember (left_of s p) as n eqn:Hl. revert p hs Hl.
  induction (lt_wf n) as [n _ IH]. intros p hs -> Hk Hscan Hp.
  pose proof (frame_step_places s p s Hok Hc Hp) as Hs.
  destruct (frame_step p s) as [[p'|v] t| | |] eqn:Hrun; try done.
  2:{ rewrite Hn in Hs. apply frame_scan_none in Hrun; [|done..]. pose proof (next_fit_Some _ _ Hok Hn) as [Hi _].
      pose proof (ok_base _ Hok). destruct Hs as [Hv _]. unfold frame_addr, PAGE_SIZE in Hv. lia. }
  destruct Hs as [Hp' Hlt].
  assert (Ht : t = s).
  { destruct (frame_scan_next _ _ _ _ Hc Hscan Hrun) as [Hs|[j ->]]; [|by destruct Hp'].
    destruct p'; simpl in Hp'; try done; tauto. }
  subst t. eapply rtc_l; [by eapply fr_step|].
  destruct (frame_scan_next _ _ _ _ Hc Hscan Hrun) as [Hs|[j ->]].
  - rewrite <- (list_insert_insert_eq hs k (inl (FMark i)) (inl p')).
    eapply (IH _ Hlt); [done| |exact Hs|exact Hp']. apply list_lookup_insert_eq. by eapply lookup_lt_Some.
  - destruct Hp' as [Hj _]. assert (j = i) as -> by congruence. apply rtc_refl.
Qed.

(** From there it is given the frame, whatever others have done to the bitmap. *)
Lemma frame_gets t hs k i :
  valid (frame_bitmap (k_pmm t) + i / 8) 1 = true -> hs !! k = Some (inl (FMark i)) ->
  exists t', rtc frame_race_step (t, hs) (t', <[k := inr (wrap64 (frame_addr t i))]> hs) /\
    frame_bitmap (k_pmm t') = frame_bitmap (k_pmm t) /\ mem_phys_base (k_pmm t') = mem_phys_base (k_pmm t).
Proof.
  intros Hv Hk. assert (Hset : bitmap_set i t = Ok tt (mark t i true)) by (apply safe_eq; by apply wp_bitmap_set).
  assert (Hlt : (k < length hs)%nat) by (by eapply lookup_lt_Some). eexists. split.
  - eapply rtc_l; [eapply fr_step; [exact Hk|]; unfold frame_step, bind, gets; by rewrite Hset|].
    eapply rtc_l; [eapply fr_step; [by apply list_lookup_insert_eq|reflexivity]|]. rewrite list_insert_insert_eq.
    eapply rtc_l; [eapply fr_step; [by apply list_lookup_insert_eq|reflexivity]|]. rewrite list_insert_insert_eq.
    eapply rtc_l; [eapply fr_step; [by apply list_lookup_insert_eq|reflexivity]|]. rewrite list_insert_insert_eq.
    apply rtc_refl.
  - done.
Qed.

(** The frame allocator is not for several harts: whenever a frame is free, two
    harts that call [pmm_alloc_frame] at once can both be given that frame, even
    if each of its statements is atomic. *)
Theorem frame_given_twice s :
  pmm_ok s -> free_frames (k_pmm s) <> 0 -> free_set s <> ∅ ->
  exists i s', frame_free s i /\
    rtc frame_race_step (s, [inl FCall; inl FCall]) (s', [inr (frame_addr s i); inr (frame_addr s i)]).
Proof.
  intros Hok Hc Hf. destruct (next_fit s) as [i|] eqn:Hn; [|by apply next_fit_None in Hn].
  pose proof (next_fit_Some _ _ Hok Hn) as Hfree. destruct Hfree as [Hi Hu].
  pose proof (byte_in_bitmap s i Hok Hi) as Hv. pose proof (frame_addr_u64 s i Hok Hi) as Hw.
  destruct (frame_gets s [inl (FMark i); inl (FMark i)] 0 i Hv eq_refl) as (s1 & H1 & Hb1 & Hp1).
  destruct (frame_gets s1 [inr (wrap64 (frame_addr s i)); inl (FMark i)] 1 i) as (s2 & H2 & _ & _);
    [by rewrite Hb1|done|].
  exists i, s2. split; [done|].
  etrans; [by apply (frame_finds s i _ 0 FCall)|].
  etrans; [by apply (frame_finds s i _ 1 FCall)|].
  etrans; [exact H1|]. unfold frame_addr in H2 at 2. rewrite Hp1 in H2. fold (frame_addr s i) in H2.
  rewrite Hw in H2. simpl in H2. rewrite Hw. exact H2.
Qed.
End alone.
