(* ===== verification/Heap.v ===== *)
(** * Kernel memory on top of the frame allocator

    The allocators above physframe.c hand out ranges of memory that are in no
    free frame.  [owned] is such a range, [shrinks] says that a step freed no
    frame, [keeps] that it left the contents of the other owned ranges alone,
    and [separated] that the ranges of a list do not overlap. *)

From S2P Require Import Prelude Machine Logic Console Pmm.

(** Unfolds the sizes and offsets of a component; each file adds its own. *)
Ltac unfold_sizes := unfold PAGE_SIZE in *.

(** [apart] between ranges whose bounds arithmetic can compare. *)
Ltac solve_apart := unfold apart in *; simpl in *; unfold_sizes; lia.

(** Splits [Forall (apart r) rs] on a literal list. *)
Ltac split_aparts := repeat first [apply Forall_nil_2 | apply Forall_cons; split].
Ltac solve_aparts := split_aparts; solve_apart.

Section heap_defs.
Context `{Platform}.

(** [[a, a+n)] has no byte in a free frame. *)
Definition off_free (s : kstate) (a n : Z) : Prop :=
  forall i, frame_free s i -> apart (a, n) (frame_addr s i, PAGE_SIZE).

(** The frame allocator is well formed, its free frames are memory, its bitmap
    is not in one of them, and frames are page aligned. *)
Record heap_ok (s : kstate) : Prop := {
  ho_pmm : pmm_ok s;
  ho_align : (PAGE_SIZE | mem_phys_base (k_pmm s));
  ho_top : mem_phys_base (k_pmm s) + total_frames (k_pmm s) * PAGE_SIZE + 2 ^ 32 < 2 ^ 64;
  ho_frames : forall i, frame_free s i -> valid (frame_addr s i) PAGE_SIZE = true;
  ho_bitmap : off_free s (bitmap_range s).1 (bitmap_range s).2
}.

(** Memory of the kernel's own: in range, in no free frame, not the bitmap. *)
Record owned (s : kstate) (a n : Z) : Prop := {
  ow_pos : 0 < a;
  ow_top : a + n <= 2 ^ 64;
  ow_valid : valid a n = true;
  ow_off : off_free s a n;
  ow_bitmap : apart (a, n) (bitmap_range s)
}.


(** No frame to hand out is left, or the counter says so. *)
Definition exhausted (s : kstate) : Prop := free_set s = ∅ \/ free_frames (k_pmm s) = 0.

(** From [s] to [s'] no frame became free and the frame allocator did not
    move. *)
Definition shrinks (s s' : kstate) : Prop :=
  frame_bitmap (k_pmm s') = frame_bitmap (k_pmm s) /\
  total_frames (k_pmm s') = total_frames (k_pmm s) /\
  mem_phys_base (k_pmm s') = mem_phys_base (k_pmm s) /\
  forall i, frame_free s' i -> frame_free s i.

(** Only memory and the frame allocator changed. *)
Definition heap_only (s s' : kstate) : Prop := exists m p, s' = set_pmm (set_mem s m) p.

(** The frame allocator did not move. *)
Definition same_frames (s s' : kstate) : Prop :=
  mem_phys_base (k_pmm s') = mem_phys_base (k_pmm s) /\ total_frames (k_pmm s') = total_frames (k_pmm s).

(** A step that touches only [rs] of the owned memory: what is owned elsewhere
    stays owned and keeps its contents. *)
Record keeps (rs : list (Z * Z)) (s s' : kstate) : Prop := {
  kp_only : heap_only s s';
  kp_frames : frame_bitmap (k_pmm s') = frame_bitmap (k_pmm s) /\
    total_frames (k_pmm s') = total_frames (k_pmm s) /\ mem_phys_base (k_pmm s') = mem_phys_base (k_pmm s);
  kp_heap : heap_ok s -> heap_ok s';
  kp_owned : forall a n, owned s a n -> Forall (apart (a, n)) rs -> owned s' a n;
  kp_mem : forall a n, owned s a n -> Forall (apart (a, n)) rs ->
    forall b, a <= b < a + n -> get8 (k_mem s') b = get8 (k_mem s) b
}.

(** The ranges of a list do not overlap. *)
Fixpoint separated (rs : list (Z * Z)) : Prop :=
  match rs with
  | [] => True
  | r :: rs' => Forall (apart r) rs' /\ separated rs'
  end.

(** The ranges [rs] have the same contents in both states. *)
Definition same_bytes (rs : list (Z * Z)) (s s' : kstate) : Prop :=
  Forall (fun r => forall b, r.1 <= b < r.1 + r.2 -> get8 (k_mem s') b = get8 (k_mem s) b) rs.

(** Memory of the kernel's own, in separate pieces. *)
Definition area (s : kstate) (rs : list (Z * Z)) : Prop :=
  Forall (fun r => owned s r.1 r.2) rs /\ separated rs.
End heap_defs.

Section heap_lemmas.
Context `{Platform}.

Lemma apart_sym r r' : apart r r' -> apart r' r.
Proof. unfold apart. tauto. Qed.

Lemma apart_sub a n b k r : apart (a, n) r -> a <= b -> b + k <= a + n -> apart (b, k) r.
Proof. unfold apart. simpl. lia. Qed.

(** ** Frames and the memory around them *)

Lemma shrinks_refl s : shrinks s s.
Proof. unfold shrinks. auto. Qed.

Lemma shrinks_same s s' : k_mem s' = k_mem s -> k_pmm s' = k_pmm s -> shrinks s s'.
Proof.
  intros Hm Hp. unfold shrinks, frame_free, frame_used. rewrite Hm, Hp. auto.
Qed.

Lemma pmm_ok_same s s' : k_mem s' = k_mem s -> k_pmm s' = k_pmm s -> pmm_ok s -> pmm_ok s'.
Proof. intros Hm Hp []. split; by rewrite Hp. Qed.

Lemma shrinks_trans s1 s2 s3 : shrinks s1 s2 -> shrinks s2 s3 -> shrinks s1 s3.
Proof.
  intros (H1 & H2 & H3 & H4) (H1' & H2' & H3' & H4'). unfold shrinks.
  rewrite H1', H2', H3'. split; [done|]. split; [done|]. split; [done|]. auto.
Qed.

Lemma off_free_shrinks s s' a n : shrinks s s' -> off_free s a n -> off_free s' a n.
Proof.
  intros (_ & _ & Hb & Hf) Ho i Hi. unfold frame_addr. rewrite Hb. apply (Ho i), Hf, Hi.
Qed.

Lemma owned_shrinks s s' a n : shrinks s s' -> owned s a n -> owned s' a n.
Proof.
  intros Hs [Hp Ht Hv Ho Hb]. split; [done|done|done|by eapply off_free_shrinks|].
  destruct Hs as (H1 & H2 & _). unfold bitmap_range. by rewrite H1, H2.
Qed.

Lemma owned_sub s a n b k : owned s a n -> a <= b -> b + k <= a + n -> owned s b k.
Proof.
  intros [Hp Ht Hv Ho Hb] H1 H2. split; [lia|lia|by eapply valid_sub| |by eapply apart_sub].
  intros i Hi. eapply apart_sub; [by apply Ho|done|done].
Qed.

Lemma heap_ok_shrinks s s' : shrinks s s' -> pmm_ok s' -> heap_ok s -> heap_ok s'.
Proof.
  intros Hs Hp [_ Ha Ht Hf Hb]. pose proof Hs as (H1 & H2 & H3 & H4). split; [done| | | |].
  - by rewrite H3.
  - by rewrite H3, H2.
  - intros i Hi. unfold frame_addr. rewrite H3. apply Hf, H4, Hi.
  - unfold bitmap_range in *. rewrite H1, H2. by eapply off_free_shrinks.
Qed.

(** Writing outside the bitmap changes no frame's status. *)
Lemma frame_used_mods s m rs i :
  mods rs (k_mem s) m -> Forall (apart (bitmap_range s)) rs ->
  0 <= i < total_frames (k_pmm s) -> frame_used (set_mem s m) i = frame_used s i.
Proof.
  intros Hm Hrs Hi. unfold frame_used, bit_of. simpl. f_equal.
  apply (mods_get8 _ _ _ _ Hm). eapply Forall_impl; [exact Hrs|]. intros r Hr.
  eapply apart_sub; [exact Hr|Z.div_mod_to_equations; lia|].
  simpl. Z.div_mod_to_equations; lia.
Qed.

Lemma free_set_set_mem s m rs :
  mods rs (k_mem s) m -> Forall (apart (bitmap_range s)) rs -> free_set (set_mem s m) = free_set s.
Proof.
  intros Hm Hrs. apply set_eq. intros i. rewrite !elem_of_free_set. unfold frame_free. simpl.
  split; intros [Hi Hu]; (split; [done|]); by rewrite (frame_used_mods _ _ _ _ Hm Hrs) in *.
Qed.

Lemma shrinks_set_mem s m rs :
  mods rs (k_mem s) m -> Forall (apart (bitmap_range s)) rs -> shrinks s (set_mem s m).
Proof.
  intros Hm Hrs. split; [done|]. split; [done|]. split; [done|]. intros i [Hi Hu]. simpl in Hi.
  split; [done|]. rewrite <- Hu. symmetry. by eapply frame_used_mods.
Qed.

Lemma pmm_ok_set_mem s m : pmm_ok s -> pmm_ok (set_mem s m).
Proof. intros []. by split. Qed.

Lemma heap_ok_set_mem s m rs :
  mods rs (k_mem s) m -> Forall (apart (bitmap_range s)) rs -> heap_ok s -> heap_ok (set_mem s m).
Proof.
  intros Hm Hrs Hok. eapply heap_ok_shrinks; [by eapply shrinks_set_mem| |done].
  apply pmm_ok_set_mem, Hok.
Qed.

Lemma shrinks_taken s i : frame_free s i -> shrinks s (taken s i).
Proof.
  intros [Hi Hu]. split; [done|]. split; [done|]. split; [done|]. intros j [Hj Hju]. simpl in Hj.
  split; [done|]. rewrite frame_used_taken in Hju by lia. by case_decide.
Qed.

Lemma heap_ok_taken s i : heap_ok s -> frame_free s i -> heap_ok (taken s i).
Proof.
  intros Hok Hf. eapply heap_ok_shrinks; [by apply shrinks_taken| |done].
  apply pmm_ok_taken; [apply Hok|apply Hf].
Qed.

(** A frame just taken is the kernel's own. *)
Lemma owned_taken s i : heap_ok s -> frame_free s i -> owned (taken s i) (frame_addr s i) PAGE_SIZE.
Proof.
  intros Hok Hf. pose proof (ok_base _ (ho_pmm _ Hok)) as Hb. split.
  - unfold frame_addr. destruct Hf. unfold PAGE_SIZE; lia.
  - pose proof (ho_top _ Hok). unfold frame_addr. destruct Hf. unfold PAGE_SIZE in *; lia.
  - by apply Hok.
  - intros j [Hj Hju]. simpl in Hj. destruct Hf as [Hi _].
    rewrite frame_used_taken in Hju by lia. case_decide; [done|].
    unfold frame_addr, apart. simpl. unfold PAGE_SIZE. lia.
  - apply apart_sym. apply (ho_bitmap _ Hok i Hf).
Qed.

Lemma owned_apart_frame s i a n : owned s a n -> frame_free s i -> apart (a, n) (frame_addr s i, PAGE_SIZE).
Proof. intros Ho. apply Ho. Qed.

(** ** [keeps] *)

Lemma heap_only_refl s : heap_only s s.
Proof. exists (k_mem s), (k_pmm s). by destruct s. Qed.

Lemma heap_only_trans s1 s2 s3 : heap_only s1 s2 -> heap_only s2 s3 -> heap_only s1 s3.
Proof. intros (m & p & ->) (m' & p' & ->). by exists m', p'. Qed.

Lemma heap_only_set_mem s m : heap_only s (set_mem s m).
Proof. exists m, (k_pmm s). by destruct s. Qed.

Lemma same_frames_trans s1 s2 s3 : same_frames s1 s2 -> same_frames s2 s3 -> same_frames s1 s3.
Proof. intros [B1 F1] [B2 F2]. split; congruence. Qed.

Lemma keeps_refl rs s : keeps rs s s.
Proof. split; auto using heap_only_refl. Qed.

Lemma keeps_trans rs s1 s2 s3 : keeps rs s1 s2 -> keeps rs s2 s3 -> keeps rs s1 s3.
Proof.
  intros [Ho (F1 & F2 & F3) Hh Hw Hm] [Ho' (F1' & F2' & F3') Hh' Hw' Hm'].
  split; [by eapply heap_only_trans|split_and!; congruence|by auto|by auto|].
  intros a n Ha Hr b Hb. rewrite (Hm' a n), (Hm a n); auto.
Qed.

Lemma keeps_weaken rs rs' s s' :
  (forall r, Forall (apart r) rs' -> Forall (apart r) rs) -> keeps rs s s' -> keeps rs' s s'.
Proof. intros Hr [Ho Hp Hh Hw Hm]. split; eauto. Qed.

Lemma keeps_getw rs n s s' a :
  keeps rs s s' -> owned s a (Z.of_nat n) -> Forall (apart (a, Z.of_nat n)) rs ->
  getw n (k_mem s') a = getw n (k_mem s) a.
Proof. intros Hk Ha Hr. apply getw_ext. intros b Hb. by apply (kp_mem _ _ _ Hk a (Z.of_nat n)). Qed.

Lemma keeps_shrinks rs s s' :
  heap_only s s' -> shrinks s s' -> pmm_ok s' -> mods (bitmap_range s :: rs) (k_mem s) (k_mem s') ->
  keeps rs s s'.
Proof.
  intros Ho Hs Hp Hm.
  split; [done|destruct Hs; tauto|by apply heap_ok_shrinks|intros; by eapply owned_shrinks|].
  intros a n Ha Hr b Hb. apply Hm. pose proof (ow_bitmap _ _ _ Ha) as Hbm.
  apply Forall_cons. split; [unfold apart in Hbm; simpl in *; lia|].
  eapply Forall_impl; [exact Hr|]. intros r. unfold apart. simpl. lia.
Qed.

(** [keeps] does not look at the other statics. *)
Lemma keeps_set_slab rs b s s' : keeps rs s s' -> keeps rs (set_slab s b) (set_slab s' b).
Proof.
  assert (Hsh : forall t, shrinks (set_slab t b) t) by (intros t; by apply shrinks_same).
  assert (Hsh' : forall t, shrinks t (set_slab t b)) by (intros t; by apply shrinks_same).
  assert (Hok : forall t t', shrinks t t' -> k_pmm t' = k_pmm t -> k_mem t' = k_mem t -> heap_ok t -> heap_ok t').
  { intros t t' H1 H2 H3 H4. eapply heap_ok_shrinks; [done| |done]. eapply pmm_ok_same; [done|done|apply H4]. }
  intros [(m & p & ->) Hp Hh Hw Hm]. split.
  - by exists m, p.
  - exact Hp.
  - intros H1. eapply Hok; [apply Hsh'|done|done|]. apply Hh. by eapply Hok; [apply Hsh|..].
  - intros a n Ho Hr. eapply owned_shrinks; [apply Hsh'|]. apply Hw; [|done]. by eapply owned_shrinks; [apply Hsh|].
  - intros a n Ho Hr. apply (Hm a n); [|done]. by eapply owned_shrinks; [apply Hsh|].
Qed.

(** Writing to owned memory. *)
Lemma keeps_set_mem rs s m :
  pmm_ok s -> mods rs (k_mem s) m -> Forall (apart (bitmap_range s)) rs -> keeps rs s (set_mem s m).
Proof.
  intros Hp Hm Hrs. apply keeps_shrinks; [apply heap_only_set_mem|by eapply shrinks_set_mem| |].
  - by apply pmm_ok_set_mem.
  - eapply mods_weaken; [|exact Hm]. intros r. rewrite elem_of_cons. auto.
Qed.

Lemma keeps_store rs n s a v lo len :
  pmm_ok s -> owned s lo len -> rs = [(lo, len)] -> lo <= a -> a + Z.of_nat n <= lo + len ->
  keeps rs s (set_mem s (putw n (k_mem s) a v)).
Proof.
  intros Hp Ho -> Hlo Hhi. apply keeps_set_mem; [done| |].
  - eapply mods_put_in; [by left|done|done].
  - split_aparts. apply apart_sym, Ho.
Qed.

Lemma keeps_taken s i : pmm_ok s -> frame_free s i -> keeps [] s (taken s i).
Proof.
  intros Hp Hf. apply keeps_shrinks; [by eexists _, _|by apply shrinks_taken| |].
  - apply pmm_ok_taken; [done|apply Hf].
  - apply mark_mods, Hf.
Qed.

(** What is done inside a frame that was free touches nothing owned. *)
Lemma keeps_drop_frame rs s s' i :
  frame_free s i -> keeps ((frame_addr s i, PAGE_SIZE) :: rs) s s' -> keeps rs s s'.
Proof.
  intros Hf [Ho Hp Hh Hw Hm]. split; [done|done|done| |]; intros a n Ha Hr; [apply Hw|apply (Hm a n)]; try done;
    apply Forall_cons; (split; [by apply owned_apart_frame|done]).
Qed.

(** Giving a frame back. *)
Lemma keeps_released s i :
  0 <= i < total_frames (k_pmm s) -> owned s (frame_addr s i) PAGE_SIZE ->
  keeps [(frame_addr s i, PAGE_SIZE)] s (released s i).
Proof.
  intros Hi Hof. assert (Hfree : forall j, frame_free (released s i) j -> j <> i -> frame_free s j).
  { intros j [Hj Hu] Hne. split; [done|]. simpl in Hj. rewrite frame_used_released in Hu by lia.
    by rewrite decide_False in Hu. }
  split; [by eexists _, _|done| | |].
  - intros [Hp Ha Ht Hf Hb]. split; [by apply pmm_ok_released|done|done| |].
    + intros j Hj. destruct (decide (j = i)) as [->|]; [apply Hof|apply Hf, Hfree; done].
    + intros j Hj. destruct (decide (j = i)) as [->|]; [apply apart_sym, Hof|apply Hb, Hfree; done].
  - intros a n [Hp Ht Hv Ho Hb] Hr. apply Forall_cons in Hr as [Hr _]. split; [done|done|done| |done].
    intros j Hj. destruct (decide (j = i)) as [->|]; [done|apply Ho, Hfree; done].
  - intros a n Ho Hr b Hb. apply (mark_mods s i false Hi).
    pose proof (ow_bitmap _ _ _ Ho) as Hbm. apply Forall_cons. split; [|constructor].
    unfold apart in Hbm. simpl in *. lia.
Qed.

(** ** [separated] and [area] *)

Lemma separated_app l k :
  separated (l ++ k) <-> separated l /\ separated k /\ Forall (fun r => Forall (apart r) k) l.
Proof.
  induction l as [|r l IH]; simpl; [rewrite Forall_nil; tauto|].
  rewrite Forall_app, Forall_cons, IH. tauto.
Qed.

#[global] Instance separated_perm : Proper (Permutation ==> iff) separated.
Proof.
  intros l k Hp. induction Hp as [|r l k Hp IH|r r' l|l k o _ IH1 _ IH2]; simpl.
  - done.
  - by rewrite IH, Hp.
  - rewrite !Forall_cons. pose proof (apart_sym r r'). pose proof (apart_sym r' r). tauto.
  - by rewrite IH1.
Qed.

#[global] Instance area_perm s : Proper (Permutation ==> iff) (area s).
Proof. intros l k Hp. unfold area. by rewrite Hp. Qed.

Lemma area_app s l k :
  area s (l ++ k) <-> area s l /\ area s k /\ Forall (fun r => Forall (apart r) k) l.
Proof. unfold area. rewrite Forall_app, separated_app. tauto. Qed.

Lemma area_cons s r l :
  area s (r :: l) <-> owned s r.1 r.2 /\ area s l /\ Forall (apart r) l.
Proof. unfold area. simpl. rewrite Forall_cons. tauto. Qed.

(** What a step keeps of an area: all that is apart from what it touches. *)
Lemma separated_elem rs r r' : separated rs -> r ∈ rs -> r' ∈ rs -> r <> r' -> apart r r'.
Proof.
  intros Hs Hr Hr' Hne. apply elem_of_Permutation in Hr as [rest Hp]. rewrite Hp in Hs, Hr'.
  destruct Hs as [Hs _]. apply elem_of_cons in Hr' as [->|Hr']; [done|].
  by apply (proj1 (Forall_forall _ _) Hs).
Qed.

Lemma area_keeps rs s s' l :
  keeps rs s s' -> Forall (fun r => Forall (apart r) rs) l -> area s l -> area s' l.
Proof.
  intros Hk Hr [Ho Hs]. split; [|done]. apply Forall_forall. intros [a n] Hin.
  apply (kp_owned _ _ _ Hk).
  - by apply (proj1 (Forall_forall _ _) Ho (a, n)).
  - by apply (proj1 (Forall_forall _ _) Hr (a, n)).
Qed.

Lemma area_shrinks s s' l : shrinks s s' -> area s l -> area s' l.
Proof.
  intros Hs [Ho Hsep]. split; [|done]. eapply Forall_impl; [exact Ho|]. intros r. by apply owned_shrinks.
Qed.

Lemma keeps_same rs s s' l :
  keeps rs s s' -> area s l -> Forall (fun r => Forall (apart r) rs) l -> same_bytes l s s'.
Proof.
  intros Hk [Ho _] Hr. apply Forall_forall. intros [a n] Hin b Hb. apply (kp_mem _ _ _ Hk a n); [| |done].
  - by apply (proj1 (Forall_forall _ _) Ho (a, n)).
  - by apply (proj1 (Forall_forall _ _) Hr (a, n)).
Qed.

Lemma same_bytes_trans rs s1 s2 s3 : same_bytes rs s1 s2 -> same_bytes rs s2 s3 -> same_bytes rs s1 s3.
Proof.
  intros H1 H2. apply Forall_forall. intros r Hr b Hb.
  rewrite (proj1 (Forall_forall _ _) H2 r Hr b Hb). by apply (proj1 (Forall_forall _ _) H1 r Hr b).
Qed.

Lemma same_bytes_app rs rs' s s' : same_bytes (rs ++ rs') s s' <-> same_bytes rs s s' /\ same_bytes rs' s s'.
Proof. apply Forall_app. Qed.

Lemma same_bytes_refl rs s : same_bytes rs s s.
Proof. by apply Forall_true. Qed.

Lemma same_bytes_getw rs s s' a n k b :
  same_bytes rs s s' -> (a, n) ∈ rs -> a <= b -> b + Z.of_nat k <= a + n ->
  getw k (k_mem s') b = getw k (k_mem s) b.
Proof.
  intros Hs Hin Hlo Hhi. apply getw_ext. intros c Hc.
  apply (proj1 (Forall_forall _ _) Hs (a, n) Hin). simpl. lia.
Qed.

Lemma area_bitmap s l : area s l -> Forall (apart (bitmap_range s)) l.
Proof. intros [Ho _]. eapply Forall_impl; [exact Ho|]. intros [a n] Hr. apply apart_sym, Hr. Qed.

Lemma Forall_apart_sym r l : Forall (apart r) l <-> Forall (fun r' => Forall (apart r') [r]) l.
Proof.
  split; intros Hf; (eapply Forall_impl; [exact Hf|]); intros r'; simpl.
  - intros Ha. split_aparts. by apply apart_sym.
  - intros Ha. apply Forall_cons in Ha as [Ha _]. by apply apart_sym.
Qed.
End heap_lemmas.

(** ** Decidable checks, for concrete states *)

Section heap_check.
Context `{Platform}.

Definition apartb (r r' : Z * Z) : bool := (r.1 + r.2 <=? r'.1) || (r'.1 + r'.2 <=? r.1).

Definition off_freeb (s : kstate) (a n : Z) : bool :=
  forallb (fun i => frame_used s i || apartb (a, n) (frame_addr s i, PAGE_SIZE))
          (seqZ 0 (total_frames (k_pmm s))).

Definition heap_okb (s : kstate) : bool :=
  let p := k_pmm s in
  pmm_okb s && (mem_phys_base p mod PAGE_SIZE =? 0) &&
  (mem_phys_base p + total_frames p * PAGE_SIZE + 2 ^ 32 <? 2 ^ 64) &&
  forallb (fun i => frame_used s i || valid (frame_addr s i) PAGE_SIZE) (seqZ 0 (total_frames p)) &&
  off_freeb s (bitmap_range s).1 (bitmap_range s).2.

Definition ownedb (s : kstate) (a n : Z) : bool :=
  (0 <? a) && (a + n <=? 2 ^ 64) && valid a n && off_freeb s a n && apartb (a, n) (bitmap_range s).

Fixpoint separatedb (rs : list (Z * Z)) : bool :=
  match rs with
  | [] => true
  | r :: rs' => forallb (apartb r) rs' && separatedb rs'
  end.

Definition areab (s : kstate) (rs : list (Z * Z)) : bool :=
  forallb (fun r => ownedb s r.1 r.2) rs && separatedb rs.

Lemma apartb_ok r r' : apartb r r' = true -> apart r r'.
Proof. unfold apartb, apart. rewrite orb_true_iff, !Z.leb_le. tauto. Qed.

Lemma forallb_ok {A} (f : A -> bool) (P : A -> Prop) l :
  (forall x, f x = true -> P x) -> forallb f l = true -> Forall P l.
Proof. intros Hf Hl. induction l; simpl in *; [done|]. apply andb_true_iff in Hl as [? ?]. auto. Qed.

Lemma forall_frames (f : Z -> bool) s (P : Z -> Prop) :
  (forall i, f i = true -> P i) ->
  forallb (fun i => frame_used s i || f i) (seqZ 0 (total_frames (k_pmm s))) = true ->
  forall i, frame_free s i -> P i.
Proof.
  intros Hf Hb i [Hi Hu]. apply Hf. rewrite forallb_forall in Hb. specialize (Hb i).
  rewrite Hu in Hb. apply Hb, list_elem_of_In, elem_of_seqZ. lia.
Qed.

Lemma off_freeb_ok s a n : off_freeb s a n = true -> off_free s a n.
Proof.
  intros Hb. unfold off_free.
  by apply (forall_frames (fun i => apartb (a, n) (frame_addr s i, PAGE_SIZE)) s);
    [intros i; apply apartb_ok|].
Qed.

Lemma heap_okb_ok s : heap_okb s = true -> heap_ok s.
Proof.
  unfold heap_okb. rewrite !andb_true_iff, Z.ltb_lt, Z.eqb_eq. intros ((((Hp & Ha) & Ht) & Hf) & Hb).
  split; [by apply pmm_okb_ok|by apply Z.mod_divide|done| |by apply off_freeb_ok].
  by apply (forall_frames (fun i => valid (frame_addr s i) PAGE_SIZE) s).
Qed.

Lemma ownedb_ok s a n : ownedb s a n = true -> owned s a n.
Proof.
  unfold ownedb. rewrite !andb_true_iff, Z.ltb_lt, Z.leb_le. intros ((((Hp & Ht) & Hv) & Hf) & Hb).
  split; [done|done|done|by apply off_freeb_ok|by apply apartb_ok].
Qed.

Lemma separatedb_ok rs : separatedb rs = true -> separated rs.
Proof.
  induction rs as [|r rs IH]; simpl; [done|]. intros [Hr Hs]%andb_true_iff.
  split; [|by apply IH]. eapply forallb_ok; [|exact Hr]. intros r'. apply apartb_ok.
Qed.

Lemma areab_ok s rs : areab s rs = true -> area s rs.
Proof.
  unfold areab. rewrite andb_true_iff. intros [Ho Hs]. split; [|by apply separatedb_ok].
  eapply forallb_ok; [|exact Ho]. intros r. apply ownedb_ok.
Qed.
End heap_check.
