(* ===== verification/Slab.v ===== *)
(** * The slab allocator: base/mm/slab.c

    A cache is a [slab_cache_t] in memory; its free objects are chained through
    their own first word, and its frames through a header at their start. *)

From Stdlib Require Import String.
From S2P Require Import Prelude Machine Logic Console Boards Sync Boot Pmm Heap.

#[local] Open Scope string_scope.
#[local] Open Scope list_scope.
#[local] Open Scope Z_scope.

(** Offsets in [slab_cache_t] and sizes of the structs of include/mm/mm.hpp. *)
Definition off_obj_size : Z := 0.
Definition off_slabs : Z := 8.
Definition off_head : Z := 16.     (* free_objects.head *)
Definition off_lock : Z := 24.
Definition sizeof_slab_cache : Z := 32.
Definition sizeof_frame : Z := 16. (* { phys_addr; next } *)
Definition sizeof_free_node : Z := 8.
Definition alignof_ptr : Z := 8.

Section slab.
Context `{Platform}.

(** ** Operations *)

(** The carving loop of [slab_grow]: from [start], an object at each step. *)
Definition carve_loop (cache start end_ : Z) : M unit :=
  while (fun ptr =>
           obj_size <- load64 (cache + off_obj_size) ;;
           if wrap64 (ptr + obj_size) <=? end_ then
             head <- load64 (cache + off_head) ;;
             store64 ptr head ;;
             store64 (cache + off_head) ptr ;;
             obj_size <- load64 (cache + off_obj_size) ;;
             ret (inl (wrap64 (ptr + obj_size)))
           else ret (inr tt)) start.

Definition slab_grow (cache : Z) : M unit :=
  phys <- pmm_alloc_frame ;;
  if phys =? 0 then panic "mm" "slab_grow: out of physical memory" []
  else
    let virt := phys in
    store64 virt phys ;;
    slabs <- load64 (cache + off_slabs) ;;
    store64 (virt + 8) slabs ;;
    store64 (cache + off_slabs) virt ;;
    let start := ALIGN_UP (wrap64 (virt + sizeof_frame)) alignof_ptr in
    let end_ := wrap64 (virt + PAGE_SIZE) in
    carve_loop cache start end_.

Definition slab_alloc (cache : Z) : M Z :=
  if cache =? 0 then ret 0
  else
    spin_lock (cache + off_lock) ;;
    head <- load64 (cache + off_head) ;;
    when (head =? 0) (slab_grow cache) ;;
    node <- load64 (cache + off_head) ;;
    when (negb (node =? 0)) (
      next <- load64 node ;;
      store64 (cache + off_head) next) ;;
    spin_unlock (cache + off_lock) ;;
    ret node.

Definition slab_free (cache obj : Z) : M unit :=
  if (cache =? 0) || (obj =? 0) then ret tt
  else
    spin_lock (cache + off_lock) ;;
    head <- load64 (cache + off_head) ;;
    store64 obj head ;;
    store64 (cache + off_head) obj ;;
    spin_unlock (cache + off_lock).

(** Writing the four fields of a fresh [slab_cache_t]. *)
Definition init_cache (cache obj_size : Z) : M unit :=
  store64 (cache + off_obj_size) obj_size ;;
  store64 (cache + off_slabs) 0 ;;
  store64 (cache + off_head) 0 ;;
  spin_lock_init (cache + off_lock).

Definition slab_cache_create (obj_size : Z) : M Z :=
  let obj_size := if obj_size <? sizeof_free_node then sizeof_free_node else obj_size in
  let obj_size := ALIGN_UP obj_size alignof_ptr in
  ready <- gets cache_meta_initialized ;;
  when (negb ready) (
    init_cache cache_metadata_cache sizeof_slab_cache ;;
    modify (fun s => set_slab s true)) ;;
  cache <- slab_alloc cache_metadata_cache ;;
  if cache =? 0 then ret 0
  else
    init_cache cache obj_size ;;
    ret cache.

(** [l] is the chain of free objects starting at [p]. *)
Fixpoint freelist (m : memory) (p : Z) (l : list Z) : Prop :=
  match l with
  | [] => p = 0
  | x :: l' => p = x /\ x <> 0 /\ freelist m (get64 m x) l'
  end.

(** How many objects a frame gives. *)
Definition per_frame (sz : Z) : Z := (PAGE_SIZE - sizeof_frame) / sz.

(** The objects carved from [start], the last one first. *)
Fixpoint carve (start sz : Z) (n : nat) : list Z :=
  match n with
  | O => []
  | S n' => (start + Z.of_nat n' * sz) :: carve start sz n'
  end.

(** ** Caches in memory *)

(** A cache as its clients see it: where it is, the size of its objects and
    the objects that are free, the next one to be handed out first. *)
Record cache_t := mkCache { c_addr : Z; c_size : Z; c_free : list Z }.

(** The memory a cache keeps for itself. *)
Definition cells (c : cache_t) : list (Z * Z) :=
  (c_addr c, sizeof_slab_cache) :: map (fun x => (x, c_size c)) (c_free c).

Record cache_core (s : kstate) (c : cache_t) : Prop := {
  cc_size : get64 (k_mem s) (c_addr c + off_obj_size) = c_size c;
  cc_bounds : 8 <= c_size c < 2 ^ 32;
  cc_list : freelist (k_mem s) (get64 (k_mem s) (c_addr c + off_head)) (c_free c)
}.

Definition cache_ok (s : kstate) (c : cache_t) : Prop :=
  cache_core s c /\ get32 (k_mem s) (c_addr c + off_lock) = 0.

(** The free objects of the cache at [c], as its memory has them. *)
Definition free_objects (s : kstate) (c : Z) (l : list Z) : Prop :=
  freelist (k_mem s) (get64 (k_mem s) (c + off_head)) l.

(** The kernel's dynamic memory: the caches [cs] with their free objects, and
    the ranges [live] in use by the rest of the kernel, do not overlap. *)
Record heap (s : kstate) (cs : list cache_t) (live : list (Z * Z)) : Prop := {
  hp_ok : heap_ok s;
  hp_area : area s ((cs ≫= cells) ++ live);
  hp_caches : Forall (cache_ok s) cs
}.

(** The same with the lock of the first cache at [k]. *)
Record locked (k : Z) (s : kstate) (c : cache_t) (cs : list cache_t) (live : list (Z * Z)) : Prop := {
  lk_ok : heap_ok s;
  lk_area : area s (cells c ++ (cs ≫= cells) ++ live);
  lk_core : cache_core s c;
  lk_lock : get32 (k_mem s) (c_addr c + off_lock) = k;
  lk_rest : Forall (cache_ok s) cs
}.
End slab.

Ltac unfold_sizes ::=
  unfold off_obj_size, off_slabs, off_head, off_lock, sizeof_slab_cache, sizeof_frame,
    sizeof_free_node, alignof_ptr, PAGE_SIZE in *.

Section slab_lemmas.
Context `{Platform}.

Lemma freelist_mods rs m m' p l :
  mods rs m m' -> Forall (fun x => Forall (apart (x, 8)) rs) l -> freelist m p l -> freelist m' p l.
Proof.
  intros Hm. revert p. induction l as [|x l IH]; intros p Hl Hf; simpl in *; [done|].
  apply Forall_cons in Hl as [Hx Hl]. destruct Hf as (-> & Hx0 & Hf).
  split; [done|]. split; [done|]. rewrite (mods_getw rs 8 m) by done. by apply IH.
Qed.

(** ** Carving *)

Lemma elem_of_carve start sz n x :
  x ∈ carve start sz n -> exists j, 0 <= j < Z.of_nat n /\ x = start + j * sz.
Proof.
  induction n as [|n IH]; simpl; [by intros ?%elem_of_nil|].
  intros [->|Hx]%elem_of_cons; [exists (Z.of_nat n); lia|].
  destruct (IH Hx) as (j & Hj & ->). exists j. lia.
Qed.

Lemma length_carve start sz n : length (carve start sz n) = n.
Proof. induction n; simpl; by f_equal. Qed.

Lemma carve_separated start sz n :
  0 < sz -> separated (map (fun x => (x, sz)) (carve start sz n)).
Proof.
  intros Hsz. induction n as [|n IH]; simpl; [done|]. split; [|done].
  rewrite Forall_map. apply Forall_forall. intros y Hy.
  apply elem_of_carve in Hy as (j & Hj & ->). unfold apart; simpl. nia.
Qed.

(** The objects of a frame lie in it, after its header. *)
Lemma carve_area s start sz n len :
  0 < sz -> owned s start len -> Z.of_nat n * sz <= len ->
  area s (map (fun x => (x, sz)) (carve start sz n)) /\
  forall r, apart r (start, len) -> Forall (apart r) (map (fun x => (x, sz)) (carve start sz n)).
Proof.
  intros Hsz Ho Hn.
  assert (Hin : forall x, x ∈ carve start sz n -> start <= x /\ x + sz <= start + len).
  { intros x Hx. apply elem_of_carve in Hx as (j & Hj & ->). nia. }
  split; [split; [|by apply carve_separated]|].
  - rewrite Forall_map. apply Forall_forall. intros x [Hx1 Hx2]%Hin.
    by eapply owned_sub; [exact Ho|simpl..].
  - intros r Hr. rewrite Forall_map. apply Forall_forall. intros x [Hx1 Hx2]%Hin.
    unfold apart in *; simpl in *; lia.
Qed.

(** ** The heap under updates *)

Lemma heap_locked s c cs live : heap s (c :: cs) live <-> locked 0 s c cs live.
Proof.
  split.
  - intros [Hok Ha Hc]. apply Forall_cons in Hc as [[Hc Hl] Hcs]. rewrite bind_cons, <- app_assoc in Ha.
    by split.
  - intros [Hok Ha Hc Hl Hcs]. split; [done|by rewrite bind_cons, <- app_assoc|by apply Forall_cons].
Qed.

#[global] Instance heap_perm s : Proper (Permutation ==> Permutation ==> iff) (heap s).
Proof.
  assert (Hp : forall cs cs' live live', cs ≡ₚ cs' -> live ≡ₚ live' -> heap s cs live -> heap s cs' live').
  { intros cs cs' live live' Hcs Hl [Hok Ha Hc]. split; [done|by rewrite <- Hcs, <- Hl|by rewrite <- Hcs]. }
  intros cs cs' Hcs live live' Hl. split; apply Hp; auto using Permutation_sym.
Qed.

(** A cache is untouched by a step that keeps away from its cells. *)
Lemma cache_ok_keeps rs s s' c :
  keeps rs s s' -> area s (cells c) -> Forall (fun r => Forall (apart r) rs) (cells c) ->
  cache_ok s c -> cache_ok s' c.
Proof.
  intros Hk Ha Hr [[Hsz Hb Hl] Hlk]. unfold cells in *.
  apply area_cons in Ha as (Hco & [Hfo _] & _). apply Forall_cons in Hr as [Hcr Hfr]. simpl in Hco.
  assert (Hget : forall n a, c_addr c <= a -> a + Z.of_nat n <= c_addr c + 32 ->
            getw n (k_mem s') a = getw n (k_mem s) a).
  { intros n a H1 H2. eapply keeps_getw; [exact Hk|by eapply owned_sub|].
    eapply Forall_impl; [exact Hcr|]. intros r Hr. by eapply apart_sub. }
  unfold cache_ok. unfold_sizes. rewrite !(Hget 4%nat) by lia. split; [|done].
  split; unfold_sizes; [by rewrite (Hget 8%nat) by lia|done|]. rewrite (Hget 8%nat) by lia.
  clear Hsz Hlk Hcr Hget. revert Hl Hfo Hfr. generalize (get64 (k_mem s) (c_addr c + 16)) as p.
  induction (c_free c) as [|x l IH]; intros p Hl Hfo Hfr; simpl in *; [done|].
  destruct Hl as (-> & Hx & Hl). apply Forall_cons in Hfo as [Hxo Hfo].
  apply Forall_cons in Hfr as [Hxr Hfr]. split; [done|]. split; [done|].
  rewrite (keeps_getw rs 8 s s' x Hk).
  - by apply IH.
  - eapply owned_sub; [exact Hxo|simpl; lia|simpl; lia].
  - eapply Forall_impl; [exact Hxr|]. intros r Hr. eapply apart_sub; [exact Hr|lia|simpl; lia].
Qed.

Lemma caches_keep rs s s' cs :
  keeps rs s s' -> area s (cs ≫= cells) -> Forall (fun r => Forall (apart r) rs) (cs ≫= cells) ->
  Forall (cache_ok s) cs -> Forall (cache_ok s') cs.
Proof.
  intros Hk. induction cs as [|c cs IH]; intros Ha Hr Hc; [done|].
  rewrite bind_cons in *. apply area_app in Ha as (Ha & Has & _).
  apply Forall_app in Hr as [Hr Hrs]. apply Forall_cons in Hc as [Hc Hcs].
  apply Forall_cons. split; [by eapply cache_ok_keeps|by apply IH].
Qed.

(** A step that touches only ranges the heap does not use. *)
Lemma heap_keeps rs s s' cs live :
  keeps rs s s' -> Forall (fun r => Forall (apart r) rs) ((cs ≫= cells) ++ live) ->
  heap s cs live -> heap s' cs live.
Proof.
  intros Hk Hr [Hok Ha Hc]. split; [by apply Hk|by eapply area_keeps|].
  apply Forall_app in Hr as [Hr _]. apply area_app in Ha as (Ha & _ & _). by eapply caches_keep.
Qed.

(** Memory in use is apart from everything else of the heap. *)
Lemma heap_live_apart s cs r live :
  heap s cs (r :: live) -> owned s r.1 r.2 /\ Forall (apart r) ((cs ≫= cells) ++ live).
Proof.
  intros [_ Ha _]. rewrite <- Permutation_middle in Ha. apply area_cons in Ha as (Ho & _ & Hr). done.
Qed.

(** Writing to memory in use. *)
Lemma heap_write s cs x n live m :
  heap s cs ((x, n) :: live) -> mods [(x, n)] (k_mem s) m ->
  heap (set_mem s m) cs ((x, n) :: live) /\ keeps [(x, n)] s (set_mem s m).
Proof.
  intros Hh Hm. destruct (heap_live_apart _ _ _ _ Hh) as [Ho Hr]. destruct Hh as [Hok Ha Hc].
  assert (Hb : Forall (apart (bitmap_range s)) [(x, n)]) by (split_aparts; apply apart_sym, Ho).
  assert (Hk : keeps [(x, n)] s (set_mem s m)) by (apply keeps_set_mem; [apply Hok|done|done]).
  split; [|done]. split; [by apply Hk|eapply area_shrinks; [by eapply shrinks_set_mem|done]|].
  apply Forall_app in Hr as [Hr _]. apply area_app in Ha as (Ha & _ & _).
  eapply caches_keep; [exact Hk|exact Ha|by apply Forall_apart_sym|exact Hc].
Qed.

(** The ranges [rs] lie in memory in use. *)
Definition within (rs live : list (Z * Z)) : Prop :=
  Forall (fun r => exists x n, (x, n) ∈ live /\ x <= r.1 /\ r.1 + r.2 <= x + n) rs.

Lemma within_apart live rs r : Forall (apart r) live -> within rs live -> Forall (apart r) rs.
Proof.
  intros Hr Hw. eapply Forall_impl; [exact Hw|]. intros [a k] (x & n & Hin & H1 & H2). simpl in *.
  apply (proj1 (Forall_forall _ _) Hr) in Hin. apply apart_sym. apply apart_sym in Hin. by eapply apart_sub.
Qed.

(** Writing in several places of the memory in use. *)
Lemma heap_writes s cs live rs m :
  heap s cs live -> within rs live -> mods rs (k_mem s) m ->
  heap (set_mem s m) cs live /\ keeps rs s (set_mem s m).
Proof.
  intros [Hok Ha Hc] Hw Hm.
  assert (Hb : Forall (apart (bitmap_range s)) rs).
  { apply (within_apart live); [|done]. apply area_bitmap. by apply area_app in Ha as (_ & Ha & _). }
  assert (Hk : keeps rs s (set_mem s m)) by (apply keeps_set_mem; [apply Hok|done|done]).
  split; [|done]. split; [by apply Hk|eapply area_shrinks; [by eapply shrinks_set_mem|done]|].
  apply area_app in Ha as (Ha & _ & Hap). eapply caches_keep; [exact Hk|exact Ha| |exact Hc].
  eapply Forall_impl; [exact Hap|]. intros r Hr. eapply within_apart; [exact Hr|exact Hw].
Qed.

(** What is in use is owned, and its pieces are apart. *)
Lemma heap_owned s cs live r : heap s cs live -> r ∈ live -> owned s r.1 r.2.
Proof.
  intros [_ Ha _] Hr. apply area_app in Ha as (_ & [Ho _] & _). by apply (proj1 (Forall_forall _ _) Ho).
Qed.

Lemma heap_apart s cs live r r' : heap s cs live -> r ∈ live -> r' ∈ live -> r <> r' -> apart r r'.
Proof. intros [_ Ha _]. apply area_app in Ha as (_ & [_ Hs] & _). by apply separated_elem. Qed.

(** Memory in use can be looked at in smaller pieces. *)
Lemma heap_split_within s cs rs live ps :
  heap s cs (rs ++ live) -> separated ps -> within ps rs -> heap s cs (ps ++ live).
Proof.
  intros [Hok Ha Hc] Hs Hin. split; [done| |done].
  apply area_app in Ha as (Hcs & Ha & Hap). apply area_app in Ha as (Hrs & Hl & Hrl).
  assert (Hps : forall r r', r ∈ ps -> Forall (apart r') rs -> apart r r').
  { intros [a k] r' Hk Hap'. apply (proj1 (Forall_forall _ _) Hin) in Hk as (x & n & Hx & H1 & H2).
    apply (proj1 (Forall_forall _ _) Hap') in Hx. eapply apart_sub; [by apply apart_sym|done|done]. }
  apply area_app. split; [done|]. split.
  - apply area_app. split; [split; [|done]|split; [done|]].
    + eapply Forall_impl; [exact Hin|]. intros [a k] (x & n & Hx & H1 & H2).
      destruct Hrs as [Ho _]. apply (proj1 (Forall_forall _ _) Ho) in Hx. by eapply owned_sub.
    + apply Forall_forall. intros r Hr. apply Forall_forall. intros r' Hr'. apply (Hps r r' Hr).
      eapply Forall_impl; [exact Hrl|]. intros r'' Hr''. apply apart_sym.
      by apply (proj1 (Forall_forall _ _) Hr'').
  - eapply Forall_impl; [exact Hap|]. intros r Hr. apply Forall_app in Hr as [Hr Hr']. apply Forall_app.
    split; [|done]. apply Forall_forall. intros r' Hr''. by apply apart_sym, Hps.
Qed.

Lemma heap_split s cs x n live ps :
  heap s cs ((x, n) :: live) -> separated ps -> Forall (fun r => x <= r.1 /\ r.1 + r.2 <= x + n) ps ->
  heap s cs (ps ++ live).
Proof.
  intros Hh Hs Hin. apply (heap_split_within s cs [(x, n)]); [done|done|].
  eapply Forall_impl; [exact Hin|]. intros r Hr. exists x, n. split; [by left|done].
Qed.

(** A free frame becomes memory in use. *)
Lemma heap_take s cs live i :
  heap s cs live -> frame_free s i ->
  heap (taken s i) cs ((frame_addr s i, PAGE_SIZE) :: live) /\ keeps [] s (taken s i).
Proof.
  intros [Hok Ha Hc] Hf. pose proof (keeps_taken s i (ho_pmm _ Hok) Hf) as Hk.
  assert (Hap : Forall (apart (frame_addr s i, PAGE_SIZE)) ((cs ≫= cells) ++ live)).
  { destruct Ha as [Ho _]. eapply Forall_impl; [exact Ho|]. intros [a n] Hr.
    apply apart_sym. by apply owned_apart_frame. }
  split; [|done]. split; [by apply Hk| |].
  - rewrite <- Permutation_middle. apply area_cons. split; [by apply owned_taken|].
    split; [eapply area_shrinks; [by apply shrinks_taken|done]|done].
  - apply area_app in Ha as (Ha & _ & _). eapply caches_keep; [exact Hk|exact Ha| |exact Hc].
    apply Forall_forall. by constructor.
Qed.

(** A frame of memory in use is given back. *)
Lemma heap_release s cs live i :
  heap s cs ((frame_addr s i, PAGE_SIZE) :: live) -> 0 <= i < total_frames (k_pmm s) ->
  heap (released s i) cs live /\ keeps [(frame_addr s i, PAGE_SIZE)] s (released s i).
Proof.
  intros Hh Hi. destruct (heap_live_apart _ _ _ _ Hh) as [Ho Hr]. simpl in Ho.
  destruct Hh as [Hok Ha Hc]. pose proof (keeps_released s i Hi Ho) as Hk.
  rewrite <- Permutation_middle in Ha. apply area_cons in Ha as (_ & Ha & _).
  split; [|done]. apply Forall_apart_sym in Hr as Hr'. split; [by apply Hk|by eapply area_keeps|].
  apply area_app in Ha as (Ha & _ & _). apply Forall_app in Hr' as [Hr' _]. by eapply caches_keep.
Qed.

(** A frame of memory in use is not free. *)
Lemma heap_frame_used s cs live i :
  heap s cs ((frame_addr s i, PAGE_SIZE) :: live) -> 0 <= i < total_frames (k_pmm s) ->
  frame_used s i = true.
Proof.
  intros Hh Hi. destruct (heap_live_apart _ _ _ _ Hh) as [Ho _]. simpl in Ho.
  destruct (frame_used s i) eqn:Hu; [done|].
  destruct (ow_off _ _ _ Ho i) as [Hb|Hb]; [done|..]; simpl in Hb; unfold PAGE_SIZE in *; lia.
Qed.

(** The heap is a matter of memory and of the frame allocator. *)
Lemma heap_same s s' cs live :
  k_mem s' = k_mem s -> k_pmm s' = k_pmm s -> heap s cs live -> heap s' cs live.
Proof.
  intros Hm Hp [Hok Ha Hc]. pose proof (shrinks_same s s' Hm Hp) as Hs. split.
  - eapply heap_ok_shrinks; [done| |done]. eapply pmm_ok_same; [done|done|apply Hok].
  - by eapply area_shrinks.
  - eapply Forall_impl; [exact Hc|]. intros c [[]?]. split; [split|]; by rewrite ?Hm.
Qed.
End slab_lemmas.

Section slab_ops.
Context `{Console}.

(** The carving loop threads [n = (4096 - 16) / sz] objects onto the free
    list, writing only the frame's body and the list head. *)
Lemma wp_carve_loop s c f sz l (Q : unit -> kstate -> Prop) E :
  valid c 32 = true -> valid f 4096 = true -> apart (c, 32) (f, 4096) -> 0 < f ->
  get64 (k_mem s) c = sz -> 8 <= sz -> f + 4096 + sz < 2 ^ 64 ->
  freelist (k_mem s) (get64 (k_mem s) (c + 16)) l ->
  Forall (fun x => apart (x, 8) (f, 4096) /\ apart (x, 8) (c, 32)) l ->
  (forall m, mods [(f + 16, 4080); (c + 16, 8)] (k_mem s) m ->
     freelist m (get64 m (c + 16)) (carve (f + 16) sz (Z.to_nat (4080 / sz)) ++ l) ->
     Q tt (set_mem s m)) ->
  wp (carve_loop c (f + 16) (f + 4096)) s Q E.
Proof.
  intros Hc Hf Hcf Hf0 Hsz Hsz8 Htop Hl Hla HQ. unfold carve_loop.
  set (n := Z.to_nat (4080 / sz)) in *.
  assert (Hn : Z.of_nat n * sz <= 4080 < Z.of_nat n * sz + sz).
  { unfold n. rewrite Z2Nat.id by (apply Z.div_pos; lia).
    pose proof (Z.div_mod 4080 sz). pose proof (Z.mod_pos_bound 4080 sz). lia. }
  apply (wp_while (fun k ptr s' => exists j m, (k + j = n)%nat /\ ptr = f + 16 + Z.of_nat j * sz /\
    s' = set_mem s m /\ mods [(f + 16, 4080); (c + 16, 8)] (k_mem s) m /\
    freelist m (get64 m (c + 16)) (carve (f + 16) sz j ++ l)) n).
  - nia.
  - exists O, (k_mem s). rewrite set_mem_id. split; [lia|]. split; [lia|]. split; [done|].
    split; [apply mods_refl|done].
  - intros k ptr s' (j & m & Hk & -> & -> & Hm & Hfl). unfold_sizes.
    assert (Hszm : get64 m (c + 0) = sz).
    { rewrite Z.add_0_r, <- Hsz. eapply mods_getw; [exact Hm|solve_aparts]. }
    apply wp_bind, wp_load; [solve_valid|]. simpl. rewrite Hszm.
    rewrite wrap64_small by (unfold u64; nia).
    destruct (Z.leb_spec (f + 16 + Z.of_nat j * sz + sz) (f + 4096)) as [Hle|Hgt].
    + assert (j < n)%nat by nia.
      wp_steps. set (ptr := f + 16 + Z.of_nat j * sz) in *.
      assert (Hptr : f + 16 <= ptr /\ ptr + 8 <= f + 4096) by (unfold ptr; nia).
      set (m1 := put64 m ptr (get64 m (c + 16))). set (m2 := put64 m1 (c + 16) ptr).
      assert (Hm2 : mods [(ptr, 8); (c + 16, 8)] m m2).
      { apply (mods_trans [(ptr, 8)] [(c + 16, 8)] m m1 m2); apply (mods_putw 8). }
      assert (Hobj : get64 m2 (c + 0) = sz).
      { rewrite <- Hszm. eapply mods_getw; [exact Hm2|solve_aparts]. }
      rewrite Hobj, wrap64_small by (unfold u64; nia).
      exists (k - 1)%nat. split; [lia|]. exists (S j), m2.
      split; [lia|]. split; [unfold ptr; lia|]. split; [done|]. split.
      * eapply mods_step; [exact Hm|]. intros b Hb.
        apply outside_cons in Hb as [Hb1 [Hb2 _]%outside_cons].
        apply Hm2. apply outside_cons. split; [lia|]. apply outside_cons. split; [lia|constructor].
      * simpl. fold ptr. unfold m2 at 1. rewrite (getw_putw 8) by (simpl; unfold ptr; nia).
        split; [done|]. split; [lia|].
        unfold m2. rewrite (getw_putw_ne 8 8) by solve_apart.
        replace (get64 m1 ptr) with (get64 m (c + 16))
          by (symmetry; apply (getw_putw 8), (getw_range 8)). fold m2.
        eapply (freelist_mods _ m); [exact Hm2| |exact Hfl].
        apply Forall_app. split.
        -- apply Forall_forall. intros x Hx. apply elem_of_carve in Hx as (i & Hi & ->).
           assert ((i + 1) * sz <= Z.of_nat j * sz) by (apply Z.mul_le_mono_nonneg_r; lia).
           unfold ptr; solve_aparts.
        -- eapply Forall_impl; [exact Hla|]. intros x [Hx1 Hx2]. solve_aparts.
    + apply wp_ret. assert (j = n) as -> by nia. by apply HQ.
Qed.

(** The facts about the locked cache the steps use. *)
Lemma locked_facts k s c cs live :
  locked k s c cs live ->
  pmm_ok s /\ owned s (c_addr c) 32 /\ apart (bitmap_range s) (c_addr c, 32) /\
  Forall (fun r => Forall (apart r) [(c_addr c, 32)]) ((cs ≫= cells) ++ live) /\
  Forall (fun x => owned s x (c_size c) /\ apart (x, c_size c) (c_addr c, 32)) (c_free c).
Proof.
  intros [Hok Ha Hc Hl Hcs]. unfold cells at 1 in Ha. simpl in Ha.
  apply area_cons in Ha as (Ho & Ha & Hap). simpl in Ho. unfold_sizes.
  split; [apply Hok|]. split; [done|]. split; [apply apart_sym, Ho|].
  apply Forall_app in Hap as [Hap1 Hap2]. split; [by apply Forall_apart_sym|].
  apply area_app in Ha as ((Hf & _) & _ & _). rewrite Forall_map in Hf, Hap1.
  apply Forall_forall. intros x Hx. split.
  - by apply (proj1 (Forall_forall _ _) Hf x).
  - apply apart_sym. by apply (proj1 (Forall_forall _ _) Hap1 x).
Qed.

(** ** slab_grow *)

(** What growing needs of the cache, whose lock is held. *)
Record grow_pre (s : kstate) (c sz : Z) (l : list Z) : Prop := {
  gp_heap : heap_ok s;
  gp_cache : owned s c 32;
  gp_size : get64 (k_mem s) c = sz;
  gp_bounds : 8 <= sz < 2 ^ 32;
  gp_list : freelist (k_mem s) (get64 (k_mem s) (c + 16)) l;
  gp_objs : Forall (fun x => owned s x sz /\ apart (x, sz) (c, 32)) l
}.

Lemma grow_pre_locked k s c cs live :
  locked k s c cs live -> grow_pre s (c_addr c) (c_size c) (c_free c).
Proof.
  intros Hlk. destruct (locked_facts _ _ _ _ _ Hlk) as (_ & Ho & _ & _ & Hobj).
  destruct (lk_core _ _ _ _ _ Hlk) as [Hsz Hb Hl]. split; try done; [apply Hlk|].
  by rewrite <- Hsz, Z.add_0_r.
Qed.

(** The state after growing by frame [i]: the frame is taken, and only it and
    the list heads of the cache are written. *)
Definition grown (s : kstate) (c sz : Z) (l : list Z) (i : Z) (s' : kstate) : Prop :=
  exists m, s' = set_mem (taken s i) m /\
    mods [(frame_addr s i, PAGE_SIZE); (c + 8, 16)] (k_mem (taken s i)) m /\
    freelist m (get64 m (c + 16)) (carve (frame_addr s i + 16) sz (Z.to_nat (per_frame sz)) ++ l).

Lemma frame_align s i : heap_ok s -> frame_free s i ->
  ALIGN_UP (frame_addr s i + 16) 8 = frame_addr s i + 16 /\
  0 < frame_addr s i /\ frame_addr s i + PAGE_SIZE + 2 ^ 32 < 2 ^ 64.
Proof.
  intros [[_ Hb0 _ _ _ _] [q Hq] Ht _ _] [Hi _].
  assert (Hlo : 0 < frame_addr s i) by (unfold frame_addr, PAGE_SIZE in *; lia).
  assert (Hhi : frame_addr s i + PAGE_SIZE + 2 ^ 32 < 2 ^ 64) by (unfold frame_addr, PAGE_SIZE in *; lia).
  split; [|done]. unfold PAGE_SIZE in *.
  change 8 with (2 ^ 3) at 1. rewrite ALIGN_UP_eq by lia. change (2 ^ 3) with 8.
  unfold frame_addr in *. rewrite Hq in *. unfold PAGE_SIZE in *. Z.div_mod_to_equations; lia.
Qed.

Lemma wp_slab_grow s c sz l (Q : unit -> kstate -> Prop) (E : kstate -> Prop) :
  grow_pre s c sz l ->
  (forall i s', frame_free s i -> next_fit s = Some i -> grown s c sz l i s' -> Q tt s') ->
  (free_set s = ∅ \/ free_frames (k_pmm s) = 0 -> forall t, E (set_io s t)) ->
  wp (slab_grow c) s Q E.
Proof.
  intros [Hok Hc Hsz Hb Hl Hobjs] HQ HE. unfold slab_grow. apply wp_bind.
  apply wp_alloc_frame; [apply Hok| |intros He; simpl; wp_print; auto|auto].
  intros i Hf Hn. destruct (frame_align s i Hok Hf) as (Hal & Hf0 & Htop).
  set (f := frame_addr s i) in *. rewrite (proj2 (Z.eqb_neq _ _)) by lia.
  pose proof (owned_taken s i Hok Hf) as Hfr. fold f in Hfr.
  pose proof (owned_apart_frame s i _ _ Hc Hf) as Hcf. fold f in Hcf.
  pose proof (ow_valid _ _ _ Hc) as Hvc. pose proof (ow_valid _ _ _ Hfr) as Hvf.
  set (st := taken s i) in *.
  assert (Hmt : mods [bitmap_range s] (k_mem s) (k_mem st)) by (apply mark_mods, Hf).
  unfold_sizes. wp_steps. rewrite !wrap64_small by (unfold u64; lia). rewrite Hal.
  match goal with |- wp _ (set_mem _ ?mm) _ _ => set (m3 := mm) end.
  assert (Hm3 : mods [(f, 16); (c + 8, 8)] (k_mem st) m3).
  { intros b [Hb1 [Hb2 _]%outside_cons]%outside_cons. unfold m3.
    rewrite !get8_putw, !decide_False by lia. done. }
  assert (Hkeep : forall n a, Forall (apart (a, Z.of_nat n)) [(f, 16); (c + 8, 8); bitmap_range s] ->
            getw n m3 a = getw n (k_mem s) a).
  { intros n a Ha. apply (mods_getw (bitmap_range s :: [(f, 16); (c + 8, 8)])).
    - apply (mods_trans [bitmap_range s] _ (k_mem s) (k_mem st) m3); [exact Hmt|exact Hm3].
    - apply Forall_cons in Ha as [? Ha]. apply Forall_cons in Ha as [? Ha].
      apply Forall_cons in Ha as [? _]. by split_aparts. }
  pose proof (ow_bitmap _ _ _ Hc) as Hcb.
  apply (wp_carve_loop (set_mem st m3) c f sz l); simpl; try done; try lia.
  - rewrite (Hkeep 8%nat) by (split_aparts; try solve_apart; by eapply apart_sub; [exact Hcb|lia|lia]). done.
  - rewrite (Hkeep 8%nat) by (split_aparts; try solve_apart; by eapply apart_sub; [exact Hcb|lia|lia]).
    eapply (freelist_mods (bitmap_range s :: [(f, 16); (c + 8, 8)]) (k_mem s)); [| |exact Hl].
    + apply (mods_trans [bitmap_range s] _ (k_mem s) (k_mem st) m3); [exact Hmt|exact Hm3].
    + eapply Forall_impl; [exact Hobjs|]. intros x [Hx1 Hx2].
      pose proof (owned_apart_frame s i _ _ Hx1 Hf) as Hxf. fold f in Hxf.
      pose proof (ow_bitmap _ _ _ Hx1). solve_aparts.
  - eapply Forall_impl; [exact Hobjs|]. intros x [Hx1 Hx2].
    pose proof (owned_apart_frame s i _ _ Hx1 Hf) as Hxf. fold f in Hxf. split; solve_apart.
  - intros m Hm Hfl. rewrite set_mem_mem. apply (HQ i); [done|done|]. exists m.
    split; [done|]. fold f. split; [|exact Hfl].
    intros b [Hb1 [Hb2 _]%outside_cons]%outside_cons. simpl in *. unfold_sizes.
    rewrite <- (Hm3 b) by (apply outside_cons; split; [lia|apply outside_cons; split; [lia|constructor]]).
    apply Hm. apply outside_cons; split; [lia|]. apply outside_cons; split; [lia|constructor].
Qed.

(** ** What each step does to the heap *)

Lemma locked_set k k' s c c' cs live live' rs m :
  locked k s c cs live -> mods rs (k_mem s) m ->
  Forall (apart (bitmap_range s)) rs -> Forall (fun r => Forall (apart r) rs) (cs ≫= cells) ->
  cells c ++ live ≡ₚ cells c' ++ live' ->
  cache_core (set_mem s m) c' -> get32 m (c_addr c' + off_lock) = k' ->
  locked k' (set_mem s m) c' cs live' /\ keeps rs s (set_mem s m).
Proof.
  intros [Hok Ha _ _ Hcs] Hm Hb Hr Hp Hc' Hl'.
  assert (Hk : keeps rs s (set_mem s m)) by (apply keeps_set_mem; [apply Hok|done|done]).
  split; [|done]. split; [by eapply heap_ok_set_mem| |done|done|].
  - eapply area_shrinks; [by eapply shrinks_set_mem|]. rewrite (Permutation_app_comm (cs ≫= cells) live') .
    rewrite (Permutation_app_comm (cs ≫= cells) live), !app_assoc in *. by rewrite <- Hp.
  - eapply caches_keep; [exact Hk| |exact Hr|exact Hcs].
    apply area_app in Ha as (_ & Ha & _). by apply area_app in Ha as (Ha & _ & _).
Qed.

Lemma set_lock_step k k' s c cs live :
  u32 k' -> locked k s c cs live ->
  let s' := set_mem s (put32 (k_mem s) (c_addr c + off_lock) k') in
  locked k' s' c cs live /\ keeps [(c_addr c, 32)] s s'.
Proof.
  intros Hk' Hlk s'. pose proof Hlk as [Hok Ha [Hsz Hb Hl] _ _].
  destruct (locked_facts _ _ _ _ _ Hlk) as (Hp & Ho & Hbm & Hr & Hobj).
  apply Forall_app in Hr as [Hr _]. unfold s'. unfold_sizes.
  apply (locked_set k _ s c c cs live); try done.
  - by eapply mods_put_in; [left|lia|simpl; lia].
  - by split_aparts.
  - split; unfold_sizes; simpl; [|done|].
    + by rewrite (getw_putw_ne 4 8) by (simpl; lia).
    + rewrite (getw_putw_ne 4 8) by (simpl; lia).
      eapply freelist_mods; [apply (mods_putw 4)| |exact Hl].
      eapply Forall_impl; [exact Hobj|]. intros x [Hx1 Hx2]. solve_aparts.
  - apply (getw_putw 4), Hk'.
Qed.

(** Taking the first free object. *)
Lemma pop_step k s a sz x l cs live :
  locked k s (mkCache a sz (x :: l)) cs live ->
  let s' := set_mem s (put64 (k_mem s) (a + off_head) (get64 (k_mem s) x)) in
  locked k s' (mkCache a sz l) cs ((x, sz) :: live) /\ keeps [(a, 32)] s s'.
Proof.
  intros Hlk s'. pose proof Hlk as [Hok Ha [Hsz Hb Hl] Hlock _].
  destruct (locked_facts _ _ _ _ _ Hlk) as (Hp & Ho & Hbm & Hr & Hobj). simpl in *.
  apply Forall_app in Hr as [Hr _]. destruct Hl as (_ & _ & Hl). unfold s'. unfold_sizes.
  apply Forall_cons in Hobj as [_ Hobj].
  apply (locked_set k _ s (mkCache a sz (x :: l)) _ cs live); try done.
  - by eapply mods_put_in; [left|lia|simpl; lia].
  - by split_aparts.
  - unfold cells; simpl. constructor. by rewrite <- Permutation_middle.
  - split; unfold_sizes; simpl; [|done|].
    + by rewrite (getw_putw_ne 8 8) by (simpl; lia).
    + rewrite (getw_putw 8) by apply (getw_range 8).
      eapply freelist_mods; [apply (mods_putw 8)| |exact Hl].
      eapply Forall_impl; [exact Hobj|]. intros y [Hy1 Hy2]. solve_aparts.
  - unfold_sizes. simpl. by rewrite (getw_putw_ne 8 4) by (simpl; lia).
Qed.

(** Putting an object back in front. *)
Lemma push_step k s a sz x l cs live :
  locked k s (mkCache a sz l) cs ((x, sz) :: live) ->
  let m1 := put64 (k_mem s) x (get64 (k_mem s) (a + off_head)) in
  let s' := set_mem s (put64 m1 (a + off_head) x) in
  locked k s' (mkCache a sz (x :: l)) cs live /\ keeps [(a, 32); (x, sz)] s s'.
Proof.
  intros Hlk m1 s'. pose proof Hlk as [Hok Ha [Hsz Hb Hl] Hlock _].
  destruct (locked_facts _ _ _ _ _ Hlk) as (Hp & Ho & Hbm & Hr & Hobj). simpl in *.
  apply Forall_app in Hr as [Hr Hra]. apply Forall_cons in Hra as [Hxa _].
  apply Forall_cons in Hxa as [Hxa _].
  apply area_cons in Ha as (_ & Ha & _). apply area_app in Ha as (_ & Ha & Hxf).
  apply area_app in Ha as (_ & Ha & Hxc). apply area_cons in Ha as (Hxo & _ & _). simpl in Hxo.
  pose proof (ow_pos _ _ _ Hxo) as Hx0.
  assert (Hm : mods [(a, 32); (x, sz)] (k_mem s) (k_mem s')).
  { intros b [Hb1 [Hb2 _]%outside_cons]%outside_cons. unfold s', m1. simpl. unfold_sizes.
    by rewrite !get8_putw, !decide_False by lia. }
  unfold s' in *. apply (locked_set k _ s (mkCache a sz l) _ cs ((x, sz) :: live)); try done.
  - split_aparts; [done|apply apart_sym, Hxo].
  - apply Forall_forall. intros r Hr'. split_aparts.
    + by apply (proj1 (Forall_forall _ _) Hr) in Hr' as [? _]%Forall_cons.
    + by apply (proj1 (Forall_forall _ _) Hxc) in Hr' as [? _]%Forall_cons.
  - unfold cells; simpl. constructor. by rewrite <- Permutation_middle.
  - unfold_sizes. split; unfold_sizes; simpl; [|done|].
    + rewrite (getw_putw_ne 8 8) by (simpl; lia).
      unfold m1. by rewrite (getw_putw_ne 8 8) by solve_apart.
    + pose proof (ow_top _ _ _ Hxo).
      rewrite (getw_putw 8) by (simpl; lia). split; [done|]. split; [lia|].
      rewrite (getw_putw_ne 8 8) by solve_apart. unfold m1. rewrite (getw_putw 8) by apply (getw_range 8).
      eapply (freelist_mods [(a, 32); (x, sz)]); [exact Hm| |exact Hl].
      rewrite Forall_map in Hxf. apply Forall_forall. intros y Hy.
      pose proof (proj2 (proj1 (Forall_forall _ _) Hobj y Hy)) as Hy1.
      pose proof (proj1 (Forall_forall _ _) Hxf y Hy) as Hy2. simpl in Hy2.
      apply Forall_app in Hy2 as [_ [Hy2 _]%Forall_cons]. solve_aparts.
  - unfold_sizes. simpl. rewrite (getw_putw_ne 8 4) by (simpl; lia).
    unfold m1. by rewrite (getw_putw_ne 8 4) by solve_apart.
Qed.

(** Growing an empty cache by a frame. *)
Lemma grow_step k s a sz cs live i s' :
  locked k s (mkCache a sz []) cs live -> frame_free s i -> grown s a sz [] i s' ->
  locked k s' (mkCache a sz (carve (frame_addr s i + 16) sz (Z.to_nat (per_frame sz)))) cs live /\
  keeps [(a, 32)] s s' /\ free_set s' = free_set s ∖ {[i]}.
Proof.
  intros Hlk Hf (m & -> & Hm & Hfl). pose proof Hlk as [Hok Ha [Hsz Hb Hl] Hlock Hcs].
  destruct (locked_facts _ _ _ _ _ Hlk) as (Hp & Ho & Hbm & Hr & _). simpl in *.
  set (st := taken s i) in *. set (f := frame_addr s i) in *. unfold_sizes.
  pose proof (owned_taken s i Hok Hf) as Hof. fold st f in Hof. unfold_sizes.
  assert (Hst : pmm_ok st) by (apply pmm_ok_taken; [done|apply Hf]).
  assert (Hbst : Forall (apart (bitmap_range st)) [(f, 4096); (a + 8, 16)]).
  { split_aparts; [apply apart_sym, Hof|]. change (bitmap_range st) with (bitmap_range s). solve_apart. }
  assert (Hk : keeps [(a, 32)] s (set_mem st m)).
  { apply (keeps_drop_frame _ _ _ i Hf). fold f. unfold_sizes.
    eapply keeps_trans; [eapply keeps_weaken; [|by apply keeps_taken]; done|].
    eapply keeps_weaken; [|by apply (keeps_set_mem [(f, 4096); (a + 8, 16)])].
    intros r [H1 [H2 _]%Forall_cons]%Forall_cons. solve_aparts. }
  assert (Hshr : shrinks s (set_mem st m)).
  { eapply shrinks_trans; [by apply shrinks_taken|by eapply shrinks_set_mem]. }
  assert (Hget : forall n b, a <= b -> b + Z.of_nat n <= a + 8 \/ a + 24 <= b -> b + Z.of_nat n <= a + 32 ->
            getw n m b = getw n (k_mem s) b).
  { intros n b H1 H2 H3. pose proof (owned_apart_frame s i _ _ Ho Hf) as Haf. fold f in Haf.
    rewrite (mods_getw [(f, 4096); (a + 8, 16)] n (k_mem st) m b Hm) by solve_aparts.
    apply (mods_getw [bitmap_range s]); [apply mark_mods, Hf|]. solve_aparts. }
  destruct (carve_area (set_mem st m) (f + 16) sz (Z.to_nat (per_frame sz)) 4080) as [Hca Hcap].
  { lia. }
  { eapply (owned_sub _ f 4096); [|lia|lia]. eapply owned_shrinks; [by eapply shrinks_set_mem|done]. }
  { unfold per_frame. unfold_sizes. rewrite Z2Nat.id by (apply Z.div_pos; lia).
    pose proof (Z.mul_div_le (4096 - 16) sz). lia. }
  assert (Hdisj : forall r, owned s r.1 r.2 -> Forall (apart r)
    (map (fun x => (x, sz)) (carve (f + 16) sz (Z.to_nat (per_frame sz))))).
  { intros [b n] Hbn. apply Hcap. pose proof (owned_apart_frame s i _ _ Hbn Hf) as Haf. fold f in Haf.
    unfold apart in *; simpl in *. unfold_sizes. lia. }
  split; [|split; [done|]].
  - split; [by apply Hk| | | |].
    + unfold cells; simpl.
      apply area_cons in Ha as (_ & Ha & Har). apply area_cons. unfold_sizes. simpl.
      split; [by eapply owned_shrinks|]. split.
      * apply area_app. split; [done|]. split; [by eapply area_shrinks|].
        apply Forall_forall. intros r Hr'. apply Forall_forall. intros r' Hr''.
        destruct Ha as [Ha _]. apply (proj1 (Forall_forall _ _) Ha) in Hr''.
        apply apart_sym. by apply (proj1 (Forall_forall _ _) (Hdisj r' Hr'')).
      * apply Forall_app. split; [by apply Hdisj|done].
    + split; unfold_sizes; simpl; [by rewrite Hget by (simpl; lia)|done|]. by rewrite app_nil_r in Hfl.
    + unfold_sizes. simpl. by rewrite Hget by (simpl; lia).
    + apply Forall_app in Hr as [Hr _]. apply area_cons in Ha as (_ & Ha & _).
      apply area_app in Ha as (Ha & _ & _). by eapply caches_keep.
  - rewrite (free_set_set_mem st m [(f, 4096); (a + 8, 16)]) by done. by apply free_set_taken.
Qed.

(** ** slab_alloc and slab_free *)

(** Where the object [x] comes from: it was the first free one, or the cache
    had none and got a frame. *)
Definition served (s : kstate) (l : list Z) (sz x : Z) (l' : list Z) (s' : kstate) : Prop :=
  (l = x :: l' /\ free_set s' = free_set s) \/
  (l = [] /\ exists i, frame_free s i /\
     x :: l' = carve (frame_addr s i + sizeof_frame) sz (Z.to_nat (per_frame sz)) /\
     free_set s' = free_set s ∖ {[i]}).

(** [l] is all a cache has that had the free objects [l0] before: those, or, when
    there were none, all the objects of one new frame. *)
Definition all_free (sz : Z) (l0 l : list Z) : Prop :=
  l = l0 \/ l0 = [] /\ exists fr, l = carve (fr + sizeof_frame) sz (Z.to_nat (per_frame sz)).

Lemma served_all s l sz x l' s' : served s l sz x l' s' -> all_free sz l (x :: l').
Proof. intros [[-> _]|(-> & i & _ & -> & _)]; [by left|right]. split; [done|]. by exists (frame_addr s i). Qed.

(** A memory has one list of free objects per cache. *)
Lemma free_objects_eq s c l l' : free_objects s c l -> free_objects s c l' -> l = l'.
Proof.
  unfold free_objects. generalize (get64 (k_mem s) (c + off_head)). revert l'.
  induction l as [|x l IH]; intros [|y l'] p; simpl; [done|intros -> (? & ? & _); congruence|intros (? & ? & _) ->; congruence|].
  intros (-> & _ & Hl) (<- & _ & Hl'). f_equal. by eapply IH.
Qed.

Lemma heap_free_objects s cs live c : heap s cs live -> c ∈ cs -> free_objects s (c_addr c) (c_free c).
Proof. intros Hh Hc. pose proof (proj1 (Forall_forall _ _) (hp_caches _ _ _ Hh) c Hc) as [Hcore _]. apply Hcore. Qed.

Lemma locked_valid k s c cs live : locked k s c cs live -> valid (c_addr c) 32 = true.
Proof. intros Hlk. destruct (locked_facts _ _ _ _ _ Hlk) as (_ & Ho & _). apply Ho. Qed.

(** The second half of [slab_alloc], once the cache has what it can have. *)
Lemma wp_slab_pop s a sz l cs live (Q : Z -> kstate -> Prop) E :
  locked 1 s (mkCache a sz l) cs live ->
  (forall x l' s', l = x :: l' -> heap s' (mkCache a sz l' :: cs) ((x, sz) :: live) ->
     keeps [(a, 32)] s s' -> free_set s' = free_set s -> Q x s') ->
  (forall s', l = [] -> heap s' (mkCache a sz [] :: cs) live -> keeps [(a, 32)] s s' ->
     free_set s' = free_set s -> Q 0 s') ->
  wp (node <- load64 (a + off_head) ;;
      when (negb (node =? 0)) (next <- load64 node ;; store64 (a + off_head) next) ;;
      spin_unlock (a + off_lock) ;;
      ret node) s Q E.
Proof.
  intros Hlk HQ HQ0. pose proof (locked_valid _ _ _ _ _ Hlk) as Hv. simpl in Hv.
  destruct (locked_facts _ _ _ _ _ Hlk) as (_ & _ & Hbm & _ & Hobj). simpl in *.
  pose proof (cc_list _ _ (lk_core _ _ _ _ _ Hlk)) as Hl. simpl in Hl.
  unfold off_head, off_lock in *. wp_step. apply wp_load; [solve_valid|]. destruct l as [|x l]; simpl in Hl.
  - rewrite Hl. simpl. apply wp_bind, wp_ret, wp_bind, wp_spin_unlock; [solve_valid|]. apply wp_ret.
    destruct (set_lock_step 1 0 _ _ _ _ ltac:(unfold u32; lia) Hlk) as [Hlk' Hk].
    apply HQ0; [done|by apply heap_locked|done|].
    apply (free_set_set_mem _ _ [(a, 32)]); [|by split_aparts].
    eapply mods_put_in; [by left|lia|simpl; lia].
  - destruct Hl as (Hhd & Hx & Hl). rewrite Hhd, (proj2 (Z.eqb_neq x 0)) by done. simpl.
    apply Forall_cons in Hobj as [[Hxo _] _].
    pose proof (ow_valid _ _ _ Hxo) as Hvx. pose proof (cc_bounds _ _ (lk_core _ _ _ _ _ Hlk)) as Hb.
    simpl in Hb. wp_step. wp_step. wp_step.
    wp_step.
    destruct (pop_step _ _ _ _ _ _ _ _ Hlk) as [Hlk1 Hk1]. unfold off_head in *.
    set (s1 := set_mem s (put64 _ _ _)) in *.
    apply wp_bind, wp_spin_unlock; [solve_valid|]. apply wp_ret.
    destruct (set_lock_step 1 0 _ _ _ _ ltac:(unfold u32; lia) Hlk1) as [Hlk2 Hk2].
    simpl in Hlk2, Hk2. unfold off_lock in *.
    apply (HQ x l); [done|by apply heap_locked|by eapply keeps_trans|].
    unfold s1. rewrite set_mem_mem. apply (free_set_set_mem _ _ [(a, 32)]); [|by split_aparts].
    intros b [Hb1 _]%outside_cons. simpl. by rewrite !get8_putw, !decide_False by lia.
Qed.

Lemma wp_slab_alloc s a sz l cs live (Q : Z -> kstate -> Prop) (E : kstate -> Prop) :
  heap s (mkCache a sz l :: cs) live ->
  (forall x l' s', heap s' (mkCache a sz l' :: cs) ((x, sz) :: live) -> keeps [(a, 32)] s s' ->
     served s l sz x l' s' -> Q x s') ->
  (forall s' i, l = [] -> 4080 < sz -> heap s' (mkCache a sz [] :: cs) live -> keeps [(a, 32)] s s' ->
     frame_free s i -> free_set s' = free_set s ∖ {[i]} -> Q 0 s') ->
  (forall s', l = [] -> exhausted s -> exhausted s' -> E s') ->
  wp (slab_alloc a) s Q E.
Proof.
  intros Hh HQ HQ0 HE. apply heap_locked in Hh as Hlk.
  pose proof (locked_valid _ _ _ _ _ Hlk) as Hv. simpl in Hv.
  destruct (locked_facts _ _ _ _ _ Hlk) as (Hp & Hoc & Hbm & _ & Hobj). simpl in *.
  pose proof (ow_pos _ _ _ Hoc) as Ha0.
  unfold slab_alloc. rewrite (proj2 (Z.eqb_neq a 0)) by lia.
  apply wp_bind, wp_spin_lock; [unfold off_lock; solve_valid|apply Hlk|].
  destruct (set_lock_step 0 1 _ _ _ _ ltac:(unfold u32; lia) Hlk) as [Hlk1 Hk1]. simpl in Hlk1, Hk1.
  set (s1 := set_mem s (put32 _ (a + off_lock) 1)) in *.
  assert (Hshr : shrinks s s1 /\ free_set s1 = free_set s).
  { assert (mods [(a, 32)] (k_mem s) (k_mem s1)).
    { eapply mods_put_in; [by left|unfold off_lock; lia|unfold off_lock; simpl; lia]. }
    split; [eapply shrinks_set_mem|eapply free_set_set_mem]; [done|by split_aparts|done|by split_aparts]. }
  destruct Hshr as [Hshr Hfs].
  wp_step. apply wp_load; [unfold off_head; solve_valid|].
  pose proof (cc_list _ _ (lk_core _ _ _ _ _ Hlk1)) as Hl. simpl c_free in Hl. simpl c_addr in Hl.
  apply wp_bind. destruct l as [|x l]; cbn [freelist] in Hl.
  - rewrite Hl. simpl. pose proof (cc_bounds _ _ (lk_core _ _ _ _ _ Hlk1)) as Hb. simpl in Hb.
    apply (wp_slab_grow _ _ sz []); [by apply (grow_pre_locked 1 s1 (mkCache a sz []) cs live)| |].
    + intros i s2 Hf _ Hg. destruct (grow_step _ _ _ _ _ _ _ _ Hlk1 Hf Hg) as (Hlk2 & Hk2 & Hfs2).
      destruct Hshr as (_ & _ & Hbase & Hfree).
      eapply (wp_slab_pop s2 a sz); [exact Hlk2| |].
      * intros x l' s3 Hcv Hh3 Hk3 Hfs3. apply (HQ x l'); [done|eauto using keeps_trans|].
        right. split; [done|]. exists i.
        split; [by apply Hfree|]. unfold frame_addr in *. rewrite Hbase in Hcv.
        split; [by rewrite <- Hcv|]. by rewrite Hfs3, Hfs2, Hfs.
      * intros s3 Hnil Hh3 Hk3 Hfs3.
        apply (HQ0 s3 i); [done| |done|eauto using keeps_trans|by apply Hfree|by rewrite Hfs3, Hfs2, Hfs].
        destruct (Z.to_nat (per_frame sz)) eqn:Hn; [|done]. unfold per_frame in Hn. unfold_sizes.
        destruct (decide (4080 < sz)); [done|]. exfalso.
        assert (1 <= (4096 - 16) / sz) by (apply Z.div_le_lower_bound; lia). lia.
    + intros He t. assert (exhausted s) by (unfold exhausted; by rewrite <- Hfs). apply HE; [done|done|].
      unfold exhausted. simpl. by rewrite <- Hfs in *.
  - destruct Hl as (-> & Hx & Hl). rewrite (proj2 (Z.eqb_neq x 0)) by done. apply wp_ret.
    apply (wp_slab_pop s1 a sz (x :: l) cs live); [exact Hlk1| |done].
    intros y l' s3 [= <- <-] Hh3 Hk3 Hfs3. apply (HQ x l); [done|by eapply keeps_trans|].
    left. split; [done|]. by rewrite Hfs3.
Qed.

Lemma wp_slab_free s a sz l x cs live (Q : unit -> kstate -> Prop) E :
  heap s (mkCache a sz l :: cs) ((x, sz) :: live) ->
  (forall s', heap s' (mkCache a sz (x :: l) :: cs) live -> keeps [(a, 32); (x, sz)] s s' ->
     free_set s' = free_set s -> mods [(a, 32); (x, 8)] (k_mem s) (k_mem s') /\ k_pmm s' = k_pmm s -> Q tt s') ->
  wp (slab_free a x) s Q E.
Proof.
  intros Hh HQ. apply heap_locked in Hh as Hlk.
  pose proof (locked_valid _ _ _ _ _ Hlk) as Hv. simpl in Hv.
  destruct (locked_facts _ _ _ _ _ Hlk) as (Hp & Hoc & Hbm & _ & _). simpl in *.
  pose proof (ow_pos _ _ _ Hoc) as Ha0. pose proof (cc_bounds _ _ (lk_core _ _ _ _ _ Hlk)) as Hb. simpl in Hb.
  assert (Hxo : owned s x sz).
  { pose proof (lk_area _ _ _ _ _ Hlk) as Ha. apply area_app in Ha as (_ & Ha & _).
    apply area_app in Ha as (_ & Ha & _). by apply area_cons in Ha as (? & _ & _). }
  pose proof (ow_pos _ _ _ Hxo) as Hx0. pose proof (ow_valid _ _ _ Hxo) as Hvx.
  unfold slab_free. rewrite (proj2 (Z.eqb_neq a 0)), (proj2 (Z.eqb_neq x 0)) by lia. simpl.
  apply wp_bind, wp_spin_lock; [unfold off_lock; solve_valid|apply Hlk|].
  destruct (set_lock_step 0 1 _ _ _ _ ltac:(unfold u32; lia) Hlk) as [Hlk1 Hk1].
  destruct (push_step _ _ _ _ _ _ _ _ Hlk1) as [Hlk2 Hk2].
  destruct (set_lock_step 1 0 _ _ _ _ ltac:(unfold u32; lia) Hlk2) as [Hlk3 Hk3].
  cbn [c_addr c_size c_free] in *. unfold off_head, off_lock in *.
  wp_step. apply wp_load; [solve_valid|]. wp_step. apply wp_store; [eapply valid_sub; [exact Hvx|lia|simpl; lia]|].
  wp_step. apply wp_store; [eapply valid_sub; [exact Hv|lia|simpl; lia]|].
  apply wp_spin_unlock; [solve_valid|]. simpl in *. rewrite ?set_mem_mem in *.
  assert (Hweak : forall r, Forall (apart r) [(a, 32); (x, sz)] -> Forall (apart r) [(a, 32)]).
  { intros r [? _]%Forall_cons. by split_aparts. }
  apply HQ; [by apply heap_locked| | |].
  - eapply keeps_trans; [by eapply keeps_weaken|]. eapply keeps_trans; [exact Hk2|by eapply keeps_weaken].
  - apply (free_set_set_mem _ _ [(a, 32); (x, sz)]); [|split_aparts; [done|apply apart_sym, Hxo]].
    intros b [Hb1 [Hb2 _]%outside_cons]%outside_cons. by rewrite !get8_putw, !decide_False by lia.
  - split; [|done]. intros b [Hb1 [Hb2 _]%outside_cons]%outside_cons. simpl. by rewrite !get8_putw, !decide_False by lia.
Qed.

(** What is in use does not notice the steps of a cache, nor writes to other
    memory in use. *)
Lemma heap_area_live s cs live : heap s cs live -> area s live.
Proof. intros [_ Ha _]. by apply area_app in Ha as (_ & Ha & _). Qed.

Lemma heap_cache_same s s' c cs live :
  heap s (c :: cs) live -> keeps [(c_addr c, 32)] s s' -> same_bytes live s s'.
Proof.
  intros Hh Hk. pose proof (heap_area_live _ _ _ Hh) as Ha. apply heap_locked in Hh.
  destruct (locked_facts _ _ _ _ _ Hh) as (_ & _ & _ & Hr & _). apply Forall_app in Hr as [_ Hr].
  by eapply keeps_same.
Qed.

Lemma heap_live_same s s' cs r live :
  heap s cs (r :: live) -> keeps [r] s s' -> same_bytes live s s'.
Proof.
  intros Hh Hk. destruct (heap_live_apart _ _ _ _ Hh) as [_ Hr]. apply heap_area_live, area_cons in Hh as (_ & Ha & _).
  apply Forall_app in Hr as [_ Hr]. eapply keeps_same; [exact Hk|exact Ha|by apply Forall_apart_sym].
Qed.

(** Nor the object that is freed. *)
Lemma heap_free_same s s' a sz l cs x live :
  heap s (mkCache a sz l :: cs) ((x, sz) :: live) -> keeps [(a, 32); (x, sz)] s s' -> same_bytes live s s'.
Proof.
  intros Hh Hk. apply heap_area_live in Hh as Hal. apply area_cons in Hal as (_ & Hal & Hx).
  eapply keeps_same; [exact Hk|exact Hal|]. apply heap_locked in Hh.
  destruct (locked_facts _ _ _ _ _ Hh) as (_ & _ & _ & Hy & _).
  apply Forall_app in Hy as [_ Hy]. apply Forall_cons in Hy as [_ Hy].
  apply Forall_forall. intros r Hin. apply (proj1 (Forall_forall _ _) Hy) in Hin as Hr1.
  apply (proj1 (Forall_forall _ _) Hx) in Hin as Hr2. apply Forall_cons in Hr1 as [Hr1 _].
  split_aparts; [exact Hr1|by apply apart_sym].
Qed.

Lemma heap_writes_same s cs ws live rs m :
  heap s cs (ws ++ live) -> within rs ws -> mods rs (k_mem s) m -> same_bytes live s (set_mem s m).
Proof.
  intros Hh Hw Hm. assert (Hw' : within rs (ws ++ live)).
  { eapply Forall_impl; [exact Hw|]. intros r (x & n & Hin & Hr). exists x, n.
    split; [apply elem_of_app; by left|done]. }
  destruct (heap_writes _ _ _ _ _ Hh Hw' Hm) as [_ Hk]. apply heap_area_live in Hh.
  apply area_app in Hh as (Ha1 & Ha & Hap). eapply keeps_same; [exact Hk|exact Ha|].
  apply Forall_forall. intros r Hr. apply (within_apart ws); [|done]. apply Forall_forall. intros r' Hr'.
  apply (proj1 (Forall_forall _ _) Hap) in Hr'. apply apart_sym. by apply (proj1 (Forall_forall _ _) Hr').
Qed.

(** ** slab_cache_create *)

Lemma wp_init_cache s a sz cs live (Q : unit -> kstate -> Prop) E :
  heap s cs ((a, 32) :: live) -> 8 <= sz < 2 ^ 32 ->
  (forall s', heap s' (mkCache a sz [] :: cs) live -> keeps [(a, 32)] s s' ->
     free_set s' = free_set s -> k_pmm s' = k_pmm s -> Q tt s') ->
  wp (init_cache a sz) s Q E.
Proof.
  intros [Hok Ha Hc] Hsz HQ. apply area_app in Ha as Ha'. destruct Ha' as (Hac & Hal & Hca).
  apply area_cons in Hal as (Ho & _ & _). simpl in Ho. pose proof (ow_valid _ _ _ Ho) as Hv.
  unfold init_cache, spin_lock_init. unfold_sizes. wp_steps.
  match goal with |- Q tt (set_mem s ?mm) => set (m := mm) end.
  assert (Hm : mods [(a, 32)] (k_mem s) m).
  { intros b [Hb1 _]%outside_cons. unfold m. by rewrite !get8_putw, !decide_False by lia. }
  assert (Hbm : Forall (apart (bitmap_range s)) [(a, 32)]) by (split_aparts; apply apart_sym, Ho).
  assert (Hk : keeps [(a, 32)] s (set_mem s m)) by (apply keeps_set_mem; [apply Hok|done|done]).
  apply HQ; [|done|by eapply free_set_set_mem|done].
  split; [by apply Hk| |].
  { rewrite bind_cons. unfold cells at 1. simpl. eapply area_shrinks; [by eapply shrinks_set_mem|].
    by rewrite Permutation_middle. }
  apply Forall_cons; split; [split; [split|]|]; unfold_sizes; simpl.
  - unfold m. rewrite !(getw_putw_ne _ 8) by (simpl; lia). apply (getw_putw 8). simpl; lia.
  - lia.
  - unfold m. rewrite !(getw_putw_ne _ 8) by (simpl; lia). apply (getw_putw 8). simpl; lia.
  - unfold m. apply (getw_putw 4). simpl; lia.
  - eapply caches_keep; [exact Hk|done| |done]. eapply Forall_impl; [exact Hca|].
    intros r Hr. apply Forall_cons in Hr as [Hr _]. by split_aparts.
Qed.

(** The caches [cs], and the cache of caches with the free slots [meta] once
    it is set up; before that its memory is simply reserved. *)
Definition slab_state (s : kstate) (meta : list Z) (cs : list cache_t) (live : list (Z * Z)) : Prop :=
  if cache_meta_initialized s
  then heap s (mkCache cache_metadata_cache sizeof_slab_cache meta :: cs) live
  else meta = [] /\ heap s cs ((cache_metadata_cache, sizeof_slab_cache) :: live).

Definition object_size (n : Z) : Z := ALIGN_UP (if n <? 8 then 8 else n) 8.

Lemma object_size_bounds n : 0 <= n <= 2 ^ 31 ->
  8 <= object_size n < 2 ^ 32 /\ n <= object_size n /\ object_size n < Z.max n 8 + 8 /\ (8 | object_size n).
Proof.
  intros Hn. unfold object_size. destruct (Z.ltb_spec n 8).
  - change (ALIGN_UP 8 8) with 8. split; [lia|]. split; [lia|]. split; [lia|]. by exists 1.
  - destruct (ALIGN_UP_bounds n 3 ltac:(lia) ltac:(lia) ltac:(lia)) as [Hb Hd].
    change (2 ^ 3) with 8 in *. split; [lia|]. split; [lia|]. split; [lia|done].
Qed.

Lemma wp_cache_create n s meta cs live (Q : Z -> kstate -> Prop) (E : kstate -> Prop) :
  0 <= n <= 2 ^ 31 -> slab_state s meta cs live ->
  (forall a meta' s', slab_state s' meta' (mkCache a (object_size n) [] :: cs) live ->
     length meta = S (length meta') \/ (meta = [] /\ length meta' = 126%nat) ->
     keeps [(cache_metadata_cache, 32); (a, 32)] (set_slab s true) s' -> Q a s') ->
  (forall s', meta = [] -> exhausted s -> exhausted s' -> E s') ->
  wp (slab_cache_create n) s Q E.
Proof.
  intros Hn Hs HQ HE. destruct (object_size_bounds n Hn) as (Hb & _ & _ & _).
  unfold slab_cache_create. fold (object_size n). apply wp_bind, wp_gets, wp_bind.
  set (I := fun (s1 : kstate) => heap s1 (mkCache cache_metadata_cache 32 meta :: cs) live /\
     keeps [(cache_metadata_cache, 32)] (set_slab s true) s1 /\ free_set s1 = free_set s /\
     free_frames (k_pmm s1) = free_frames (k_pmm s)).
  assert (Hrest : forall s1, I s1 -> wp (cache <- slab_alloc cache_metadata_cache ;;
      if cache =? 0 then ret 0 else init_cache cache (object_size n) ;; ret cache) s1 Q E).
  { intros s1 (Hh & Hk & Hfs & Hff). apply wp_bind.
    eapply wp_slab_alloc; [exact Hh| |intros s2 i _ Hbad; lia|
      intros s2 Hm2 Hx2; apply HE; [done|]; unfold exhausted in *; by rewrite <- Hfs, <- Hff].
    intros a meta' s2 Hh2 Hk2 Hserved.
    assert (Ho : owned s2 a 32).
    { destruct Hh2 as [_ Ha _]. apply area_app in Ha as (_ & Ha & _). by apply area_cons in Ha as (? & _ & _). }
    pose proof (ow_pos _ _ _ Ho). rewrite (proj2 (Z.eqb_neq a 0)) by lia.
    apply wp_bind. eapply wp_init_cache; [exact Hh2|exact Hb|]. intros s3 Hh3 Hk3 _ _. apply wp_ret.
    assert (Hon : heap_only (set_slab s true) s3).
    { destruct Hk as [K1 _ _ _ _], Hk2 as [K2 _ _ _ _], Hk3 as [K3 _ _ _ _]. eauto using heap_only_trans. }
    apply (HQ a meta').
    - unfold slab_state. assert (cache_meta_initialized s3 = true) as -> by (by destruct Hon as (? & ? & ->)).
      eapply heap_perm; [apply perm_swap|reflexivity|exact Hh3].
    - destruct Hserved as [[-> _]|(-> & i & _ & Hc & _)]; [by left|right]. split; [done|].
      apply (f_equal length) in Hc. rewrite length_carve in Hc. change (Z.to_nat (per_frame 32)) with 127%nat in Hc.
      simpl in Hc. lia.
    - assert (Hw : forall x r, x = cache_metadata_cache \/ x = a ->
        Forall (apart r) [(cache_metadata_cache, 32); (a, 32)] -> Forall (apart r) [(x, 32)]).
      { intros x r Hx [? [? _]%Forall_cons]%Forall_cons. destruct Hx as [-> | ->]; by split_aparts. }
      eapply keeps_trans; [|eapply keeps_trans].
      + eapply keeps_weaken; [|exact Hk]. eauto.
      + eapply keeps_weaken; [|exact Hk2]. eauto.
      + eapply keeps_weaken; [|exact Hk3]. eauto. }
  unfold slab_state in Hs. destruct (cache_meta_initialized s) eqn:Hi; simpl.
  - apply wp_ret, Hrest. unfold I.
    replace (set_slab s true) with s by (rewrite <- Hi; by destruct s). split; [done|]. split; [apply keeps_refl|done].
  - destruct Hs as [-> Hs]. apply wp_bind. eapply wp_init_cache; [exact Hs|unfold_sizes; lia|].
    intros s1 Hh1 Hk1 Hfs1 Hp1. apply wp_modify, Hrest.
    split; [by eapply (heap_same s1); [..|exact Hh1]|]. split; [by apply keeps_set_slab|]. split; [done|].
    simpl. by rewrite Hp1.
Qed.
End slab_ops.

(** ** Decidable checks, for concrete states *)

Section slab_check.
Context `{Platform}.

Fixpoint freelistb (m : memory) (p : Z) (l : list Z) : bool :=
  match l with
  | [] => p =? 0
  | x :: l' => (p =? x) && negb (x =? 0) && freelistb m (get64 m x) l'
  end.

Definition cache_okb (s : kstate) (c : cache_t) : bool :=
  (get64 (k_mem s) (c_addr c + off_obj_size) =? c_size c) &&
  (8 <=? c_size c) && (c_size c <? 2 ^ 32) &&
  freelistb (k_mem s) (get64 (k_mem s) (c_addr c + off_head)) (c_free c) &&
  (get32 (k_mem s) (c_addr c + off_lock) =? 0).

Definition heapb (s : kstate) (cs : list cache_t) (live : list (Z * Z)) : bool :=
  heap_okb s && areab s ((cs ≫= cells) ++ live) && forallb (cache_okb s) cs.

Lemma freelistb_ok m p l : freelistb m p l = true -> freelist m p l.
Proof.
  revert p. induction l as [|x l IH]; intros p; simpl.
  - apply Z.eqb_eq.
  - rewrite !andb_true_iff, Z.eqb_eq, negb_true_iff, Z.eqb_neq. intros [[? ?] ?]. auto.
Qed.

Lemma cache_okb_ok s c : cache_okb s c = true -> cache_ok s c.
Proof.
  unfold cache_okb. rewrite !andb_true_iff, !Z.eqb_eq, Z.leb_le, Z.ltb_lt.
  intros ((((? & ?) & ?) & ?) & ?). split; [split; [done|done|by apply freelistb_ok]|done].
Qed.

Lemma heapb_ok s cs live : heapb s cs live = true -> heap s cs live.
Proof.
  unfold heapb. rewrite !andb_true_iff. intros [[? ?] Hc].
  split; [by apply heap_okb_ok|by apply areab_ok|]. eapply forallb_ok; [|exact Hc]. apply cache_okb_ok.
Qed.
End slab_check.

(** The demonstration machine of the frame allocator, after creating a cache of
    1000-byte objects: it takes the first slot of the cache of caches. *)
Definition slab_demo : kstate :=
  Eval vm_compute in final (slab_cache_create (H := arm64_virt) 1000) pmm_demo.

Definition demo_cache : cache_t := mkCache 0x40104FD0 1000 [].
Definition demo_meta : cache_t :=
  Eval vm_compute in mkCache 0x40090000 32 (tail (carve 0x40104010 32 127)).

Lemma slab_demo_heap : heap (H := arm64_virt) slab_demo [demo_cache; demo_meta] [].
Proof. apply heapb_ok. vm_compute. reflexivity. Qed.

Lemma pmm_demo_slab_state : slab_state (H := arm64_virt) pmm_demo [] [] [].
Proof. split; [done|]. apply heapb_ok. vm_compute. reflexivity. Qed.

(** ** Properties *)

Section slab_properties.
Context `{Console}.

(** [n] objects of the cache [a]. *)
Fixpoint slab_alloc_all (a : Z) (n : nat) : M (list Z) :=
  match n with
  | O => ret []
  | S n' => x <- slab_alloc a ;; xs <- slab_alloc_all a n' ;; ret (xs ++ [x])
  end.

(** C13: [slab_alloc] hands out an object of its cache that is in use nowhere
    else: from the front of the free list, or, when that is empty, the last
    object of a fresh frame.  Whatever was in use is untouched.  It returns
    NULL only for objects that do not fit in a frame, and panics only when
    it needs a frame and there is none. *)
Theorem slab_alloc_correct s a sz l cs live :
  heap s (mkCache a sz l :: cs) live ->
  wp (slab_alloc a) s
     (fun x s' =>
        (exists l', x <> 0 /\ heap s' (mkCache a sz l' :: cs) ((x, sz) :: live) /\
           keeps [(a, 32)] s s' /\ served s l sz x l' s') \/
        (x = 0 /\ l = [] /\ 4080 < sz /\ heap s' (mkCache a sz [] :: cs) live))
     (fun _ => l = [] /\ (free_set s = ∅ \/ free_frames (k_pmm s) = 0)).
Proof.
  intros Hh. eapply wp_slab_alloc; [exact Hh| | |].
  - intros x l' s' Hh' Hk Hs. left. exists l'. split; [|done].
    destruct Hh' as [_ Ha _]. apply area_app in Ha as (_ & Ha & _).
    apply area_cons in Ha as (Ho & _ & _). pose proof (ow_pos _ _ _ Ho). simpl in *. lia.
  - intros s' i Hl Hsz Hh' _ _ _. by right.
  - intros s' Hl He. done.
Qed.

(** Freeing an object and allocating again gives the object back and
    restores the free list. *)
Theorem slab_free_alloc s a sz l x cs live :
  heap s (mkCache a sz l :: cs) ((x, sz) :: live) ->
  safe (slab_free a x ;; slab_alloc a) s
    (fun y s' => y = x /\ heap s' (mkCache a sz l :: cs) ((x, sz) :: live) /\
                 keeps [(a, 32); (x, sz)] s s' /\ free_set s' = free_set s).
Proof.
  intros Hh. apply wp_bind. eapply wp_slab_free; [exact Hh|]. intros s1 Hh1 Hk1 Hf1 _.
  eapply wp_slab_alloc; [exact Hh1| |done|done]. intros y l' s2 Hh2 Hk2 [[[= <- <-] Hf2]|[[=] _]].
  split; [done|]. split; [done|]. split; [|by rewrite Hf2].
  eapply keeps_trans; [exact Hk1|]. eapply keeps_weaken; [|exact Hk2].
  intros r [? _]%Forall_cons. by split_aparts.
Qed.

(** No object is handed out twice.  The objects of any run of allocations
    do not overlap each other, nor anything that was in use, nor the free
    objects and the caches. *)
Theorem slab_allocs_distinct n s a sz l cs live :
  heap s (mkCache a sz l :: cs) live -> sz <= 4080 ->
  wp (slab_alloc_all a n) s
     (fun xs s' => length xs = n /\ keeps [(a, 32)] s s' /\
        exists l', heap s' (mkCache a sz l' :: cs) (map (fun x => (x, sz)) xs ++ live))
     (fun _ => exists s1, keeps [(a, 32)] s s1 /\ (free_set s1 = ∅ \/ free_frames (k_pmm s1) = 0)).
Proof.
  revert s l live. induction n as [|n IH]; intros s l live Hh Hsz; simpl.
  - apply wp_ret. split; [done|]. split; [apply keeps_refl|]. by exists l.
  - apply wp_bind. eapply wp_slab_alloc; [exact Hh| |intros; lia|].
    + intros x l' s1 Hh1 Hk1 _. apply wp_bind. eapply wp_mono; [eapply IH; [exact Hh1|done]| |].
      * intros xs s2 (Hlen & Hk2 & l'' & Hh2). apply wp_ret. rewrite length_app. simpl.
        split; [lia|]. split; [by eapply keeps_trans|]. exists l''. by rewrite map_app, <- app_assoc.
      * intros s2 (s3 & Hk3 & He). exists s3. split; [by eapply keeps_trans|done].
    + intros s' _ He. exists s. split; [apply keeps_refl|done].
Qed.

(** [slab_cache_create] makes a new, empty cache for objects of the size
    asked for, rounded up to a multiple of 8 and to at least 8, setting up
    the cache of caches the first time; it touches that and the new cache
    only. *)
Theorem slab_cache_create_correct n s meta cs live :
  0 <= n <= 2 ^ 31 -> slab_state s meta cs live ->
  wp (slab_cache_create n) s
     (fun a s' => exists meta' sz,
        slab_state s' meta' (mkCache a sz [] :: cs) live /\ cache_meta_initialized s' = true /\
        (8 | sz) /\ Z.max n 8 <= sz < Z.max n 8 + 8 /\
        keeps [(cache_metadata_cache, 32); (a, 32)] (set_slab s true) s')
     (fun _ => meta = [] /\ (free_set s = ∅ \/ free_frames (k_pmm s) = 0)).
Proof.
  intros Hn Hs. destruct (object_size_bounds n Hn) as (Hb & Hlo & Hhi & Hd).
  eapply wp_cache_create; [exact Hn|exact Hs| |by auto].
  intros a meta' s' Hs' _ Hk. exists meta', (object_size n).
  split; [done|]. split; [by destruct Hk as [(? & ? & ->) _ _ _ _]|]. split; [done|]. split; [lia|done].
Qed.

(** An object that does not fit in a frame after the frame's header is
    never allocated: every call takes a frame, carves nothing out of it and
    returns NULL, so the frame is lost. *)
Theorem slab_alloc_oversized s a sz cs live :
  heap s (mkCache a sz [] :: cs) live -> 4080 < sz ->
  wp (slab_alloc a) s
     (fun x s' => x = 0 /\ heap s' (mkCache a sz [] :: cs) live /\
        exists i, i ∈ free_set s /\ free_set s' = free_set s ∖ {[i]})
     (fun _ => free_set s = ∅ \/ free_frames (k_pmm s) = 0).
Proof.
  intros Hh Hsz. eapply wp_slab_alloc; [exact Hh| | |by auto].
  - intros x l' s' _ _ [[[=] _]|(_ & i & _ & Hc & _)]. exfalso.
    assert (per_frame sz = 0) as Hz; [|by rewrite Hz in Hc].
    unfold per_frame. unfold_sizes. apply Z.div_small. lia.
  - intros s' i _ _ Hh' _ Hi Hf. split; [done|]. split; [done|]. exists i. by rewrite elem_of_free_set.
Qed.
End slab_properties.

(** ** Witnesses *)

Lemma slab_alloc_correct_witness :
  exists s' l', slab_alloc (H := arm64_virt) 0x40104FD0 slab_demo = Ok 0x40105BC8 s' /\
    heap (H := arm64_virt) s' [mkCache 0x40104FD0 1000 l'; demo_meta] [(0x40105BC8, 1000)].
Proof.
  destruct (wp_result _ _ _ _ 0x40105BC8
              (@slab_alloc_correct arm64_virt arm64_console _ _ _ _ _ _ slab_demo_heap))
    as (s' & Hr & [(l' & _ & Hh & _)|[Hx _]]); [vm_compute; reflexivity| |discriminate Hx].
  exists s', l'. split; [exact Hr|exact Hh].
Defined.

Lemma slab_free_alloc_witness :
  safe (slab_free (H := arm64_virt) 0x40104FD0 0x40102000 ;; slab_alloc (H := arm64_virt) 0x40104FD0)
    slab_demo (fun y _ => y = 0x40102000).
Proof.
  eapply wp_weaken.
  - apply (@slab_free_alloc arm64_virt arm64_console slab_demo 0x40104FD0 1000 [] 0x40102000 [demo_meta] []).
    apply heapb_ok. vm_compute. reflexivity.
  - by intros y s' [-> _].
Defined.

Lemma slab_allocs_distinct_witness :
  exists s' l', slab_alloc_all (H := arm64_virt) 0x40104FD0 2 slab_demo = Ok [0x401057E0; 0x40105BC8] s' /\
    heap (H := arm64_virt) s' [mkCache 0x40104FD0 1000 l'; demo_meta]
      [(0x401057E0, 1000); (0x40105BC8, 1000)].
Proof.
  destruct (wp_result _ _ _ _ [0x401057E0; 0x40105BC8]
              (@slab_allocs_distinct arm64_virt arm64_console 2 _ _ _ _ _ _ slab_demo_heap ltac:(lia)))
    as (s' & Hr & _ & _ & l' & Hh); [vm_compute; reflexivity|].
  exists s', l'. split; [exact Hr|exact Hh].
Defined.

Lemma slab_cache_create_correct_witness :
  exists s', slab_cache_create (H := arm64_virt) 1000 pmm_demo = Ok 0x40104FD0 s' /\
    cache_meta_initialized s' = true.
Proof.
  destruct (wp_result _ _ _ _ 0x40104FD0
              (@slab_cache_create_correct arm64_virt arm64_console 1000 _ _ _ _ ltac:(lia) pmm_demo_slab_state))
    as (s' & Hr & _ & sz & _ & Hi & _); [vm_compute; reflexivity|].
  exists s'. split; [exact Hr|exact Hi].
Defined.

(** A cache of 4088-byte objects in the demonstration machine. *)
Definition oversized_demo : kstate :=
  Eval vm_compute in final (slab_cache_create (H := arm64_virt) 4088) pmm_demo.

Lemma slab_alloc_oversized_witness :
  exists s', slab_alloc (H := arm64_virt) 0x40104FD0 oversized_demo = Ok 0 s' /\
    exists i, free_set s' = free_set oversized_demo ∖ {[i]}.
Proof.
  assert (Hh : heap (H := arm64_virt) oversized_demo [mkCache 0x40104FD0 4088 []] []).
  { apply heapb_ok. vm_compute. reflexivity. }
  destruct (wp_result _ _ _ _ 0
              (@slab_alloc_oversized arm64_virt arm64_console _ _ _ _ _ Hh ltac:(lia)))
    as (s' & Hr & _ & _ & i & _ & Hf); [vm_compute; reflexivity|]. 
  exists s'. split; [exact Hr|]. exists i. exact Hf.
Defined.
