(* ===== verification/SlabRace.v ===== *)
(** * The slab allocator between harts

    [slab_alloc] and [slab_free] of base/mm/slab.c cut at their accesses to the
    cache and to its objects, and interleaved between any number of harts that
    allocate from one cache, use what they got and give it back.  The lock is
    that of Spin.v.  [slab_grow] is one step here: it touches only what the lock
    guards and a frame that nobody has.  With two caches, whose locks differ,
    that would not do: see FrameRace.v. *)

From S2P Require Import Prelude Machine Logic Console Boards Sync Spin Boot Pmm Heap Slab.

Inductive slab_op := OpAlloc | OpFree (x : Z).

(** Where a hart is in the two functions. *)
Inductive slab_place :=
| SRun                              (* outside them *)
| SLock (op : slab_op) | SPoll (op : slab_op)   (* in [spin_lock] *)
| SHead                             (* [if (!cache->free_objects.head)] *)
| SGrow
| SNode                             (* [node = cache->free_objects.head] *)
| SNext (node : Z)
| SPop (node next : Z)
| SGive (node : Z)                  (* at the [spin_unlock] of slab_alloc *)
| SLink (x : Z)
| SStore (x head : Z)
| SPush (x : Z)
| SLeave.                           (* at the [spin_unlock] of slab_free *)

#[global] Instance slab_op_eq_dec : EqDecision slab_op.
Proof. solve_decision. Defined.
#[global] Instance slab_place_eq_dec : EqDecision slab_place.
Proof. solve_decision. Defined.

(** A hart: the objects it holds, and its place. *)
Abbreviation slab_hart := (list Z * slab_place)%type.

Record slab_race := mkSlabRace { sr_state : kstate; sr_harts : list slab_hart }.

Section race.
Context `{Console}.
(** The cache, the size of its objects, the other caches, and the rest of the
    memory in use, which all harts may write. *)
Context (cache sz : Z) (cs : list cache_t) (live : list (Z * Z)).

Abbreviation lock := (cache + off_lock).

(** Where a step of [spin_lock] leaves a hart. *)
Definition slab_enter (op : slab_op) (q : pc) : slab_place :=
  match q with
  | Crit => match op with OpAlloc => SHead | OpFree x => SLink x end
  | Poll => SPoll op
  | _ => SLock op
  end.

(** One access of a hart. *)
Definition slab_step (p : slab_place) : M slab_place :=
  match p with
  | SRun => ret SRun
  | SLock op => q <- spin_step lock Xchg ;; ret (slab_enter op q)
  | SPoll op => q <- spin_step lock Poll ;; ret (slab_enter op q)
  | SHead => head <- load64 (cache + off_head) ;; ret (if head =? 0 then SGrow else SNode)
  | SGrow => slab_grow cache ;; ret SNode
  | SNode => node <- load64 (cache + off_head) ;; ret (if node =? 0 then SGive 0 else SNext node)
  | SNext node => next <- load64 node ;; ret (SPop node next)
  | SPop node next => store64 (cache + off_head) next ;; ret (SGive node)
  | SLink x => head <- load64 (cache + off_head) ;; ret (SStore x head)
  | SStore x head => store64 x head ;; ret (SPush x)
  | SPush x => store64 (cache + off_head) x ;; ret SLeave
  | SGive _ | SLeave => spin_unlock lock ;; ret SRun
  end.

(** What a hart gets when [slab_alloc] returns. *)
Definition given (p : slab_place) : list Z :=
  match p with SGive node => if node =? 0 then [] else [node] | _ => [] end.

Definition ranges (xs : list Z) : list (Z * Z) := map (fun x => (x, sz)) xs.

(** A step of hart [i]: an access inside the two functions; a call of one, to
    free only what the hart holds; or work in the memory it may write. *)
Inductive slab_race_step (i : nat) : slab_race -> slab_race -> Prop :=
| sr_local objs p p' s s' hs :
    hs !! i = Some (objs, p) -> p <> SRun -> slab_step p s = Ok p' s' ->
    slab_race_step i (mkSlabRace s hs) (mkSlabRace s' (<[i := (given p ++ objs, p')]> hs))
| sr_alloc objs s hs :
    hs !! i = Some (objs, SRun) ->
    slab_race_step i (mkSlabRace s hs) (mkSlabRace s (<[i := (objs, SLock OpAlloc)]> hs))
| sr_free x objs objs' s hs :
    hs !! i = Some (objs, SRun) -> objs ≡ₚ x :: objs' ->
    slab_race_step i (mkSlabRace s hs) (mkSlabRace s (<[i := (objs', SLock (OpFree x))]> hs))
| sr_use objs s m hs :
    hs !! i = Some (objs, SRun) -> mods (ranges objs ++ live) (k_mem s) m ->
    slab_race_step i (mkSlabRace s hs) (mkSlabRace (set_mem s m) hs).

Inductive slab_race_reach (c0 : slab_race) : slab_race -> Prop :=
| sr_refl : slab_race_reach c0 c0
| sr_trans c i c' : slab_race_reach c0 c -> slab_race_step i c c' -> slab_race_reach c0 c'.

(** The objects a call has in hand, on their way to or from the cache. *)
Definition in_hand (p : slab_place) : list Z :=
  match p with
  | SLock (OpFree x) | SPoll (OpFree x) | SLink x | SStore x _ | SPush x => [x]
  | SGive _ => given p
  | _ => []
  end.

Definition mine (h : slab_hart) : list Z := in_hand h.2 ++ h.1.
Definition all_mine (hs : list slab_hart) : list Z := hs ≫= mine.

(** Between the two functions' [spin_lock] and [spin_unlock]. *)
Definition inside (p : slab_place) : bool :=
  match p with SRun | SLock _ | SPoll _ => false | _ => true end.

(** Before any call: the heap of Slab.v, with what the harts hold in use. *)
Definition slab_race_start (c : slab_race) : Prop :=
  Forall (fun h => h.2 = SRun) (sr_harts c) /\
  exists l, heap (sr_state c) (mkCache cache sz l :: cs) (ranges (all_mine (sr_harts c)) ++ live).

(** ** What the hart inside knows *)

Definition facts (p : slab_place) (l : list Z) (m : memory) : Prop :=
  match p with
  | SGrow => l = []
  | SNext node => exists l', l = node :: l'
  | SPop node next => exists l', l = node :: l' /\ next = get64 m node
  | SStore x head => head = get64 m (cache + off_head)
  | SPush x => get64 m x = get64 m (cache + off_head)
  | _ => True
  end.

Lemma facts_ext p l m m' :
  get64 m' (cache + off_head) = get64 m (cache + off_head) ->
  Forall (fun x => get64 m' x = get64 m x) (in_hand p ++ l) -> facts p l m -> facts p l m'.
Proof.
  intros Hh Hx. destruct p; simpl in *; try done.
  - intros (l' & -> & ->). apply Forall_cons in Hx as [Hx _]. exists l'. by rewrite Hx.
  - congruence.
  - apply Forall_cons in Hx as [Hx _]. congruence.
Qed.

Abbreviation slab l := (mkCache cache sz l).

Lemma locked_perm k s c lv lv' : lv ≡ₚ lv' -> locked k s c cs lv -> locked k s c cs lv'.
Proof. intros Hp [Hok Ha Hc Hl Hr]. split; try done. by rewrite <- Hp. Qed.

(** The memory in use is apart from what the allocator keeps. *)
Lemma locked_live k s c lv r :
  locked k s c cs lv -> r ∈ lv ->
  owned s r.1 r.2 /\ Forall (apart r) (cells c) /\ Forall (apart r) (cs ≫= cells).
Proof.
  intros [_ Ha _ _ _] Hr. rewrite app_assoc in Ha. apply area_app in Ha as (_ & [Ho _] & Hap).
  split; [by apply (proj1 (Forall_forall _ _) Ho)|]. rewrite <- Forall_app.
  eapply Forall_impl; [exact Hap|]. intros r' Hr'. apply apart_sym. by apply (proj1 (Forall_forall _ _) Hr').
Qed.

(** Writing in memory in use. *)
Lemma locked_write k s l lv rs m :
  locked k s (slab l) cs lv -> rs ⊆ lv -> mods rs (k_mem s) m ->
  locked k (set_mem s m) (slab l) cs lv /\ keeps rs s (set_mem s m).
Proof.
  intros Hlk Hin Hm. pose proof Hlk as [Hok Ha [Hsz Hb Hl] Hlock Hcs].
  assert (Hr : forall r, r ∈ rs -> owned s r.1 r.2 /\ Forall (apart r) (cells (slab l)) /\ Forall (apart r) (cs ≫= cells))
    by (intros r Hr; eapply locked_live; [exact Hlk|by apply Hin]).
  assert (Hcell : Forall (fun r' => Forall (apart r') rs) (cells (slab l))).
  { apply Forall_forall. intros r' Hr'. apply Forall_forall. intros r Hrs. apply apart_sym.
    by apply (proj1 (Forall_forall _ _) (proj1 (proj2 (Hr r Hrs)))). }
  unfold cells in Hcell. apply Forall_cons in Hcell as [Hc0 Hobj]. rewrite Forall_map in Hobj. simpl in *.
  unfold_sizes.
  assert (Hget : forall n a, cache <= a -> a + Z.of_nat n <= cache + 32 -> getw n m a = getw n (k_mem s) a).
  { intros n a H1 H2. eapply mods_getw; [exact Hm|]. eapply Forall_impl; [exact Hc0|].
    intros r Hr'. by eapply apart_sub. }
  apply (locked_set k k s (slab l) (slab l) cs lv lv rs m); try done.
  - apply Forall_forall. intros r Hrs. apply apart_sym, (Hr r Hrs).
  - apply Forall_forall. intros r' Hr'. apply Forall_forall. intros r Hrs. apply apart_sym.
    by apply (proj1 (Forall_forall _ _) (proj2 (proj2 (Hr r Hrs)))).
  - split; unfold_sizes; simpl; [by rewrite (Hget 8%nat) by (simpl; lia)|done|].
    rewrite (Hget 8%nat) by (simpl; lia). eapply freelist_mods; [exact Hm| |exact Hl].
    eapply Forall_impl; [exact Hobj|]. intros x Hx. eapply Forall_impl; [exact Hx|].
    intros r Hr'. eapply apart_sub; [exact Hr'|lia|lia].
  - unfold_sizes. simpl. by rewrite (Hget 4%nat) by (simpl; lia).
Qed.

(** Making an object whose first word is the head of the list the new head. *)
Lemma push_head_step k s l x lv :
  locked k s (slab l) cs ((x, sz) :: lv) -> get64 (k_mem s) x = get64 (k_mem s) (cache + off_head) ->
  let s' := set_mem s (put64 (k_mem s) (cache + off_head) x) in
  locked k s' (slab (x :: l)) cs lv /\ keeps [(cache, 32)] s s'.
Proof.
  intros Hlk Hx s'. pose proof Hlk as [Hok Ha [Hsz Hb Hl] Hlock _].
  destruct (locked_facts _ _ _ _ _ Hlk) as (Hp & Ho & Hbm & Hr & Hobj). simpl in *.
  destruct (locked_live _ _ _ _ (x, sz) Hlk ltac:(by left)) as (Hxo & Hxc & _). simpl in Hxo.
  apply Forall_cons in Hxc as [Hxc _]. simpl in Hxc. apply Forall_app in Hr as [Hr _].
  pose proof (ow_pos _ _ _ Hxo) as Hx0. pose proof (ow_top _ _ _ Hxo) as Hxt. unfold s'. unfold_sizes.
  apply (locked_set k _ s (slab l) _ cs ((x, sz) :: lv)); try done.
  - by eapply mods_put_in; [left|lia|simpl; lia].
  - by split_aparts.
  - unfold cells; simpl. constructor. by rewrite <- Permutation_middle.
  - split; unfold_sizes; simpl; [|done|].
    + by rewrite (getw_putw_ne 8 8) by (simpl; lia).
    + rewrite (getw_putw 8) by (simpl; lia). split; [done|]. split; [lia|].
      rewrite (getw_putw_ne 8 8) by solve_apart. rewrite Hx.
      eapply freelist_mods; [apply (mods_putw 8)| |exact Hl].
      eapply Forall_impl; [exact Hobj|]. intros y [Hy1 Hy2]. solve_aparts.
  - unfold_sizes. simpl. by rewrite (getw_putw_ne 8 4) by (simpl; lia).
Qed.

(** What a step inside leaves: the lock word, the cache, the facts. *)
Definition left_by (p p' : slab_place) (s s' : kstate) (rest : list (Z * Z)) : Prop :=
  keeps ((cache, 32) :: ranges (in_hand p)) s s' /\
  exists l', locked (if inside p' then 1 else 0) s' (slab l') cs (ranges (in_hand p' ++ given p) ++ rest) /\
             (inside p' = true -> facts p' l' (k_mem s')).

Lemma keeps_more rs rs' s s' : rs ⊆ rs' -> keeps rs s s' -> keeps rs' s s'.
Proof.
  intros Hs. apply keeps_weaken. intros r Hr. apply Forall_forall. intros r' Hr'.
  by apply (proj1 (Forall_forall _ _) Hr), Hs.
Qed.

Lemma left_here p p' s l rest :
  inside p' = true -> given p = [] -> in_hand p' = in_hand p ->
  locked 1 s (slab l) cs (ranges (in_hand p) ++ rest) -> facts p' l (k_mem s) -> left_by p p' s s rest.
Proof.
  intros Hi Hg Hh Hlk Hf. split; [apply keeps_refl|]. exists l. by rewrite Hi, Hg, Hh, app_nil_r.
Qed.

Lemma left_at p p' s s' l rest rs :
  keeps rs s s' -> rs ⊆ (cache, 32) :: ranges (in_hand p) -> given p = [] ->
  locked (if inside p' then 1 else 0) s' (slab l) cs (ranges (in_hand p') ++ rest) ->
  facts p' l (k_mem s') -> left_by p p' s s' rest.
Proof.
  intros Hk Hrs Hg Hlk Hf. split; [by eapply keeps_more|]. exists l. by rewrite Hg, app_nil_r.
Qed.

Lemma locked_head k s l lv :
  locked k s (slab l) cs lv -> freelist (k_mem s) (get64 (k_mem s) (cache + off_head)) l.
Proof. intros [_ _ [_ _ Hl] _ _]. exact Hl. Qed.

(** A hart inside can always go on, unless it needs a frame and there is none. *)
Lemma inside_step p s l rest :
  inside p = true -> locked 1 s (slab l) cs (ranges (in_hand p) ++ rest) -> facts p l (k_mem s) ->
  wp (slab_step p) s (fun p' s' => left_by p p' s s' rest) (fun _ => p = SGrow /\ exhausted s).
Proof.
  intros Hin Hlk Hf.
  pose proof (locked_valid _ _ _ _ _ Hlk) as Hv. pose proof (locked_head _ _ _ _ Hlk) as Hl. simpl in Hv.
  destruct p as [|op|op| | | |node|node next|node|x|x head|x|]; try done; simpl in Hf; unfold slab_step.
  - unfold off_head in *. wp_step. apply wp_load; [solve_valid|]. apply wp_ret. destruct l as [|x l]; simpl in Hl.
    + rewrite Hl. by eapply left_here.
    + destruct Hl as (-> & Hx & _). rewrite (proj2 (Z.eqb_neq x 0)) by done. by eapply left_here.
  - subst l. apply wp_bind. eapply wp_slab_grow; [exact (grow_pre_locked _ _ _ _ _ Hlk)|..]; [|done].
    simpl. intros i s1 Hfree _ Hg. apply wp_ret.
    destruct (grow_step _ _ _ _ _ _ _ _ Hlk Hfree Hg) as (Hlk1 & Hk & _).
    eapply left_at; [exact Hk|set_solver|done|exact Hlk1|done].
  - unfold off_head in *. wp_step. apply wp_load; [solve_valid|]. apply wp_ret. destruct l as [|x l]; simpl in Hl.
    + rewrite Hl. by eapply left_here.
    + destruct Hl as (-> & Hx & _). rewrite (proj2 (Z.eqb_neq x 0)) by done. eapply left_here; eauto. by eexists.
  - destruct Hf as [l' ->]. destruct (locked_facts _ _ _ _ _ Hlk) as (_ & _ & _ & _ & Hobj).
    apply Forall_cons in Hobj as [[Hno _] _]. simpl in Hno.
    pose proof (cc_bounds _ _ (lk_core _ _ _ _ _ Hlk)) as Hb. simpl in Hb.
    wp_step. apply wp_load; [pose proof (ow_valid _ _ _ Hno); solve_valid|]. apply wp_ret.
    eapply left_here; eauto. by eexists.
  - destruct Hf as (l' & -> & ->). destruct Hl as (_ & Hn & _). unfold off_head in *.
    wp_step. wp_step. destruct (pop_step _ _ _ _ _ _ _ _ Hlk) as [Hlk1 Hk1]. unfold off_head in *.
    eapply left_at; [exact Hk1|set_solver|done| |done]. simpl.
    by rewrite (proj2 (Z.eqb_neq node 0)).
  - apply wp_bind, wp_spin_unlock; [unfold off_lock; solve_valid|]. apply wp_ret.
    destruct (set_lock_step 1 0 _ _ _ _ ltac:(unfold u32; lia) Hlk) as [Hlk1 Hk1].
    split; [eapply keeps_more; [|exact Hk1]; set_solver|]. exists l. split; [exact Hlk1|done].
  - unfold off_head in *. wp_step. apply wp_load; [solve_valid|]. apply wp_ret. by eapply left_here.
  - destruct (locked_live _ _ _ _ (x, sz) Hlk ltac:(by left)) as (Hxo & Hxc & _). simpl in Hxo.
    apply Forall_cons in Hxc as [Hxc _]. simpl in Hxc.
    pose proof (cc_bounds _ _ (lk_core _ _ _ _ _ Hlk)) as Hb. simpl in Hb.
    pose proof (ow_valid _ _ _ Hxo) as Hvx. wp_step. wp_step.
    destruct (locked_write 1 s l _ [(x, sz)] (put64 (k_mem s) x head) Hlk) as [Hlk1 Hk1].
    { set_solver. }
    { by eapply mods_put_in; [left|lia|simpl; lia]. }
    eapply left_at; [exact Hk1|set_solver|done|exact Hlk1|]. simpl. unfold_sizes. subst head.
    rewrite (getw_putw 8) by apply (getw_range 8). by rewrite (getw_putw_ne 8 8) by solve_apart.
  - unfold off_head in *. wp_step. wp_step. destruct (push_head_step _ _ _ _ _ Hlk Hf) as [Hlk1 Hk1].
    eapply left_at; [exact Hk1|set_solver|done|exact Hlk1|done].
  - apply wp_bind, wp_spin_unlock; [unfold off_lock; solve_valid|]. apply wp_ret.
    destruct (set_lock_step 1 0 _ _ _ _ ltac:(unfold u32; lia) Hlk) as [Hlk1 Hk1].
    eapply left_at; [exact Hk1|set_solver|done|exact Hlk1|done].
Qed.

(** ** The invariant *)

Lemma all_mine_at hs i h :
  hs !! i = Some h ->
  exists rest, all_mine hs ≡ₚ mine h ++ rest /\
    (forall h', all_mine (<[i := h']> hs) ≡ₚ mine h' ++ rest) /\
    forall j hj, j <> i -> hs !! j = Some hj -> mine hj ⊆ rest.
Proof.
  revert i. induction hs as [|h0 hs IH]; intros [|i] Hi; simplify_eq/=.
  - exists (all_mine hs). split_and!; [done..|]. intros [|j] hj Hne Hj; [done|]. simpl in Hj.
    intros x Hx. apply list_elem_of_bind. exists hj. split; [done|by eapply list_elem_of_lookup_2].
  - destruct (IH i Hi) as (rest & Hp & Hins & Hsub). exists (mine h0 ++ rest). split_and!.
    + unfold all_mine in *. simpl. rewrite Hp. by rewrite Permutation_app_swap_app.
    + intros h'. unfold all_mine in *. simpl. rewrite Hins. by rewrite Permutation_app_swap_app.
    + intros [|j] hj Hne Hj; simplify_eq/=; [set_solver|]. specialize (Hsub j hj ltac:(lia) Hj). set_solver.
Qed.

Lemma ranges_app xs ys : ranges (xs ++ ys) = ranges xs ++ ranges ys.
Proof. apply map_app. Qed.

Lemma ranges_perm xs ys : xs ≡ₚ ys -> ranges xs ≡ₚ ranges ys.
Proof. apply Permutation_map. Qed.

Lemma ranges_in x xs : x ∈ xs -> (x, sz) ∈ ranges xs.
Proof. intros Hx. apply list_elem_of_fmap. by exists x. Qed.

(** Who holds the lock, and what that hart knows. *)
Definition nobody (hs : list slab_hart) : Prop :=
  forall i h, hs !! i = Some h -> inside h.2 = false.

Definition holder (hs : list slab_hart) (l : list Z) (m : memory) (i : nat) : Prop :=
  exists h, hs !! i = Some h /\ inside h.2 = true /\ facts h.2 l m /\
    forall j hj, hs !! j = Some hj -> inside hj.2 = true -> j = i.

Definition slab_race_inv (c : slab_race) : Prop :=
  let '(mkSlabRace s hs) := c in
  exists l k, locked k s (slab l) cs (ranges (all_mine hs) ++ live) /\
    (k = 0 /\ nobody hs \/ k = 1 /\ exists i, holder hs l (k_mem s) i).

(** The objects of the other harts stay as they are. *)
Definition others_kept (i : nat) (hs : list slab_hart) (s s' : kstate) : Prop :=
  forall j h x b, j <> i -> hs !! j = Some h -> x ∈ mine h -> x <= b < x + sz ->
    get8 (k_mem s') b = get8 (k_mem s) b.

Lemma others_kept_keeps k i hs s s' l h rs :
  locked k s (slab l) cs (ranges (all_mine hs) ++ live) -> hs !! i = Some h ->
  keeps rs s s' -> rs ⊆ (cache, 32) :: ranges (mine h) ++ live -> others_kept i hs s s'.
Proof.
  intros Hlk Hi Hk Hrs j hj x b Hne Hj Hx Hb.
  destruct (all_mine_at hs i h Hi) as (rest & Hp & _ & Hsub). specialize (Hsub j hj Hne Hj x Hx).
  eapply locked_perm in Hlk; [|by rewrite (ranges_perm _ _ Hp), ranges_app, <- app_assoc].
  pose proof Hlk as [_ Ha _ _ _]. apply area_app in Ha as (_ & Ha & _). apply area_app in Ha as (_ & Ha & _).
  rewrite Permutation_app_swap_app in Ha. apply area_app in Ha as (_ & _ & Hap).
  rewrite Forall_forall in Hap. specialize (Hap _ (ranges_in _ _ Hsub)).
  destruct (locked_live _ _ _ _ (x, sz) Hlk) as (Hxo & Hxc & _).
  { apply elem_of_app. right. apply elem_of_app. left. by apply ranges_in. }
  apply (kp_mem _ _ _ Hk x sz); [exact Hxo| |done]. apply Forall_forall. intros r Hr%Hrs.
  apply elem_of_cons in Hr as [->|Hr]; [by apply Forall_cons in Hxc as [Hxc _]|].
  by apply (proj1 (Forall_forall _ _) Hap).
Qed.

Lemma locked_front k s l hs i h rest :
  all_mine hs ≡ₚ mine h ++ rest -> hs !! i = Some h ->
  locked k s (slab l) cs (ranges (all_mine hs) ++ live) ->
  locked k s (slab l) cs (ranges (in_hand h.2) ++ ranges h.1 ++ ranges rest ++ live).
Proof.
  intros Hp _. apply locked_perm. rewrite (ranges_perm _ _ Hp). unfold mine.
  by rewrite !ranges_app, <- !app_assoc.
Qed.

(** What the hart inside knows outlasts writes elsewhere and of the lock. *)
Lemma facts_write k s l p rest rs m :
  locked k s (slab l) cs (ranges (in_hand p) ++ rest) -> rs ⊆ rest \/ rs = [(lock, 4)] ->
  mods rs (k_mem s) m -> facts p l (k_mem s) -> facts p l m.
Proof.
  intros Hlk Hrs Hm. pose proof Hlk as [_ Ha [_ Hb _] _ _]. simpl in Hb.
  destruct (locked_facts _ _ _ _ _ Hlk) as (_ & _ & _ & Hr & Hobj). simpl in Hr, Hobj.
  apply area_app in Ha as (_ & Ha & Hcl). apply area_app in Ha as (_ & Ha & _).
  apply area_app in Ha as (_ & _ & Hap).
  assert (Hc : Forall (apart (cache + off_head, 8)) rs).
  { destruct Hrs as [Hrs| ->]; [|unfold_sizes; solve_aparts]. apply Forall_forall. intros r Hin.
    assert (Hc : Forall (apart r) [(cache, 32)]).
    { apply (proj1 (Forall_forall _ _) Hr). apply elem_of_app. right. apply elem_of_app. right. by apply Hrs. }
    apply Forall_cons in Hc as [Hc _]. apply apart_sym in Hc. unfold_sizes.
    eapply apart_sub; [exact Hc|lia|lia]. }
  apply facts_ext; [by apply (mods_getw rs 8)|].
  apply Forall_forall. intros x Hx. apply (mods_getw rs 8 _ _ _ Hm).
  destruct Hrs as [Hrs| ->].
  - apply Forall_forall. intros r Hin%Hrs. apply (apart_sub x sz); [|lia|simpl; lia].
    apply elem_of_app in Hx as [Hx|Hx].
    + apply ranges_in in Hx. apply (proj1 (Forall_forall _ _) Hap) in Hx.
      by apply (proj1 (Forall_forall _ _) Hx).
    + unfold cells in Hcl. simpl in Hcl. apply Forall_cons in Hcl as [_ Hcl].
      rewrite Forall_map in Hcl. apply (proj1 (Forall_forall _ _) Hcl) in Hx.
      apply (proj1 (Forall_forall _ _) Hx). apply elem_of_app. right. apply elem_of_app. by right.
  - assert (Hxc : apart (x, sz) (cache, 32)).
    { apply elem_of_app in Hx as [Hx|Hx]; [|by apply (proj1 (Forall_forall _ _) Hobj) in Hx as [_ ?]].
      destruct (locked_live _ _ _ _ (x, sz) Hlk) as (_ & Hxc & _).
      { apply elem_of_app. left. by apply ranges_in. }
      by apply Forall_cons in Hxc as [Hxc _]. }
    unfold_sizes. solve_aparts.
Qed.

Lemma nobody_insert hs i h' : nobody hs -> inside h'.2 = false -> nobody (<[i := h']> hs).
Proof.
  intros Hn Hh j h Hj. destruct (decide (j = i)) as [->|Hne].
  - apply list_lookup_insert_Some in Hj as [(_ & <- & _)|[? _]]; done.
  - rewrite list_lookup_insert_ne in Hj by done. by eapply Hn.
Qed.

Lemma holder_insert hs i h h' l m j :
  holder hs l m j -> hs !! i = Some h -> inside h.2 = false -> inside h'.2 = false ->
  holder (<[i := h']> hs) l m j.
Proof.
  intros (hj & Hj & Hin & Hf & Hu) Hi Hh Hh'. assert (i <> j) by (intros ->; congruence).
  exists hj. rewrite list_lookup_insert_ne by done. split_and!; [done..|].
  intros k hk Hk Hink. destruct (decide (k = i)) as [->|Hne].
  - apply list_lookup_insert_Some in Hk as [(_ & <- & _)|[? _]]; congruence.
  - rewrite list_lookup_insert_ne in Hk by done. by eapply Hu.
Qed.

Lemma holder_new hs i h h' l m :
  (forall j hj, hs !! j = Some hj -> inside hj.2 = true -> j = i) -> hs !! i = Some h ->
  inside h'.2 = true -> facts h'.2 l m -> holder (<[i := h']> hs) l m i.
Proof.
  intros Hn Hi Hin Hf. exists h'. split_and!; [|done..|].
  - apply list_lookup_insert_eq. by eapply lookup_lt_Some.
  - intros j hj Hj Hinj. destruct (decide (j = i)) as [->|Hne]; [done|].
    rewrite list_lookup_insert_ne in Hj by done. by eapply Hn.
Qed.

Lemma nobody_new hs i h' :
  (forall j hj, hs !! j = Some hj -> inside hj.2 = true -> j = i) -> inside h'.2 = false ->
  nobody (<[i := h']> hs).
Proof.
  intros Hn Hin j hj Hj. destruct (inside hj.2) eqn:Hinj; [|done].
  destruct (decide (j = i)) as [->|Hne].
  - apply list_lookup_insert_Some in Hj as [(_ & <- & _)|[? _]]; [congruence|done].
  - rewrite list_lookup_insert_ne in Hj by done. by destruct Hne; eapply Hn.
Qed.

(** The facts of the hart inside, when another hart has written. *)
Lemma holder_write k s l hs i objs p j m rs :
  locked k s (slab l) cs (ranges (all_mine hs) ++ live) ->
  hs !! i = Some (objs, p) -> inside p = false -> holder hs l (k_mem s) j ->
  rs ⊆ ranges objs ++ live \/ rs = [(lock, 4)] -> mods rs (k_mem s) m -> holder hs l m j.
Proof.
  intros Hlk Hi Hp (h & Hj & Hin & Hf & Hu) Hrs Hm. exists h. split_and!; [done..| |done].
  destruct (all_mine_at hs j h Hj) as (rest & Hperm & _ & Hsub).
  assert (Hij : i <> j) by (intros ->; rewrite Hi in Hj; injection Hj as <-; simpl in Hin; congruence).
  specialize (Hsub i (objs, p) Hij Hi). unfold mine in Hsub. simpl in Hsub.
  eapply facts_write; [by eapply locked_front| |exact Hm|exact Hf].
  destruct Hrs as [Hrs|?]; [left|by right]. intros r [Hr|Hr]%Hrs%elem_of_app; rewrite !elem_of_app; [|auto].
  right. left. unfold ranges in *. apply list_elem_of_fmap in Hr as (x & -> & Hx).
  apply list_elem_of_fmap. exists x. split; [done|]. apply Hsub, elem_of_app. by right.
Qed.

(** A step that leaves the cache and its clients' memory as they were but for
    the lock word. *)
Lemma inv_lock_word k' s hs i objs p l k :
  locked k s (slab l) cs (ranges (all_mine hs) ++ live) -> u32 k' ->
  hs !! i = Some (objs, p) ->
  let s' := set_mem s (put32 (k_mem s) lock k') in
  locked k' s' (slab l) cs (ranges (all_mine hs) ++ live) /\ others_kept i hs s s'.
Proof.
  intros Hlk Hk' Hi s'. destruct (set_lock_step k k' _ _ _ _ Hk' Hlk) as [Hlk' Hk].
  split; [exact Hlk'|]. eapply others_kept_keeps; [exact Hlk|exact Hi|exact Hk|]. set_solver.
Qed.

Lemma mine_step_inv s' hs i h h' :
  hs !! i = Some h -> mine h' ≡ₚ mine h ->
  forall k l, locked k s' (slab l) cs (ranges (all_mine hs) ++ live) ->
  locked k s' (slab l) cs (ranges (all_mine (<[i := h']> hs)) ++ live).
Proof.
  intros Hi Hm k l. apply locked_perm. apply Permutation_app_tail, ranges_perm.
  destruct (all_mine_at hs i h Hi) as (rest & -> & Hins & _). by rewrite Hins, Hm.
Qed.

(** A hart outside moves, and what others may see does not change. *)
Lemma outside_move s hs i h h' l k :
  locked k s (slab l) cs (ranges (all_mine hs) ++ live) ->
  (k = 0 /\ nobody hs \/ k = 1 /\ exists j, holder hs l (k_mem s) j) ->
  hs !! i = Some h -> mine h' ≡ₚ mine h -> inside h.2 = false -> inside h'.2 = false ->
  slab_race_inv (mkSlabRace s (<[i := h']> hs)).
Proof.
  intros Hlk Hwho Hi Hm Hh Hh'. exists l, k. split; [by eapply mine_step_inv|].
  destruct Hwho as [[-> Hn]|[-> [j Hj]]]; [left|right]; (split; [done|]).
  - by apply nobody_insert.
  - exists j. by eapply holder_insert.
Qed.

Lemma run_ret_inv {A B} (c : M A) (f : A -> B) s b s' :
  (x <- c ;; ret (f x)) s = Ok b s' -> exists a, c s = Ok a s' /\ b = f a.
Proof. unfold bind, ret. destruct (c s); [|done..]. intros [= <- <-]. eauto. Qed.

Lemma spin_enters_inv s s' hs i objs op q p' l k :
  locked k s (slab l) cs (ranges (all_mine hs) ++ live) ->
  (k = 0 /\ nobody hs \/ k = 1 /\ exists j, holder hs l (k_mem s) j) ->
  q = Xchg \/ q = Poll -> hs !! i = Some (objs, slab_enter op q) ->
  spin_step lock q s = Ok p' s' ->
  slab_race_inv (mkSlabRace s' (<[i := (objs, slab_enter op p')]> hs)) /\ others_kept i hs s s'.
Proof.
  intros Hlk Hwho Hq Hi Hrun. pose proof (locked_valid _ _ _ _ _ Hlk) as Hv. simpl in Hv.
  rewrite spin_step_run in Hrun by (unfold off_lock; solve_valid).
  assert (Hin : inside (slab_enter op q) = false) by (by destruct Hq as [-> | ->]).
  assert (Hmine : forall q', mine (objs, slab_enter op q') = mine (objs, slab_enter op q))
    by (intros []; destruct Hq as [-> | ->], op; done).
  assert (Hw : get32 (k_mem s) lock = k) by apply Hlk.
  destruct Hq as [-> | ->]; injection Hrun as <- <-; rewrite Hw.
  - destruct (inv_lock_word 1 s hs i _ _ l k Hlk ltac:(unfold u32; lia) Hi) as [Hlk1 Hk].
    split; [|exact Hk]. destruct Hwho as [[-> Hn]|[-> [j Hj]]];
      [change (0 =? 0) with true|change (1 =? 0) with false]; cbv iota.
    + exists l, 1. split; [eapply mine_step_inv; [exact Hi| |exact Hlk1]; by rewrite (Hmine Crit)|].
      right. split; [done|]. exists i. eapply holder_new; [|exact Hi|by destruct op|by destruct op].
      intros j hj Hj Hinj. apply Hn in Hj. congruence.
    + eapply outside_move; [exact Hlk1| |exact Hi| |done|done]; [|by rewrite (Hmine Poll)].
      right. split; [done|]. exists j. eapply holder_write; [exact Hlk|exact Hi|done|exact Hj|by right|].
      apply (mods_putw 4).
  - split; [|by intros ?].
    assert (He : exists q', (if k =? 0 then Xchg else Poll) = q' /\ (q' = Xchg \/ q' = Poll))
      by (destruct (k =? 0); eauto).
    destruct He as (q' & -> & Hq').
    eapply outside_move; [exact Hlk|exact Hwho|exact Hi|by rewrite (Hmine q')|done|].
    by destruct Hq' as [-> | ->].
Qed.

Lemma inside_step_inv s s' hs i objs p p' l k :
  locked k s (slab l) cs (ranges (all_mine hs) ++ live) ->
  (k = 0 /\ nobody hs \/ k = 1 /\ exists j, holder hs l (k_mem s) j) ->
  hs !! i = Some (objs, p) -> inside p = true -> slab_step p s = Ok p' s' ->
  slab_race_inv (mkSlabRace s' (<[i := (given p ++ objs, p')]> hs)) /\ others_kept i hs s s'.
Proof.
  intros Hlk Hwho Hi Hin Hrun.
  destruct Hwho as [[-> Hn]|[-> [j (hj & Hj & Hinj & Hf & Hu)]]]; [apply Hn in Hi; simpl in Hi; congruence|].
  pose proof (Hu _ _ Hi Hin) as <-. rewrite Hi in Hj. injection Hj as <-. simpl in Hf.
  destruct (all_mine_at hs i _ Hi) as (rest & Hp & Hins & _).
  pose proof (locked_front _ _ _ _ _ _ _ Hp Hi Hlk) as Hlk0. simpl in Hlk0.
  pose proof (inside_step p s l _ Hin Hlk0 Hf) as Hw. unfold wp in Hw. rewrite Hrun in Hw.
  destruct Hw as (Hk & l' & Hlk' & Hf'). split.
  - exists l', (if inside p' then 1 else 0). split.
    + eapply locked_perm; [|exact Hlk']. rewrite (ranges_perm _ _ (Hins _)). unfold mine. simpl.
      rewrite !ranges_app, <- !app_assoc. done.
    + destruct (inside p') eqn:Hip; [right|left]; (split; [done|]).
      * exists i. eapply holder_new; [exact Hu|exact Hi|done|by apply Hf'].
      * by eapply nobody_new.
  - eapply others_kept_keeps; [exact Hlk|exact Hi|exact Hk|]. intros r [->|Hr]%elem_of_cons; [by left|].
    right. unfold mine. simpl. rewrite ranges_app, !elem_of_app. auto.
Qed.

(** Every step keeps the invariant, and the objects of the other harts. *)
Lemma slab_race_step_inv i c c' :
  slab_race_inv c -> slab_race_step i c c' ->
  slab_race_inv c' /\ others_kept i (sr_harts c) (sr_state c) (sr_state c').
Proof.
  destruct 2 as [objs p p' s s' hs Hi Hp Hrun|objs s hs Hi|x objs objs' s hs Hi Hperm|objs s m hs Hi Hm];
    destruct H1 as (l & k & Hlk & Hwho).
  - destruct p as [|op|op| | | | | | | | | |]; try done;
      try (by eapply inside_step_inv);
      (unfold slab_step in Hrun; apply run_ret_inv in Hrun as (q & Hrun & ->);
       simpl given; simpl sr_harts; simpl sr_state).
    + eapply (spin_enters_inv _ _ _ _ _ op Xchg); eauto.
    + eapply (spin_enters_inv _ _ _ _ _ op Poll); eauto.
  - split; [|by intros ?]. by eapply outside_move.
  - split; [|by intros ?]. eapply outside_move; [exact Hlk|exact Hwho|exact Hi| |done|done].
    unfold mine. simpl. by rewrite Hperm.
  - destruct (all_mine_at hs i _ Hi) as (rest & Hp & Hins & Hsub).
    pose proof (locked_front _ _ _ _ _ _ _ Hp Hi Hlk) as Hlk0. simpl in Hlk0.
    destruct (locked_write k s l _ (ranges objs ++ live) m Hlk0 ltac:(set_solver) Hm) as [Hlk' Hk].
    split.
    + exists l, k. split.
      * eapply locked_perm; [|exact Hlk']. by rewrite (ranges_perm _ _ Hp), ranges_app, <- app_assoc.
      * destruct Hwho as [?|[-> [j Hj]]]; [by left|right]. split; [done|]. exists j.
        eapply holder_write; [exact Hlk|exact Hi|done|exact Hj|by left|exact Hm].
    + eapply others_kept_keeps; [exact Hlk|exact Hi|exact Hk|]. set_solver.
Qed.

Lemma slab_race_start_inv c : slab_race_start c -> slab_race_inv c.
Proof.
  destruct c as [s hs]. intros [Hrun [l Hh]]. simpl in *. exists l, 0. split; [by apply heap_locked|].
  left. split; [done|]. intros i h Hi. by rewrite (proj1 (Forall_lookup _ _) Hrun i h Hi).
Qed.

Lemma slab_race_reach_inv c0 c : slab_race_start c0 -> slab_race_reach c0 c -> slab_race_inv c.
Proof.
  intros Hst. induction 1 as [|c i c' _ IH Hs]; [by apply slab_race_start_inv|].
  by eapply slab_race_step_inv.
Qed.

(** A hart is never stuck at an access, but for want of a frame. *)
Lemma slab_race_inv_runs s hs i objs p :
  slab_race_inv (mkSlabRace s hs) -> hs !! i = Some (objs, p) ->
  wp (slab_step p) s (fun _ _ => True) (fun _ => p = SGrow /\ exhausted s).
Proof.
  intros (l & k & Hlk & Hwho) Hi. pose proof (locked_valid _ _ _ _ _ Hlk) as Hv. simpl in Hv.
  destruct (inside p) eqn:Hin.
  - destruct Hwho as [[-> Hn]|[-> [j (hj & Hj & _ & Hf & Hu)]]]; [apply Hn in Hi; simpl in Hi; congruence|].
    pose proof (Hu _ _ Hi Hin) as <-. rewrite Hi in Hj. injection Hj as <-.
    destruct (all_mine_at hs i _ Hi) as (rest & Hp & _).
    eapply wp_mono; [eapply inside_step; [exact Hin| |exact Hf]|done|done].
    by apply (locked_front _ _ _ _ _ _ _ Hp Hi Hlk).
  - destruct p; try done; unfold slab_step; apply wp_bind; unfold wp at 1;
      by rewrite spin_step_run by (unfold off_lock; solve_valid).
Qed.

(** ** One hart alone *)

(** The accesses of a call run one after the other, and what it returns. *)
Definition slab_alone_step (p : slab_place) : M (slab_place + Z) :=
  q <- slab_step p ;;
  ret (match p with SGive node => inr node | SLeave => inr 0 | _ => inl q end).
Definition slab_alone (op : slab_op) : M Z := while slab_alone_step (SLock op).

(** The code the accesses come from. *)
Definition slab_call (op : slab_op) : M Z :=
  match op with
  | OpAlloc => slab_alloc cache
  | OpFree x => slab_free cache x ;; ret 0
  end.

Lemma slab_alone_stuck op s :
  valid lock 4 = true -> get32 (k_mem s) lock <> 0 ->
  slab_alone op s = Hung (set_mem s (put32 (k_mem s) lock 1)).
Proof.
  intros Hv Hl. apply Z.eqb_neq in Hl. set (s1 := set_mem s (put32 (k_mem s) lock 1)).
  assert (Hl1 : get32 (k_mem s1) lock =? 0 = false).
  { apply Z.eqb_neq. unfold s1. simpl. rewrite (getw_putw 4) by lia. lia. }
  destruct (while_stuck_in (fun p s' => p = SPoll op /\ s' = s1) slab_alone_step (SLock op) s (SPoll op) s1)
    as (y & s' & [-> ->] & Hh).
  - unfold slab_alone_step, slab_step, bind. rewrite spin_step_run by done. by rewrite Hl.
  - done.
  - intros p s' [-> ->]. exists (SPoll op), s1. split; [|done].
    unfold slab_alone_step, slab_step, bind. rewrite spin_step_run by done. by rewrite Hl1.
  - exact Hh.
Qed.

Lemma slab_rounds n p s :
  run_all (S n) slab_alone_step p s =
  match slab_step p s with
  | Ok q s' => match p with
               | SGive node => Some (Ok node s')
               | SLeave => Some (Ok 0 s')
               | _ => run_all n slab_alone_step q s'
               end
  | Panicked s' => Some (Panicked s')
  | Hung s' => Some (Hung s')
  | Fault s' => Some (Fault s')
  end.
Proof. simpl. unfold slab_alone_step, bind at 1. by destruct (slab_step p s), p. Qed.

(** The next access of the call, on both sides. *)
Ltac slab_round :=
  rewrite slab_rounds; cbn [slab_step]; unfold bind, ret;
  match goal with
  | |- context [load64 ?a ?s] => destruct (load64 a s); [|done..]
  | |- context [store64 ?a ?v ?s] => destruct (store64 a v s); [|done..]
  | |- context [slab_grow ?a ?s] => destruct (slab_grow a s); [|done..]
  | |- context [spin_unlock ?a ?s] => destruct (spin_unlock a s); [|done..]
  end.

Ltac slab_test := match goal with |- context [?x =? 0] => destruct (Z.eqb_spec x 0) end; cbn [negb].

Lemma slab_alone_run op s :
  valid lock 4 = true -> cache <> 0 -> op <> OpFree 0 -> slab_alone op s = slab_call op s.
Proof.
  intros Hv Hc Hx. assert (Hc' : (cache =? 0) = false) by (by apply Z.eqb_neq).
  assert (Hcall : forall s1, spin_lock lock s = Hung s1 -> slab_call op s = Hung s1).
  { intros s1 Hs. unfold slab_call, slab_alloc, slab_free. rewrite Hc'. destruct op as [|x]; unfold bind.
    - by rewrite Hs.
    - rewrite (proj2 (Z.eqb_neq x 0)) by congruence. simpl. by rewrite Hs. }
  destruct (decide (get32 (k_mem s) lock = 0)) as [Hl|Hl];
    [|rewrite slab_alone_stuck by done; symmetry; by apply Hcall, while_held_hangs].
  clear Hcall. set (s1 := set_mem s (put32 (k_mem s) lock 1)).
  assert (Hs : spin_lock lock s = Ok tt s1) by (apply safe_eq; by apply wp_spin_lock).
  assert (Hx1 : spin_step lock Xchg s = Ok Crit s1) by (rewrite spin_step_run by done; by rewrite Hl).
  unfold slab_alone, slab_call, slab_alloc, slab_free. rewrite Hc'.
  eapply (while_run_all 7); [done|].
  destruct op as [|x]; [|rewrite (proj2 (Z.eqb_neq x 0)) by congruence];
    cbn [orb]; unfold bind, ret, when; rewrite Hs; rewrite slab_rounds; cbn [slab_step];
    unfold bind at 1; rewrite Hx1; cbn [ret slab_enter].
  - slab_round. slab_test; [slab_round|]; slab_round; slab_test; repeat slab_round; congruence.
  - repeat slab_round; done.
Qed.
End race.

(** ** Properties *)

Section properties.
Context `{Console}.

(** C5: Harts that allocate from one cache, and free into it, do not disturb each
    other.  In every interleaving of the accesses of [slab_alloc] and
    [slab_free]: one hart at most is between lock and unlock; the objects the
    harts have, those on their way in and out included, overlap neither each
    other, nor the free ones, nor the cache; whenever no hart is inside, the
    heap is as [slab_alloc] alone requires it; no step touches the objects of
    another hart; and no access faults, or panics but for want of a frame. *)
Theorem slab_between_harts cache sz cs live c0 c :
  slab_race_start cache sz cs live c0 -> slab_race_reach cache sz live c0 c ->
  (forall i j hi hj, sr_harts c !! i = Some hi -> sr_harts c !! j = Some hj ->
     inside hi.2 = true -> inside hj.2 = true -> i = j) /\
  (exists l, area (sr_state c)
     (cells (mkCache cache sz l) ++ (cs ≫= cells) ++ ranges sz (all_mine (sr_harts c)) ++ live)) /\
  (nobody (sr_harts c) -> exists l,
     heap (sr_state c) (mkCache cache sz l :: cs) (ranges sz (all_mine (sr_harts c)) ++ live)) /\
  (forall i c', slab_race_step cache sz live i c c' ->
     others_kept sz i (sr_harts c) (sr_state c) (sr_state c')) /\
  (forall i objs p, sr_harts c !! i = Some (objs, p) ->
     wp (slab_step cache p) (sr_state c) (fun _ _ => True)
        (fun _ => p = SGrow /\ (free_set (sr_state c) = ∅ \/ free_frames (k_pmm (sr_state c)) = 0))).
Proof.
  intros Hs Hr. pose proof (slab_race_reach_inv _ _ _ _ _ _ Hs Hr) as Hinv.
  destruct c as [s hs]. pose proof Hinv as (l & k & Hlk & Hwho). simpl. split_and!.
  - intros i j hi hj Hi Hj Hii Hij.
    destruct Hwho as [[_ Hn]|[_ [n (h & _ & _ & _ & Hu)]]]; [apply Hn in Hi; congruence|].
    by rewrite (Hu _ _ Hi Hii), (Hu _ _ Hj Hij).
  - exists l. by destruct Hlk.
  - intros Hn. exists l. apply heap_locked.
    destruct Hwho as [[-> _]|[_ [n (h & Hi & Hin & _)]]]; [done|]. apply Hn in Hi. congruence.
  - intros i c' Hst. by eapply (slab_race_step_inv cache sz cs live) in Hst as [_ ?].
  - intros i objs p Hi. by eapply slab_race_inv_runs.
Qed.

(** C32: The steps of one hart are the code: run with no other hart they do what
    [slab_alloc] and [slab_free] do, in every state, also one where the lock is
    held or an access faults. *)
Theorem slab_alone_is_slab_alloc cache x s :
  valid (cache + off_lock) 4 = true -> cache <> 0 -> x <> 0 ->
  slab_alone cache OpAlloc s = slab_alloc cache s /\
  slab_alone cache (OpFree x) s = (slab_free cache x ;; ret 0) s.
Proof.
  intros Hv Hc Hx. split.
  - by apply (slab_alone_run cache OpAlloc).
  - apply (slab_alone_run cache (OpFree x)); [done..|congruence].
Qed.
End properties.

(** ** Two harts and one cache *)

Section two_harts.
Context `{Console} (cache sz : Z) (live : list (Z * Z)).

(** Hart [i] takes its turn: a call when it is in none, to free what it got
    first or else to allocate; or the next access of its call. *)
Definition slab_turn (i : nat) (c : slab_race) : option slab_race :=
  let '(mkSlabRace s hs) := c in
  match hs !! i with
  | Some ([], SRun) => Some (mkSlabRace s (<[i := ([], SLock OpAlloc)]> hs))
  | Some (x :: objs, SRun) => Some (mkSlabRace s (<[i := (objs, SLock (OpFree x))]> hs))
  | Some (objs, p) =>
      match slab_step cache p s with
      | Ok p' s' => Some (mkSlabRace s' (<[i := (given p ++ objs, p')]> hs))
      | _ => None
      end
  | None => None
  end.

Fixpoint slab_turns (turns : list nat) (c : slab_race) : option slab_race :=
  match turns with
  | [] => Some c
  | i :: turns => match slab_turn i c with Some c' => slab_turns turns c' | None => None end
  end.

Lemma slab_turn_step i c c' : slab_turn i c = Some c' -> slab_race_step cache sz live i c c'.
Proof.
  destruct c as [s hs]. unfold slab_turn. intros Ht.
  destruct (hs !! i) as [[objs p]|] eqn:Hi; [|done]. destruct (decide (p = SRun)) as [->|Hp].
  - destruct objs as [|x objs]; injection Ht as <-; [by apply sr_alloc|by eapply sr_free].
  - assert (Hl : match slab_step cache p s with
                 | Ok p' s' => Some (mkSlabRace s' (<[i := (given p ++ objs, p')]> hs))
                 | _ => None end = Some c') by (by destruct p, objs).
    destruct (slab_step cache p s) eqn:Hr; simplify_eq. by eapply sr_local.
Qed.

Lemma slab_turns_reach turns c0 c c' :
  slab_race_reach cache sz live c0 c -> slab_turns turns c = Some c' -> slab_race_reach cache sz live c0 c'.
Proof.
  revert c. induction turns as [|i turns IH]; intros c Hr Ht; simpl in Ht; [by simplify_eq|].
  destruct (slab_turn i c) as [c1|] eqn:Hc; [|done]. eapply IH; [|exact Ht].
  eapply sr_trans; [exact Hr|by apply slab_turn_step].
Qed.
End two_harts.

(** Hart 0 gets an object out of a fresh frame while hart 1 waits; then hart 1
    is inside and hart 0 is about to free its object. *)
Definition slab_race_from : slab_race := mkSlabRace slab_demo [([], SRun); ([], SRun)].
Definition slab_schedule : list nat :=
  [0; 1; 0; 1; 0; 1; 0; 1; 0; 0; 0; 0; 1; 1; 1; 0; 0; 1]%nat.
Definition slab_race_demo : slab_race :=
  default slab_race_from (slab_turns (H := arm64_virt) 0x40104FD0 slab_schedule slab_race_from).

Lemma slab_race_from_start :
  slab_race_start (H := arm64_virt) 0x40104FD0 1000 [demo_meta] [] slab_race_from.
Proof. split; [by repeat constructor|]. exists []. exact slab_demo_heap. Qed.

Lemma slab_race_demo_reach :
  slab_race_reach (H := arm64_virt) 0x40104FD0 1000 [] slab_race_from slab_race_demo.
Proof.
  assert (Hrun : (if slab_turns (H := arm64_virt) 0x40104FD0 slab_schedule slab_race_from then true else false) = true)
    by (vm_compute; reflexivity).
  unfold slab_race_demo.
  destruct (slab_turns (H := arm64_virt) 0x40104FD0 slab_schedule slab_race_from) eqn:Ht; [|discriminate Hrun].
  by eapply (@slab_turns_reach arm64_virt _ 1000 [] slab_schedule); [apply sr_refl|].
Qed.

Lemma slab_between_harts_witness :
  sr_harts slab_race_demo = [([], SPoll (OpFree 0x40105BC8)); ([], SNext 0x401057E0)] /\
  (exists l, area (H := arm64_virt) (sr_state slab_race_demo)
     (cells (mkCache 0x40104FD0 1000 l) ++ cells demo_meta ++ [(0x40105BC8, 1000)])).
Proof.
  split; [vm_compute; reflexivity|].
  destruct (@slab_between_harts arm64_virt arm64_console _ _ _ _ _ _
              slab_race_from_start slab_race_demo_reach) as (_ & [l Ha] & _).
  exists l. exact Ha.
Defined.

Lemma slab_alone_is_slab_alloc_witness :
  slab_alone (H := arm64_virt) 0x40104FD0 OpAlloc slab_demo = slab_alloc (H := arm64_virt) 0x40104FD0 slab_demo /\
  slab_alone (H := riscv_virt) 0x80210000 (OpFree 8) cold_state =
    (slab_free (H := riscv_virt) 0x80210000 8 ;; ret 0) cold_state.
Proof.
  split.
  - exact (proj1 (@slab_alone_is_slab_alloc arm64_virt 0x40104FD0 1 slab_demo eq_refl ltac:(lia) ltac:(lia))).
  - exact (proj2 (@slab_alone_is_slab_alloc riscv_virt 0x80210000 8 cold_state eq_refl ltac:(lia) ltac:(lia))).
Defined.
