(* ===== verification/Kheap.v ===== *)
(** * The kernel heap: base/mm/kheap.c

    [kmalloc] serves requests of up to 2048 bytes from eight slab caches and
    larger ones from contiguous frames; every block starts with a 16-byte
    header that records its size and its cache. *)

From Stdlib Require Import String.
From S2P Require Import Prelude Machine Logic Console Boards Sync Str Boot Pmm Heap Slab.

#[local] Open Scope string_scope.
#[local] Open Scope list_scope.
#[local] Open Scope Z_scope.

Definition KMALLOC_MIN_SIZE : Z := 16.
Definition NUM_SLAB_BUCKETS : nat := 8.
Definition sizeof_alloc_header : Z := 16. (* { size; cache } *)

Section kheap.
Context `{Platform}.

(** ** Operations *)

Definition get_bucket_index (size : Z) : Z :=
  if size <=? 16 then 0
  else if size <=? 32 then 1
  else if size <=? 64 then 2
  else if size <=? 128 then 3
  else if size <=? 256 then 4
  else if size <=? 512 then 5
  else if size <=? 1024 then 6
  else if size <=? 2048 then 7
  else -1.

Definition set_cache (i : nat) (c : Z) : M unit :=
  modify (fun s => set_kheap s (mkKheap (<[i := c]> (kmalloc_caches (k_kheap s)))
                                        (kheap_initialized (k_kheap s)))).

(** [kmalloc_caches[i]]. *)
Definition cache_at (i : Z) : M Z := gets (fun s => nth (Z.to_nat i) (kmalloc_caches (k_kheap s)) 0).

(** The loop of [kheap_init] from bucket [i] on, with [n] buckets to go. *)
Fixpoint init_buckets (n i : nat) (bucket_size : Z) : M unit :=
  match n with
  | O => ret tt
  | S n' =>
      c <- slab_cache_create (wrap64 (bucket_size + sizeof_alloc_header)) ;;
      set_cache i c ;;
      c' <- cache_at (Z.of_nat i) ;;
      (if c' =? 0 then panic "mm" "kheap_init: failed to initialize slab bucket" [] else ret tt) ;;
      init_buckets n' (S i) (wrap64 (Z.shiftl bucket_size 1))
  end.

Definition kheap_init : M unit :=
  k <- gets k_kheap ;;
  if kheap_initialized k then ret tt
  else
    init_buckets NUM_SLAB_BUCKETS 0 KMALLOC_MIN_SIZE ;;
    modify (fun s => set_kheap s (mkKheap (kmalloc_caches (k_kheap s)) true)) ;;
    klog_info "mm" "kernel heap initialized" [].

(** [ALIGN_UP(total_size, PAGE_SIZE) / PAGE_SIZE] for a block of [size] bytes
    and its header. *)
Definition num_pages (size : Z) : Z :=
  ALIGN_UP (wrap64 (size + sizeof_alloc_header)) PAGE_SIZE / PAGE_SIZE.

(** The frames of a large block after its first one. *)
Definition alloc_contiguous (phys size : Z) : M unit :=
  for_n (Z.to_nat (num_pages size - 1)) 1 (fun i =>
    next_phys <- pmm_alloc_frame ;;
    if negb (next_phys =? wrap64 (phys + i * PAGE_SIZE)) then
      panic "mm" "kmalloc: non-contiguous frame allocation for large request" []
    else ret tt).

Definition kmalloc (size : Z) : M Z :=
  if size =? 0 then ret 0
  else
    k <- gets k_kheap ;;
    if negb (kheap_initialized k) then panic "mm" "kmalloc called before kheap_init" []
    else
      let bucket := get_bucket_index size in
      if negb (bucket =? -1) then
        cache <- cache_at bucket ;;
        header <- slab_alloc cache ;;
        if header =? 0 then ret 0
        else
          store64 header size ;;
          store64 (header + 8) cache ;;
          ret (wrap64 (header + sizeof_alloc_header))
      else
        phys <- pmm_alloc_frame ;;
        if phys =? 0 then ret 0
        else
          alloc_contiguous phys size ;;
          store64 phys size ;;
          store64 (phys + 8) 0 ;;
          ret (wrap64 (phys + sizeof_alloc_header)).

(** The loop that gives the frames of a large block back. *)
Definition free_pages (phys size : Z) : M unit :=
  for_n (Z.to_nat (num_pages size)) 0 (fun i => pmm_free_frame (wrap64 (phys + i * PAGE_SIZE))).

Definition kfree (ptr : Z) : M unit :=
  if ptr =? 0 then ret tt
  else
    let header := wrap64 (ptr - sizeof_alloc_header) in
    cache <- load64 (header + 8) ;;
    if negb (cache =? 0) then slab_free cache header
    else
      size <- load64 header ;;
      free_pages header size.

Definition kcalloc (num size : Z) : M Z :=
  let total := wrap64 (num * size) in
  if negb (num =? 0) && negb (total / num =? size) then ret 0
  else
    ptr <- kmalloc total ;;
    when (negb (ptr =? 0)) (for_n (Z.to_nat total) 0 (fun i => store8 (ptr + i) 0)) ;;
    ret ptr.

Definition krealloc (ptr new_size : Z) : M Z :=
  if ptr =? 0 then kmalloc new_size
  else if new_size =? 0 then kfree ptr ;; ret 0
  else
    old_size <- load64 (wrap64 (ptr - sizeof_alloc_header)) ;;
    if new_size <=? old_size then ret ptr
    else
      new_ptr <- kmalloc new_size ;;
      if new_ptr =? 0 then ret 0
      else
        for_n (Z.to_nat old_size) 0 (fun i => b <- load8 (ptr + i) ;; store8 (new_ptr + i) b) ;;
        kfree ptr ;;
        ret new_ptr.

Definition kfree_sized (ptr size : Z) : M unit :=
  if ptr =? 0 then ret tt
  else
    let header := wrap64 (ptr - sizeof_alloc_header) in
    let bucket := get_bucket_index size in
    if negb (bucket =? -1) then
      cache <- cache_at bucket ;;
      slab_free cache header
    else free_pages header size.

(** ** Blocks *)

(** A block in use: its header, the size asked for, and its cache (0 for a
    block made of frames). *)
Record block := mkBlock { b_hdr : Z; b_size : Z; b_cache : Z }.

Definition pages_of (size : Z) : Z := (size + 16 + 4095) / 4096.

(** The pages [lo], ..., [lo + n - 1] of a run of frames at [f]. *)
Definition pages (f lo n : Z) : list (Z * Z) := map (fun j => (f + j * 4096, 4096)) (seqZ lo n).

(** The memory of a block: an object of its bucket, or its frames. *)
Definition extents (b : block) : list (Z * Z) :=
  if b_cache b =? 0
  then pages (b_hdr b) 0 (pages_of (b_size b))
  else [(b_hdr b, 16 * 2 ^ get_bucket_index (b_size b) + 16)].

(** The object sizes of the eight buckets. *)
Definition bucket_sizes : list Z := map (fun i => 16 * 2 ^ i + 16) (seqZ 0 8).

Record block_ok (s : kstate) (b : block) : Prop := {
  bk_size : get64 (k_mem s) (b_hdr b) = b_size b;
  bk_cache : get64 (k_mem s) (b_hdr b + 8) = b_cache b;
  bk_bounds : 0 < b_size b < 2 ^ 63;
  bk_small : b_size b <= 2048 ->
    kmalloc_caches (k_kheap s) !! Z.to_nat (get_bucket_index (b_size b)) = Some (b_cache b) /\ b_cache b <> 0;
  bk_large : 2048 < b_size b -> b_cache b = 0 /\
    exists i, 0 <= i /\ i + pages_of (b_size b) <= total_frames (k_pmm s) /\ b_hdr b = frame_addr s i
}.

(** The kernel heap with the blocks [bs] in use, next to other caches [cs] and
    other memory [live]. *)
Record kheap_rep (s : kstate) (bs : list block) (cs : list cache_t) (live : list (Z * Z)) : Prop := {
  kr_init : kheap_initialized (k_kheap s) = true;
  kr_blocks : Forall (block_ok s) bs;
  kr_heap : exists ks, map c_addr ks = kmalloc_caches (k_kheap s) /\ map c_size ks = bucket_sizes /\
              heap s (ks ++ cs) ((bs ≫= extents) ++ live)
}.
End kheap.

Ltac unfold_sizes ::=
  unfold off_obj_size, off_slabs, off_head, off_lock, sizeof_slab_cache, sizeof_frame,
    sizeof_free_node, alignof_ptr, sizeof_alloc_header, PAGE_SIZE in *.

Section kheap_lemmas.
Context `{Console}.

(** ** Sizes *)

Lemma bucket_spec size :
  0 < size -> size <= 2048 ->
  0 <= get_bucket_index size < 8 /\ size <= 16 * 2 ^ get_bucket_index size /\
  (get_bucket_index size = 0 \/ 16 * 2 ^ (get_bucket_index size - 1) < size).
Proof.
  intros H1 H2. unfold get_bucket_index.
  repeat match goal with |- context [size <=? ?k] => destruct (Z.leb_spec size k) end;
    try lia; (split; [lia|split; [simpl; lia|]]); try (by left); right; simpl; lia.
Qed.

Lemma bucket_large size : 2048 < size -> get_bucket_index size = -1.
Proof.
  intros Hs. unfold get_bucket_index.
  repeat match goal with |- context [size <=? ?k] => destruct (Z.leb_spec size k) end; lia.
Qed.

Lemma num_pages_eq size : 0 <= size < 2 ^ 63 -> num_pages size = pages_of size.
Proof.
  intros Hs. unfold num_pages, pages_of. unfold_sizes. rewrite wrap64_small by (unfold u64; lia).
  change 4096 with (2 ^ 12). rewrite ALIGN_UP_eq by lia. rewrite Z.div_mul by lia. done.
Qed.

Lemma pages_pos size : 0 <= size -> 1 <= pages_of size.
Proof. intros Hs. unfold pages_of. Z.div_mod_to_equations; lia. Qed.

Lemma bucket_cache s (ks : list cache_t) size :
  map c_addr ks = kmalloc_caches (k_kheap s) -> map c_size ks = bucket_sizes -> 0 < size <= 2048 ->
  exists c, ks !! Z.to_nat (get_bucket_index size) = Some c /\ c_size c = 16 * 2 ^ get_bucket_index size + 16 /\
            kmalloc_caches (k_kheap s) !! Z.to_nat (get_bucket_index size) = Some (c_addr c).
Proof.
  intros Ha Hs Hz. destruct (bucket_spec size) as (Hb & _ & _); [lia..|].
  set (i := Z.to_nat (get_bucket_index size)).
  assert (Hbs : bucket_sizes !! i = Some (16 * 2 ^ get_bucket_index size + 16)).
  { unfold bucket_sizes. rewrite list_lookup_fmap. rewrite lookup_seqZ_lt by lia. 
    unfold i. simpl. by rewrite Z2Nat.id by lia. }
  rewrite <- Hs, list_lookup_fmap in Hbs. destruct (ks !! i) as [c|] eqn:Hc; [|done].
  exists c. simpl in Hbs. injection Hbs as Hbs. split; [done|]. split; [done|].
  rewrite <- Ha, list_lookup_fmap, Hc. done.
Qed.

Lemma cache_addr_pos s c cs live : heap s (c :: cs) live -> 0 < c_addr c < 2 ^ 64.
Proof.
  intros Hh. apply heap_locked in Hh. destruct (locked_facts _ _ _ _ _ Hh) as (_ & Ho & _).
  destruct Ho. lia.
Qed.

(** ** Blocks and steps that do not touch them *)

Lemma block_header s b : block_ok s b -> exists n, (b_hdr b, n) ∈ extents b /\ 32 <= n.
Proof.
  intros Hb. destruct (bk_bounds _ _ Hb) as [Hs _]. unfold extents. destruct (Z.eqb_spec (b_cache b) 0).
  - exists 4096. split; [|lia]. unfold pages. apply list_elem_of_fmap. exists 0. split; [f_equal; lia|].
    apply elem_of_seqZ. pose proof (pages_pos (b_size b)). lia.
  - eexists. split; [by left|]. destruct (Z_le_gt_dec (b_size b) 2048) as [Hsz|Hsz].
    + destruct (bucket_spec (b_size b)) as (Hi & _); [lia..|].
      assert (2 ^ 0 <= 2 ^ get_bucket_index (b_size b)) by (apply Z.pow_le_mono_r; lia). lia.
    + by destruct (bk_large _ _ Hb); [lia|].
Qed.

Lemma block_ok_same s s' b :
  same_bytes (extents b) s s' -> k_kheap s' = k_kheap s ->
  total_frames (k_pmm s') = total_frames (k_pmm s) -> mem_phys_base (k_pmm s') = mem_phys_base (k_pmm s) ->
  block_ok s b -> block_ok s' b.
Proof.
  intros Hs Hk Ht Hb Hok. destruct (block_header s b Hok) as (n & Hin & Hn).
  destruct Hok as [Hsz Hc Hbd Hsm Hlg].
  split; [|..|done| |].
  - rewrite <- Hsz. apply (same_bytes_getw _ _ _ _ _ 8 _ Hs Hin); lia.
  - rewrite <- Hc. apply (same_bytes_getw _ _ _ _ _ 8 _ Hs Hin); lia.
  - by rewrite Hk.
  - unfold frame_addr. by rewrite Ht, Hb.
Qed.

Lemma blocks_ok_same s s' bs :
  same_bytes (bs ≫= extents) s s' -> k_kheap s' = k_kheap s ->
  total_frames (k_pmm s') = total_frames (k_pmm s) -> mem_phys_base (k_pmm s') = mem_phys_base (k_pmm s) ->
  Forall (block_ok s) bs -> Forall (block_ok s') bs.
Proof.
  intros Hs Hk Ht Hb. induction bs as [|b bs IH]; intros Hall; [done|].
  apply Forall_cons in Hall as [Hx Hall]. rewrite bind_cons in Hs. apply same_bytes_app in Hs as [Hs1 Hs2].
  apply Forall_cons. split; [by eapply block_ok_same|by apply IH].
Qed.

Lemma heap_only_kheap s s' : heap_only s s' -> k_kheap s' = k_kheap s.
Proof. by intros (m & p & ->). Qed.

(** ** kmalloc *)

(** The bucket of a size, in front of the other caches. *)
Lemma kheap_bucket s ks cs live size :
  map c_addr ks = kmalloc_caches (k_kheap s) -> map c_size ks = bucket_sizes ->
  heap s (ks ++ cs) live -> 0 < size <= 2048 ->
  exists a l, let c := mkCache a (16 * 2 ^ get_bucket_index size + 16) l in
    ks !! Z.to_nat (get_bucket_index size) = Some c /\ 0 < a < 2 ^ 64 /\
    kmalloc_caches (k_kheap s) !! Z.to_nat (get_bucket_index size) = Some a /\
    heap s (c :: delete (Z.to_nat (get_bucket_index size)) ks ++ cs) live.
Proof.
  intros Ha Hs Hh Hz. destruct (bucket_cache s ks size Ha Hs Hz) as ([a sz l] & Hc & Hsz & Hi).
  simpl in Hsz, Hi. subst sz. exists a, l. split; [done|].
  assert (Hh' : heap s (mkCache a (16 * 2 ^ get_bucket_index size + 16) l ::
                        delete (Z.to_nat (get_bucket_index size)) ks ++ cs) live).
  { rewrite app_comm_cons. by rewrite <- (delete_Permutation ks _ _ Hc). }
  split; [|by split]. by apply (cache_addr_pos _ _ _ _ Hh').
Qed.

(** The caches after the free list of one of them changed. *)
Lemma kheap_bucket_update s ks cs live i a sz l l' :
  ks !! i = Some (mkCache a sz l) -> heap s (mkCache a sz l' :: delete i ks ++ cs) live ->
  let ks' := <[i := mkCache a sz l']> ks in
  map c_addr ks' = map c_addr ks /\ map c_size ks' = map c_size ks /\ heap s (ks' ++ cs) live.
Proof.
  intros Hc Hh ks'. unfold ks'. split; [|split].
  - rewrite (list_fmap_insert c_addr). apply list_insert_id. by rewrite list_lookup_fmap, Hc.
  - rewrite (list_fmap_insert c_size). apply list_insert_id. by rewrite list_lookup_fmap, Hc.
  - by rewrite (insert_Permutation ks i _ _ Hc).
Qed.

(** Writing the header at the start of [r] in use. *)
Lemma wp_header {A} s cs x n live size cache (k : M A) Q E :
  heap s cs ((x, n) :: live) -> 16 <= n -> u64 size -> u64 cache ->
  (forall s', heap s' cs ((x, n) :: live) -> keeps [(x, n)] s s' ->
     get64 (k_mem s') x = size -> get64 (k_mem s') (x + 8) = cache ->
     free_set s' = free_set s -> wp k s' Q E) ->
  wp (store64 x size ;; store64 (x + 8) cache ;; k) s Q E.
Proof.
  intros Hh Hn Hs Hc HQ. destruct (heap_live_apart _ _ _ _ Hh) as [Ho _]. simpl in Ho.
  pose proof (ow_valid _ _ _ Ho) as Hv. wp_steps.
  destruct (heap_write s cs x n live (put64 (put64 (k_mem s) x size) (x + 8) cache) Hh) as [Hh' Hk].
  { intros b [Hb _]%outside_cons. by rewrite !get8_putw, !decide_False by lia. }
  simpl in HQ. apply HQ; [done|done| | |]; simpl.
  - rewrite (getw_putw_ne 8 8) by lia. by apply (getw_putw 8).
  - by apply (getw_putw 8).
  - apply (free_set_set_mem _ _ [(x, n)]); [|split_aparts; apply apart_sym, Ho].
    intros b [Hb _]%outside_cons. by rewrite !get8_putw, !decide_False by lia.
Qed.

Lemma wp_cache_at i s (Q : Z -> kstate -> Prop) E a :
  kmalloc_caches (k_kheap s) !! Z.to_nat i = Some a -> Q a s -> wp (cache_at i) s Q E.
Proof. intros Ha HQ. apply wp_gets. by rewrite (nth_lookup_Some _ _ _ _ Ha). Qed.

(** The cache for requests of [size] bytes. *)
Definition bucket_of (s : kstate) (size : Z) : Z :=
  nth (Z.to_nat (get_bucket_index size)) (kmalloc_caches (k_kheap s)) 0.

(** The object [x] of [sz] bytes was taken from the cache at [c]. *)
Definition taken_from (s : kstate) (c sz x : Z) (s' : kstate) : Prop :=
  exists l0 l, free_objects s c l0 /\ served s l0 sz x l s' /\ free_objects s' c l.

Lemma wp_kmalloc_small s bs cs live size (Q : Z -> kstate -> Prop) (E : kstate -> Prop) :
  kheap_rep s bs cs live -> 0 < size <= 2048 ->
  (forall hdr c s', 0 < hdr < 2 ^ 64 - 16 -> kheap_rep s' (mkBlock hdr size c :: bs) cs live ->
     same_bytes ((bs ≫= extents) ++ live) s s' -> heap_only s s' -> same_frames s s' ->
     taken_from s c (16 * 2 ^ get_bucket_index size + 16) hdr s' -> Q (hdr + 16) s') ->
  (forall s', free_objects s (bucket_of s size) [] -> exhausted s -> exhausted s' -> E s') ->
  wp (kmalloc size) s Q E.
Proof.
  intros [Hin Hbs (ks & Ha & Hsz & Hh)] Hz HQ HE.
  destruct (kheap_bucket s ks cs _ size Ha Hsz Hh Hz) as (a & l & Hc & Ha0 & Hca & Hh0).
  destruct (bucket_spec size) as (Hb & Hfit & _); [lia..|].
  set (idx := get_bucket_index size) in *. set (sz := 16 * 2 ^ idx + 16) in *.
  assert (Hszb : 32 <= sz <= 2064).
  { assert (2 ^ 0 <= 2 ^ idx <= 2 ^ 7) by (split; apply Z.pow_le_mono_r; lia). unfold sz. lia. }
  unfold kmalloc. fold idx. rewrite (proj2 (Z.eqb_neq size 0)) by lia. wp_steps. rewrite Hin. simpl.
  rewrite (proj2 (Z.eqb_neq idx (-1))) by lia. simpl.
  apply wp_bind, (wp_cache_at _ _ _ _ a); [done|]. apply wp_bind.
  eapply wp_slab_alloc; [exact Hh0| |intros s1 i _ Hbad; lia|].
  2:{ intros s' -> He He'. apply HE; [|done..]. unfold bucket_of. rewrite (nth_lookup_Some _ _ _ _ Hca).
      exact (heap_free_objects _ _ _ (mkCache a sz []) Hh0 ltac:(left)). }
  intros x l' s1 Hh1 Hk1 Hsv. destruct (heap_live_apart _ _ _ _ Hh1) as [Ho _]. simpl in Ho.
  pose proof (ow_pos _ _ _ Ho). pose proof (ow_top _ _ _ Ho).
  rewrite (proj2 (Z.eqb_neq x 0)) by lia. eapply wp_header; [exact Hh1|lia|unfold u64; lia|unfold u64; lia|].
  intros s2 Hh2 Hk2 Hsize Hcache Hfs2. apply wp_ret. unfold_sizes. rewrite wrap64_small by (unfold u64; lia).
  destruct (kheap_bucket_update s2 ks cs _ _ _ _ _ _ Hc Hh2) as (Ha' & Hsz' & Hh3).
  assert (Hsame : same_bytes ((bs ≫= extents) ++ live) s s2).
  { eapply same_bytes_trans; [eapply heap_cache_same; [exact Hh0|exact Hk1]|by eapply heap_live_same]. }
  assert (Hon : heap_only s s2) by (eapply heap_only_trans; [apply Hk1|apply Hk2]).
  pose proof (heap_only_kheap _ _ Hon) as Hkh.
  destruct (kp_frames _ _ _ Hk1) as (_ & Ht1 & Hb1), (kp_frames _ _ _ Hk2) as (_ & Ht2 & Hb2).
  apply (HQ x a); [lia| |done|done|split; congruence|].
  2:{ exists l, l'. split; [exact (heap_free_objects _ _ _ (mkCache a sz l) Hh0 ltac:(left))|].
      split; [by unfold served; rewrite Hfs2|exact (heap_free_objects _ _ _ (mkCache a sz l') Hh2 ltac:(left))]. }
  split; [by rewrite Hkh|apply Forall_cons; split|].
  - split; simpl; [done|done|lia|intros _; rewrite Hkh; split; [done|lia]|lia].
  - apply same_bytes_app in Hsame as [Hsame _]. eapply blocks_ok_same; [exact Hsame|done|congruence|congruence|done].
  - eexists. rewrite Ha', Hsz', Hkh. split; [done|]. split; [done|].
    rewrite bind_cons. unfold extents at 1. simpl. rewrite (proj2 (Z.eqb_neq a 0)) by lia. exact Hh3.
Qed.

Lemma pages_snoc f n : 0 <= n -> pages f 0 (n + 1) = pages f 0 n ++ [(f + n * 4096, 4096)].
Proof.
  intros Hn. unfold pages. replace (n + 1) with (Z.of_nat (S (Z.to_nat n))) by lia.
  rewrite seqZ_S, map_app, Z2Nat.id by lia. simpl. do 3 f_equal.
Qed.

Lemma pages_cons f lo n : 0 < n -> pages f lo n = (f + lo * 4096, 4096) :: pages f (lo + 1) (n - 1).
Proof. intros Hn. unfold pages. rewrite seqZ_cons by lia. simpl. do 3 f_equal; lia. Qed.

(** The frames [i], ..., [i + n - 1] are in use, at [f]. *)
Definition run_of (s : kstate) (f i n : Z) : Prop :=
  f = frame_addr s i /\ 0 <= i /\ i + n <= total_frames (k_pmm s).

Lemma run_addr s f i n j : heap_ok s -> run_of s f i n -> 0 <= j <= n ->
  wrap64 (f + j * PAGE_SIZE) = frame_addr s (i + j) /\ frame_addr s (i + j) = f + j * 4096.
Proof.
  intros Hok (-> & Hi & Hn) Hj. destruct (ho_pmm _ Hok) as [_ Hb Ht _ _ _].
  unfold frame_addr, PAGE_SIZE in *. split; [|lia]. rewrite wrap64_small by (unfold u64; lia). lia.
Qed.

Lemma run_keeps rs s s' f i n : keeps rs s s' -> run_of s f i n -> run_of s' f i n.
Proof. intros Hk. unfold run_of, frame_addr. destruct (kp_frames _ _ _ Hk) as (_ & -> & ->). done. Qed.

(** Taking frame [i] of a row leaves the cursor on the next one. *)
Lemma next_fit_cursor s i : pmm_ok s -> last_free_index (k_pmm s) = i -> frame_free s i -> next_fit s = Some i.
Proof.
  intros Hok Hl [Hi Hu]. unfold next_fit. rewrite Hl.
  destruct (Z.to_nat (total_frames (k_pmm s) - i)) eqn:Hn; [lia|]. simpl. by rewrite Hu.
Qed.

(** One frame of a row, with the cursor on it. *)
Lemma wp_alloc_next s i (Q : unit -> kstate -> Prop) (E : kstate -> Prop) :
  pmm_ok s -> last_free_index (k_pmm s) = i -> 0 <= i ->
  (frame_free s i -> 0 < free_frames (k_pmm s) -> Q tt (taken s i)) ->
  (forall s' t, pmm_only s s' -> free_frames (k_pmm s) = 0 \/ ~ frame_free s i -> E (set_io s' t)) ->
  wp (next_phys <- pmm_alloc_frame ;;
      if negb (next_phys =? frame_addr s i) then
        panic "mm" "kmalloc: non-contiguous frame allocation for large request" []
      else ret tt) s Q E.
Proof.
  intros Hok Hl Hi HQ HE. pose proof Hok as [_ Hb _ _ Hc _]. unfold u64 in Hc. apply wp_bind.
  destruct (decide (free_frames (k_pmm s) = 0)) as [Hcz|Hcz].
  { apply wp_alloc_empty; [done|]. intros t. apply HE; [apply pmm_only_refl|by left]. }
  apply wp_alloc_frame; [done| | |done].
  - intros k Hk Hn. destruct (Z.eqb_spec (frame_addr s k) (frame_addr s i)) as [He|Hne]; simpl.
    + assert (k = i) as -> by (unfold frame_addr, PAGE_SIZE in He; lia). apply wp_ret, HQ; [done|lia].
    + wp_print. apply HE; [apply pmm_only_taken, Hk|]. right. intros Hf.
      rewrite (next_fit_cursor s i Hok Hl Hf) in Hn. by injection Hn as ->.
  - intros Hnone. rewrite (proj2 (Z.eqb_neq 0 _)) by (unfold frame_addr, PAGE_SIZE; lia). simpl. wp_print.
    apply HE; [apply pmm_only_refl|]. right. intros Hf%elem_of_free_set. by rewrite Hnone in Hf.
Qed.

Lemma wp_alloc_contiguous s f i size cs live (Q : unit -> kstate -> Prop) (E : kstate -> Prop) :
  0 <= size < 2 ^ 63 -> run_of s f i 1 -> heap s cs (pages f 0 1 ++ live) -> last_free_index (k_pmm s) = i + 1 ->
  (forall s', heap s' cs (pages f 0 (pages_of size) ++ live) -> keeps [] s s' ->
     run_of s' f i (pages_of size) ->
     free_set s' = free_set s ∖ frames (i + 1) (pages_of size - 1) ->
     frames (i + 1) (pages_of size - 1) ⊆ free_set s -> Q tt s') ->
  (forall s' t, pmm_only s s' ->
     free_frames (k_pmm s) < pages_of size - 1 \/ ~ (forall j, 1 <= j < pages_of size -> frame_free s (i + j)) ->
     E (set_io s' t)) ->
  wp (alloc_contiguous f size) s Q E.
Proof.
  intros Hsz Hrun Hh Hlast HQ HE. unfold alloc_contiguous. rewrite num_pages_eq by done.
  pose proof (pages_pos size ltac:(lia)) as Hp. set (n := pages_of size) in *.
  pose proof (ok_count _ (ho_pmm _ (hp_ok _ _ _ Hh))) as Hcnt. unfold u64 in Hcnt.
  apply (wp_for_n (fun j s' => heap s' cs (pages f 0 j ++ live) /\ keeps [] s s' /\ run_of s' f i j /\
    (free_set s' = free_set s ∖ frames (i + 1) (j - 1) /\ frames (i + 1) (j - 1) ⊆ free_set s) /\
    pmm_only s s' /\ last_free_index (k_pmm s') = i + j /\
    free_frames (k_pmm s') = free_frames (k_pmm s) - (j - 1) /\ j - 1 <= free_frames (k_pmm s))).
  - split; [done|]. split; [apply keeps_refl|]. split; [done|].
    change (1 - 1) with 0. rewrite frames_0, difference_empty_L. split; [by split|].
    split; [apply pmm_only_refl|]. lia.
  - intros j s' Hj (Hh' & Hk' & Hr' & [Hfs Hsub] & Hpo & Hcur & Hff & Hle). pose proof (hp_ok _ _ _ Hh') as Hok'.
    destruct (run_addr s' f i j j Hok' Hr') as [-> Haddr]; [lia|]. destruct Hr' as (Hf & Hi & Hn).
    apply wp_alloc_next; [apply Hok'|done|lia| |].
    + intros Hk Hc. destruct (heap_take _ _ _ _ Hh' Hk) as [Hh2 Hk2].
      split; [|split; [by eapply keeps_trans|split; [|split; [|split]]]].
      * rewrite pages_snoc by lia. rewrite <- Haddr. rewrite <- app_assoc. cbn [app]. by rewrite <- Permutation_middle.
      * split; [done|]. split; [done|]. destruct Hk as [Hk _]. simpl. lia.
      * replace (j + 1 - 1) with (j - 1 + 1) by lia. rewrite frames_snoc by lia.
        replace (i + 1 + (j - 1)) with (i + j) by lia.
        rewrite free_set_taken, Hfs, difference_difference_l_L by done. split; [done|].
        apply union_subseteq. split; [done|]. apply singleton_subseteq_l.
        apply elem_of_free_set in Hk. rewrite Hfs in Hk. by apply elem_of_difference in Hk as [Hk _].
      * eapply pmm_only_trans; [exact Hpo|]. apply pmm_only_taken, Hk.
      * simpl. rewrite wrap64_small by (unfold u64; lia). lia.
    + intros s2 t Hpo2 Hno. apply HE; [by eapply pmm_only_trans|]. destruct Hno as [Hno|Hno]; [left; lia|].
      right. intros Hall. apply Hno, elem_of_free_set. rewrite Hfs. apply elem_of_difference.
      split; [apply elem_of_free_set, Hall; lia|]. rewrite elem_of_frames. lia.
  - replace (1 + Z.of_nat (Z.to_nat (n - 1))) with n by lia. intros s' (? & ? & ? & [? ?] & _). by apply HQ.
Qed.

(** The next [n] frames to be handed out are there and follow one another. *)
Definition in_a_row (s : kstate) (n : Z) : Prop :=
  n <= free_frames (k_pmm s) /\
  exists i, next_fit s = Some i /\ forall j, 0 <= j < n -> frame_free s (i + j).

(** The states a request can panic in, and why: a small one only for lack of
    a frame when its bucket is empty, a large one only when its frames are not
    in a row; nothing but frames was taken by then. *)
Definition kmalloc_panics (s : kstate) (size : Z) (s' : kstate) : Prop :=
  (size <= 2048 /\ free_objects s (bucket_of s size) [] /\ exhausted s /\ exhausted s') \/
  (2048 < size /\ ~ in_a_row s (pages_of size) /\ exists s1 t, pmm_only s s1 /\ s' = set_io s1 t).

(** The first frame of a large block. *)
Definition first_frame (s : kstate) (b : block) : Z := (b_hdr b - mem_phys_base (k_pmm s)) / PAGE_SIZE.

(** The frames that come back when a block is freed. *)
Definition frames_of (s : kstate) (b : block) : gset Z :=
  if b_size b <=? 2048 then ∅ else frames (first_frame s b) (pages_of (b_size b)).

Lemma not_in_a_row s i n :
  pmm_ok s -> next_fit s = Some i -> free_frames (k_pmm (taken s i)) < n - 1 \/
    ~ (forall j, 1 <= j < n -> frame_free (taken s i) (i + j)) -> ~ in_a_row s n.
Proof.
  intros Hok Hn Hno (Hle & k & Hk & Hall). rewrite Hn in Hk. injection Hk as <-.
  pose proof (ok_count _ Hok) as Hc. destruct Hno as [Hno|Hno].
  - simpl in Hno. destruct (decide (free_frames (k_pmm s) = 0)) as [Hcz|Hcz].
    + rewrite Hcz in *. assert (0 <= wrap64 (0 - 1)) by (unfold wrap64; Z.div_mod_to_equations; lia). lia.
    + unfold u64 in Hc. rewrite wrap64_small in Hno by (unfold u64; lia). lia.
  - apply Hno. intros j Hj. apply elem_of_free_set. rewrite free_set_taken by (by apply next_fit_Some).
    apply elem_of_difference. split; [apply elem_of_free_set, Hall; lia|]. rewrite elem_of_singleton. lia.
Qed.

Lemma wp_kmalloc_large s bs cs live size (Q : Z -> kstate -> Prop) (E : kstate -> Prop) :
  kheap_rep s bs cs live -> 2048 < size < 2 ^ 63 ->
  (forall hdr s', 0 < hdr < 2 ^ 64 - 16 -> kheap_rep s' (mkBlock hdr size 0 :: bs) cs live ->
     same_bytes ((bs ≫= extents) ++ live) s s' -> heap_only s s' ->
     free_set s' = free_set s ∖ frames_of s' (mkBlock hdr size 0) ->
     frames_of s' (mkBlock hdr size 0) ⊆ free_set s -> Q (hdr + 16) s') ->
  (free_set s = ∅ -> Q 0 s) ->
  (forall s', kmalloc_panics s size s' -> E s') ->
  wp (kmalloc size) s Q E.
Proof.
  intros [Hin Hbs (ks & Ha & Hsz & Hh)] Hz HQ HQ0 HE. pose proof (hp_ok _ _ _ Hh) as Hok.
  unfold kmalloc. rewrite (proj2 (Z.eqb_neq size 0)) by lia. wp_steps. rewrite Hin. simpl.
  rewrite bucket_large by lia. simpl. apply wp_bind.
  pose proof (pages_pos size ltac:(lia)) as Hp.
  apply wp_alloc_frame; [apply Hok| |by intros He; simpl; apply wp_ret, HQ0|].
  2:{ intros Hcz t. apply HE. right. split; [lia|]. split; [intros [? _]; lia|].
      exists s, t. split; [apply pmm_only_refl|done]. }
  intros i Hf Hnext. destruct (heap_take _ _ _ _ Hh Hf) as [Hh1 Hk1].
  destruct (frame_align s i Hok Hf) as (_ & Hf0 & Htop). set (f := frame_addr s i) in *.
  rewrite (proj2 (Z.eqb_neq f 0)) by lia. apply wp_bind.
  assert (Hp1 : pages f 0 1 = [(f, 4096)]) by (unfold pages; simpl; do 2 f_equal; lia).
  apply (wp_alloc_contiguous _ f i size (ks ++ cs) ((bs ≫= extents) ++ live)); [lia| | |reflexivity| |].
  { split; [done|]. destruct Hf as [Hf _]. simpl. lia. }
  { by rewrite Hp1. }
  2:{ intros s2 t Hpo Hno. apply HE. right. split; [lia|]. split; [exact (not_in_a_row s i _ (ho_pmm _ Hok) Hnext Hno)|].
      exists s2, t. split; [|done]. eapply pmm_only_trans; [apply pmm_only_taken, Hf|exact Hpo]. }
  intros s2 Hh2 Hk2 Hrun2 Hfs2 Hsub2.
  assert (Hpg : pages f 0 (pages_of size) = (f, 4096) :: pages f 1 (pages_of size - 1)).
  { rewrite pages_cons by lia. do 2 f_equal. lia. }
  rewrite Hpg in Hh2. simpl in Hh2.
  eapply wp_header; [exact Hh2|lia|unfold u64; lia|unfold u64; lia|].
  intros s3 Hh3 Hk3 Hsize Hcache Hfs3. apply wp_ret. unfold_sizes. rewrite wrap64_small by (unfold u64; lia).
  assert (Hsame : same_bytes ((bs ≫= extents) ++ live) s s3).
  { pose proof (heap_live_same _ _ _ _ _ Hh2 Hk3) as H3. apply same_bytes_app in H3 as [_ H3].
    eapply same_bytes_trans; [|exact H3].
    pose proof (keeps_trans _ _ _ _ Hk1 Hk2) as Hk12. eapply keeps_same; [exact Hk12|by eapply heap_area_live|].
    apply Forall_forall. by constructor. }
  assert (Hon : heap_only s s3).
  { eapply heap_only_trans; [apply Hk1|]. eapply heap_only_trans; [apply Hk2|apply Hk3]. }
  pose proof (heap_only_kheap _ _ Hon) as Hkh. pose proof (run_keeps _ _ _ _ _ _ Hk3 Hrun2) as Hrun3.
  destruct (kp_frames _ _ _ Hk1) as (_ & Ht1 & Hb1), (kp_frames _ _ _ Hk2) as (_ & Ht2 & Hb2),
    (kp_frames _ _ _ Hk3) as (_ & Ht3 & Hb3).
  assert (Hfr : frames_of s3 (mkBlock f size 0) = frames i (pages_of size)).
  { unfold frames_of, first_frame. simpl. rewrite (proj2 (Z.leb_gt _ _)) by lia. f_equal.
    rewrite Hb3, Hb2, Hb1. unfold f, frame_addr, PAGE_SIZE. Z.div_mod_to_equations; lia. }
  apply (HQ f); [lia| |done|done|rewrite Hfr|rewrite Hfr].
  - split; [by rewrite Hkh|apply Forall_cons; split|].
    + split; simpl; [done|done|lia|lia|]. intros _. split; [done|]. exists i.
      destruct Hrun3 as (? & ? & ?). done.
    + apply same_bytes_app in Hsame as [Hsame _].
      eapply blocks_ok_same; [exact Hsame|done|congruence|congruence|done].
    + exists ks. rewrite Hkh. split; [done|]. split; [done|].
      assert (He : extents (mkBlock f size 0) = pages f 0 (pages_of size)) by done.
      rewrite bind_cons, He, Hpg, <- app_assoc. exact Hh3.
  - rewrite Hfs3, Hfs2, free_set_taken, difference_difference_l_L by done. f_equal. by rewrite (frames_cons i) by lia.
  - rewrite (frames_cons i) by lia. apply union_subseteq. split.
    + apply singleton_subseteq_l. by apply elem_of_free_set.
    + rewrite free_set_taken in Hsub2 by done. etrans; [exact Hsub2|]. apply subseteq_difference_l. done.
Qed.

(** ** kfree *)

Lemma wp_free_pages s f i size cs live (Q : unit -> kstate -> Prop) E :
  0 <= size < 2 ^ 63 -> run_of s f i (pages_of size) -> heap s cs (pages f 0 (pages_of size) ++ live) ->
  (forall s', heap s' cs live -> same_bytes live s s' -> heap_only s s' ->
     run_of s' f i (pages_of size) -> total_frames (k_pmm s') = total_frames (k_pmm s) ->
     mem_phys_base (k_pmm s') = mem_phys_base (k_pmm s) ->
     free_set s' = free_set s ∪ frames i (pages_of size) -> Q tt s') ->
  wp (free_pages f size) s Q E.
Proof.
  intros Hsz Hrun Hh HQ. unfold free_pages. rewrite num_pages_eq by done.
  pose proof (pages_pos size ltac:(lia)) as Hp. set (n := pages_of size) in *.
  apply (wp_for_n (fun j s' => heap s' cs (pages f j (n - j) ++ live) /\ same_bytes live s s' /\
    heap_only s s' /\ run_of s' f i n /\ total_frames (k_pmm s') = total_frames (k_pmm s) /\
    mem_phys_base (k_pmm s') = mem_phys_base (k_pmm s) /\ free_set s' = free_set s ∪ frames i j)).
  - rewrite Z.sub_0_r, frames_0, union_empty_r_L.
    split_and!; [done|apply same_bytes_refl|apply heap_only_refl|done..].
  - intros j s' Hj (Hh' & Hs' & Ho' & Hr' & Ht' & Hb' & Hfs').
    pose proof (hp_ok _ _ _ Hh') as Hok'. destruct (run_addr s' f i n j Hok' Hr') as [-> Haddr]; [lia|].
    rewrite pages_cons, <- Haddr in Hh' by lia. cbn [app] in Hh'.
    assert (Hij : 0 <= i + j < total_frames (k_pmm s')) by (destruct Hr' as (_ & ? & ?); lia).
    destruct (heap_release _ _ _ _ Hh' Hij) as [Hh2 Hk2].
    apply wp_free_frame; [apply Hok'|]. cbv zeta.
    replace ((frame_addr s' (i + j) - mem_phys_base (k_pmm s')) / PAGE_SIZE) with (i + j)
      by (unfold frame_addr, PAGE_SIZE; Z.div_mod_to_equations; lia).
    split; [unfold frame_addr, PAGE_SIZE; lia|]. intros _ _. split.
    { rewrite (heap_frame_used _ _ _ _ Hh' Hij). done. }
    intros _. pose proof (heap_live_same _ _ _ _ _ Hh' Hk2) as H2. apply same_bytes_app in H2 as [_ H2].
    split; [by replace (n - (j + 1)) with (n - j - 1) by lia|].
    split; [by eapply same_bytes_trans|]. split; [by eapply heap_only_trans; [|apply Hk2]|].
    split; [by eapply run_keeps|]. split; [done|]. split; [done|].
    rewrite free_set_released, Hfs', frames_snoc by lia. by rewrite union_assoc_L.
  - replace (0 + Z.of_nat (Z.to_nat n)) with n by lia. rewrite Z.sub_diag.
    intros s' (? & ? & ? & ? & ? & ? & ?). by apply HQ.
Qed.

Lemma block_large_run s b : block_ok s b -> 2048 < b_size b ->
  b_cache b = 0 /\ run_of s (b_hdr b) (first_frame s b) (pages_of (b_size b)).
Proof.
  intros Hb Hsz. destruct (bk_large _ _ Hb Hsz) as (Hc & i & Hi & Hn & Hf). split; [done|].
  assert (first_frame s b = i) as ->; [|done].
  unfold first_frame. rewrite Hf. unfold frame_addr, PAGE_SIZE. Z.div_mod_to_equations; lia.
Qed.

(** The header of a block can be read, and gives its size and cache. *)
Lemma block_range s cs b bs live :
  block_ok s b -> heap s cs (((b :: bs) ≫= extents) ++ live) ->
  0 < b_hdr b /\ b_hdr b + 16 < 2 ^ 64 /\ valid (b_hdr b) 16 = true.
Proof.
  intros Hb Hh. destruct (block_header s b Hb) as (n & Hin & Hn).
  apply heap_area_live in Hh as [Ho _]. rewrite bind_cons, <- app_assoc in Ho. apply Forall_app in Ho as [Ho _].
  apply (proj1 (Forall_forall _ _) Ho) in Hin. simpl in Hin. destruct Hin as [Hp Ht Hv _ _].
  split; [done|]. split; [lia|eapply valid_sub; [exact Hv|lia|lia]].
Qed.

(** The bookkeeping of the frees of both kinds of blocks. *)
Lemma kheap_rep_drop s s' b bs cs live ks :
  kheap_rep s (b :: bs) cs live -> same_bytes ((bs ≫= extents) ++ live) s s' -> heap_only s s' ->
  total_frames (k_pmm s') = total_frames (k_pmm s) -> mem_phys_base (k_pmm s') = mem_phys_base (k_pmm s) ->
  map c_addr ks = kmalloc_caches (k_kheap s) -> map c_size ks = bucket_sizes ->
  heap s' (ks ++ cs) ((bs ≫= extents) ++ live) -> kheap_rep s' bs cs live.
Proof.
  intros [Hin Hbs _] Hs Ho Ht Hb Ha Hsz Hh. pose proof (heap_only_kheap _ _ Ho) as Hkh.
  apply Forall_cons in Hbs as [_ Hbs]. split; [by rewrite Hkh| |].
  - apply same_bytes_app in Hs as [Hs _]. by eapply blocks_ok_same.
  - exists ks. by rewrite Hkh.
Qed.

(** A small block goes back to its cache, which hands it out next. *)
Definition given_back (s : kstate) (b : block) (s' : kstate) : Prop :=
  b_size b <= 2048 -> k_pmm s' = k_pmm s /\
  forall l, free_objects s (b_cache b) l -> free_objects s' (b_cache b) (b_hdr b :: l).

(** What is left of the heap when [b] is freed. *)
Definition freed (s : kstate) (b : block) (bs : list block) (cs : list cache_t) (live : list (Z * Z))
    (s' : kstate) : Prop :=
  kheap_rep s' bs cs live /\ same_bytes ((bs ≫= extents) ++ live) s s' /\ heap_only s s' /\
  free_set s' = free_set s ∪ frames_of s b /\ given_back s b s'.

(** Freeing a block as [kfree] does once it has read the header, for a small
    and for a large one. *)
Lemma wp_free_small s b bs cs live (Q : unit -> kstate -> Prop) E :
  kheap_rep s (b :: bs) cs live -> b_size b <= 2048 ->
  (forall s', freed s b bs cs live s' -> Q tt s') -> wp (slab_free (b_cache b) (b_hdr b)) s Q E.
Proof.
  intros Hr Hsz HQ. pose proof Hr as [Hin Hbs (ks & Ha & Hks & Hh)].
  apply Forall_cons in Hbs as [Hb _]. destruct (bk_bounds _ _ Hb) as [Hpos _].
  destruct (bk_small _ _ Hb Hsz) as [Hca Hc0].
  destruct (kheap_bucket s ks cs _ (b_size b) Ha Hks Hh) as (a & l & Hc & Ha0 & Hca' & Hh0); [lia|].
  rewrite Hca in Hca'. injection Hca' as <-.
  rewrite bind_cons, <- app_assoc in Hh0. unfold extents at 1 in Hh0.
  rewrite (proj2 (Z.eqb_neq (b_cache b) 0)) in Hh0 by done. cbn [app] in Hh0.
  eapply wp_slab_free; [exact Hh0|]. intros s' Hh' Hk' Hfs' [_ Hpmm].
  destruct (kheap_bucket_update s' ks cs _ _ _ _ _ _ Hc Hh') as (Ha' & Hsz' & Hh2).
  destruct (kp_frames _ _ _ Hk') as (_ & Ht & Hbase).
  assert (Hs : same_bytes ((bs ≫= extents) ++ live) s s').
  { by eapply heap_free_same. }
  apply HQ. split; [|split; [done|split; [apply Hk'|split]]].
  - eapply (kheap_rep_drop s s' b); [exact Hr|done|apply Hk'|done|done| | |exact Hh2]; congruence.
  - unfold frames_of. rewrite (proj2 (Z.leb_le _ _) Hsz). by rewrite union_empty_r_L.
  - intros _. split; [exact Hpmm|]. intros l1 Hl1. pose proof (heap_free_objects _ _ _ _ Hh0 ltac:(left)) as Hl. cbn [c_addr c_free] in Hl.
    rewrite (free_objects_eq _ _ _ _ Hl1 Hl). exact (heap_free_objects _ _ _ (mkCache (b_cache b) _ _) Hh' ltac:(left)).
Qed.

Lemma wp_free_large s b bs cs live (Q : unit -> kstate -> Prop) E :
  kheap_rep s (b :: bs) cs live -> 2048 < b_size b ->
  (forall s', freed s b bs cs live s' -> Q tt s') -> wp (free_pages (b_hdr b) (b_size b)) s Q E.
Proof.
  intros Hr Hsz HQ. pose proof Hr as [Hin Hbs (ks & Ha & Hks & Hh)].
  apply Forall_cons in Hbs as [Hb _]. destruct (bk_bounds _ _ Hb) as [Hpos Hhi].
  destruct (block_large_run s b Hb Hsz) as [Hc Hrun].
  rewrite bind_cons, <- app_assoc in Hh. unfold extents at 1 in Hh. rewrite Hc, Z.eqb_refl in Hh.
  eapply wp_free_pages; [lia|exact Hrun|exact Hh|]. intros s' Hh' Hs' Ho' _ Ht Hbase Hfs'.
  apply HQ. split; [|split; [done|split; [done|split]]].
  - by eapply (kheap_rep_drop s s' b).
  - unfold frames_of. by rewrite (proj2 (Z.leb_gt _ _) Hsz).
  - intros ?. lia.
Qed.

Lemma wp_kfree s b bs cs live (Q : unit -> kstate -> Prop) E :
  kheap_rep s (b :: bs) cs live ->
  (forall s', freed s b bs cs live s' -> Q tt s') -> wp (kfree (b_hdr b + 16)) s Q E.
Proof.
  intros Hr HQ. pose proof Hr as [Hin Hbs (ks & Ha & Hks & Hh)].
  apply Forall_cons in Hbs as [Hb _]. destruct (block_range _ _ _ _ _ Hb Hh) as (Hp & Ht & Hv).
  unfold kfree. rewrite (proj2 (Z.eqb_neq _ 0)) by lia. unfold_sizes.
  replace (b_hdr b + 16 - 16) with (b_hdr b) by lia. rewrite wrap64_small by (unfold u64; lia).
  wp_step. wp_step. rewrite (bk_cache _ _ Hb).
  destruct (Z_le_gt_dec (b_size b) 2048) as [Hsz|Hsz].
  - destruct (bk_small _ _ Hb Hsz) as [_ Hc0]. rewrite (proj2 (Z.eqb_neq _ _) Hc0). simpl.
    by eapply wp_free_small.
  - destruct (bk_large _ _ Hb) as [Hc0 _]; [lia|]. rewrite Hc0. simpl. wp_step. wp_step.
    rewrite (bk_size _ _ Hb). eapply wp_free_large; [exact Hr|lia|done].
Qed.

(** ** The heap as blocks *)

#[global] Instance kheap_rep_perm s : Proper (Permutation ==> eq ==> eq ==> iff) (kheap_rep s).
Proof.
  assert (Hp : forall bs bs' cs live, bs ≡ₚ bs' -> kheap_rep s bs cs live -> kheap_rep s bs' cs live).
  { intros bs bs' cs live Hb [Hin Hbs (ks & Ha & Hs & Hh)]. split; [done|by rewrite <- Hb|].
    exists ks. by rewrite <- Hb. }
  intros bs bs' Hb cs ? <- live ? <-. split; apply Hp; auto using Permutation_sym.
Qed.

(** What [kmalloc] leaves when it makes the block [b]. *)
Definition allocated (s : kstate) (b : block) (bs : list block) (cs : list cache_t) (live : list (Z * Z))
    (s' : kstate) : Prop :=
  0 < b_hdr b < 2 ^ 64 - 16 /\ kheap_rep s' (b :: bs) cs live /\
  same_bytes ((bs ≫= extents) ++ live) s s' /\ heap_only s s'.

Lemma wp_kmalloc s bs cs live size (Q : Z -> kstate -> Prop) (E : kstate -> Prop) :
  kheap_rep s bs cs live -> 0 <= size < 2 ^ 63 ->
  (forall b s', b_size b = size -> 0 < size -> allocated s b bs cs live s' -> Q (b_hdr b + 16) s') ->
  (size = 0 \/ (2048 < size /\ free_set s = ∅) -> Q 0 s) ->
  (forall s', kmalloc_panics s size s' -> E s') ->
  wp (kmalloc size) s Q E.
Proof.
  intros Hr Hz HQ HQ0 HE. destruct (decide (size = 0)) as [->|].
  { unfold kmalloc. simpl. apply wp_ret. by apply HQ0; left. }
  destruct (Z_le_gt_dec size 2048).
  - eapply wp_kmalloc_small; [exact Hr|lia| |intros s' He1 He2 He3; by apply HE; left]. intros hdr c s' Hhdr Hr' Hs Ho _ _.
    apply (HQ (mkBlock hdr size c)); [done|lia|]. exact (conj Hhdr (conj Hr' (conj Hs Ho))).
  - eapply wp_kmalloc_large; [exact Hr|lia| |intros He; apply HQ0; right; split; [lia|done]|exact HE].
    intros hdr s' Hhdr Hr' Hs Ho _ _. apply (HQ (mkBlock hdr size 0)); [done|lia|]. exact (conj Hhdr (conj Hr' (conj Hs Ho))).
Qed.

(** ** The payload of a block *)

Definition in_payload (b : block) (p : Z) : Prop := b_hdr b + 16 <= p < b_hdr b + 16 + b_size b.

Lemma payload_extent s b p : block_ok s b -> in_payload b p ->
  exists x n, (x, n) ∈ extents b /\ x <= p /\ p + 1 <= x + n.
Proof.
  intros Hb Hp. unfold in_payload in Hp. unfold extents. destruct (Z.eqb_spec (b_cache b) 0) as [Hc|Hc].
  - set (j := (p - b_hdr b) / 4096). exists (b_hdr b + j * 4096), 4096.
    assert (0 <= j < pages_of (b_size b)).
    { unfold j, pages_of. Z.div_mod_to_equations; lia. }
    split; [|unfold j; Z.div_mod_to_equations; lia].
    unfold pages. apply list_elem_of_fmap. exists j. split; [done|]. apply elem_of_seqZ. lia.
  - eexists _, _. split; [by left|]. destruct (bk_bounds _ _ Hb) as [Hs _].
    destruct (Z_le_gt_dec (b_size b) 2048); [|by destruct (bk_large _ _ Hb); [lia|]].
    destruct (bucket_spec (b_size b)) as (_ & Hfit & _); lia.
Qed.

Lemma kheap_payload s b bs cs live p :
  kheap_rep s (b :: bs) cs live -> in_payload b p ->
  exists x n rest ks, extents b ≡ₚ (x, n) :: rest /\ x <= p /\ p + 1 <= x + n /\ valid p 1 = true /\
    map c_addr ks = kmalloc_caches (k_kheap s) /\ map c_size ks = bucket_sizes /\
    heap s (ks ++ cs) ((x, n) :: rest ++ (bs ≫= extents) ++ live).
Proof.
  intros [Hin Hbs (ks & Ha & Hks & Hh)] Hp. apply Forall_cons in Hbs as [Hb _].
  destruct (payload_extent s b p Hb Hp) as (x & n & Hx & H1 & H2).
  apply elem_of_Permutation in Hx as [rest Hx].
  rewrite bind_cons, <- app_assoc, Hx in Hh. cbn [app] in Hh.
  destruct (heap_live_apart _ _ _ _ Hh) as [Ho _].
  exists x, n, rest, ks. split_and!; try done. by eapply valid_sub; [apply Ho|..].
Qed.

(** Writing a byte of a block's payload. *)
Lemma kheap_write s b bs cs live p v :
  kheap_rep s (b :: bs) cs live -> in_payload b p ->
  let s' := set_mem s (putw 1 (k_mem s) p v) in
  kheap_rep s' (b :: bs) cs live /\ same_bytes ((bs ≫= extents) ++ live) s s' /\ heap_only s s'.
Proof.
  intros Hr Hp s'. destruct (kheap_payload _ _ _ _ _ _ Hr Hp) as (x & n & rest & ks & Hx & H1 & H2 & _ & Ha & Hks & Hh).
  destruct (heap_write s _ x n _ (putw 1 (k_mem s) p v) Hh) as [Hh' Hk'].
  { eapply mods_put_in; [by left|lia|simpl; lia]. }
  fold s' in Hh', Hk'. pose proof (heap_live_same _ _ _ _ _ Hh Hk') as Hs.
  rewrite same_bytes_app in Hs. destruct Hs as [_ Hs]. split; [|split; [done|apply Hk']].
  destruct Hr as [Hin Hbs _]. apply Forall_cons in Hbs as [Hb Hbs]. split; [done|apply Forall_cons; split|].
  - unfold in_payload in Hp. destruct Hb as [B1 B2 B3 B4 B5]. split; [| |done|done|done]; unfold s'; simpl.
    + rewrite (getw_putw_ne 1 8) by (simpl; lia). done.
    + rewrite (getw_putw_ne 1 8) by (simpl; lia). done.
  - apply same_bytes_app in Hs as [Hs _]. by eapply (blocks_ok_same s).
  - exists ks. split; [done|]. split; [done|]. rewrite bind_cons, <- app_assoc, Hx. exact Hh'.
Qed.

Lemma same_bytes_payload s s' b p rest :
  block_ok s b -> in_payload b p -> same_bytes (extents b ++ rest) s s' ->
  get8 (k_mem s') p = get8 (k_mem s) p.
Proof.
  intros Hb Hp Hs. destruct (payload_extent s b p Hb Hp) as (x & n & Hx & H1 & H2).
  apply same_bytes_app in Hs as [Hs _]. apply (proj1 (Forall_forall _ _) Hs (x, n) Hx). simpl. lia.
Qed.

(** Filling a block's payload byte by byte. *)
Lemma wp_fill s b bs cs live n (f : Z -> Z) (body : Z -> M unit) (Q : unit -> kstate -> Prop) E :
  kheap_rep s (b :: bs) cs live -> 0 <= n <= b_size b -> (forall i, 0 <= f i < 2 ^ 8) ->
  (forall i s' (R : unit -> kstate -> Prop), 0 <= i < n -> kheap_rep s' (b :: bs) cs live ->
     same_bytes ((bs ≫= extents) ++ live) s s' ->
     R tt (set_mem s' (putw 1 (k_mem s') (b_hdr b + 16 + i) (f i))) -> wp (body i) s' R E) ->
  (forall s', kheap_rep s' (b :: bs) cs live -> same_bytes ((bs ≫= extents) ++ live) s s' ->
     heap_only s s' -> (forall i, 0 <= i < n -> get8 (k_mem s') (b_hdr b + 16 + i) = f i) -> Q tt s') ->
  wp (for_n (Z.to_nat n) 0 body) s Q E.
Proof.
  intros Hr Hn Hf Hb HQ.
  apply (wp_for_n (fun j s' => kheap_rep s' (b :: bs) cs live /\ same_bytes ((bs ≫= extents) ++ live) s s' /\
    heap_only s s' /\ forall i, 0 <= i < j -> get8 (k_mem s') (b_hdr b + 16 + i) = f i)).
  - split; [done|]. split; [apply same_bytes_refl|]. split; [apply heap_only_refl|lia].
  - intros j s' Hj (Hr' & Hs' & Ho' & Hd). apply Hb; [lia|done|done|].
    destruct (kheap_write _ _ _ _ _ (b_hdr b + 16 + j) (f j) Hr') as (Hr2 & Hs2 & Ho2); [unfold in_payload; lia|].
    split; [done|]. split; [by eapply same_bytes_trans|]. split; [by eapply heap_only_trans|].
    intros i Hi. simpl. rewrite get8_put1 by done. case_decide.
    + f_equal. lia.
    + apply Hd. lia.
  - intros s' (Hr' & Hs' & Ho' & Hd). apply HQ; [done..|]. intros i Hi. apply Hd. lia.
Qed.

Lemma payload_valid s b bs cs live p :
  kheap_rep s (b :: bs) cs live -> in_payload b p -> valid p 1 = true.
Proof. intros Hr Hp. by destruct (kheap_payload _ _ _ _ _ _ Hr Hp) as (? & ? & ? & ? & _ & _ & _ & Hv & _). Qed.

Lemma rep_block s b bs cs live : kheap_rep s (b :: bs) cs live -> block_ok s b.
Proof. intros [_ Hbs _]. by apply Forall_cons in Hbs as [Hb _]. Qed.

(** Filling a whole block with [memset]. *)
Lemma wp_memset_block s b bs cs live c (Q : Z -> kstate -> Prop) E :
  kheap_rep s (b :: bs) cs live ->
  (forall s', kheap_rep s' (b :: bs) cs live -> same_bytes ((bs ≫= extents) ++ live) s s' -> heap_only s s' ->
     (forall p, in_payload b p -> get8 (k_mem s') p = wrap8 c) -> Q (b_hdr b + 16) s') ->
  wp (memset (b_hdr b + 16) c (b_size b)) s Q E.
Proof.
  intros Hr HQ. destruct (bk_bounds _ _ (rep_block _ _ _ _ _ Hr)) as [Hpos _].
  assert (Hw : 0 <= wrap8 c < 2 ^ 8) by (apply Z.mod_pos_bound; lia).
  unfold memset. apply wp_bind. eapply (wp_fill s b bs cs live _ (fun _ => wrap8 c)); [exact Hr|lia|done| |].
  - intros i s' R Hi Hr' _ HR. apply wp_store; [|done].
    eapply payload_valid; [exact Hr'|]. unfold in_payload. lia.
  - intros s' Hr' Hs' Ho' Hd. apply wp_ret, HQ; [done..|]. intros p Hp. unfold in_payload in Hp.
    replace p with (b_hdr b + 16 + (p - (b_hdr b + 16))) by lia. apply Hd. lia.
Qed.

(** A block's payload as an array of words. *)
Definition words (a n : Z) : list (Z * Z) := map (fun i => (a + 8 * i, 8)) (seqZ 0 n).

Lemma words_separated a n : separated (words a n).
Proof.
  unfold words. generalize 0 as lo. induction (Z.to_nat n) as [|k IH] eqn:Hk in n |- *; intros lo.
  - by rewrite seqZ_nil by lia.
  - rewrite seqZ_cons by lia. simpl. split; [|apply (IH (Z.pred n)); lia].
    rewrite Forall_map. apply Forall_forall. intros i Hi%elem_of_seqZ. unfold apart. simpl. lia.
Qed.

Lemma words_within s b n : block_ok s b -> 8 * n <= b_size b -> within (words (b_hdr b + 16) n) (extents b).
Proof.
  intros Hb Hn. unfold words. apply Forall_map, Forall_forall. intros i Hi%elem_of_seqZ. simpl. unfold extents.
  destruct (Z.eqb_spec (b_cache b) 0) as [Hc|Hc].
  - set (j := (16 + 8 * i) / 4096). exists (b_hdr b + j * 4096), 4096. unfold pages_of.
    split; [|unfold j; Z.div_mod_to_equations; lia]. apply list_elem_of_fmap. exists j. split; [done|].
    apply elem_of_seqZ. unfold j, pages_of. Z.div_mod_to_equations; lia.
  - eexists _, _. split; [by left|]. destruct (bk_bounds _ _ Hb) as [Hs _].
    destruct (Z_le_gt_dec (b_size b) 2048); [|by destruct (bk_large _ _ Hb); [lia|]].
    destruct (bucket_spec (b_size b)) as (_ & Hfit & _); lia.
Qed.

(** ** kcalloc and krealloc *)

(** The bytes of a block from its start on. *)
Definition byte_at (s : kstate) (b : block) (i : Z) : Z := get8 (k_mem s) (b_hdr b + 16 + i).

Lemma byte_at_same s s' b rest i :
  block_ok s b -> 0 <= i < b_size b -> same_bytes (extents b ++ rest) s s' -> byte_at s' b i = byte_at s b i.
Proof. intros Hb Hi Hs. eapply same_bytes_payload; [exact Hb| |exact Hs]. unfold in_payload. lia. Qed.

Lemma wp_kcalloc s bs cs live num size (Q : Z -> kstate -> Prop) (E : kstate -> Prop) :
  kheap_rep s bs cs live -> 0 <= num -> 0 <= size -> num * size < 2 ^ 63 ->
  (forall b s', b_size b = num * size -> 0 < num * size -> allocated s b bs cs live s' ->
     (forall i, 0 <= i < b_size b -> byte_at s' b i = 0) -> Q (b_hdr b + 16) s') ->
  (num * size = 0 \/ (2048 < num * size /\ free_set s = ∅) -> Q 0 s) ->
  (forall s', kmalloc_panics s (num * size) s' -> E s') ->
  wp (kcalloc num size) s Q E.
Proof.
  intros Hr Hn Hs Hov HQ HQ0 HE. unfold kcalloc. rewrite wrap64_small by (unfold u64; nia).
  assert (Hno : negb (num =? 0) && negb (num * size / num =? size) = false).
  { destruct (Z.eqb_spec num 0); [done|]. rewrite Z.mul_comm, Z.div_mul by done. by rewrite Z.eqb_refl. }
  rewrite Hno. apply wp_bind. eapply wp_kmalloc; [exact Hr|nia| | |exact HE].
  - intros b s1 Hsz Hpos (Hhdr & Hr1 & Hs1 & Ho1). rewrite (proj2 (Z.eqb_neq _ 0)) by lia. simpl.
    apply wp_bind. rewrite <- Hsz. eapply (wp_fill s1 b bs cs live _ (fun _ => 0)); [exact Hr1|lia|lia| |].
    + intros i s' R Hi Hr' _ HR. apply wp_store; [|done].
      eapply payload_valid; [exact Hr'|]. unfold in_payload. lia.
    + intros s' Hr' Hs' Ho' Hd. apply wp_ret, HQ; [done|lia| |done].
      split; [done|]. split; [done|]. split; [by eapply same_bytes_trans|by eapply heap_only_trans].
  - intros He. simpl. by apply wp_bind, wp_ret, wp_ret, HQ0.
Qed.

Lemma kcalloc_overflow s num size :
  0 <= num < 2 ^ 64 -> 0 <= size < 2 ^ 64 -> 2 ^ 64 <= num * size -> kcalloc num size s = Ok 0 s.
Proof.
  intros Hn Hs Hov. unfold kcalloc. assert (num <> 0) by nia.
  rewrite (proj2 (Z.eqb_neq num 0)) by done.
  destruct (Z.eqb_spec (wrap64 (num * size) / num) size) as [He|]; [|done]. exfalso.
  assert (wrap64 (num * size) < 2 ^ 64) by apply wrap64_range.
  assert (num * size <= wrap64 (num * size)); [|lia].
  rewrite <- He at 1. apply Z.mul_div_le. lia.
Qed.

Lemma wp_krealloc s b bs cs live size (Q : Z -> kstate -> Prop) (E : kstate -> Prop) :
  kheap_rep s (b :: bs) cs live -> 0 < size < 2 ^ 63 ->
  (size <= b_size b -> Q (b_hdr b + 16) s) ->
  (forall b' s', b_size b < size -> b_size b' = size -> kheap_rep s' (b' :: bs) cs live ->
     same_bytes ((bs ≫= extents) ++ live) s s' ->
     (forall i, 0 <= i < b_size b -> byte_at s' b' i = byte_at s b i) -> Q (b_hdr b' + 16) s') ->
  (b_size b < size -> 2048 < size -> free_set s = ∅ -> Q 0 s) ->
  (forall s', b_size b < size -> kmalloc_panics s size s' -> E s') ->
  wp (krealloc (b_hdr b + 16) size) s Q E.
Proof.
  intros Hr Hz HQsame HQ HQ0 HE. pose proof (rep_block _ _ _ _ _ Hr) as Hb.
  pose proof Hr as [_ _ (ks & _ & _ & Hh)]. destruct (block_range _ _ _ _ _ Hb Hh) as (Hp & Ht & Hv).
  destruct (bk_bounds _ _ Hb) as [Hb0 _].
  unfold krealloc. rewrite (proj2 (Z.eqb_neq _ 0)), (proj2 (Z.eqb_neq size 0)) by lia. unfold_sizes.
  replace (b_hdr b + 16 - 16) with (b_hdr b) by lia. rewrite wrap64_small by (unfold u64; lia).
  wp_step. wp_step. rewrite (bk_size _ _ Hb).
  destruct (Z.leb_spec size (b_size b)) as [Hle|Hlt]; [by apply wp_ret, HQsame|].
  apply wp_bind. eapply wp_kmalloc; [exact Hr|lia| | |by auto].
  - intros b' s1 Hsz Hpos (Hhdr & Hr1 & Hs1 & Ho1). rewrite (proj2 (Z.eqb_neq _ 0)) by lia. apply wp_bind.
    rewrite bind_cons, <- app_assoc in Hs1.
    eapply (wp_fill s1 b' (b :: bs) cs live _ (fun i => byte_at s b i)).
    + exact Hr1.
    + lia.
    + intros i. apply get8_range.
    + intros i s2 R Hi Hr2 Hs2 HR. rewrite bind_cons, <- app_assoc in Hs2.
      assert (Hbyte : byte_at s2 b i = byte_at s b i).
      { eapply byte_at_same; [exact Hb|lia|]. by eapply same_bytes_trans. }
      assert (Hr2' : kheap_rep s2 (b :: b' :: bs) cs live) by (eapply kheap_rep_perm; [apply perm_swap|done..]).
      wp_step. apply wp_load; [eapply payload_valid; [exact Hr2'|unfold in_payload; lia]|].
      rewrite getw_1. unfold byte_at in Hbyte. rewrite Hbyte.
      apply wp_store; [eapply payload_valid; [exact Hr2|unfold in_payload; lia]|done].
    + intros s2 Hr2 Hs2 Ho2 Hd. rewrite bind_cons, <- app_assoc in Hs2.
      assert (Hr2' : kheap_rep s2 (b :: b' :: bs) cs live) by (eapply kheap_rep_perm; [apply perm_swap|done..]).
      apply wp_bind. eapply wp_kfree; [exact Hr2'|]. intros s3 (Hr3 & Hs3 & Ho3 & _). apply wp_ret.
      rewrite bind_cons, <- app_assoc in Hs3.
      apply HQ; [done|done|done| |].
      * apply same_bytes_app in Hs1 as [_ Hs1]. apply same_bytes_app in Hs2 as [_ Hs2].
        apply same_bytes_app in Hs3 as [_ Hs3]. 
        eapply same_bytes_trans; [exact Hs1|]. eapply same_bytes_trans; [exact Hs2|exact Hs3].
      * intros i Hi. rewrite (byte_at_same s2 s3 b' ((bs ≫= extents) ++ live) i); [by apply Hd|by eapply rep_block|lia|done].
  - intros He. apply wp_ret, HQ0; [done|lia|]. destruct He as [?|[_ He]]; [lia|done].
Qed.

(** ** kfree_sized *)

Lemma kfree_sized_run s b bs cs live :
  kheap_rep s (b :: bs) cs live -> kfree_sized (b_hdr b + 16) (b_size b) s = kfree (b_hdr b + 16) s.
Proof.
  intros Hr. pose proof (rep_block _ _ _ _ _ Hr) as Hb.
  pose proof Hr as [_ _ (ks & _ & _ & Hh)]. destruct (block_range _ _ _ _ _ Hb Hh) as (Hp & Ht & Hv).
  destruct (bk_bounds _ _ Hb) as [Hb0 _].
  unfold kfree, kfree_sized. rewrite (proj2 (Z.eqb_neq _ 0)) by lia. unfold_sizes.
  replace (b_hdr b + 16 - 16) with (b_hdr b) by lia. rewrite wrap64_small by (unfold u64; lia).
  assert (Hl1 : load64 (b_hdr b + 8) s = Ok (b_cache b) s).
  { rewrite <- (bk_cache _ _ Hb). apply safe_eq. by wp_step. }
  assert (Hl2 : load64 (b_hdr b) s = Ok (b_size b) s).
  { rewrite <- (bk_size _ _ Hb) at 1. apply safe_eq. by wp_step. }
  unfold bind at 2. rewrite Hl1. destruct (Z_le_gt_dec (b_size b) 2048) as [Hsz|Hsz].
  - destruct (bk_small _ _ Hb Hsz) as [Hca Hc0]. destruct (bucket_spec (b_size b)) as (Hi & _); [lia..|].
    rewrite (proj2 (Z.eqb_neq (get_bucket_index _) (-1))) by lia. rewrite (proj2 (Z.eqb_neq _ 0) Hc0). simpl.
    unfold bind, cache_at, gets. by rewrite (nth_lookup_Some _ _ _ _ Hca).
  - destruct (bk_large _ _ Hb) as [Hc0 _]; [lia|]. rewrite bucket_large by lia. rewrite Hc0. simpl.
    unfold bind. by rewrite Hl2.
Qed.

(** ** kheap_init *)

Lemma object_size_mult n : (8 | n) -> 8 <= n <= 2 ^ 31 -> object_size n = n.
Proof.
  intros [q Hq] Hn. destruct (object_size_bounds n ltac:(lia)) as (_ & H1 & H2 & [r Hr]). lia.
Qed.

Lemma slab_state_same s s' meta cs live :
  k_mem s' = k_mem s -> k_pmm s' = k_pmm s -> cache_meta_initialized s' = cache_meta_initialized s ->
  slab_state s meta cs live -> slab_state s' meta cs live.
Proof.
  intros Hm Hp Hi. unfold slab_state. rewrite Hi. destruct (cache_meta_initialized s).
  - by apply heap_same.
  - intros [-> Hh]. split; [done|by eapply heap_same].
Qed.

Lemma slab_state_perm s meta cs cs' live : cs ≡ₚ cs' -> slab_state s meta cs live -> slab_state s meta cs' live.
Proof.
  intros Hc. unfold slab_state. destruct (cache_meta_initialized s); [by rewrite Hc|].
  intros [-> Hh]. split; [done|by rewrite <- Hc].
Qed.

Lemma slab_state_pos s meta c cs live : slab_state s meta (c :: cs) live -> 0 < c_addr c.
Proof.
  unfold slab_state. destruct (cache_meta_initialized s).
  - intros Hh. eapply (heap_perm s) in Hh; [|apply perm_swap|reflexivity]. apply cache_addr_pos in Hh. lia.
  - intros [_ Hh]. apply cache_addr_pos in Hh. lia.
Qed.

(** What is in use is not what [slab_cache_create] writes. *)
Lemma cache_create_same s s' meta a n cs live :
  area s live -> heap s' (mkCache cache_metadata_cache 32 meta :: mkCache a n [] :: cs) live ->
  keeps [(cache_metadata_cache, 32); (a, 32)] s s' -> same_bytes live s s'.
Proof.
  intros Ha Hh Hk. eapply keeps_same; [exact Hk|exact Ha|].
  pose proof Hh as [_ Har _]. apply area_app in Har as (_ & _ & Hap).
  apply Forall_forall. intros r Hrr. rewrite !bind_cons in Hap. unfold cells at 1 2 in Hap. simpl in Hap.
  apply Forall_cons in Hap as [Hm Hap]. apply Forall_app in Hap as [_ Hap].
  apply Forall_cons in Hap as [Hc _].
  apply (proj1 (Forall_forall _ _) Hm) in Hrr as G1. apply (proj1 (Forall_forall _ _) Hc) in Hrr as G2.
  split_aparts; by apply apart_sym.
Qed.

Lemma slab_state_area s meta cs live b : slab_state s meta cs live -> area (set_slab s b) live.
Proof.
  intros Hs. assert (Ha : area s live).
  { unfold slab_state in Hs. destruct (cache_meta_initialized s); [by eapply heap_area_live|].
    destruct Hs as [_ Hs]. apply heap_area_live, area_cons in Hs as (_ & Ha & _). exact Ha. }
  destruct Ha as [Ho Hsep]. split; [|exact Hsep]. eapply Forall_impl; [exact Ho|]. by intros r [].
Qed.

(** The buckets before the [i]-th exist, with the cache of caches left with
    enough slots for the others once there is a first one. *)
Record building (s0 s : kstate) (i : nat) (meta : list Z) (ks cs : list cache_t) (live : list (Z * Z)) : Prop := {
  bd_state : slab_state s meta (ks ++ cs) live;
  bd_ready : i <> O -> cache_meta_initialized s = true;
  bd_len : length (kmalloc_caches (k_kheap s)) = 8%nat;
  bd_uninit : kheap_initialized (k_kheap s) = false;
  bd_addr : map c_addr ks = take i (kmalloc_caches (k_kheap s));
  bd_size : map c_size ks = take i bucket_sizes;
  bd_same : same_bytes live s0 s;
  bd_test : g_test_destroyed s = g_test_destroyed s0;
  bd_meta : (i = O /\ meta = [] /\ free_set s = free_set s0 /\
             free_frames (k_pmm s) = free_frames (k_pmm s0)) \/ (8 <= length meta + i)%nat
}.

Lemma wp_init_buckets n s0 s i meta ks cs live (Q : unit -> kstate -> Prop) (E : kstate -> Prop) :
  building s0 s i meta ks cs live -> (n + i = 8)%nat ->
  (forall s' meta' ks', building s0 s' 8 meta' ks' cs live -> Q tt s') ->
  (forall s', free_set s0 = ∅ \/ free_frames (k_pmm s0) = 0 -> E s') ->
  wp (init_buckets n i (16 * 2 ^ Z.of_nat i)) s Q E.
Proof.
  revert s i meta ks. induction n as [|n IH]; intros s i meta ks [Hs Hready Hlen Hun Ha Hz Hb Hg Hm] Hi HQ HE; simpl.
  { assert (i = 8%nat) as -> by lia. apply wp_ret, (HQ _ meta ks). by split. }
  assert (Hp : 2 ^ 0 <= 2 ^ Z.of_nat i <= 2 ^ 7) by (split; apply Z.pow_le_mono_r; lia).
  unfold_sizes. rewrite wrap64_small by (unfold u64; lia). apply wp_bind.
  eapply wp_cache_create; [|exact Hs| |].
  - lia.
  - intros a meta' s1 Hs1 Hmeta Hk1.
    rewrite object_size_mult in Hs1 by (try lia; exists (2 * 2 ^ Z.of_nat i + 2); lia).
    pose proof (slab_state_pos _ _ _ _ _ Hs1) as Hapos. simpl in Hapos.
    pose proof (kp_only _ _ _ Hk1) as (m1 & p1 & Hs1eq).
    assert (Hkh : k_kheap s1 = k_kheap s) by (by rewrite Hs1eq).
    assert (Hrd : cache_meta_initialized s1 = true) by (by rewrite Hs1eq).
    assert (Hb1 : same_bytes live s s1).
    { unfold slab_state in Hs1. rewrite Hrd in Hs1.
      exact (cache_create_same (set_slab s true) s1 _ _ _ _ _ (slab_state_area _ _ _ _ true Hs) Hs1 Hk1). }
    unfold set_cache. wp_step. wp_step. set (s2 := set_kheap s1 _).
    apply wp_bind, (wp_cache_at _ _ _ _ a).
    { unfold s2. simpl. rewrite Nat2Z.id, Hkh. apply list_lookup_insert_eq. lia. }
    rewrite (proj2 (Z.eqb_neq a 0)) by lia. apply wp_bind, wp_ret.
    replace (wrap64 (Z.shiftl (16 * 2 ^ Z.of_nat i) 1)) with (16 * 2 ^ Z.of_nat (S i)).
    + apply (IH s2 (S i) meta' (ks ++ [mkCache a (16 * 2 ^ Z.of_nat i + 16) []])); [|lia|done|done].
      split; unfold s2; simpl.
      * eapply slab_state_same; [| | |eapply slab_state_perm; [|exact Hs1]]; [done..|].
        rewrite <- app_assoc. apply Permutation_middle.
      * done.
      * by rewrite length_insert, Hkh.
      * by rewrite Hkh.
      * rewrite map_app, Ha, Hkh. simpl.
        rewrite (take_S_r _ _ a) by (apply list_lookup_insert_eq; lia).
        by rewrite take_insert_ge by lia.
      * change (map c_size (ks ++ [mkCache a (16 * 2 ^ Z.of_nat i + 16) []]) = take (S i) bucket_sizes).
        rewrite map_app, Hz. cbn [map c_size]. rewrite (take_S_r _ _ (16 * 2 ^ Z.of_nat i + 16)); [done|].
        unfold bucket_sizes. rewrite list_lookup_fmap, lookup_seqZ_lt by lia. done.
      * exact (same_bytes_trans live s0 s s1 Hb Hb1).
      * rewrite <- Hg. by rewrite Hs1eq.
      * right. destruct Hmeta as [Hmeta|[-> Hmeta]]; [|lia].
        destruct Hm as [(_ & -> & _)|Hm]; [done|lia].
    + rewrite Z.shiftl_mul_pow2 by lia. rewrite Nat2Z.inj_succ, Z.pow_succ_r by lia.
      rewrite wrap64_small by (unfold u64; lia). lia.
  - intros s' Hnil He _. apply HE. unfold exhausted in He. destruct Hm as [(_ & _ & Hf & Hc)|Hm]; [by rewrite <- Hf, <- Hc|].
    rewrite Hnil in Hm. simpl in Hm. lia.
Qed.

Lemma wp_kheap_init s cs live (Q : unit -> kstate -> Prop) (E : kstate -> Prop) :
  slab_state s [] cs live -> kheap_initialized (k_kheap s) = false ->
  length (kmalloc_caches (k_kheap s)) = 8%nat ->
  (forall s' meta, kheap_rep s' [] (mkCache cache_metadata_cache 32 meta :: cs) live ->
     cache_meta_initialized s' = true -> same_bytes live s s' -> g_test_destroyed s' = g_test_destroyed s -> Q tt s') ->
  (forall s', exhausted s -> E s') ->
  wp kheap_init s Q E.
Proof.
  intros Hs Hi Hl HQ HE. unfold kheap_init. wp_steps. rewrite Hi. apply wp_bind.
  apply (wp_init_buckets 8 s s 0 [] [] cs live); [|done| |exact HE].
  - split; try done; [apply same_bytes_refl|by left].
  - intros s1 meta ks [Hs1 Hrd Hlen Hun Ha Hz Hb Hg _]. wp_step. wp_step. wp_print.
    apply (HQ _ meta); [|by apply Hrd|exact Hb|exact Hg]. split; simpl; [done|done|].
    exists ks. rewrite Ha, Hz. rewrite <- Hlen at 1. rewrite take_ge by done. split; [done|]. split; [done|].
    unfold slab_state in Hs1. rewrite Hrd in Hs1 by done.
    eapply heap_same; [..|eapply heap_perm; [|reflexivity|exact Hs1]]; [done|done|].
    by rewrite Permutation_middle.
Qed.
(** ** What the clients of the heap do with it *)

Lemma kheap_rep_equiv s bs cs cs' live live' :
  cs ≡ₚ cs' -> live ≡ₚ live' -> kheap_rep s bs cs live -> kheap_rep s bs cs' live'.
Proof.
  intros Hc Hl [Hin Hbs (ks & Ha & Hks & Hh)]. split; [done|done|]. exists ks. by rewrite <- Hc, <- Hl.
Qed.

(** Memory in use looked at in smaller pieces, or forgotten. *)
Lemma kheap_rep_split s bs cs rs live ps :
  kheap_rep s bs cs (rs ++ live) -> separated ps -> within ps rs -> kheap_rep s bs cs (ps ++ live).
Proof.
  intros [Hin Hbs (ks & Ha & Hks & Hh)] Hs Hw. split; [done|done|]. exists ks. split; [done|]. split; [done|].
  assert (Hp : forall ws, (bs ≫= extents) ++ ws ++ live ≡ₚ ws ++ (bs ≫= extents) ++ live).
  { intros ws. rewrite !app_assoc. apply Permutation_app_tail, Permutation_app_comm. }
  rewrite Hp in Hh. rewrite Hp. by eapply heap_split_within.
Qed.

(** Writing to memory in use that belongs to no block. *)
Lemma kheap_writes s bs cs ws live rs m :
  kheap_rep s bs cs (ws ++ live) -> within rs ws -> mods rs (k_mem s) m ->
  kheap_rep (set_mem s m) bs cs (ws ++ live) /\
  same_bytes ((bs ≫= extents) ++ live) s (set_mem s m).
Proof.
  intros [Hin Hbs (ks & Ha & Hks & Hh)] Hw Hm.
  assert (Hw' : within rs ((bs ≫= extents) ++ ws ++ live)).
  { eapply Forall_impl; [exact Hw|]. intros r (x & n & Hx & Hr). exists x, n. split; [|done].
    rewrite !elem_of_app. auto. }
  destruct (heap_writes _ _ _ _ _ Hh Hw' Hm) as [Hh' _].
  assert (Hs : same_bytes ((bs ≫= extents) ++ live) s (set_mem s m)).
  { apply (heap_writes_same s (ks ++ cs) ws _ rs); [|done|done]. eapply heap_perm; [reflexivity| |exact Hh].
    rewrite !app_assoc. apply Permutation_app_tail, Permutation_app_comm. }
  split; [|done]. split; [done| |by exists ks].
  apply same_bytes_app in Hs as [Hs _]. by eapply (blocks_ok_same s).
Qed.

(** A heap next to other caches and memory, after a step that kept the blocks. *)
Lemma kheap_rep_step s s' bs cs cs' live live' :
  kheap_rep s bs cs live -> heap_only s s' -> same_bytes (bs ≫= extents) s s' ->
  total_frames (k_pmm s') = total_frames (k_pmm s) -> mem_phys_base (k_pmm s') = mem_phys_base (k_pmm s) ->
  (forall ks, heap s (ks ++ cs) ((bs ≫= extents) ++ live) ->
     exists ks', map c_addr ks' = map c_addr ks /\ map c_size ks' = map c_size ks /\
       heap s' (ks' ++ cs') ((bs ≫= extents) ++ live')) ->
  kheap_rep s' bs cs' live'.
Proof.
  intros [Hin Hbs (ks & Ha & Hks & Hh)] Ho Hs Ht Hb Hstep. pose proof (heap_only_kheap _ _ Ho) as Hk.
  destruct (Hstep ks Hh) as (ks' & Ha' & Hks' & Hh'). split; [by rewrite Hk|by eapply blocks_ok_same|].
  exists ks'. rewrite Ha', Hks', Hk. by split.
Qed.

Lemma wp_heap_cache_create n s meta cs live (Q : Z -> kstate -> Prop) (E : kstate -> Prop) :
  0 <= n <= 2 ^ 31 -> cache_meta_initialized s = true ->
  heap s (mkCache cache_metadata_cache 32 meta :: cs) live ->
  (forall a meta' s', 0 < a < 2 ^ 64 ->
     heap s' (mkCache cache_metadata_cache 32 meta' :: mkCache a (object_size n) [] :: cs) live ->
     same_bytes live s s' -> heap_only s s' ->
     total_frames (k_pmm s') = total_frames (k_pmm s) -> mem_phys_base (k_pmm s') = mem_phys_base (k_pmm s) ->
     Q a s') ->
  (forall s', exhausted s -> exhausted s' -> E s') ->
  wp (slab_cache_create n) s Q E.
Proof.
  intros Hn Hi Hh HQ HE. assert (Hid : set_slab s true = s) by (rewrite <- Hi; by destruct s).
  assert (Hss : slab_state s meta cs live) by (unfold slab_state; by rewrite Hi).
  eapply wp_cache_create; [done|exact Hss| |by auto]. intros a meta' s' Hs' _ Hk. rewrite Hid in Hk.
  assert (Hi' : cache_meta_initialized s' = true) by (destruct (kp_only _ _ _ Hk) as (m & p & ->); done).
  unfold slab_state in Hs'. rewrite Hi' in Hs'. unfold sizeof_slab_cache in *.
  destruct (kp_frames _ _ _ Hk) as (_ & Ht & Hb).
  apply (HQ a meta'); [|exact Hs'| |apply Hk|done|done].
  - apply (cache_addr_pos s' (mkCache a (object_size n) []) (mkCache cache_metadata_cache 32 meta' :: cs) live).
    eapply heap_perm; [apply perm_swap|reflexivity|exact Hs'].
  - eapply cache_create_same; [by eapply heap_area_live|exact Hs'|exact Hk].
Qed.

Lemma wp_kheap_cache_create n s meta bs cs live (Q : Z -> kstate -> Prop) (E : kstate -> Prop) :
  0 <= n <= 2 ^ 31 -> cache_meta_initialized s = true ->
  kheap_rep s bs (mkCache cache_metadata_cache 32 meta :: cs) live ->
  (forall a meta' s', 0 < a < 2 ^ 64 ->
     kheap_rep s' bs (mkCache cache_metadata_cache 32 meta' :: mkCache a (object_size n) [] :: cs) live ->
     same_bytes ((bs ≫= extents) ++ live) s s' -> heap_only s s' -> Q a s') ->
  (forall s', exhausted s -> exhausted s' -> E s') ->
  wp (slab_cache_create n) s Q E.
Proof.
  intros Hn Hi [Hin Hbs (ks & Ha & Hks & Hh)] HQ HE.
  eapply heap_perm in Hh; [|apply Permutation_middle|reflexivity].
  eapply wp_heap_cache_create; [done|done|exact Hh| |exact HE]. intros a meta' s' Ha' Hh' Hs Ho Ht Hb.
  apply same_bytes_app in Hs as Hsb. destruct Hsb as [Hsb _].
  apply (HQ a meta'); [exact Ha'| |done|done].
  split; [by rewrite (heap_only_kheap _ _ Ho)|by apply (blocks_ok_same s); rewrite ?(heap_only_kheap _ _ Ho)|].
  exists ks. rewrite (heap_only_kheap _ _ Ho). split; [done|]. split; [done|].
  eapply heap_perm; [|reflexivity|exact Hh'].
  rewrite (Permutation_app_comm ks). cbn [app]. by rewrite (Permutation_app_comm ks).
Qed.

(** A block whose payload becomes an array of words for the rest of the
    kernel: its header is given up. *)
Lemma kheap_words s b bs cs live n :
  kheap_rep s (b :: bs) cs live -> 8 * n <= b_size b ->
  kheap_rep s bs cs (words (b_hdr b + 16) n ++ live).
Proof.
  intros [Hin Hbs (ks & Ha & Hks & Hh)] Hn. apply Forall_cons in Hbs as [Hb Hbs].
  split; [done|done|]. exists ks. split; [done|]. split; [done|].
  rewrite bind_cons, <- app_assoc in Hh.
  pose proof (heap_split_within _ _ _ _ _ Hh (words_separated (b_hdr b + 16) n) (words_within _ _ _ Hb Hn)) as Hh2.
  eapply heap_perm; [reflexivity| |exact Hh2].
  rewrite !app_assoc. apply Permutation_app_tail, Permutation_app_comm.
Qed.
End kheap_lemmas.

(** ** Properties *)

Section kheap_properties.
Context `{Console}.

(** C8: [kmalloc] of any size below 2^63.  It returns a new block of exactly
    that size, in memory that overlaps no other block, no cache and nothing
    else in use, and leaves the contents of all of those alone; or NULL, with
    nothing changed, for size 0 or when a large request finds no frame.  A
    request of up to 2048 bytes panics only when its bucket has no free object
    and no frame is left to grow it, and a larger one only when the next frames
    to be handed out are not as many as it needs, one after the other. *)
Theorem kmalloc_correct s bs cs live size :
  kheap_rep s bs cs live -> 0 <= size < 2 ^ 63 ->
  wp (kmalloc size) s
     (fun p s' =>
        (exists b, p = b_hdr b + 16 /\ b_size b = size /\ 0 < size /\ allocated s b bs cs live s') \/
        (p = 0 /\ s' = s /\ (size = 0 \/ (2048 < size /\ free_set s = ∅))))
     (kmalloc_panics s size).
Proof.
  intros Hr Hz. eapply wp_kmalloc; [exact Hr|exact Hz| | |done].
  - intros b s' Hsz Hp Ha. left. by exists b.
  - intros He. by right.
Qed.

(** [kfree] of a block in use removes exactly that block: the other blocks
    and all other memory in use keep their contents, and the frames of a large
    block, and no others, become free again.  A small one is what its cache hands
    out next. *)
Theorem kfree_correct s b bs cs live :
  kheap_rep s (b :: bs) cs live ->
  safe (kfree (b_hdr b + 16)) s (fun _ s' => freed s b bs cs live s').
Proof. intros Hr. by eapply wp_kfree. Qed.

(** A large allocation followed by its free gives every frame back. *)
Theorem kmalloc_kfree_frames s bs cs live size :
  kheap_rep s bs cs live -> 2048 < size < 2 ^ 63 ->
  wp (p <- kmalloc size ;; kfree p ;; ret p) s
     (fun p s' => p = 0 \/ (kheap_rep s' bs cs live /\ free_set s' = free_set s /\
                            same_bytes ((bs ≫= extents) ++ live) s s'))
     (fun _ => True).
Proof.
  intros Hr Hz. apply wp_bind. eapply wp_kmalloc_large; [exact Hr|exact Hz| | |done].
  - intros hdr s1 Hhdr Hr1 Hs1 Ho1 Hf1 Hsub. apply wp_bind.
    apply (wp_kfree s1 (mkBlock hdr size 0) bs cs live); [done|].
    intros s2 (Hr2 & Hs2 & Ho2 & Hf2 & _). apply wp_ret. right. split; [done|].
    split; [|by eapply same_bytes_trans]. rewrite Hf2, Hf1, union_comm_L. symmetry. by apply union_difference_L.
  - intros He. apply wp_bind. unfold kfree. simpl. apply wp_ret, wp_ret. by left.
Qed.

(** [kcalloc] detects every overflow of [num * size], returning NULL with
    nothing changed; below 2^63 it is [kmalloc] of the product with every byte
    of the block zeroed. *)
Theorem kcalloc_correct s bs cs live num size :
  kheap_rep s bs cs live -> 0 <= num < 2 ^ 64 -> 0 <= size < 2 ^ 64 ->
  (2 ^ 64 <= num * size -> kcalloc num size s = Ok 0 s) /\
  (num * size < 2 ^ 63 ->
   wp (kcalloc num size) s
     (fun p s' =>
        (exists b, p = b_hdr b + 16 /\ b_size b = num * size /\ allocated s b bs cs live s' /\
           forall i, 0 <= i < b_size b -> byte_at s' b i = 0) \/
        (p = 0 /\ s' = s /\ (num * size = 0 \/ (2048 < num * size /\ free_set s = ∅))))
     (kmalloc_panics s (num * size))).
Proof.
  intros Hr Hn Hs. split; [by apply kcalloc_overflow|]. intros Hov.
  eapply wp_kcalloc; [exact Hr|lia|lia|exact Hov| | |done].
  - intros b s' Hsz Hp Ha Hd. left. by exists b.
  - intros He. by right.
Qed.

(** C36: [krealloc] of a block.  A size that fits gives the block itself,
    untouched.  A larger one gives a new block that starts with all the bytes
    of the old one, which is freed; when there is no room the result is NULL
    and the old block is untouched.  Other memory in use keeps its contents. *)
Theorem krealloc_correct s b bs cs live size :
  kheap_rep s (b :: bs) cs live -> 0 < size < 2 ^ 63 ->
  wp (krealloc (b_hdr b + 16) size) s
     (fun p s' =>
        (size <= b_size b /\ p = b_hdr b + 16 /\ s' = s) \/
        (b_size b < size /\ exists b', p = b_hdr b' + 16 /\ b_size b' = size /\
           kheap_rep s' (b' :: bs) cs live /\ same_bytes ((bs ≫= extents) ++ live) s s' /\
           forall i, 0 <= i < b_size b -> byte_at s' b' i = byte_at s b i) \/
        (b_size b < size /\ p = 0 /\ s' = s /\ 2048 < size /\ free_set s = ∅))
     (fun s' => b_size b < size /\ kmalloc_panics s size s').
Proof.
  intros Hr Hz. eapply wp_krealloc; [exact Hr|exact Hz| | | |done].
  - intros Hle. by left.
  - intros b' s' Hlt Hsz Hr' Hs Hd. right; left. split; [done|]. by exists b'.
  - intros Hlt Hsz He. by right; right.
Qed.

(** Given the size the block was allocated with, [kfree_sized] does exactly
    what [kfree] does. *)
Theorem kfree_sized_correct s b bs cs live :
  kheap_rep s (b :: bs) cs live ->
  kfree_sized (b_hdr b + 16) (b_size b) s = kfree (b_hdr b + 16) s.
Proof. apply kfree_sized_run. Qed.

(** [kheap_init] builds the eight caches, for blocks of 16 to 2048 bytes and
    their headers, on a slab allocator that has not been used yet; it panics
    only when there is no frame, and does nothing the second time. *)
Theorem kheap_init_correct s cs live :
  slab_state s [] cs live -> kheap_initialized (k_kheap s) = false ->
  length (kmalloc_caches (k_kheap s)) = 8%nat ->
  wp kheap_init s
     (fun _ s' => (exists meta, kheap_rep s' [] (mkCache cache_metadata_cache 32 meta :: cs) live) /\
                  kheap_init s' = Ok tt s')
     (fun _ => free_set s = ∅ \/ free_frames (k_pmm s) = 0).
Proof.
  intros Hs Hi Hl. eapply wp_kheap_init; [exact Hs|exact Hi|exact Hl| |done].
  intros s' meta Hr _ _ _. split; [by exists meta|].
  unfold kheap_init, bind at 1, gets. by rewrite (kr_init _ _ _ _ Hr).
Qed.

(** The bucket of a size is the smallest that holds it, and sizes above 2048
    bytes have none. *)
Theorem get_bucket_index_best size :
  0 < size ->
  (size <= 2048 -> exists i, get_bucket_index size = i /\ 0 <= i < 8 /\ size <= 16 * 2 ^ i /\
     forall j, 0 <= j < i -> 16 * 2 ^ j < size) /\
  (2048 < size -> get_bucket_index size = -1).
Proof.
  intros Hs. split; [|apply bucket_large]. intros Hle. destruct (bucket_spec size Hs Hle) as (Hb & Hfit & Hmin).
  exists (get_bucket_index size). split; [done|]. split; [done|]. split; [done|]. intros j Hj.
  destruct Hmin as [Hmin|Hmin]; [lia|].
  assert (2 ^ j <= 2 ^ (get_bucket_index size - 1)) by (apply Z.pow_le_mono_r; lia). lia.
Qed.

(** Sizes within 16 of 2^64 wrap when the header is added: [kmalloc] then
    takes a single frame and returns it as a block whose recorded size is the
    huge one. *)
Theorem kmalloc_size_wraps s cs live size :
  heap s cs live -> kheap_initialized (k_kheap s) = true -> 2 ^ 64 - 16 <= size < 2 ^ 64 ->
  free_frames (k_pmm s) <> 0 -> free_set s <> ∅ ->
  safe (kmalloc size) s
    (fun p s' => exists i, frame_free s i /\ p = frame_addr s i + 16 /\
                   free_set s' = free_set s ∖ {[i]} /\ get64 (k_mem s') (frame_addr s i) = size).
Proof.
  intros Hh Hin Hz Hff Hfs. pose proof (hp_ok _ _ _ Hh) as Hok.
  unfold kmalloc. rewrite (proj2 (Z.eqb_neq size 0)) by lia. wp_steps. rewrite Hin. simpl.
  rewrite bucket_large by lia. simpl. apply wp_bind.
  apply wp_alloc_frame; [apply Hok| |by intros He|by intros He].
  intros i Hf _. destruct (heap_take _ _ _ _ Hh Hf) as [Hh1 _].
  destruct (frame_align s i Hok Hf) as (_ & Hf0 & Htop).
  rewrite (proj2 (Z.eqb_neq _ 0)) by lia. apply wp_bind.
  assert (Hpages : Z.to_nat (num_pages size - 1) = O).
  { unfold num_pages. unfold_sizes. replace (wrap64 (size + 16)) with (size + 16 - 2 ^ 64).
    - change 4096 with (2 ^ 12). rewrite ALIGN_UP_eq by lia. rewrite Z.div_mul by lia. Z.div_mod_to_equations; lia.
    - unfold wrap64. apply (Z.mod_unique _ _ 1); lia. }
  unfold alloc_contiguous. rewrite Hpages. apply wp_ret.
  eapply wp_header; [exact Hh1|unfold PAGE_SIZE; lia|unfold u64; lia|unfold u64; lia|].
  intros s' _ _ Hsize _ Hfs'. apply wp_ret. unfold_sizes. rewrite wrap64_small by (unfold u64; lia).
  exists i. split; [done|]. split; [done|]. split; [by rewrite Hfs', free_set_taken|done].
Qed.
End kheap_properties.

(** ** Witnesses *)

(** The demonstration machine with its kernel heap set up. *)
Definition kheap_demo : kstate := final (kheap_init (H := arm64_virt)) pmm_demo.

Lemma kheap_rep_io `{Platform} s t bs cs live : kheap_rep s bs cs live -> kheap_rep (set_io s t) bs cs live.
Proof.
  intros [Hin Hbs (ks & Ha & Hs & Hh)]. split; [done| |exists ks; split_and!; try done; by apply (heap_same s)].
  eapply Forall_impl; [exact Hbs|]. intros b []. by split.
Qed.

Lemma pmm_demo_frames : free_set pmm_demo = ∅ \/ free_frames (k_pmm pmm_demo) = 0 -> False.
Proof.
  intros [He|He]; [|vm_compute in He; discriminate He].
  apply (f_equal (fun F : gset Z => size F)) in He. vm_compute in He. discriminate He.
Qed.

(** The memory of the object manager, which its users keep in use. *)
Definition om_demo : list (Z * Z) := [(0x40092000, 5680)].

Lemma pmm_demo_om : slab_state (H := arm64_virt) pmm_demo [] [] om_demo.
Proof. split; [done|]. apply heapb_ok. vm_compute. reflexivity. Qed.

Lemma kheap_demo_om :
  exists meta, kheap_rep (H := arm64_virt) kheap_demo [] [mkCache 0x40090000 32 meta] om_demo.
Proof.
  apply (wp_final (fun s => exists meta, kheap_rep (H := arm64_virt) s [] [mkCache 0x40090000 32 meta] om_demo)
           (kheap_init (H := arm64_virt)) pmm_demo
           (fun _ s' => exists meta, kheap_rep (H := arm64_virt) s' [] [mkCache 0x40090000 32 meta] om_demo)
           (fun _ => False)).
  - apply (@wp_kheap_init arm64_virt arm64_console _ [] om_demo _ _ pmm_demo_om eq_refl eq_refl).
    + intros s' meta Hr _ _ _. exists meta. exact Hr.
    + intros _. exact pmm_demo_frames.
  - intros _ s' [meta Hr]. exists meta. exact (kheap_rep_io _ _ _ _ _ Hr).
  - intros s' [].
Qed.

Lemma kheap_demo_rep :
  exists meta, kheap_rep (H := arm64_virt) kheap_demo [] [mkCache 0x40090000 32 meta] [].
Proof.
  destruct kheap_demo_om as [meta Hr]. exists meta. exact (kheap_rep_split _ _ _ om_demo [] [] Hr I (Forall_nil_2 _)).
Qed.

(** The same with a block of 100 bytes in use. *)
Definition block_demo : kstate := final (kmalloc (H := arm64_virt) 100) kheap_demo.

Lemma block_demo_rep :
  exists b meta, kheap_rep (H := arm64_virt) block_demo [b] [mkCache 0x40090000 32 meta] [] /\
    b_hdr b + 16 = 0x40105F50 /\ b_size b = 100.
Proof.
  destruct kheap_demo_rep as [meta Hr].
  assert (Hw : safe (kmalloc (H := arm64_virt) 100) kheap_demo (fun p s' => exists b,
            kheap_rep (H := arm64_virt) s' [b] [mkCache 0x40090000 32 meta] [] /\ b_hdr b + 16 = p /\ b_size b = 100)).
  { apply (@wp_kmalloc arm64_virt arm64_console _ _ _ _ 100 _ _ Hr ltac:(lia)).
    - intros b s' Hsz _ (_ & Hr' & _). exists b. exact (conj Hr' (conj eq_refl Hsz)).
    - intros [He|[He _]]; lia.
    - intros s' He. destruct He as [(_ & _ & He & _)|(He & _)]; [|discriminate He]. destruct He as [He'|He'].
      + apply (f_equal (fun F : gset Z => size F)) in He'. vm_compute in He'. discriminate He'.
      + vm_compute in He'. discriminate He'. }
  destruct (wp_result _ _ _ _ 0x40105F50 Hw) as (s' & Hrun & b & Hr' & Hp & Hsz); [vm_compute; reflexivity|].
  exists b, meta. split; [|exact (conj Hp Hsz)]. unfold block_demo, final. rewrite Hrun.
  exact (kheap_rep_io _ _ _ _ _ Hr').
Qed.

Lemma kmalloc_correct_witness :
  exists s' b meta, kmalloc (H := arm64_virt) 100 kheap_demo = Ok 0x40105F50 s' /\
    allocated (H := arm64_virt) kheap_demo b [] [mkCache 0x40090000 32 meta] [] s' /\ b_size b = 100.
Proof.
  destruct kheap_demo_rep as [meta Hr].
  destruct (wp_result _ _ _ _ 0x40105F50 (@kmalloc_correct arm64_virt arm64_console _ _ _ _ 100 Hr ltac:(lia)))
    as (s' & Hrun & [(b & _ & Hsz & _ & Ha)|(Hz & _)]); [vm_compute; reflexivity| |discriminate Hz].
  exists s', b, meta. exact (conj Hrun (conj Ha Hsz)).
Defined.

Lemma kfree_correct_witness :
  exists b meta, safe (kfree (H := arm64_virt) 0x40105F50) block_demo
    (fun _ s' => freed (H := arm64_virt) block_demo b [] [mkCache 0x40090000 32 meta] [] s').
Proof.
  destruct block_demo_rep as (b & meta & Hr & Hp & _). exists b, meta. rewrite <- Hp.
  exact (@kfree_correct arm64_virt _ _ _ _ _ Hr).
Defined.

Lemma kmalloc_kfree_frames_witness :
  exists s', (p <- kmalloc (H := arm64_virt) 5000 ;; kfree (H := arm64_virt) p ;; ret p) kheap_demo
               = Ok 0x40105010 s' /\ free_set s' = free_set kheap_demo.
Proof.
  destruct kheap_demo_rep as [meta Hr].
  destruct (wp_result _ _ _ _ 0x40105010
              (@kmalloc_kfree_frames arm64_virt arm64_console _ _ _ _ 5000 Hr ltac:(lia)))
    as (s' & Hrun & [Hz|(_ & Hf & _)]); [vm_compute; reflexivity|discriminate Hz|].
  exists s'. exact (conj Hrun Hf).
Defined.

Lemma kcalloc_correct_witness :
  kcalloc (H := arm64_virt) (2 ^ 33) (2 ^ 32) kheap_demo = Ok 0 kheap_demo /\
  exists s' b, kcalloc (H := arm64_virt) 10 30 kheap_demo = Ok 0x40105C80 s' /\
    b_size b = 300 /\ forall i, 0 <= i < b_size b -> byte_at s' b i = 0.
Proof.
  destruct kheap_demo_rep as [meta Hr]. split.
  - destruct (@kcalloc_correct arm64_virt arm64_console _ _ _ _ (2 ^ 33) (2 ^ 32) Hr ltac:(lia) ltac:(lia)) as [Hw _].
    exact (Hw ltac:(lia)).
  - destruct (@kcalloc_correct arm64_virt arm64_console _ _ _ _ 10 30 Hr ltac:(lia) ltac:(lia)) as [_ Hw].
    destruct (wp_result _ _ _ _ 0x40105C80 (Hw ltac:(lia)))
      as (s' & Hrun & [(b & _ & Hsz & _ & Hd)|(Hz & _)]); [vm_compute; reflexivity| |discriminate Hz].
    exists s', b. exact (conj Hrun (conj Hsz Hd)).
Defined.

Lemma krealloc_correct_witness :
  exists s' b b' meta, krealloc (H := arm64_virt) 0x40105F50 300 block_demo = Ok 0x40106C80 s' /\
    kheap_rep (H := arm64_virt) s' [b'] [mkCache 0x40090000 32 meta] [] /\
    forall i, 0 <= i < 100 -> byte_at s' b' i = byte_at block_demo b i.
Proof.
  destruct block_demo_rep as (b & meta & Hr & Hp & Hsz).
  pose proof (@krealloc_correct arm64_virt arm64_console _ _ _ _ _ 300 Hr ltac:(lia)) as Hw.
  rewrite Hp, Hsz in Hw.
  destruct (wp_result _ _ _ _ 0x40106C80 Hw)
    as (s' & Hrun & [(Hle & _)|[(_ & b' & _ & _ & Hr' & _ & Hd)|(_ & Hz & _)]]);
    [vm_compute; reflexivity|lia| |discriminate Hz].
  exists s', b, b', meta. exact (conj Hrun (conj Hr' Hd)).
Defined.

Lemma kfree_sized_correct_witness :
  kfree_sized (H := arm64_virt) 0x40105F50 100 block_demo = kfree (H := arm64_virt) 0x40105F50 block_demo.
Proof.
  destruct block_demo_rep as (b & meta & Hr & Hp & Hsz). rewrite <- Hp, <- Hsz.
  exact (@kfree_sized_correct arm64_virt _ _ _ _ _ Hr).
Defined.

Lemma kheap_init_correct_witness :
  exists s', kheap_init (H := arm64_virt) pmm_demo = Ok tt s' /\ kheap_init (H := arm64_virt) s' = Ok tt s'.
Proof.
  destruct (wp_result _ _ _ _ tt
              (@kheap_init_correct arm64_virt arm64_console _ [] [] pmm_demo_slab_state eq_refl eq_refl))
    as (s' & Hrun & _ & Hagain); [vm_compute; reflexivity|]. exists s'. exact (conj Hrun Hagain).
Defined.

Lemma get_bucket_index_best_witness : exists i, get_bucket_index 129 = i /\ 129 <= 16 * 2 ^ i.
Proof.
  destruct (get_bucket_index_best 129 ltac:(lia)) as [Hw _].
  destruct (Hw ltac:(lia)) as (i & Hi & _ & Hfit & _). exists i. exact (conj Hi Hfit).
Defined.

Lemma kmalloc_size_wraps_witness :
  exists s', kmalloc (H := arm64_virt) (2 ^ 64 - 1) kheap_demo = Ok 0x40105010 s'.
Proof.
  destruct kheap_demo_rep as [meta [_ _ (ks & _ & _ & Hh)]].
  assert (Hf : free_set kheap_demo <> ∅).
  { intros He. apply (f_equal (fun F : gset Z => size F)) in He. vm_compute in He. discriminate He. }
  assert (Hc : free_frames (k_pmm kheap_demo) <> 0) by (vm_compute; discriminate).
  destruct (wp_result _ _ _ _ 0x40105010
              (@kmalloc_size_wraps arm64_virt arm64_console _ _ _ (2 ^ 64 - 1) Hh eq_refl ltac:(lia) Hc Hf))
    as (s' & Hrun & _); [vm_compute; reflexivity|]. exists s'. exact Hrun.
Defined.
