(* ===== verification/Mm.v ===== *)
(** * Memory start-up: base/mm/mm.c

    [mm_init] builds the three allocators one on top of the other: the boot
    heap, the frame allocator whose bitmap it holds, and the kernel heap. *)

From Stdlib Require Import String.
From S2P Require Import Prelude Machine Logic Console Boards Sync Boot Pmm Heap Slab Kheap.

#[local] Open Scope string_scope.
#[local] Open Scope list_scope.
#[local] Open Scope Z_scope.

Section mm.
Context `{Platform}.

Definition mm_init (boot_info : boot_info_t) : M unit :=
  mm_boot_init boot_info ;;
  pmm_init (kernel_image_start boot_info) (machine_ram_total boot_info) ;;
  pmm_free_region (kernel_image_start boot_info) (machine_ram_total boot_info) ;;
  let kern_start := kernel_image_start boot_info in
  let kern_end := early_heap_end boot_info in
  let kern_size := wrap64 (kern_end - kern_start) in
  pmm_reserve_region kern_start kern_size ;;
  klog_info "kern" "physical memory initialized (reserved 0x%x - 0x%x, size: %u KB)"
    [VInt kern_start; VInt kern_end; VInt (kern_size / 1024)] ;;
  kheap_init.

(** The frames of the managed region, and those of the kernel image and the boot
    heap at its start. *)
Definition managed (bi : boot_info_t) : Z := machine_ram_total bi / 4096.
Definition image_frames (bi : boot_info_t) : Z := (early_heap_end bi - kernel_image_start bi + 4095) / 4096.

(** What [mm_init] needs of the loader's description: statics at zero, the image
    at the start of the managed region with frames to spare after it, the boot
    heap at its end with room for the bitmap, and the statics it uses ([live]
    stands for any others) in the image. *)
Record mm_layout (s : kstate) (bi : boot_info_t) (live : list (Z * Z)) : Prop := {
  mp_pmm : last_free_index (k_pmm s) = 0;
  mp_slab : cache_meta_initialized s = false;
  mp_kheap : kheap_initialized (k_kheap s) = false;
  mp_caches : length (kmalloc_caches (k_kheap s)) = 8%nat;
  mp_start : 0 < kernel_image_start bi <= early_heap_start bi;
  mp_align : (4096 | kernel_image_start bi);
  mp_total : 0 <= machine_ram_total bi;
  mp_top : kernel_image_start bi + machine_ram_total bi + 2 ^ 32 < 2 ^ 64;
  mp_heap : valid (early_heap_start bi) (early_heap_end bi - early_heap_start bi) = true;
  mp_fits : early_heap_start bi + ALIGN_UP (bitmap_size_for (managed bi)) 16 <= early_heap_end bi;
  mp_room : image_frames bi < managed bi;
  mp_live : separated ((cache_metadata_cache, 32) :: live);
  mp_image : Forall (fun r => kernel_image_start bi <= r.1 /\ r.1 + r.2 <= early_heap_start bi /\
                              valid r.1 r.2 = true) ((cache_metadata_cache, 32) :: live)
}.

(** And what it takes for granted: a byte of the bitmap for every frame, and
    memory behind every frame.  The code sees to neither.  The bitmap is too
    short for some sizes ([Pmm.bitmap_too_short]); and since the managed region
    is as long as the memory but starts where the image does, a description of
    exactly the memory there is, as this repository's loaders give it, leaves
    frames behind which there is none ([mm_frames_past_ram]). *)
Record mm_pre (s : kstate) (bi : boot_info_t) (live : list (Z * Z)) : Prop := {
  mp_layout : mm_layout s bi live;
  mp_covers : (managed bi + 7) / 8 <= bitmap_size_for (managed bi);
  mp_frames : forall i, image_frames bi <= i < managed bi ->
    valid (kernel_image_start bi + i * 4096) 4096 = true
}.
End mm.

Section mm_lemmas.
Context `{Console}.

(** The kernel's memory after the frame allocator is set up. *)
Lemma mm_area s bi live :
  mm_pre s bi live ->
  forall s1, frame_bitmap (k_pmm s1) = early_heap_start bi -> total_frames (k_pmm s1) = managed bi ->
    mem_phys_base (k_pmm s1) = kernel_image_start bi -> pmm_ok s1 ->
    free_set s1 = frames (image_frames bi) (managed bi - image_frames bi) ->
    heap s1 [] ((cache_metadata_cache, 32) :: live).
Proof.
  intros [[] Hcov Hfr] s1 Hbm Ht Hbase Hok Hfs.
  assert (Hff : forall i, frame_free s1 i -> image_frames bi <= i < managed bi).
  { intros i Hi%elem_of_free_set. rewrite Hfs, elem_of_frames in Hi. lia. }
  assert (Haddr : forall i, frame_addr s1 i = kernel_image_start bi + i * 4096) by (intros i; unfold frame_addr; by rewrite Hbase).
  assert (Hfree : forall i, frame_free s1 i -> early_heap_end bi <= frame_addr s1 i).
  { intros i Hi%Hff. rewrite Haddr. unfold image_frames in Hi. Z.div_mod_to_equations; lia. }
  assert (Hman : 0 <= managed bi < 2 ^ 52) by (unfold managed; Z.div_mod_to_equations; lia).
  pose proof (bitmap_size_bounds _ Hman) as Hbs.
  assert (Hbs0 : 0 <= bitmap_size_for (managed bi)) by (Z.div_mod_to_equations; lia).
  destruct (ALIGN_UP_16 (bitmap_size_for (managed bi))) as [Ha _]; [Z.div_mod_to_equations; lia..|].
  split; [split| |constructor].
  - done.
  - by rewrite Hbase.
  - rewrite Hbase, Ht. unfold managed, PAGE_SIZE. Z.div_mod_to_equations; lia.
  - intros i Hi. rewrite Haddr. by apply Hfr, Hff.
  - intros i Hi. apply Hfree in Hi. unfold bitmap_range, apart. simpl. rewrite Hbm, Ht. lia.
  - split; [|done]. eapply Forall_impl; [exact mp_image0|]. intros [a n] (H1 & H2 & H3). simpl in *. split.
    + lia.
    + unfold image_frames, managed in *. Z.div_mod_to_equations; lia.
    + done.
    + intros i Hi. apply Hfree in Hi. unfold apart. simpl. lia.
    + unfold bitmap_range, apart. simpl. rewrite Hbm. lia.
Qed.

(** The statics are below the boot heap, where the bitmap is. *)
Lemma live_kept bi live n s s' :
  Forall (fun r => kernel_image_start bi <= r.1 /\ r.1 + r.2 <= early_heap_start bi /\ valid r.1 r.2 = true) live ->
  mods [(early_heap_start bi, n)] (k_mem s) (k_mem s') -> same_bytes live s s'.
Proof.
  intros Hl Hm. apply Forall_forall. intros r Hr b Hb. apply (proj1 (Forall_forall _ _) Hl) in Hr as (_ & Hr & _).
  apply Hm, outside_cons. split; [lia|constructor].
Qed.

(** The frame allocator set up, in [s], from the state [s0] of the boot heap. *)
Record frames_ready (s0 s : kstate) (bi : boot_info_t) (live : list (Z * Z)) : Prop := {
  fr_ok : pmm_ok s;
  fr_bitmap : frame_bitmap (k_pmm s) = early_heap_start bi;
  fr_total : total_frames (k_pmm s) = managed bi;
  fr_base : mem_phys_base (k_pmm s) = kernel_image_start bi;
  fr_set : free_set s = frames (image_frames bi) (managed bi - image_frames bi);
  fr_count : accounted (managed bi) s;
  fr_live : same_bytes live s0 s;
  fr_rest : k_kheap s = k_kheap s0 /\ cache_meta_initialized s = cache_meta_initialized s0 /\
            g_test_destroyed s = g_test_destroyed s0
}.

Lemma boot_heap_order s bi live : mm_layout s bi live -> early_heap_start bi <= early_heap_end bi.
Proof.
  intros []. assert (Hman : 0 <= managed bi < 2 ^ 52) by (unfold managed; Z.div_mod_to_equations; lia).
  pose proof (bitmap_size_bounds _ Hman) as Hbs.
  destruct (ALIGN_UP_16 (bitmap_size_for (managed bi))) as [Ha _]; Z.div_mod_to_equations; lia.
Qed.

(** The managed frames, all freed and then those of the image reserved. *)
Lemma image_reserved s bi live :
  mm_layout s bi live ->
  frames 0 (managed bi) ∖ frames 0 (image_frames bi) = frames (image_frames bi) (managed bi - image_frames bi).
Proof.
  intros Hpre. pose proof (boot_heap_order _ _ _ Hpre) as Hheap. destruct Hpre. apply set_eq. intros i. rewrite elem_of_difference, !elem_of_frames.
  unfold image_frames, managed in *. Z.div_mod_to_equations; lia.
Qed.

Lemma region_start_base s base : mem_phys_base (k_pmm s) = base -> region_start s base = 0.
Proof. intros Hb. unfold region_start. by rewrite Hb, Z.sub_diag, Z.div_0_l. Qed.

Lemma wp_assoc3 {A} (a b c : M unit) (k : M A) s Q E :
  wp ((a ;; b ;; c) ;; k) s Q E -> wp (a ;; b ;; c ;; k) s Q E.
Proof. unfold wp, bind. destruct (a s) as [? s1| | |]; [|done..]. by destruct (b s1). Qed.

Lemma wp_mm_frames s s0 bi live (Q : unit -> kstate -> Prop) E :
  mm_layout s bi live -> init_pre s0 (kernel_image_start bi) (machine_ram_total bi) ->
  boot_heap_ptr (k_boot s0) = early_heap_start bi -> early_heap_end bi < 2 ^ 64 ->
  (forall s', frames_ready s0 s' bi live -> Q tt s') ->
  wp (pmm_init (kernel_image_start bi) (machine_ram_total bi) ;;
      pmm_free_region (kernel_image_start bi) (machine_ram_total bi) ;;
      pmm_reserve_region (kernel_image_start bi) (wrap64 (early_heap_end bi - kernel_image_start bi))) s0 Q E.
Proof.
  intros Hpre Hip Hptr Hend HQ. pose proof Hpre as [].
  pose proof (boot_heap_order _ _ _ Hpre) as Hheap.
  apply wp_bind, wp_pmm_init; [done|]. intros m tr Hm Hones. rewrite Hptr in Hm.
  destruct (initialised_ok s0 _ _ m tr Hip Hones) as (Hok1 & Hfs1 & Hacc1).
  set (s1 := initialised s0 _ _ m tr) in *. fold (managed bi) in *.
  assert (Hb1 : mem_phys_base (k_pmm s1) = kernel_image_start bi) by done.
  apply wp_bind, (wp_free_region (managed bi)); [done|done|lia| |].
  { split; rewrite Hb1; [lia|]. rewrite Z.sub_diag, Z.div_0_l by done. done. }
  intros s2 [Hok2 Hon2 Hacc2 Hfs2]. rewrite Hfs1, union_empty_l_L, region_start_base in Hfs2 by done.
  rewrite (wrap64_small (early_heap_end bi - _)) by (unfold u64; lia).
  assert (Hb2 : mem_phys_base (k_pmm s2) = kernel_image_start bi /\ total_frames (k_pmm s2) = managed bi).
  { by destruct Hon2 as (? & ? & ? & -> & _). }
  destruct Hb2 as [Hb2 Ht2].
  apply (wp_reserve_region (managed bi)); [done|done|lia|unfold image_frames, managed in *; Z.div_mod_to_equations; lia| |].
  { split; rewrite ?Hb2, ?Ht2; [lia|]. rewrite Z.sub_diag, Z.div_0_l by done. unfold image_frames, PAGE_SIZE in *. lia. }
  intros s3 [Hok3 Hon3 Hacc3 Hfs3]. rewrite Hfs2, region_start_base in Hfs3 by done.
  fold (image_frames bi) in Hfs3. apply HQ.
  destruct (pmm_only_trans _ _ _ Hon2 Hon3) as (m3 & ff & lf & Heq & Hm3).
  split; [done|by rewrite Heq..| |done| |by rewrite Heq].
  - rewrite Hfs3. by eapply image_reserved.
  - apply Forall_cons in mp_image0 as [_ Himg]. rewrite Heq.
    apply (same_bytes_trans live s0 s1); eapply live_kept; [exact Himg|exact Hm|exact Himg|].
    simpl. unfold bitmap_range in Hm3. simpl in Hm3. rewrite Hptr in Hm3. exact Hm3.
Qed.

(** The boot heap set up, with room for the bitmap. *)
Lemma wp_mm_boot s bi live (Q : unit -> kstate -> Prop) E :
  mm_layout s bi live -> (managed bi + 7) / 8 <= bitmap_size_for (managed bi) ->
  (forall s0, init_pre s0 (kernel_image_start bi) (machine_ram_total bi) ->
     boot_heap_ptr (k_boot s0) = early_heap_start bi ->
     (exists t, s0 = set_io (set_boot s (mkBoot (early_heap_start bi) (early_heap_end bi))) t) -> Q tt s0) ->
  wp (mm_boot_init bi) s Q E.
Proof.
  intros Hpre Hcov HQ. pose proof (boot_heap_order _ _ _ Hpre) as Hheap. destruct Hpre.
  unfold mm_boot_init. apply wp_bind. wp_print. apply wp_bind. wp_step. wp_print.
  apply HQ; [|done|by eexists].
  split; simpl; try done; unfold boot_ok, u64; simpl; try lia.
  unfold image_frames, managed in *. Z.div_mod_to_equations; lia.
Qed.

Lemma boot_heap_top s bi live : mm_layout s bi live -> early_heap_end bi < 2 ^ 64.
Proof. intros []. unfold image_frames, managed in *. Z.div_mod_to_equations; lia. Qed.

Lemma wp_mm_init s bi live (Q : unit -> kstate -> Prop) E :
  mm_pre s bi live ->
  (forall s' meta, kheap_rep s' [] [mkCache cache_metadata_cache 32 meta] live ->
     cache_meta_initialized s' = true -> same_bytes live s s' -> g_test_destroyed s' = g_test_destroyed s -> Q tt s') ->
  wp (mm_init bi) s Q E.
Proof.
  intros Hpre HQ. pose proof (mp_layout _ _ _ Hpre) as Hlay. unfold mm_init.
  apply wp_bind, (wp_mm_boot s bi live); [exact Hlay|apply Hpre|]. intros s0 Hip Hptr (t & Hs0).
  apply wp_assoc3, wp_bind. apply (wp_mm_frames s s0 bi live); [done..|exact (boot_heap_top _ _ _ Hlay)|]. intros s3 [Hok Hbm Ht Hb Hfs Hacc Hlive (Hkh & Hcm & Hg)].
  pose proof (mm_area s bi live Hpre s3 Hbm Ht Hb Hok Hfs) as Hh3.
  destruct Hlay. subst s0. simpl in Hkh, Hcm, Hg.
  apply wp_bind. wp_print.
  eapply (wp_kheap_init _ [] live); simpl; [|by rewrite Hkh|by rewrite Hkh| |].
  2:{ intros s' meta Hr Hc Hb' Hg'. apply (HQ s' meta Hr Hc); [|by rewrite Hg', Hg].
      eapply same_bytes_trans; [exact Hlive|exact Hb']. }
  - unfold slab_state. simpl. rewrite Hcm. simpl. rewrite mp_slab0. split; [done|]. by apply (heap_same s3).
  - intros s' He. exfalso.
    assert (Hin : image_frames bi ∈ free_set s3) by (rewrite Hfs; apply elem_of_frames; lia).
    destruct He as [He|He].
    + change (free_set s3 = ∅) in He. by rewrite He in Hin.
    + destruct Hacc as [Hc Hk]. apply elem_of_subseteq_singleton, subseteq_size in Hin.
      rewrite size_singleton in Hin. simpl in He. lia.
Qed.
End mm_lemmas.

(** ** Properties *)

Section mm_properties.
Context `{Console}.

(** Frames past the end of memory.  When the loader describes the memory exactly,
    all of it from [machine_ram_base] on and none above, with the image at least
    a page above its start, the frame allocator is set up with a last frame
    that is free and is not memory. *)
Theorem mm_frames_past_ram s bi live :
  mm_layout s bi live -> (managed bi + 7) / 8 <= bitmap_size_for (managed bi) ->
  (forall a, valid a 4096 = true -> a + 4096 <= machine_ram_base bi + machine_ram_total bi) ->
  machine_ram_base bi + 4096 <= kernel_image_start bi ->
  safe (mm_boot_init bi ;;
        pmm_init (kernel_image_start bi) (machine_ram_total bi) ;;
        pmm_free_region (kernel_image_start bi) (machine_ram_total bi) ;;
        pmm_reserve_region (kernel_image_start bi) (wrap64 (early_heap_end bi - kernel_image_start bi))) s
    (fun _ s' => frame_free s' (managed bi - 1) /\ valid (frame_addr s' (managed bi - 1)) 4096 = false).
Proof.
  intros Hpre Hcov Hram Himg.
  apply wp_bind, (wp_mm_boot s bi live); [done..|]. intros s0 Hip Hptr _.
  apply (wp_mm_frames s s0 bi live); [done..|exact (boot_heap_top _ _ _ Hpre)|]. intros s' []. split.
  - apply elem_of_free_set. rewrite fr_set0. apply elem_of_frames. pose proof (mp_room _ _ _ Hpre). lia.
  - apply not_true_iff_false. intros Hv%Hram. unfold frame_addr, managed, PAGE_SIZE in Hv. rewrite fr_base0 in Hv.
    Z.div_mod_to_equations; lia.
Qed.

(** C12: start-up succeeds on a machine with memory behind every frame the
    allocator is given, a byte of the bitmap for each and the image where
    [mm_layout] has it: [mm_init] returns, without a panic, an invalid access or
    an endless loop, with the kernel heap ready: no block in use, the eight
    caches and the cache of caches well formed, and the kernel's statics
    [live] in no free frame, in no cache and not in the bitmap, with their
    contents as they were.  This repository's loaders describe less memory
    than that ([mm_frames_past_ram]). *)
Theorem mm_init_correct s bi live :
  mm_pre s bi live ->
  safe (mm_init bi) s
    (fun _ s' => (exists meta, kheap_rep s' [] [mkCache cache_metadata_cache 32 meta] live) /\
       cache_meta_initialized s' = true /\ same_bytes live s s').
Proof.
  intros Hpre. eapply wp_mm_init; [exact Hpre|]. intros s' meta Hr Hc Hb _. split; [by exists meta|done].
Qed.
End mm_properties.

(** ** Witness *)

(** A kernel image of 480 KiB with its boot heap at the end, in 1 MiB. *)
Definition demo_boot_info : boot_info_t :=
  mkBootInfo 0x400F0000 0x400F8000 0x40080000 0x400F0000 0x400A0000 0x40000000 0x100000.

Lemma demo_mm_pre : mm_pre (H := arm64_virt) cold_state demo_boot_info [(0x40092000, 5680)].
Proof.
  split; [split|vm_compute; discriminate|];
    [reflexivity|reflexivity|reflexivity|reflexivity|simpl; lia| |simpl; lia|simpl; lia|reflexivity|
     vm_compute; discriminate|reflexivity| | |].
  - exists 0x40080. reflexivity.
  - simpl. split; [|by split]. constructor; [|constructor]. vm_compute. by left.
  - repeat constructor; vm_compute; intuition discriminate.
  - intros i Hi. change (image_frames demo_boot_info) with 120 in Hi.
    change (managed demo_boot_info) with 256 in Hi. simpl kernel_image_start.
    apply (valid_sub (H := arm64_virt) 0x40080000 0x1000000); [reflexivity|lia|lia].
Qed.

Lemma mm_init_correct_witness :
  exists s' meta, mm_init (H := arm64_virt) demo_boot_info cold_state = Ok tt s' /\
    kheap_rep (H := arm64_virt) s' [] [mkCache 0x40090000 32 meta] [(0x40092000, 5680)].
Proof.
  pose proof (@mm_init_correct arm64_virt arm64_console _ _ _ demo_mm_pre) as Hw.
  destruct (proj1 (safe_run _ _ _) Hw) as ([] & s' & Hr & (meta & Hk) & _). exists s', meta. exact (conj Hr Hk).
Defined.

(** The Makefile's QEMU machine: 128 MiB from 0x40000000 on, the kernel at
    0x40080000, its boot heap of 4 MiB behind it. *)
Definition qemu_arm64 : Platform := {|
  arch := ARM64; board := Virt;
  ranges := [(0x40000000, 0x8000000)];
  dev_read := fun _ _ => 0;
  reg_read := fun _ _ => 0;
  dump_register := fun _ _ => 0;
  cpu_id := 0;
  cache_metadata_cache := 0x40090000;
  g_om := 0x40092000
|}.

Definition qemu_boot_info : boot_info_t :=
  mkBootInfo 0x400A0000 0x404A0000 0x40080000 0x400A0000 0x40098000 0x40000000 0x8000000.

Lemma qemu_layout : mm_layout (H := qemu_arm64) cold_state qemu_boot_info [].
Proof.
  split; [reflexivity|reflexivity|reflexivity|reflexivity|simpl; lia| |simpl; lia|simpl; lia|reflexivity|
    vm_compute; discriminate|reflexivity| |].
  - exists 0x40080. reflexivity.
  - by split.
  - repeat constructor; vm_compute; intuition discriminate.
Qed.

(** Its last frame, at 0x4807F000, is free and 512 KiB past the end of memory. *)
Example qemu_frames_past_ram :
  exists s', (mm_boot_init (H := qemu_arm64) qemu_boot_info ;;
      pmm_init (H := qemu_arm64) 0x40080000 0x8000000 ;;
      pmm_free_region (H := qemu_arm64) 0x40080000 0x8000000 ;;
      pmm_reserve_region (H := qemu_arm64) 0x40080000 0x420000) cold_state = Ok tt s' /\
    frame_free s' 32767 /\ valid (H := qemu_arm64) (frame_addr s' 32767) 4096 = false.
Proof.
  assert (Hram : forall a, valid (H := qemu_arm64) a 4096 = true -> a + 4096 <= 0x40000000 + 0x8000000).
  { intros a (lo & len & Hin & Hlo & Hhi)%valid_spec. apply list_elem_of_singleton in Hin. simplify_eq. lia. }
  pose proof (@mm_frames_past_ram qemu_arm64 (@virt_console qemu_arm64 (or_introl eq_refl)) _ _ _ qemu_layout ltac:(vm_compute; discriminate)
    Hram ltac:(vm_compute; discriminate)) as Hw.
  destruct (proj1 (safe_run _ _ _) Hw) as ([] & s' & Hr & Hf & Hv). exists s'. exact (conj Hr (conj Hf Hv)).
Qed.
