(* ===== verification/Hash.v ===== *)
(** * The hash table: libkern/hash.c

    Chained buckets in kernel memory.  The reference is a list of entries, the
    latest first: insertion adds at the front, lookup and removal take the
    first entry with the key. *)

From S2P Require Import Prelude Machine Logic Console Boards Sync Str Boot Pmm Heap Slab Kheap.

#[local] Open Scope list_scope.
#[local] Open Scope Z_scope.

(** Offsets in [hashtable_t] and [hash_node_t] of include/libkern/hash.hpp. *)
Definition off_buckets : Z := 0.
Definition off_nbuckets : Z := 8.
Definition off_count : Z := 16.
Definition off_node_cache : Z := 24.
Definition off_key : Z := 0.
Definition off_value : Z := 8.
Definition off_next : Z := 16.
Definition sizeof_hash_node : Z := 24.

Definition hash_u64 (key nbuckets : Z) : Z :=
  let key := Z.lxor key (Z.shiftr key 33) in
  let key := wrap64 (key * 0xff51afd7ed558ccd) in
  let key := Z.lxor key (Z.shiftr key 33) in
  key mod nbuckets.

Section hash.
Context `{Platform}.

(** ** Operations *)

Definition hashtable_init (ht nbuckets : Z) : M unit :=
  buckets <- kmalloc (wrap64 (8 * nbuckets)) ;;
  store64 (ht + off_buckets) buckets ;;
  buckets <- load64 (ht + off_buckets) ;;
  memset buckets 0 (wrap64 (8 * nbuckets)) ;;
  store64 (ht + off_nbuckets) nbuckets ;;
  store32 (ht + off_count) 0 ;;
  cache <- slab_cache_create sizeof_hash_node ;;
  store64 (ht + off_node_cache) cache.

(** The address of the bucket of a key; dividing by zero is undefined. *)
Definition bucket_cell (ht key : Z) : M Z :=
  nbuckets <- load64 (ht + off_nbuckets) ;;
  if nbuckets =? 0 then fault
  else
    buckets <- load64 (ht + off_buckets) ;;
    ret (buckets + 8 * hash_u64 key nbuckets).

Definition hashtable_insert (ht key value : Z) : M unit :=
  cache <- load64 (ht + off_node_cache) ;;
  n <- slab_alloc cache ;;
  store64 (n + off_key) key ;;
  store64 (n + off_value) value ;;
  b <- bucket_cell ht key ;;
  head <- load64 b ;;
  store64 (n + off_next) head ;;
  store64 b n ;;
  atomic_fetch_add (ht + off_count) 1 ;;
  ret tt.

Definition hashtable_lookup (ht key : Z) : M Z :=
  b <- bucket_cell ht key ;;
  n <- load64 b ;;
  while (fun n =>
    if n =? 0 then ret (inr 0)
    else
      k <- load64 (n + off_key) ;;
      if k =? key then v <- load64 (n + off_value) ;; ret (inr v)
      else next <- load64 (n + off_next) ;; ret (inl next)) n.

Definition hashtable_remove (ht key : Z) : M unit :=
  pp <- bucket_cell ht key ;;
  while (fun pp =>
    p <- load64 pp ;;
    if p =? 0 then ret (inr tt)
    else
      k <- load64 (p + off_key) ;;
      if k =? key then
        next <- load64 (p + off_next) ;;
        store64 pp next ;;
        cache <- load64 (ht + off_node_cache) ;;
        slab_free cache p ;;
        atomic_fetch_sub (ht + off_count) 1 ;;
        ret (inr tt)
      else ret (inl (p + off_next))) pp.

(** ** Representation *)

Record node := mkNode { n_addr : Z; n_key : Z; n_value : Z }.

(** The chain of nodes [l] starting at [p]. *)
Fixpoint chain (m : memory) (p : Z) (l : list node) : Prop :=
  match l with
  | [] => p = 0
  | n :: l' =>
      p = n_addr n /\ p <> 0 /\ get64 m p = n_key n /\ get64 m (p + 8) = n_value n /\
      chain m (get64 m (p + 16)) l'
  end.

(** The entries of a bucket. *)
Definition in_bucket (nb b : Z) (al : list node) : list node :=
  filter (fun n => hash_u64 (n_key n) nb = b) al.

Definition node_range (n : node) : Z * Z := (n_addr n, 24).
Definition cell_range (bk b : Z) : Z * Z := (bk + 8 * b, 8).

(** The memory of a table: its struct, its bucket array, its nodes. *)
Definition table_area (ht bk nb : Z) (al : list node) : list (Z * Z) :=
  (ht, 32) :: map (cell_range bk) (seqZ 0 nb) ++ map node_range al.

(** The fields and chains of a table with the entries [al]. *)
Record table_mem (m : memory) (ht bk nb nc cnt : Z) (al : list node) : Prop := {
  tm_buckets : get64 m ht = bk;
  tm_nbuckets : get64 m (ht + 8) = nb;
  tm_count : get32 m (ht + 16) = cnt;
  tm_cache : get64 m (ht + 24) = nc;
  tm_pos : 0 < nb;
  tm_chains : forall b, 0 <= b < nb -> chain m (get64 m (bk + 8 * b)) (in_bucket nb b al)
}.

(** A table at [ht] with the entries [al], the latest first, in the heap. *)
Definition table_rep (s : kstate) (ht : Z) (al : list node) (cs : list cache_t) (live : list (Z * Z)) : Prop :=
  exists bk nb nc l, table_mem (k_mem s) ht bk nb nc (wrap32 (Z.of_nat (length al))) al /\
    heap s (mkCache nc 24 l :: cs) (table_area ht bk nb al ++ live).

(** ** The reference *)

Definition find_key (key : Z) (al : list node) : option node :=
  head (filter (fun n => n_key n = key) al).

(** The entries without the latest one of [key]. *)
Fixpoint remove_key (key : Z) (al : list node) : list node :=
  match al with
  | [] => []
  | n :: al' => if n_key n =? key then al' else n :: remove_key key al'
  end.
End hash.

Section hash_lemmas.
Context `{Platform}.

Lemma hash_range key nb : 0 < nb -> 0 <= hash_u64 key nb < nb.
Proof. intros Hn. apply Z.mod_pos_bound, Hn. Qed.

(** ** Entries *)

Lemma find_key_bucket key nb al : find_key key (in_bucket nb (hash_u64 key nb) al) = find_key key al.
Proof.
  unfold find_key, in_bucket. f_equal. induction al as [|n al IH]; [done|]. rewrite !filter_cons.
  destruct (decide (hash_u64 (n_key n) nb = hash_u64 key nb)) as [He|He]; rewrite ?filter_cons;
    case_decide; rewrite ?IH; try done. subst. done.
Qed.

Lemma find_key_cons key n al : find_key key (n :: al) = if n_key n =? key then Some n else find_key key al.
Proof.
  unfold find_key. rewrite filter_cons. destruct (Z.eqb_spec (n_key n) key); by case_decide.
Qed.

Lemma remove_key_absent key al : find_key key al = None -> remove_key key al = al.
Proof.
  induction al as [|n al IH]; [done|]. rewrite find_key_cons. simpl. destruct (n_key n =? key); [done|].
  intros Hf. by rewrite IH.
Qed.

Lemma remove_key_split key pre n tl :
  Forall (fun x => n_key x <> key) pre -> n_key n = key -> remove_key key (pre ++ n :: tl) = pre ++ tl.
Proof.
  intros Hpre Hn. induction Hpre as [|x pre Hx _ IH]; simpl.
  - by rewrite (proj2 (Z.eqb_eq _ _) Hn).
  - rewrite (proj2 (Z.eqb_neq _ _) Hx). by f_equal.
Qed.

(** The list of entries around the latest one of a key. *)
Lemma find_key_split key al n :
  find_key key al = Some n ->
  exists pre tl, al = pre ++ n :: tl /\ n_key n = key /\ Forall (fun x => n_key x <> key) pre.
Proof.
  induction al as [|x al IH]; [done|]. rewrite find_key_cons. destruct (Z.eqb_spec (n_key x) key) as [He|He].
  - intros [= ->]. by exists [], al.
  - intros Hf. destruct (IH Hf) as (pre & tl & -> & Hk & Hpre). exists (x :: pre), tl.
    split; [done|]. split; [done|]. by constructor.
Qed.

Lemma remove_key_bucket key nb b al :
  in_bucket nb b (remove_key key al) =
  if decide (b = hash_u64 key nb) then remove_key key (in_bucket nb b al) else in_bucket nb b al.
Proof.
  induction al as [|n al IH]; simpl; [by case_decide|].
  destruct (Z.eqb_spec (n_key n) key) as [He|He].
  - unfold in_bucket at 2 3. rewrite filter_cons. rewrite He.
    case_decide as Hb; [|rewrite decide_False by congruence; done].
    rewrite decide_True by done. simpl. by rewrite (proj2 (Z.eqb_eq _ _) He).
  - unfold in_bucket. rewrite !filter_cons. fold (in_bucket nb b (remove_key key al)). rewrite IH.
    fold (in_bucket nb b al). repeat case_decide; try done. simpl. by rewrite (proj2 (Z.eqb_neq _ _) He).
Qed.

Lemma elem_of_bucket n nb b al : n ∈ in_bucket nb b al -> n ∈ al.
Proof. intros [_ Hn]%list_elem_of_filter. done. Qed.

(** ** Chains in memory *)

Lemma chain_mods rs m m' p l :
  mods rs m m' -> Forall (fun n => Forall (apart (node_range n)) rs) l -> chain m p l -> chain m' p l.
Proof.
  intros Hm. revert p. induction l as [|n l IH]; intros p Hr Hc; simpl in *; [done|].
  apply Forall_cons in Hr as [Hn Hr]. destruct Hc as (-> & H0 & H1 & H2 & Hc).
  assert (Hget : forall k, 0 <= k <= 16 -> get64 m' (n_addr n + k) = get64 m (n_addr n + k)).
  { intros k Hk. eapply mods_getw; [exact Hm|]. eapply Forall_impl; [exact Hn|]. intros r Hr'.
    eapply apart_sub; [exact Hr'|lia|simpl; lia]. }
  assert (Hget0 : get64 m' (n_addr n) = get64 m (n_addr n)) by (rewrite <- (Z.add_0_r (n_addr n)); apply Hget; lia).
  rewrite Hget0, !Hget by lia. split_and!; [done..|by apply IH].
Qed.

Lemma separated_addrs l : separated (map node_range l) -> NoDup (map n_addr l).
Proof.
  induction l as [|n l IH]; simpl; [constructor|]. intros [Hn Hs]. apply NoDup_cons. split; [|by apply IH].
  intros Hin. apply list_elem_of_fmap in Hin as (x & He & Hx).
  rewrite Forall_map in Hn. apply (proj1 (Forall_forall _ _) Hn) in Hx.
  unfold node_range, apart in Hx. rewrite He in Hx. simpl in Hx. lia.
Qed.

(** A table is where its memory is unchanged. *)
Lemma table_mem_same s s' ht bk nb nc cnt al live :
  table_mem (k_mem s) ht bk nb nc cnt al -> same_bytes (table_area ht bk nb al ++ live) s s' ->
  table_mem (k_mem s') ht bk nb nc cnt al.
Proof.
  intros [] Hs. unfold table_area in Hs. rewrite <- app_comm_cons, <- app_assoc in Hs.
  assert (Hget : forall n k, 0 <= k -> k + Z.of_nat n <= 32 -> getw n (k_mem s') (ht + k) = getw n (k_mem s) (ht + k)).
  { intros n k H1 H2. apply (same_bytes_getw _ _ _ ht 32 n _ Hs); [by left|lia|lia]. }
  apply Forall_cons in Hs as [_ Hs]. apply Forall_app in Hs as [Hc Hs]. apply Forall_app in Hs as [Hn _].
  split; [|by rewrite Hget by lia..|done|].
  - rewrite <- tm_buckets0, <- (Z.add_0_r ht). by apply (Hget 8%nat).
  - intros b Hb. rewrite (same_bytes_getw _ s s' (bk + 8 * b) 8 8 _ Hc); [|..|lia|lia].
    2:{ apply list_elem_of_fmap. exists b. split; [done|]. apply elem_of_seqZ. lia. }
    specialize (tm_chains0 b Hb). revert tm_chains0. generalize (get64 (k_mem s) (bk + 8 * b)) as p.
    assert (Hl : Forall (fun n => node_range n ∈ map node_range al) (in_bucket nb b al)).
    { apply Forall_forall. intros n Hn'%elem_of_bucket. apply list_elem_of_fmap. by exists n. }
    induction (in_bucket nb b al) as [|n l IH]; intros p Hch; simpl in *; [done|].
    apply Forall_cons in Hl as [Hln Hl]. destruct Hch as (-> & H0 & H1 & H2 & Hch).
    rewrite !(same_bytes_getw _ s s' (n_addr n) 24 8 _ Hn Hln) by lia. split_and!; [done..|by apply IH].
Qed.

(** The cell that holds the address of what follows [pre] in the chain that
    starts in the cell [c]. *)
Fixpoint link (c : Z) (pre : list node) : Z :=
  match pre with
  | [] => c
  | n :: pre' => link (n_addr n + 16) pre'
  end.

Lemma link_snoc c pre n : link c (pre ++ [n]) = n_addr n + 16.
Proof. revert c. induction pre as [|x pre IH]; intros c; simpl; [done|apply IH]. Qed.

Lemma link_within c pre : within [(link c pre, 8)] ((c, 8) :: map node_range pre).
Proof.
  revert c. induction pre as [|n pre IH]; intros c; (constructor; [|constructor]); simpl.
  - exists c, 8. split; [by left|lia].
  - destruct (proj1 (proj1 (Forall_cons _ _ _) (IH (n_addr n + 16)))) as (x & k & Hx & H1 & H2). simpl in *.
    apply elem_of_cons in Hx as [[= -> ->]|Hx].
    + exists (n_addr n), 24. split; [right; by left|lia].
    + exists x, k. split; [by right; right|done].
Qed.

(** Unlinking a node: its address is replaced by its [next] in the cell that
    points to it. *)
Lemma chain_unlink m c pre n tl :
  chain m (get64 m c) (pre ++ n :: tl) -> separated ((c, 8) :: map node_range (pre ++ n :: tl)) ->
  let m1 := put64 m (link c pre) (get64 m (n_addr n + 16)) in
  chain m1 (get64 m1 c) (pre ++ tl).
Proof.
  revert c. induction pre as [|p pre IH]; intros c Hc Hs m1; simpl in Hc, Hs.
  - destruct Hc as (Hp & _ & _ & _ & Hc). destruct Hs as [Hs _]. apply Forall_cons in Hs as [_ Hs].
    unfold m1. simpl. rewrite (getw_putw 8) by apply (getw_range 8). rewrite Hp in Hc.
    eapply chain_mods; [apply (mods_putw 8)| |exact Hc]. rewrite Forall_map in Hs.
    eapply Forall_impl; [exact Hs|]. intros x Hx. split_aparts. by apply apart_sym.
  - destruct Hc as (Hp & H0 & H1 & H2 & Hc). destruct Hs as [Hcs [Hps Hs]].
    apply Forall_cons in Hcs as [Hcp Hcs].
    assert (Hlink : forall a k, Forall (apart (a, k)) ((n_addr p + 16, 8) :: map node_range pre) ->
              apart (a, k) (link (n_addr p + 16) pre, 8)).
    { intros a k Ha. pose proof (within_apart _ _ _ Ha (link_within _ _)) as Hl.
      by apply Forall_cons in Hl as [Hl _]. }
    assert (Hpre : forall r, Forall (apart r) (map node_range (pre ++ n :: tl)) ->
              Forall (apart r) (map node_range pre)).
    { intros r Hr. rewrite map_app in Hr. by apply Forall_app in Hr as [Hr _]. }
    assert (Hget : forall a, Forall (apart (a, 8)) ((n_addr p + 16, 8) :: map node_range pre) ->
              get64 m1 a = get64 m a).
    { intros a Ha. unfold m1. simpl. eapply mods_getw; [apply (mods_putw 8)|]. split_aparts. by apply Hlink. }
    unfold node_range in Hcp. rewrite (Hget c).
    2:{ apply Forall_cons. split; [solve_apart|by apply Hpre]. }
    simpl. rewrite Hp in *. split; [done|]. split; [done|].
    assert (Hfield : forall k, 0 <= k <= 8 -> get64 m1 (n_addr p + k) = get64 m (n_addr p + k)).
    { intros k Hk. apply Hget. apply Forall_cons. split; [solve_apart|]. apply Hpre.
      eapply Forall_impl; [exact Hps|]. intros r Hr. unfold node_range in Hr.
      eapply apart_sub; [exact Hr|lia|lia]. }
    rewrite <- (Z.add_0_r (n_addr p)) at 1. rewrite Hfield, Z.add_0_r, Hfield by lia.
    split; [done|]. split; [done|]. apply (IH (n_addr p + 16)); [done|].
    split; [|done]. eapply Forall_impl; [exact Hps|]. intros r Hr. unfold node_range in Hr.
    eapply apart_sub; [exact Hr|lia|lia].
Qed.
End hash_lemmas.

Section hash_ops.
Context `{Console}.

(** ** The pieces of a table *)

Lemma struct_in ht bk nb al live : (ht, 32) ∈ table_area ht bk nb al ++ live.
Proof. by left. Qed.

Lemma cell_in ht bk nb al live b : 0 <= b < nb -> (bk + 8 * b, 8) ∈ table_area ht bk nb al ++ live.
Proof.
  intros Hb. right. apply elem_of_app. left. apply elem_of_app. left.
  apply list_elem_of_fmap. exists b. split; [done|]. apply elem_of_seqZ. lia.
Qed.

Lemma node_in ht bk nb al live n : n ∈ al -> (n_addr n, 24) ∈ table_area ht bk nb al ++ live.
Proof.
  intros Hn. right. apply elem_of_app. left. apply elem_of_app. right.
  apply list_elem_of_fmap. by exists n.
Qed.

Section table.
Context (s : kstate) (cs : list cache_t) (live : list (Z * Z)) (ht bk nb : Z) (al : list node).
Context (Hh : heap s cs (table_area ht bk nb al ++ live)).

Lemma struct_valid : valid ht 32 = true.
Proof. apply (heap_owned _ _ _ _ Hh (struct_in _ _ _ _ _)). Qed.

Lemma cell_valid b : 0 <= b < nb -> valid (bk + 8 * b) 8 = true.
Proof. intros Hb. apply (heap_owned _ _ _ _ Hh (cell_in _ _ _ _ _ b Hb)). Qed.

Lemma node_valid n : n ∈ al -> valid (n_addr n) 24 = true.
Proof. intros Hn. apply (heap_owned _ _ _ _ Hh (node_in _ _ _ _ _ n Hn)). Qed.

Lemma nodes_separated : separated (map node_range al).
Proof.
  destruct Hh as [_ Ha _]. apply area_app in Ha as (_ & [_ Ha] & _). destruct Ha as [_ Ha].
  apply separated_app in Ha as (Ha & _ & _). by apply separated_app in Ha as (_ & Ha & _).
Qed.

Lemma nodes_bound : Z.of_nat (length al) < 2 ^ 64.
Proof.
  rewrite <- (length_map n_addr). apply NoDup_bounded; [lia| |].
  - apply separated_addrs, nodes_separated.
  - apply Forall_map, Forall_forall. intros n Hn.
    destruct (heap_owned _ _ _ _ Hh (node_in _ _ _ _ _ n Hn)) as [Hp Ht _ _ _]. simpl in *. lia.
Qed.
End table.

(** ** Lookup *)

Lemma wp_bucket_cell s ht key bk nb nc cnt al cs live (Q : Z -> kstate -> Prop) E :
  table_mem (k_mem s) ht bk nb nc cnt al -> heap s cs (table_area ht bk nb al ++ live) ->
  Q (bk + 8 * hash_u64 key nb) s -> wp (bucket_cell ht key) s Q E.
Proof.
  intros [] Hh HQ. pose proof (struct_valid _ _ _ _ _ _ _ Hh) as Hv.
  unfold bucket_cell, off_nbuckets, off_buckets. wp_step. wp_step. rewrite tm_nbuckets0.
  rewrite (proj2 (Z.eqb_neq nb 0)) by lia. rewrite Z.add_0_r. wp_step. wp_step. rewrite tm_buckets0.
  by apply wp_ret.
Qed.

Lemma wp_lookup_loop s key p l (Q : Z -> kstate -> Prop) E :
  chain (k_mem s) p l -> Forall (fun n => valid (n_addr n) 24 = true) l -> Z.of_nat (length l) < 2 ^ 64 ->
  Q (match find_key key l with Some n => n_value n | None => 0 end) s ->
  wp (while (fun n =>
        if n =? 0 then ret (inr 0)
        else
          k <- load64 (n + off_key) ;;
          if k =? key then v <- load64 (n + off_value) ;; ret (inr v)
          else next <- load64 (n + off_next) ;; ret (inl next)) p) s Q E.
Proof.
  intros Hc Hv Hl HQ.
  apply (wp_while (fun k p' s' => s' = s /\ exists l', k = length l' /\ chain (k_mem s) p' l' /\
    Forall (fun n => valid (n_addr n) 24 = true) l' /\ find_key key l' = find_key key l) (length l)); [done| |].
  { split; [done|]. by exists l. }
  intros k p' s' (-> & [|n l'] & -> & Hc' & Hv' & Hf); simpl in Hc'.
  { rewrite Hc'. simpl. apply wp_ret. by rewrite <- Hf in HQ. }
  destruct Hc' as (Hp & Hp0 & Hk & Hval & Hc'). rewrite (proj2 (Z.eqb_neq _ _) Hp0).
  apply Forall_cons in Hv' as [Hvn Hv']. rewrite <- Hp in Hvn.
  unfold off_key, off_value, off_next. rewrite Z.add_0_r. wp_step. wp_step. rewrite Hk.
  rewrite find_key_cons in Hf. destruct (Z.eqb_spec (n_key n) key) as [He|He].
  - wp_step. wp_step. apply wp_ret. by rewrite <- Hf, Hval in *.
  - wp_step. wp_step. apply wp_ret. exists (length l'). split; [simpl; lia|]. split; [done|]. by exists l'.
Qed.

Lemma wp_lookup s ht key al cs live (Q : Z -> kstate -> Prop) E :
  table_rep s ht al cs live ->
  Q (match find_key key al with Some n => n_value n | None => 0 end) s ->
  wp (hashtable_lookup ht key) s Q E.
Proof.
  intros (bk & nb & nc & l & Hm & Hh) HQ. unfold hashtable_lookup.
  apply wp_bind. eapply wp_bucket_cell; [exact Hm|exact Hh|]. pose proof (hash_range key nb (tm_pos _ _ _ _ _ _ _ Hm)) as Hb.
  apply wp_bind, wp_load; [by apply (cell_valid _ _ _ _ _ _ _ Hh)|].
  eapply wp_lookup_loop; [by apply (tm_chains _ _ _ _ _ _ _ Hm)| | |by rewrite find_key_bucket].
  - apply Forall_forall. intros n Hn%elem_of_bucket. by apply (node_valid _ _ _ _ _ _ _ Hh).
  - pose proof (nodes_bound _ _ _ _ _ _ _ Hh) as Hl. unfold in_bucket.
    pose proof (length_filter (fun n => hash_u64 (n_key n) nb = hash_u64 key nb) al). lia.
Qed.

(** ** Insertion *)

(** The pieces a step writes are apart from the others. *)
Lemma table_apart s cs live ht bk nb al r r' :
  heap s cs (table_area ht bk nb al ++ live) ->
  r ∈ table_area ht bk nb al ++ live -> r' ∈ table_area ht bk nb al ++ live -> r <> r' -> apart r r'.
Proof. apply heap_apart. Qed.

Lemma wrap32_succ (l : list node) x : wrap32 (wrap32 (Z.of_nat (length l)) + 1) = wrap32 (Z.of_nat (length (x :: l))).
Proof. simpl length. unfold wrap32. rewrite Zplus_mod_idemp_l. f_equal. lia. Qed.

Lemma wrap32_pred x : wrap32 (wrap32 x - 1) = wrap32 (x - 1).
Proof. unfold wrap32. by rewrite Zminus_mod_idemp_l. Qed.

(** What inserting at [x] in bucket [b] relies on. *)
Lemma insert_pieces s cs live ht bk nb al x :
  heap s cs (table_area ht bk nb al ++ (x, 24) :: live) -> forall b, 0 <= b < nb ->
  valid x 24 = true /\ valid (bk + 8 * b) 8 = true /\ 0 < x < 2 ^ 64 /\
  apart (x, 24) (ht, 32) /\
  (forall b', 0 <= b' < nb -> apart (x, 24) (bk + 8 * b', 8) /\ apart (ht, 32) (bk + 8 * b', 8)) /\
  Forall (fun n => apart (node_range n) (x, 24) /\ apart (node_range n) (ht, 32) /\
                   forall b', 0 <= b' < nb -> apart (node_range n) (bk + 8 * b', 8)) al.
Proof.
  intros Hh b Hb.
  assert (Hx : (x, 24) ∈ table_area ht bk nb al ++ (x, 24) :: live) by (apply elem_of_app; right; by left).
  destruct (heap_owned _ _ _ _ Hh Hx) as [Hp Ht Hv _ _]. simpl in *.
  pose proof (fun b' Hb' => cell_in ht bk nb al ((x, 24) :: live) b' Hb') as Hcell.
  pose proof (struct_in ht bk nb al ((x, 24) :: live)) as Hst.
  split; [done|]. split; [by apply (cell_valid _ _ _ _ _ _ _ Hh)|]. split; [lia|].
  split; [apply (heap_apart _ _ _ _ _ Hh Hx Hst); congruence|]. split.
  - intros b' Hb'. split.
    + apply (heap_apart _ _ _ _ _ Hh Hx (Hcell b' Hb')). congruence.
    + apply (heap_apart _ _ _ _ _ Hh Hst (Hcell b' Hb')). congruence.
  - apply Forall_forall. intros n Hn. pose proof (node_in ht bk nb al ((x, 24) :: live) n Hn) as Hni.
    unfold node_range. split; [|split].
    + pose proof (heap_area_live _ _ _ Hh) as Ha. apply (area_app s (table_area ht bk nb al)) in Ha as (_ & _ & Hap).
      apply (Forall_forall _ _) with (n_addr n, 24) in Hap.
      * by apply Forall_cons in Hap as [Hap _].
      * pose proof (node_in ht bk nb al [] n Hn) as Hin. by rewrite app_nil_r in Hin.
    + apply (heap_apart _ _ _ _ _ Hh Hni Hst). congruence.
    + intros b' Hb'. apply (heap_apart _ _ _ _ _ Hh Hni (Hcell b' Hb')). congruence.
Qed.

(** The writes of an insertion, as a whole. *)
Lemma table_mem_insert m ht bk nb nc cnt al x key value :
  table_mem m ht bk nb nc cnt al -> u64 key -> u64 value -> 0 < x < 2 ^ 64 ->
  apart (x, 24) (ht, 32) ->
  (forall b, 0 <= b < nb -> apart (x, 24) (bk + 8 * b, 8) /\ apart (ht, 32) (bk + 8 * b, 8)) ->
  Forall (fun n => apart (node_range n) (x, 24) /\ apart (node_range n) (ht, 32) /\
                   forall b, 0 <= b < nb -> apart (node_range n) (bk + 8 * b, 8)) al ->
  let c := bk + 8 * hash_u64 key nb in
  let ma := put64 (put64 m x key) (x + 8) value in
  let mb := put64 (put64 ma (x + 16) (get64 ma c)) c x in
  table_mem (put32 mb (ht + 16) (wrap32 (get32 mb (ht + 16) + 1))) ht bk nb nc (wrap32 (cnt + 1))
    (mkNode x key value :: al).
Proof.
  intros [Hbk Hnb Hcnt Hnc Hpos Hch] Hkey Hvalue Hx Hxh Hxc Hnodes c ma mb. set (m' := put32 mb _ _).
  pose proof (hash_range key nb Hpos) as Hb. destruct (Hxc _ Hb) as [Hxb Hhb]. fold c in Hxb, Hhb.
  assert (Hmods : mods [(x, 24); (c, 8); (ht + 16, 4)] m m').
  { intros a [H1 [H2 [H3 _]%outside_cons]%outside_cons]%outside_cons. unfold m', mb, ma.
    by rewrite !get8_putw, !decide_False by lia. }
  assert (Hst : forall n a, ht <= a -> a + Z.of_nat n <= ht + 16 \/ ht + 20 <= a -> a + Z.of_nat n <= ht + 32 ->
            getw n m' a = getw n m a).
  { intros n a H1 H2 H3. eapply mods_getw; [exact Hmods|]. solve_aparts. }
  assert (Hold : forall p l, Forall (fun n => n ∈ al) l -> chain m p l -> chain m' p l).
  { intros p l Hl. apply (chain_mods _ _ _ _ _ Hmods). eapply Forall_impl; [exact Hl|]. intros n Hn.
    apply (proj1 (Forall_forall _ _) Hnodes) in Hn as (A1 & A2 & A3). specialize (A3 _ Hb). fold c in A3.
    unfold node_range in *. solve_aparts. }
  assert (Hin : forall b, Forall (fun n => n ∈ al) (in_bucket nb b al)).
  { intros b. apply Forall_forall. intros n. apply elem_of_bucket. }
  split; [rewrite <- Hbk; apply (Hst 8%nat); lia|rewrite <- Hnb; apply (Hst 8%nat); lia| |
          rewrite <- Hnc; apply (Hst 8%nat); lia|done|].
  - unfold m'. rewrite (getw_putw 4) by apply wrap32_range.
    replace (get32 mb (ht + 16)) with (get32 m (ht + 16)).
    + by rewrite Hcnt.
    + symmetry. apply (mods_getw [(x, 24); (c, 8)]); [|solve_aparts].
      intros a [H1 [H2 _]%outside_cons]%outside_cons. unfold mb, ma. by rewrite !get8_putw, !decide_False by lia.
  - intros b Hb'. unfold in_bucket. rewrite filter_cons. simpl n_key.
    destruct (decide (hash_u64 key nb = b)) as [<-|Hne].
    + fold c. simpl. fold (in_bucket nb (hash_u64 key nb) al).
      assert (Hread : forall k, get64 m' (x + k) = get64 mb (x + k) \/ 24 < k + 8 \/ k < 0).
      { intros k. destruct (decide (0 <= k <= 16)); [|lia]. left. unfold m'. apply (getw_putw_ne 4 8). solve_apart. }
      assert (Hkx : get64 m' x = key).
      { destruct (Hread 0) as [Hr|Hr]; [|lia]. rewrite Z.add_0_r in Hr. rewrite Hr. unfold mb, ma.
        rewrite !(getw_putw_ne 8 8) by solve_apart. by apply (getw_putw 8). }
      assert (Hvx : get64 m' (x + 8) = value).
      { destruct (Hread 8) as [Hr|Hr]; [|lia]. rewrite Hr. unfold mb, ma.
        rewrite !(getw_putw_ne 8 8) by solve_apart. by apply (getw_putw 8). }
      assert (Hnx : get64 m' (x + 16) = get64 m c).
      { destruct (Hread 16) as [Hr|Hr]; [|lia]. rewrite Hr. unfold mb.
        rewrite (getw_putw_ne 8 8) by solve_apart. rewrite (getw_putw 8) by apply (getw_range 8).
        unfold ma. by rewrite !(getw_putw_ne 8 8) by solve_apart. }
      assert (Hcx : get64 m' c = x).
      { unfold m'. rewrite (getw_putw_ne 4 8) by solve_apart. unfold mb. apply (getw_putw 8). simpl; lia. }
      rewrite Hcx, Hnx. split_and!; [done|lia|done|done|]. apply Hold; [apply Hin|]. apply Hch, Hb.
    + fold (in_bucket nb b al). destruct (Hxc b Hb') as [Hxb' Hhb'].
      rewrite (mods_getw _ 8 m m' (bk + 8 * b) Hmods).
      * apply Hold; [apply Hin|]. by apply Hch.
      * assert (c <> bk + 8 * b) by (unfold c; lia). split_aparts; unfold c in *; solve_apart.
Qed.

Lemma wp_insert s ht key value al cs live (Q : unit -> kstate -> Prop) (E : kstate -> Prop) :
  table_rep s ht al cs live -> u64 key -> u64 value ->
  (forall x s', table_rep s' ht (mkNode x key value :: al) cs live -> same_bytes live s s' -> heap_only s s' ->
     Q tt s') ->
  (forall s', exhausted s -> exhausted s' -> E s') ->
  wp (hashtable_insert ht key value) s Q E.
Proof.
  intros (bk & nb & nc & l & Hm & Hh) Hkey Hvalue HQ HE. unfold hashtable_insert.
  pose proof (struct_valid _ _ _ _ _ _ _ Hh) as Hvs. unfold off_node_cache, off_key, off_value, off_next, off_count.
  wp_step. wp_step. rewrite (tm_cache _ _ _ _ _ _ _ Hm). apply wp_bind.
  eapply wp_slab_alloc; [exact Hh| |intros; lia|by auto].
  intros x l' s1 Hh1 Hk1 _.
  pose proof (heap_cache_same _ _ _ _ _ Hh Hk1) as Hs1. simpl in Hs1.
  assert (Hm1 : table_mem (k_mem s1) ht bk nb nc (wrap32 (Z.of_nat (length al))) al) by (eapply table_mem_same; [exact Hm|exact Hs1]).
  set (b := hash_u64 key nb). pose proof (hash_range key nb (tm_pos _ _ _ _ _ _ _ Hm)) as Hb. fold b in Hb.
  assert (Hh1' : heap s1 (mkCache nc 24 l' :: cs) (table_area ht bk nb al ++ (x, 24) :: live)).
  { eapply (heap_perm s1); [reflexivity|symmetry; apply Permutation_middle|exact Hh1]. }
  destruct (insert_pieces _ _ _ _ _ _ _ _ Hh1' b Hb) as (Hvx & Hvc & Hx0 & Hp).
  set (ma := put64 (put64 (k_mem s1) (x + 0) key) (x + 8) value).
  assert (Hma : mods [(x, 24)] (k_mem s1) ma).
  { intros c [Hc _]%outside_cons. unfold ma. by rewrite !get8_putw, !decide_False by lia. }
  destruct (heap_write _ _ _ _ _ ma Hh1 Hma) as [Hha Hka].
  pose proof (heap_live_same _ _ _ _ _ Hh1 Hka) as Hsa.
  pose proof (table_mem_same _ _ _ _ _ _ _ _ _ Hm1 Hsa) as Hmea. simpl in Hmea.
  wp_step. wp_step. simpl. wp_step. wp_step. simpl. rewrite ?set_mem_mem. fold ma.
  apply wp_bind. eapply (wp_bucket_cell (set_mem s1 ma)); [exact Hmea| |].
  { eapply (heap_perm (set_mem s1 ma)); [reflexivity|symmetry; apply Permutation_middle|exact Hha]. }
  fold b. wp_step. apply wp_load; [done|]. simpl. wp_step. wp_step. simpl.
  wp_step. apply wp_store; [done|]. simpl. rewrite ?set_mem_mem.
  wp_step. apply wp_fetch_add; [solve_valid|]. apply wp_ret. rewrite ?set_mem_mem. simpl.
  match goal with |- Q tt (set_mem s1 ?mm) => set (m' := mm) end.
  destruct Hp as (Axh & Axc & Anodes).
  assert (Hmods : mods [(x, 24); (bk + 8 * b, 8); (ht, 32)] (k_mem s1) m').
  { intros c [H1 [H2 [H3 _]%outside_cons]%outside_cons]%outside_cons. unfold m'.
    rewrite !get8_putw, !decide_False by lia. apply Hma. apply outside_cons. split; [lia|constructor]. }
  assert (Hwithin : within [(x, 24); (bk + 8 * b, 8); (ht, 32)] ((x, 24) :: table_area ht bk nb al)).
  { pose proof (cell_in ht bk nb al [] b Hb) as Hcell. rewrite app_nil_r in Hcell.
    constructor; [|constructor; [|constructor; [|constructor]]].
    - exists x, 24. split; [by left|simpl; lia].
    - exists (bk + 8 * b), 8. split; [by right|simpl; lia].
    - exists ht, 32. split; [right; by left|simpl; lia]. }
  pose proof (heap_writes_same s1 _ ((x, 24) :: table_area ht bk nb al) live _ _ Hh1 Hwithin Hmods) as Hsl.
  assert (Hwithin2 : within [(x, 24); (bk + 8 * b, 8); (ht, 32)] ((x, 24) :: table_area ht bk nb al ++ live)).
  { eapply Forall_impl; [exact Hwithin|]. intros r (a & k & Hin & Hr). exists a, k. split; [|done].
    rewrite app_comm_cons. apply elem_of_app. by left. }
  destruct (heap_writes _ _ _ _ _ Hh1 Hwithin2 Hmods) as [Hh' Hk'].
  apply (HQ x).
  - exists bk, nb, nc, l'. split.
    + pose proof (table_mem_insert _ _ _ _ _ _ _ x key value Hm1 Hkey Hvalue Hx0 Axh Axc Anodes) as Hins.
      fold b in Hins. unfold m', ma. rewrite Z.add_0_r. rewrite (wrap32_succ al (mkNode x key value)) in Hins. exact Hins.
    + unfold table_area. simpl.
      eapply (heap_perm (set_mem s1 m')); [reflexivity| |exact Hh']. unfold table_area.
      rewrite <- !app_comm_cons, <- !app_assoc. simpl. rewrite perm_swap. apply perm_skip.
      by rewrite <- Permutation_middle.
  - change ((ht, 32) :: ?l ++ live) with (table_area ht bk nb al ++ live) in Hs1.
    apply same_bytes_app in Hs1 as [_ Hs1]. by eapply same_bytes_trans.
  - eapply heap_only_trans; [apply Hk1|apply heap_only_set_mem].
Qed.

(** ** Removal *)

Lemma nodes_apart al x y :
  separated (map node_range al) -> x ∈ al -> y ∈ al -> x <> y -> apart (node_range x) (node_range y).
Proof.
  intros Hs Hx Hy Hne. apply elem_of_Permutation in Hx as [rest Hp]. rewrite Hp in Hs, Hy.
  apply elem_of_cons in Hy as [->|Hy]; [done|]. destruct Hs as [Hs _]. rewrite Forall_map in Hs.
  by apply (proj1 (Forall_forall _ _) Hs).
Qed.

Lemma separated_bucket nb b al : separated (map node_range al) -> separated (map node_range (in_bucket nb b al)).
Proof.
  induction al as [|n al IH]; [done|]. intros [Hn Hs]. unfold in_bucket. rewrite filter_cons.
  fold (in_bucket nb b al). case_decide; [|by apply IH]. split; [|by apply IH].
  rewrite Forall_map in Hn. rewrite Forall_map. apply Forall_forall. intros x Hx%elem_of_bucket.
  by apply (proj1 (Forall_forall _ _) Hn).
Qed.

Lemma chain_link m c pre sfx : chain m (get64 m c) (pre ++ sfx) -> chain m (get64 m (link c pre)) sfx.
Proof.
  revert c. induction pre as [|n pre IH]; intros c Hc; [done|]. simpl in Hc.
  destruct Hc as (Hp & _ & _ & _ & Hc). apply IH. by rewrite <- Hp.
Qed.

(** Setting the counter. *)
Lemma table_mem_count m ht bk nb nc cnt al v :
  table_mem m ht bk nb nc cnt al -> u32 v ->
  (forall b, 0 <= b < nb -> apart (ht, 32) (bk + 8 * b, 8)) ->
  Forall (fun n => apart (node_range n) (ht, 32)) al ->
  table_mem (put32 m (ht + 16) v) ht bk nb nc v al.
Proof.
  intros [Hbk Hnb Hcnt Hnc Hpos Hch] Hv Hc Hn.
  split; [by rewrite (getw_putw_ne 4 8) by lia|by rewrite (getw_putw_ne 4 8) by lia|by apply (getw_putw 4)|
          by rewrite (getw_putw_ne 4 8) by lia|done|].
  intros b Hb. specialize (Hc b Hb). rewrite (getw_putw_ne 4 8) by solve_apart.
  eapply chain_mods; [apply (mods_putw 4)| |by apply Hch]. apply Forall_forall.
  intros n Hin%elem_of_bucket. apply (proj1 (Forall_forall _ _) Hn) in Hin. unfold node_range in *. solve_aparts.
Qed.

(** Unlinking the latest entry of a key. *)
Lemma table_mem_unlink m ht bk nb nc cnt al key pre n tl :
  table_mem m ht bk nb nc cnt al -> separated (map node_range al) ->
  (forall b, 0 <= b < nb -> apart (ht, 32) (bk + 8 * b, 8)) ->
  Forall (fun n => apart (node_range n) (ht, 32) /\
                   forall b, 0 <= b < nb -> apart (node_range n) (bk + 8 * b, 8)) al ->
  in_bucket nb (hash_u64 key nb) al = pre ++ n :: tl -> n_key n = key ->
  Forall (fun x => n_key x <> key) pre ->
  let pp := link (bk + 8 * hash_u64 key nb) pre in
  table_mem (put64 m pp (get64 m (n_addr n + 16))) ht bk nb nc cnt (remove_key key al).
Proof.
  intros [Hbk Hnb Hcnt Hnc Hpos Hch] Hsep Hc Hn Hbu Hk Hpre pp. set (m1 := put64 m pp _).
  pose proof (hash_range key nb Hpos) as Hb. set (c := bk + 8 * hash_u64 key nb) in *.
  assert (Hmods : mods [(pp, 8)] m m1) by apply (mods_putw 8).
  assert (Hpp : forall r, apart r (c, 8) -> (forall x, x ∈ pre -> apart r (node_range x)) -> apart r (pp, 8)).
  { intros r Hrc Hrx. assert (Ha : Forall (apart r) ((c, 8) :: map node_range pre)).
    { apply Forall_cons. split; [done|]. rewrite Forall_map. by apply Forall_forall. }
    pose proof (within_apart _ _ _ Ha (link_within _ _)) as Hl. by apply Forall_cons in Hl as [Hl _]. }
  assert (Hin : forall x, x ∈ pre ++ n :: tl -> x ∈ al).
  { intros x Hx. rewrite <- Hbu in Hx. by apply elem_of_bucket in Hx. }
  assert (Hprein : forall x, x ∈ pre -> x ∈ al) by (intros x Hx; apply Hin, elem_of_app; by left).
  assert (Hpph : apart (ht, 32) (pp, 8)).
  { apply Hpp; [by apply Hc|]. intros x Hx%Hprein. apply apart_sym.
    by apply (proj1 (Forall_forall _ _) Hn) in Hx as [Hx _]. }
  assert (Hst : forall k a, ht <= a -> a + Z.of_nat k <= ht + 32 -> getw k m1 a = getw k m a).
  { intros k a H1 H2. eapply mods_getw; [exact Hmods|]. solve_aparts. }
  split; [by rewrite (Hst 8%nat) by lia|by rewrite (Hst 8%nat) by lia|by rewrite (Hst 4%nat) by lia|
          by rewrite (Hst 8%nat) by lia|done|].
  intros b Hb'. rewrite remove_key_bucket. case_decide as Hd.
  - subst b. rewrite Hbu, remove_key_split by done. fold c. apply chain_unlink.
    + rewrite <- Hbu. by apply Hch.
    + split; [|rewrite <- Hbu; by apply separated_bucket]. rewrite Forall_map. apply Forall_forall.
      intros x Hx%Hin. apply (proj1 (Forall_forall _ _) Hn) in Hx as [_ Hx]. apply apart_sym. by apply Hx.
  - assert (Hne : c <> bk + 8 * b) by (unfold c; lia).
    rewrite (mods_getw [(pp, 8)] 8 m m1 (bk + 8 * b) Hmods).
    + eapply chain_mods; [exact Hmods| |by apply Hch]. apply Forall_forall. intros x Hx. split_aparts.
      pose proof Hx as [Hhx Hxal]%list_elem_of_filter.
      apply Hpp; [by apply (proj1 (Forall_forall _ _) Hn) in Hxal as [_ Hxal]; apply Hxal|].
      intros y Hy. apply (nodes_apart al); [done|done|by apply Hprein|]. intros ->.
      assert (Hyb : y ∈ in_bucket nb (hash_u64 key nb) al) by (rewrite Hbu; apply elem_of_app; by left).
      apply list_elem_of_filter in Hyb as [Hyb _]. congruence.
    + split_aparts. apply Hpp; [unfold c in *; solve_apart|]. intros x Hx%Hprein. apply apart_sym.
      apply (proj1 (Forall_forall _ _) Hn) in Hx as [_ Hx]. by apply Hx.
Qed.

(** The area of a table that loses a node: the node is in use on its own. *)
Lemma remove_area ht bk nb al key n live :
  find_key key al = Some n ->
  table_area ht bk nb al ++ live ≡ₚ (n_addr n, 24) :: table_area ht bk nb (remove_key key al) ++ live.
Proof.
  intros Hf. destruct (find_key_split _ _ _ Hf) as (p & t & -> & Hk & Hp).
  rewrite remove_key_split by done. unfold table_area. rewrite !map_app, map_cons. cbn [app].
  unfold node_range at 2. rewrite <- !app_assoc. cbn [app]. rewrite perm_swap. apply perm_skip.
  rewrite (app_assoc _ (map node_range p) (_ :: _)), (app_assoc _ (map node_range p) (map _ t ++ _)).
  symmetry. apply Permutation_middle.
Qed.

Lemma find_key_first key pre n tl :
  Forall (fun x => n_key x <> key) pre -> n_key n = key -> find_key key (pre ++ n :: tl) = Some n.
Proof.
  intros Hp Hn. induction Hp as [|x pre Hx _ IH]; simpl; rewrite find_key_cons.
  - by rewrite (proj2 (Z.eqb_eq _ _) Hn).
  - by rewrite (proj2 (Z.eqb_neq _ _) Hx).
Qed.

Lemma find_key_none key l : Forall (fun x => n_key x <> key) l -> find_key key l = None.
Proof.
  induction 1 as [|x l Hx _ IH]; [done|]. rewrite find_key_cons. by rewrite (proj2 (Z.eqb_neq _ _) Hx).
Qed.

(** Where a link is, and what it is apart from. *)
Lemma link_valid s cs live ht bk nb al b pre sfx :
  heap s cs (table_area ht bk nb al ++ live) -> 0 <= b < nb -> in_bucket nb b al = pre ++ sfx ->
  within [(link (bk + 8 * b) pre, 8)] (table_area ht bk nb al) /\ valid (link (bk + 8 * b) pre) 8 = true.
Proof.
  intros Hh Hb Hbu.
  assert (Hw : within [(link (bk + 8 * b) pre, 8)] (table_area ht bk nb al)).
  { destruct (proj1 (proj1 (Forall_cons _ _ _) (link_within (bk + 8 * b) pre))) as (x & k & Hx & Hr).
    constructor; [|constructor]. exists x, k. split; [|done].
    pose proof (cell_in ht bk nb al [] b Hb) as Hc. rewrite app_nil_r in Hc.
    apply elem_of_cons in Hx as [[= -> ->]|Hx]; [done|].
    apply list_elem_of_fmap in Hx as (n & [= -> ->] & Hn).
    pose proof (node_in ht bk nb al [] n) as Hi. rewrite app_nil_r in Hi. apply Hi.
    apply (elem_of_bucket n nb b). rewrite Hbu. apply elem_of_app. by left. }
  split; [done|]. apply Forall_cons in Hw as [(x & k & Hx & Hr) _]. simpl in Hr.
  assert (Hin : (x, k) ∈ table_area ht bk nb al ++ live) by (apply elem_of_app; by left).
  eapply valid_sub; [apply (ow_valid _ _ _ (heap_owned _ _ _ _ Hh Hin))|simpl; lia|simpl; lia].
Qed.

(** The facts about the pieces of a table that its updates use. *)
Lemma table_pieces s cs live ht bk nb al :
  heap s cs (table_area ht bk nb al ++ live) ->
  (forall b, 0 <= b < nb -> apart (ht, 32) (bk + 8 * b, 8)) /\
  Forall (fun n => apart (node_range n) (ht, 32) /\
                   forall b, 0 <= b < nb -> apart (node_range n) (bk + 8 * b, 8)) al.
Proof.
  intros Hh. pose proof (struct_in ht bk nb al live) as Hst.
  pose proof (fun b Hb => cell_in ht bk nb al live b Hb) as Hc. split.
  - intros b Hb. apply (heap_apart _ _ _ _ _ Hh Hst (Hc b Hb)). congruence.
  - apply Forall_forall. intros n Hn. pose proof (node_in ht bk nb al live n Hn) as Hi. unfold node_range. split.
    + apply (heap_apart _ _ _ _ _ Hh Hi Hst). congruence.
    + intros b Hb. apply (heap_apart _ _ _ _ _ Hh Hi (Hc b Hb)). congruence.
Qed.

(** The counter of a table in the heap goes down. *)
Lemma wp_count_down s ht bk nb nc l al n cs live (Q : Z -> kstate -> Prop) E :
  table_mem (k_mem s) ht bk nb nc (wrap32 n) al ->
  heap s (mkCache nc 24 l :: cs) (table_area ht bk nb al ++ live) -> n - 1 = Z.of_nat (length al) ->
  (forall v s', table_rep s' ht al cs live -> same_bytes live s s' -> heap_only s s' -> Q v s') ->
  wp (atomic_fetch_sub (ht + 16) 1) s Q E.
Proof.
  intros Hm Hh Hn HQ. pose proof (struct_valid _ _ _ _ _ _ _ Hh) as Hvs. destruct (table_pieces _ _ _ _ _ _ _ Hh) as [Hc Hnd].
  apply wp_fetch_sub; [solve_valid|]. rewrite (tm_count _ _ _ _ _ _ _ Hm), wrap32_pred, Hn.
  set (m := put32 _ _ _).
  assert (Hmods : mods [(ht + 16, 4)] (k_mem s) m) by apply (mods_putw 4).
  assert (Hw : within [(ht + 16, 4)] (table_area ht bk nb al)).
  { constructor; [|constructor]. exists ht, 32. split; [by left|simpl; lia]. }
  assert (Hw' : within [(ht + 16, 4)] (table_area ht bk nb al ++ live)).
  { constructor; [|constructor]. exists ht, 32. split; [by left|simpl; lia]. }
  destruct (heap_writes _ _ _ _ _ Hh Hw' Hmods) as [Hh' _].
  apply HQ; [|by apply (heap_writes_same _ _ _ _ _ _ Hh Hw Hmods)|apply heap_only_set_mem].
  exists bk, nb, nc, l. split; [|done]. apply (table_mem_count _ _ _ _ _ _ _ _ Hm); [apply wrap32_range|done|].
  eapply Forall_impl; [exact Hnd|]. by intros x [Hx _].
Qed.

Lemma remove_key_length key al n : find_key key al = Some n -> length al = S (length (remove_key key al)).
Proof.
  intros Hf. destruct (find_key_split _ _ _ Hf) as (p & t & -> & Hk & Hp).
  rewrite remove_key_split by done. rewrite !length_app. simpl. lia.
Qed.

(** Unlinking the first node of a key, freeing it and counting down. *)
Lemma wp_unlink s ht key bk nb nc l al pre n tl cs live (Q : Z + unit -> kstate -> Prop) E :
  table_mem (k_mem s) ht bk nb nc (wrap32 (Z.of_nat (length al))) al ->
  heap s (mkCache nc 24 l :: cs) (table_area ht bk nb al ++ live) ->
  in_bucket nb (hash_u64 key nb) al = pre ++ n :: tl -> n_key n = key ->
  Forall (fun x => n_key x <> key) pre ->
  (forall s', table_rep s' ht (remove_key key al) cs live -> same_bytes live s s' -> heap_only s s' -> Q (inr tt) s') ->
  wp (next <- load64 (n_addr n + 16) ;;
      store64 (link (bk + 8 * hash_u64 key nb) pre) next ;;
      cache <- load64 (ht + 24) ;;
      slab_free cache (n_addr n) ;;
      atomic_fetch_sub (ht + 16) 1 ;;
      ret (inr tt)) s Q E.
Proof.
  intros Hm Hh Hbu Hk Hpre HQ. set (b := hash_u64 key nb) in *.
  pose proof (hash_range key nb (tm_pos _ _ _ _ _ _ _ Hm)) as Hb. fold b in Hb.
  assert (Hf : find_key key al = Some n).
  { rewrite <- (find_key_bucket key nb al). fold b. rewrite Hbu. by apply find_key_first. }
  assert (Hn : n ∈ al) by (apply (elem_of_bucket n nb b); rewrite Hbu; apply elem_of_app; right; by left).
  pose proof (struct_valid _ _ _ _ _ _ _ Hh) as Hvs. pose proof (node_valid _ _ _ _ _ _ _ Hh n Hn) as Hvn.
  destruct (table_pieces _ _ _ _ _ _ _ Hh) as [Hc Hnd].
  destruct (link_valid _ _ _ _ _ _ _ _ _ _ Hh Hb Hbu) as [Hlw Hlv].
  wp_step. wp_step. wp_step. apply wp_store; [done|]. set (m1 := put64 _ _ _).
  assert (Hmods : mods [(link (bk + 8 * b) pre, 8)] (k_mem s) m1) by apply (mods_putw 8).
  pose proof (heap_writes_same _ _ _ _ _ _ Hh Hlw Hmods) as Hs1.
  assert (Hlw' : within [(link (bk + 8 * b) pre, 8)] (table_area ht bk nb al ++ live)).
  { eapply Forall_impl; [exact Hlw|]. intros r (x & k & Hx & Hr). exists x, k. split; [|done].
    apply elem_of_app. by left. }
  destruct (heap_writes _ _ _ _ _ Hh Hlw' Hmods) as [Hh1 Hk1].
  pose proof (table_mem_unlink _ _ _ _ _ _ _ _ _ _ _ Hm (nodes_separated _ _ _ _ _ _ _ Hh) Hc Hnd Hbu Hk Hpre) as Hm1.
  cbv zeta in Hm1. fold b in Hm1. fold m1 in Hm1. wp_step. wp_step. simpl. rewrite (tm_cache _ _ _ _ _ _ _ Hm1).
  assert (Hh2 : heap (set_mem s m1) (mkCache nc 24 l :: cs) ((n_addr n, 24) :: table_area ht bk nb (remove_key key al) ++ live)).
  { eapply (heap_perm (set_mem s m1)); [reflexivity|symmetry; by apply remove_area|exact Hh1]. }
  apply wp_bind. eapply wp_slab_free; [exact Hh2|]. intros s2 Hh3 Hk2 _ _.
  pose proof (heap_free_same _ _ _ _ _ _ _ _ Hh2 Hk2) as Hs2.
  assert (Hm2 : table_mem (k_mem s2) ht bk nb nc (wrap32 (Z.of_nat (length al))) (remove_key key al)).
  { eapply table_mem_same; [|exact Hs2]. exact Hm1. }
  apply same_bytes_app in Hs2 as [_ Hs2]. apply wp_bind.
  eapply wp_count_down; [exact Hm2|exact Hh3| |].
  - rewrite (remove_key_length _ _ _ Hf). lia.
  - intros v s3 Hr Hs3 Ho. apply wp_ret. apply HQ; [done| |].
    + eapply same_bytes_trans; [exact Hs1|]. by eapply same_bytes_trans.
    + eapply heap_only_trans; [apply Hk1|]. eapply heap_only_trans; [apply Hk2|done].
Qed.

Lemma wp_remove s ht key al cs live (Q : unit -> kstate -> Prop) E :
  table_rep s ht al cs live ->
  (forall s', table_rep s' ht (remove_key key al) cs live -> same_bytes live s s' -> heap_only s s' ->
     (find_key key al = None -> s' = s) -> Q tt s') ->
  wp (hashtable_remove ht key) s Q E.
Proof.
  intros (bk & nb & nc & l & Hm & Hh) HQ. unfold hashtable_remove.
  apply wp_bind. eapply wp_bucket_cell; [exact Hm|exact Hh|].
  pose proof (hash_range key nb (tm_pos _ _ _ _ _ _ _ Hm)) as Hb. set (b := hash_u64 key nb) in *.
  apply (wp_while (fun k pp s' => s' = s /\ exists pre sfx, k = length sfx /\
    in_bucket nb b al = pre ++ sfx /\ Forall (fun x => n_key x <> key) pre /\ pp = link (bk + 8 * b) pre)
    (length (in_bucket nb b al))).
  { pose proof (nodes_bound _ _ _ _ _ _ _ Hh). pose proof (length_filter (fun n => hash_u64 (n_key n) nb = b) al).
    unfold in_bucket. lia. }
  { split; [done|]. by exists [], (in_bucket nb b al). }
  intros k pp s' (-> & pre & sfx & -> & Hbu & Hpre & ->).
  destruct (link_valid _ _ _ _ _ _ _ _ _ _ Hh Hb Hbu) as [Hlw Hlv].
  pose proof (tm_chains _ _ _ _ _ _ _ Hm b Hb) as Hc. rewrite Hbu in Hc. pose proof (chain_link _ _ _ _ Hc) as Hcl.
  apply wp_bind, wp_load; [done|]. destruct sfx as [|n sfx]; simpl in Hcl.
  { rewrite Hcl. simpl. apply wp_ret. apply (HQ s); [|apply same_bytes_refl|apply heap_only_refl|done].
    rewrite remove_key_absent; [by exists bk, nb, nc, l|].
    rewrite <- (find_key_bucket key nb al). fold b. rewrite Hbu, app_nil_r. by apply find_key_none. }
  destruct Hcl as (Hp & Hp0 & Hk & _ & _). rewrite (proj2 (Z.eqb_neq _ _) Hp0), Hp.
  assert (Hn : n ∈ al).
  { apply (elem_of_bucket n nb b). rewrite Hbu. apply elem_of_app. right. by left. }
  pose proof (node_valid _ _ _ _ _ _ _ Hh n Hn) as Hvn. unfold off_key, off_next, off_node_cache, off_count.
  rewrite Z.add_0_r. wp_step. wp_step. rewrite Hp in Hk. rewrite Hk. destruct (Z.eqb_spec (n_key n) key) as [He|He].
  - eapply wp_unlink; [exact Hm|exact Hh|exact Hbu|done|done|]. intros s' Hr Hs Ho.
    apply HQ; [done..|]. intros Hf. rewrite <- (find_key_bucket key nb al) in Hf. fold b in Hf.
    by rewrite Hbu, (find_key_first key pre n sfx Hpre He) in Hf.
  - apply wp_ret. exists (length sfx). split; [simpl; lia|]. split; [done|]. exists (pre ++ [n]), sfx.
    split; [done|]. split; [by rewrite <- app_assoc|]. split; [|by rewrite link_snoc].
    apply Forall_app. split; [done|]. by constructor.
Qed.

(** ** Creation *)

(** Writing a field of a struct in use. *)
Lemma wp_kheap_field {A} k s bs cs x n live off v (c : M A) Q E :
  kheap_rep s bs cs ((x, n) :: live) -> 0 <= off -> off + Z.of_nat k <= n ->
  (forall s', kheap_rep s' bs cs ((x, n) :: live) -> same_bytes ((bs ≫= extents) ++ live) s s' ->
     heap_only s s' -> s' = set_mem s (putw k (k_mem s) (x + off) v) -> wp c s' Q E) ->
  wp (store k (x + off) v ;; c) s Q E.
Proof.
  intros Hr Ho Hn HQ. pose proof Hr as [_ _ (ks & _ & _ & Hh)].
  assert (Hin : (x, n) ∈ (bs ≫= extents) ++ (x, n) :: live) by (apply elem_of_app; right; by left).
  pose proof (ow_valid _ _ _ (heap_owned _ _ _ _ Hh Hin)) as Hv. simpl in Hv. wp_step. wp_step.
  destruct (kheap_writes s bs cs [(x, n)] live [(x + off, Z.of_nat k)] (putw k (k_mem s) (x + off) v) Hr) as [Hr' Hs].
  - constructor; [|constructor]. exists x, n. split; [by left|simpl; lia].
  - apply mods_putw.
  - apply HQ; [done|done|apply heap_only_set_mem|done].
Qed.

Lemma kheap_live_valid s bs cs live r :
  kheap_rep s bs cs live -> r ∈ (bs ≫= extents) ++ live -> valid r.1 r.2 = true.
Proof. intros [_ _ (ks & _ & _ & Hh)] Hin. apply (ow_valid _ _ _ (heap_owned _ _ _ _ Hh Hin)). Qed.

Lemma wp_ret_unit (c : M unit) s Q E : wp (c ;; ret tt) s Q E -> wp c s Q E.
Proof. unfold wp, bind. by destruct (c s) as [[] ?| | |]. Qed.

(** The struct a table is made of, once its fields and its array are set. *)
Lemma table_mem_empty m ht bk nb nc :
  get64 m ht = bk -> get64 m (ht + 8) = nb -> get32 m (ht + 16) = 0 -> get64 m (ht + 24) = nc -> 0 < nb ->
  (forall i, 0 <= i < 8 * nb -> get8 m (bk + i) = 0) -> table_mem m ht bk nb nc 0 [].
Proof.
  intros H1 H2 H3 H4 Hnb Hz. split; [done..|]. intros b Hb. unfold in_bucket. rewrite filter_nil. simpl.
  assert (Hzero : forall n a, bk <= a -> a + Z.of_nat n <= bk + 8 * nb -> getw n m a = 0).
  { induction n as [|n IH]; intros a Ha1 Ha2; [done|]. unfold getw; fold getw. rewrite IH by lia.
    replace a with (bk + (a - bk)) by lia. rewrite Hz by lia. lia. }
  apply Hzero; simpl; lia.
Qed.

(** A table next to the kernel heap, whose blocks are [bs]. *)
Definition kheap_table (s : kstate) (ht : Z) (al : list node) (bs : list block) (cs : list cache_t)
    (live : list (Z * Z)) : Prop :=
  exists bk nb nc l, table_mem (k_mem s) ht bk nb nc (wrap32 (Z.of_nat (length al))) al /\
    kheap_rep s bs (mkCache nc 24 l :: cs) (table_area ht bk nb al ++ live).

Lemma kheap_table_rep s ht al bs cs live :
  kheap_table s ht al bs cs live -> exists ks, table_rep s ht al (ks ++ cs) ((bs ≫= extents) ++ live).
Proof.
  intros (bk & nb & nc & l & Hm & [_ _ (ks & _ & _ & Hh)]). exists ks, bk, nb, nc, l. split; [done|].
  eapply heap_perm; [..|exact Hh]; [apply Permutation_middle|].
  rewrite !app_assoc. apply Permutation_app_tail, Permutation_app_comm.
Qed.

(** The four fields as [hashtable_init] writes them, in memories that agree on
    the table but for its own stores. *)
Lemma init_fields m1 m3 m6 ht bk nb nc :
  let m2 := put64 m1 (ht + 0) bk in
  let m5 := put32 (put64 m3 (ht + 8) nb) (ht + 16) 0 in
  let m7 := put64 m6 (ht + 24) nc in
  (forall n a, ht <= a -> a + Z.of_nat n <= ht + 32 -> getw n m3 a = getw n m2 a) ->
  (forall n a, ht <= a -> a + Z.of_nat n <= ht + 32 -> getw n m6 a = getw n m5 a) ->
  u64 bk -> u64 nb -> u64 nc ->
  get64 m7 ht = bk /\ get64 m7 (ht + 8) = nb /\ get32 m7 (ht + 16) = 0 /\ get64 m7 (ht + 24) = nc.
Proof.
  intros m2 m5 m7 H3 H6 Hbk Hnb Hnc. unfold u64 in *. split_and!; unfold m7.
  - rewrite (getw_putw_ne 8 8), H6 by lia. unfold m5. rewrite (getw_putw_ne 4 8), (getw_putw_ne 8 8), H3 by lia.
    unfold m2. rewrite Z.add_0_r. by apply (getw_putw 8).
  - rewrite (getw_putw_ne 8 8), H6 by lia. unfold m5. rewrite (getw_putw_ne 4 8) by lia. by apply (getw_putw 8).
  - rewrite (getw_putw_ne 8 4), H6 by lia. by apply (getw_putw 4).
  - by apply (getw_putw 8).
Qed.

(** The bytes of a block, over a run of steps that leave it alone. *)
Lemma payload_kept s s1 s2 s3 s4 bs1 bs2 bs3 bs4 cs1 cs2 cs3 cs4 l1 l2 l3 l4 b x :
  kheap_rep s (b :: bs1) cs1 l1 -> kheap_rep s1 (b :: bs2) cs2 l2 -> kheap_rep s2 (b :: bs3) cs3 l3 ->
  kheap_rep s3 (b :: bs4) cs4 l4 ->
  same_bytes (extents b) s s1 -> same_bytes (extents b) s1 s2 -> same_bytes (extents b) s2 s3 ->
  same_bytes (extents b) s3 s4 -> in_payload b x -> get8 (k_mem s4) x = get8 (k_mem s) x.
Proof.
  intros R1 R2 R3 R4 H1 H2 H3 H4 Hp. rewrite <- (app_nil_r (extents b)) in H1, H2, H3, H4.
  by rewrite (same_bytes_payload s3 s4 b _ [] (rep_block _ _ _ _ _ R4) Hp H4),
    (same_bytes_payload s2 s3 b _ [] (rep_block _ _ _ _ _ R3) Hp H3),
    (same_bytes_payload s1 s2 b _ [] (rep_block _ _ _ _ _ R2) Hp H2),
    (same_bytes_payload s s1 b _ [] (rep_block _ _ _ _ _ R1) Hp H1).
Qed.

Lemma wp_hashtable_init s ht nb bs meta cs live (Q : unit -> kstate -> Prop) (E : kstate -> Prop) :
  kheap_rep s bs (mkCache cache_metadata_cache 32 meta :: cs) ((ht, 32) :: live) ->
  cache_meta_initialized s = true -> 0 < nb -> 8 * nb < 2 ^ 63 -> (2048 < 8 * nb -> free_set s <> ∅) ->
  (forall meta' s', kheap_table s' ht [] bs (mkCache cache_metadata_cache 32 meta' :: cs) live ->
     same_bytes ((bs ≫= extents) ++ live) s s' -> heap_only s s' -> Q tt s') ->
  (forall s', E s') ->
  wp (hashtable_init ht nb) s Q E.
Proof.
  intros Hr Hi Hnb Htop Hroom HQ HE. unfold hashtable_init. rewrite wrap64_small by (unfold u64; lia).
  apply wp_bind. eapply wp_kmalloc; [exact Hr|lia| | |intros; apply HE].
  2:{ intros [Hz|[Hl Hf]]; [lia|]. by apply Hroom in Hl. }
  intros b s1 Hsz _ (Hhdr & Hr1 & Hs1 & Ho1). unfold off_buckets, off_nbuckets, off_count, off_node_cache.
  eapply wp_kheap_field; [exact Hr1|lia|lia|]. intros s2 Hr2 Hs2 Ho2 Hm2.
  assert (Hin2 : (ht, 32) ∈ ((b :: bs) ≫= extents) ++ (ht, 32) :: live) by (apply elem_of_app; right; by left).
  pose proof (kheap_live_valid _ _ _ _ _ Hr2 Hin2) as Hv2. simpl in Hv2. wp_step. wp_step.
  replace (get64 (k_mem s2) (ht + 0)) with (b_hdr b + 16).
  2:{ rewrite Hm2. simpl. rewrite (getw_putw 8); [done|lia]. }
  rewrite <- Hsz at 1. apply wp_bind. eapply wp_memset_block; [exact Hr2|]. intros s3 Hr3 Hs3 Ho3 Hz3.
  eapply wp_kheap_field; [exact Hr3|lia|lia|]. intros s4 Hr4 Hs4 Ho4 Hm4.
  eapply wp_kheap_field; [exact Hr4|lia|lia|]. intros s5 Hr5 Hs5 Ho5 Hm5.
  apply wp_bind. eapply wp_kheap_cache_create; [unfold sizeof_hash_node; lia| |exact Hr5| |intros; apply HE].
  { rewrite <- Hi. destruct Ho1 as (? & ? & ->), Ho3 as (? & ? & ->). by rewrite Hm5, Hm4, Hm2. }
  intros nc meta' s6 Hnc Hr6 Hs6 Ho6. change (object_size sizeof_hash_node) with 24 in Hr6.
  apply wp_ret_unit. eapply wp_kheap_field; [exact Hr6|lia|lia|]. intros s7 Hr7 Hs7 Ho7 Hm7. apply wp_ret.
  assert (Hblk : forall t t', same_bytes (((b :: bs) ≫= extents) ++ live) t t' ->
            same_bytes (extents b) t t' /\ same_bytes ((bs ≫= extents) ++ live) t t').
  { intros t t'. by rewrite bind_cons, <- app_assoc, same_bytes_app. }
  assert (Hsl : forall t t', same_bytes ((bs ≫= extents) ++ (ht, 32) :: live) t t' ->
            same_bytes ((bs ≫= extents) ++ live) t t').
  { intros t t'. rewrite !same_bytes_app. intros [? H6]. apply Forall_cons in H6 as [_ ?]. done. }
  assert (Hs6' : same_bytes (((b :: bs) ≫= extents) ++ live) s5 s6).
  { rewrite same_bytes_app in *. destruct Hs6 as [? H6]. by apply Forall_cons in H6 as [_ ?]. }
  apply Hblk in Hs2 as [_ Hs2], Hs4 as [Hb4 Hs4], Hs5 as [Hb5 Hs5], Hs6' as [Hb6 Hs6'], Hs7 as [Hb7 Hs7].
  apply (HQ meta').
  - exists (b_hdr b + 16), nb, nc, []. split; [|].
    + pose proof (init_fields (k_mem s1) (k_mem s3) (k_mem s6) ht (b_hdr b + 16) nb nc) as Hfields. cbv zeta in Hfields.
      destruct Hfields as (F1 & F2 & F3 & F4); [| |unfold u64; lia..|].
      * intros k x Hx1 Hx2. replace (put64 (k_mem s1) (ht + 0) (b_hdr b + 16)) with (k_mem s2) by (by rewrite Hm2).
        apply (same_bytes_getw _ s2 s3 ht 32 k x Hs3); [apply elem_of_app; right; by left|lia..].
      * intros k x Hx1 Hx2. replace (put32 (put64 (k_mem s3) (ht + 8) nb) (ht + 16) 0) with (k_mem s5) by (by rewrite Hm5, Hm4).
        apply (same_bytes_getw _ s5 s6 ht 32 k x Hs6); [apply elem_of_app; right; by left|lia..].
      * rewrite Hm7. apply table_mem_empty; [done..|]. intros i Hi'.
        assert (Hp : in_payload b (b_hdr b + 16 + i)) by (unfold in_payload; lia).
        rewrite <- (Hz3 _ Hp : _ = 0), <- Hm7. by eapply (payload_kept s3 s4 s5 s6 s7).
    + apply (kheap_words _ _ _ _ _ nb) in Hr7; [|lia]. eapply kheap_rep_equiv; [..|exact Hr7].
      * apply perm_swap.
      * unfold table_area. simpl. rewrite app_nil_r. symmetry. apply Permutation_middle.
  - eapply same_bytes_trans; [apply Hsl, Hs1|]. eapply same_bytes_trans; [exact Hs2|].
    eapply same_bytes_trans; [apply Hsl, Hs3|]. eapply same_bytes_trans; [exact Hs4|].
    eapply same_bytes_trans; [exact Hs5|]. by eapply same_bytes_trans.
  - repeat (eapply heap_only_trans; [eassumption|]). apply heap_only_refl.
Qed.
End hash_ops.

(** ** A table next to the rest of the heap *)

Section table_clients.
Context `{Console}.

Lemma table_rep_perm s ht al cs cs' live live' :
  cs ≡ₚ cs' -> live ≡ₚ live' -> table_rep s ht al cs live -> table_rep s ht al cs' live'.
Proof.
  intros Hc Hl (bk & nb & nc & l & Hm & Hh). exists bk, nb, nc, l. split; [done|]. by rewrite <- Hc, <- Hl.
Qed.

Lemma table_rep_same s s' ht al cs live :
  k_mem s' = k_mem s -> k_pmm s' = k_pmm s -> table_rep s ht al cs live -> table_rep s' ht al cs live.
Proof.
  intros Hm Hp (bk & nb & nc & l & Ht & Hh). exists bk, nb, nc, l. rewrite Hm. split; [done|]. by apply (heap_same s).
Qed.

Lemma table_rep_owned s ht al cs live r : table_rep s ht al cs live -> r ∈ live -> owned s r.1 r.2.
Proof.
  intros (bk & nb & nc & l & _ & Hh) Hr. apply (heap_owned _ _ _ _ Hh). apply elem_of_app. by right.
Qed.

Lemma table_rep_separated s ht al cs live : table_rep s ht al cs live -> separated live.
Proof.
  intros (bk & nb & nc & l & _ & Hh). apply heap_area_live, area_app in Hh as (_ & [_ Hs] & _). done.
Qed.

(** Writing to other memory in use. *)
Lemma table_rep_writes s ht al cs ws live rs m :
  table_rep s ht al cs (ws ++ live) -> within rs ws -> mods rs (k_mem s) m ->
  table_rep (set_mem s m) ht al cs (ws ++ live) /\ same_bytes live s (set_mem s m).
Proof.
  intros (bk & nb & nc & l & Hm & Hh) Hw Hmods.
  assert (Hh' : heap s (mkCache nc 24 l :: cs) (ws ++ table_area ht bk nb al ++ live)).
  { eapply heap_perm; [reflexivity| |exact Hh]. rewrite !app_assoc. apply Permutation_app_tail, Permutation_app_comm. }
  pose proof (heap_writes_same _ _ _ _ _ _ Hh' Hw Hmods) as Hs. apply same_bytes_app in Hs as Hsl.
  assert (Hw' : within rs (table_area ht bk nb al ++ ws ++ live)).
  { eapply Forall_impl; [exact Hw|]. intros r (x & n & Hx & Hr). exists x, n. split; [|done].
    rewrite !elem_of_app. auto. }
  destruct (heap_writes _ _ _ _ _ Hh Hw' Hmods) as [Hh2 _].
  split; [|apply Hsl]. exists bk, nb, nc, l. split; [|done].
  eapply (table_mem_same s _ _ _ _ _ _ _ []); [exact Hm|]. rewrite app_nil_r. apply Hsl.
Qed.

(** Allocating from and freeing to another cache. *)
Lemma wp_table_alloc s ht al a sz l cs live (Q : Z -> kstate -> Prop) (E : kstate -> Prop) :
  table_rep s ht al (mkCache a sz l :: cs) live -> sz <= 4080 ->
  (forall x l' s', table_rep s' ht al (mkCache a sz l' :: cs) ((x, sz) :: live) ->
     same_bytes live s s' -> heap_only s s' -> served s l sz x l' s' ->
     (l = x :: l' -> same_bytes [(x, sz)] s s') -> Q x s') ->
  (forall s', l = [] -> exhausted s -> exhausted s' -> E s') ->
  wp (slab_alloc a) s Q E.
Proof.
  intros (bk & nb & nc & nl & Hm & Hh) Hsz HQ HE.
  eapply heap_perm in Hh; [|apply perm_swap|reflexivity].
  eapply wp_slab_alloc; [exact Hh| |intros; lia|exact HE]. intros x l' s' Hh' Hk Hsv.
  pose proof (heap_cache_same _ _ _ _ _ Hh Hk) as Hs. apply same_bytes_app in Hs as Hsl.
  apply (HQ x l'); [|apply Hsl|apply Hk|done|].
  - exists bk, nb, nc, nl. split.
    + eapply (table_mem_same s s' _ _ _ _ _ _ []); [exact Hm|]. rewrite app_nil_r. apply Hsl.
    + eapply heap_perm; [apply perm_swap| |exact Hh']. symmetry. apply Permutation_middle.
  - intros ->. apply heap_locked in Hh. destruct (locked_facts _ _ _ _ _ Hh) as (_ & _ & _ & _ & Hobj).
    simpl in Hobj. apply Forall_cons in Hobj as [[Ho Hap] _]. eapply keeps_same; [exact Hk| |by split_aparts].
    split; [by constructor|]. split; constructor.
Qed.

Lemma wp_table_cache_create n s meta ht al cs live (Q : Z -> kstate -> Prop) (E : kstate -> Prop) :
  0 <= n <= 2 ^ 31 -> cache_meta_initialized s = true ->
  table_rep s ht al (mkCache cache_metadata_cache 32 meta :: cs) live ->
  (forall a meta' s', 0 < a < 2 ^ 64 ->
     table_rep s' ht al (mkCache cache_metadata_cache 32 meta' :: mkCache a (object_size n) [] :: cs) live ->
     same_bytes live s s' -> heap_only s s' -> Q a s') ->
  (forall s', exhausted s' -> E s') ->
  wp (slab_cache_create n) s Q E.
Proof.
  intros Hn Hi (bk & nb & nc & nl & Hm & Hh) HQ HE.
  eapply heap_perm in Hh; [|apply perm_swap|reflexivity].
  eapply wp_heap_cache_create; [done|done|exact Hh| |by auto]. intros a meta' s' Ha Hh' Hs Ho _ _.
  apply same_bytes_app in Hs as Hsl. apply (HQ a meta'); [done| |apply Hsl|done].
  exists bk, nb, nc, nl. split.
  - eapply (table_mem_same s s' _ _ _ _ _ _ []); [exact Hm|]. rewrite app_nil_r. apply Hsl.
  - eapply heap_perm; [|reflexivity|exact Hh'].
    apply (Permutation_middle [_; _] cs (mkCache nc 24 nl)).
Qed.

Lemma wp_table_free s ht al a sz l x cs live (Q : unit -> kstate -> Prop) E :
  table_rep s ht al (mkCache a sz l :: cs) ((x, sz) :: live) ->
  (forall s', table_rep s' ht al (mkCache a sz (x :: l) :: cs) live ->
     same_bytes live s s' -> heap_only s s' -> mods [(a, 32); (x, 8)] (k_mem s) (k_mem s') ->
     apart (a, 32) (x, sz) -> Q tt s') ->
  wp (slab_free a x) s Q E.
Proof.
  intros (bk & nb & nc & nl & Hm & Hh) HQ.
  assert (Hh' : heap s (mkCache a sz l :: mkCache nc 24 nl :: cs) ((x, sz) :: table_area ht bk nb al ++ live)).
  { eapply heap_perm; [apply perm_swap| |exact Hh]. apply Permutation_middle. }
  eapply wp_slab_free; [exact Hh'|]. intros s' Hh2 Hk _ [Hmods _].
  pose proof (heap_free_same _ _ _ _ _ _ _ _ Hh' Hk) as Hs. apply same_bytes_app in Hs as Hsl.
  apply HQ; [|apply Hsl|apply Hk|done|].
  - exists bk, nb, nc, nl. split; [|eapply heap_perm; [apply perm_swap|reflexivity|exact Hh2]].
    eapply (table_mem_same s s' _ _ _ _ _ _ []); [exact Hm|]. rewrite app_nil_r. apply Hsl.
  - apply heap_locked in Hh'. destruct (locked_facts _ _ _ _ _ Hh') as (_ & _ & _ & Hr & _).
    apply Forall_app in Hr as [_ Hr]. apply Forall_cons in Hr as [Hr _]. apply Forall_cons in Hr as [Hr _].
    by apply apart_sym.
Qed.
End table_clients.

(** ** Properties *)

(** A run of operations on a table, with what its lookups return. *)
Inductive table_op :=
| Insert (key value : Z)
| Lookup (key : Z)
| Remove (key : Z).

Section hash_properties.
Context `{Console}.

Definition run_op (ht : Z) (o : table_op) : M (list Z) :=
  match o with
  | Insert key value => hashtable_insert ht key value ;; ret []
  | Lookup key => v <- hashtable_lookup ht key ;; ret [v]
  | Remove key => hashtable_remove ht key ;; ret []
  end.

Fixpoint run_ops (ht : Z) (os : list table_op) : M (list Z) :=
  match os with
  | [] => ret []
  | o :: os' => vs <- run_op ht o ;; ws <- run_ops ht os' ;; ret (vs ++ ws)
  end.

(** The same on a list of pairs of a key and a value, the latest first. *)
Fixpoint remove_pair (key : Z) (kvs : list (Z * Z)) : list (Z * Z) :=
  match kvs with
  | [] => []
  | kv :: kvs' => if kv.1 =? key then kvs' else kv :: remove_pair key kvs'
  end.

Fixpoint lookup_pair (key : Z) (kvs : list (Z * Z)) : Z :=
  match kvs with
  | [] => 0
  | kv :: kvs' => if kv.1 =? key then kv.2 else lookup_pair key kvs'
  end.

Definition spec_op (o : table_op) (kvs : list (Z * Z)) : list Z * list (Z * Z) :=
  match o with
  | Insert key value => ([], (key, value) :: kvs)
  | Lookup key => ([lookup_pair key kvs], kvs)
  | Remove key => ([], remove_pair key kvs)
  end.

Fixpoint spec_ops (os : list table_op) (kvs : list (Z * Z)) : list Z * list (Z * Z) :=
  match os with
  | [] => ([], kvs)
  | o :: os' => let '(vs, kvs1) := spec_op o kvs in let '(ws, kvs2) := spec_ops os' kvs1 in (vs ++ ws, kvs2)
  end.

Definition op_ok (o : table_op) : Prop :=
  match o with Insert key value => u64 key /\ u64 value | _ => True end.

Definition pair_of (n : node) : Z * Z := (n_key n, n_value n).

Lemma remove_pair_of key al : map pair_of (remove_key key al) = remove_pair key (map pair_of al).
Proof. induction al as [|n al IH]; simpl; [done|]. destruct (n_key n =? key); [done|]. simpl. by rewrite IH. Qed.

Lemma lookup_pair_of key al :
  match find_key key al with Some n => n_value n | None => 0 end = lookup_pair key (map pair_of al).
Proof. induction al as [|n al IH]; [done|]. rewrite find_key_cons. simpl. by destruct (n_key n =? key). Qed.

Lemma wp_run_op s ht o al cs live (Q : list Z -> kstate -> Prop) (E : kstate -> Prop) :
  table_rep s ht al cs live -> op_ok o ->
  (forall al' s', table_rep s' ht al' cs live -> (spec_op o (map pair_of al)).2 = map pair_of al' ->
     same_bytes live s s' -> heap_only s s' -> Q (spec_op o (map pair_of al)).1 s') ->
  (forall s', exhausted s -> exhausted s' -> E s') ->
  wp (run_op ht o) s Q E.
Proof.
  intros Hr Hok HQ HE. destruct o as [key value|key|key]; apply wp_bind.
  - destruct Hok as [Hk Hv]. eapply wp_insert; [exact Hr|done|done| |exact HE].
    intros x s' Hr' Hs Ho. apply wp_ret. by apply (HQ (mkNode x key value :: al)).
  - eapply wp_lookup; [exact Hr|]. apply wp_ret. rewrite lookup_pair_of.
    apply (HQ al); [done|done|apply same_bytes_refl|apply heap_only_refl].
  - eapply wp_remove; [exact Hr|]. intros s' Hr' Hs Ho _. apply wp_ret.
    apply (HQ (remove_key key al)); [done|by rewrite remove_pair_of|done|done].
Qed.

(** C11: A table behaves as a list of pairs with the latest first.  Whatever
    sequence of insertions, lookups and removals runs on it, the lookups return
    what they return on the list, the table ends with the list's entries in a
    well-formed heap, and nothing else in use changes; the run ends, and panics
    only when an insertion finds no frame left. *)
Theorem hashtable_refines s ht os al cs live :
  table_rep s ht al cs live -> Forall op_ok os ->
  wp (run_ops ht os) s
     (fun vs s' => exists al', table_rep s' ht al' cs live /\
        spec_ops os (map pair_of al) = (vs, map pair_of al') /\ same_bytes live s s' /\ heap_only s s')
     exhausted.
Proof.
  intros Hr Hok. revert s al Hr. induction Hok as [|o os Ho Hok IH]; intros s al Hr; simpl.
  - apply wp_ret. exists al. split; [done|]. split; [done|]. split; [apply same_bytes_refl|apply heap_only_refl].
  - apply wp_bind. eapply wp_run_op; [exact Hr|done| |eauto]. intros al1 s1 Hr1 Hp1 Hs1 Ho1.
    destruct (spec_op o (map pair_of al)) as [vs kvs1]. simpl in *. subst kvs1.
    apply wp_bind. eapply wp_weaken; [by apply IH|]. intros ws s2 (al2 & Hr2 & Hp2 & Hs2 & Ho2).
    apply wp_ret. exists al2. rewrite Hp2. split; [done|]. split; [done|].
    split; [by eapply same_bytes_trans|by eapply heap_only_trans].
Qed.

(** Insertion puts the entry in a node of its own, apart from everything
    in use, in front of the others; it panics only when no frame is left. *)
Theorem hashtable_insert_correct s ht key value al cs live :
  table_rep s ht al cs live -> u64 key -> u64 value ->
  wp (hashtable_insert ht key value) s
     (fun _ s' => exists x, table_rep s' ht (mkNode x key value :: al) cs live /\
        same_bytes live s s' /\ heap_only s s')
     (fun _ => free_set s = ∅ \/ free_frames (k_pmm s) = 0).
Proof. intros Hr Hk Hv. eapply wp_insert; [exact Hr|done|done|eauto|done]. Qed.

(** Removal takes out the latest entry of the key, gives its node back to
    the node cache and counts it off; without one it changes nothing. *)
Theorem hashtable_remove_correct s ht key al cs live :
  table_rep s ht al cs live ->
  safe (hashtable_remove ht key) s
     (fun _ s' => table_rep s' ht (remove_key key al) cs live /\ same_bytes live s s' /\
        (find_key key al = None -> s' = s) /\
        (forall n, find_key key al = Some n -> exists pre tl, al = pre ++ n :: tl /\ n_key n = key /\
           find_key key pre = None /\ remove_key key al = pre ++ tl)).
Proof.
  intros Hr. eapply wp_remove; [exact Hr|]. intros s' Hr' Hs _ Hn. split; [done|]. split; [done|]. split; [done|].
  intros n Hf. destruct (find_key_split _ _ _ Hf) as (pre & tl & -> & Hk & Hp). exists pre, tl.
  split; [done|]. split; [done|]. split; [by apply find_key_none|by apply remove_key_split].
Qed.

(** Initialisation makes an empty table, its array of buckets taken from
    the kernel heap and its nodes from a cache of its own, without touching
    anything else in use; it needs a frame left when the array does not fit in
    a slab. *)
Theorem hashtable_init_correct s ht nb bs meta cs live :
  kheap_rep s bs (mkCache cache_metadata_cache 32 meta :: cs) ((ht, 32) :: live) ->
  cache_meta_initialized s = true -> 0 < nb -> 8 * nb < 2 ^ 63 -> (2048 < 8 * nb -> free_set s <> ∅) ->
  wp (hashtable_init ht nb) s
     (fun _ s' => (exists meta', kheap_table s' ht [] bs (mkCache cache_metadata_cache 32 meta' :: cs) live) /\
        same_bytes ((bs ≫= extents) ++ live) s s' /\ heap_only s s')
     (fun _ => True).
Proof. intros Hr Hi Hnb Htop Hroom. eapply wp_hashtable_init; [exact Hr|done|done|done|done|eauto|done]. Qed.
End hash_properties.

(** ** Witnesses *)

(** A table of four buckets in the object manager's memory. *)
Definition ht_demo : Z := 0x40093608.
Definition hash_demo : kstate := final (hashtable_init (H := arm64_virt) ht_demo 4) kheap_demo.

Lemma kheap_demo_table :
  exists meta, kheap_rep (H := arm64_virt) kheap_demo [] [mkCache 0x40090000 32 meta] [(ht_demo, 32)].
Proof.
  destruct kheap_demo_om as [meta Hr]. exists meta.
  apply (kheap_rep_split _ _ _ om_demo [] [(ht_demo, 32)] Hr).
  - split; [constructor|exact I].
  - constructor; [|constructor]. exists 0x40092000, 5680. split; [by left|]. unfold ht_demo. simpl. lia.
Qed.

Lemma hashtable_init_correct_witness :
  exists s', hashtable_init (H := arm64_virt) ht_demo 4 kheap_demo = Ok tt s' /\
    exists meta', kheap_table (H := arm64_virt) s' ht_demo [] [] [mkCache 0x40090000 32 meta'] [].
Proof.
  destruct kheap_demo_table as [meta Hr].
  destruct (wp_result _ _ _ _ tt
              (@hashtable_init_correct arm64_virt arm64_console _ ht_demo 4 _ _ _ _ Hr eq_refl ltac:(lia) ltac:(lia) ltac:(lia)))
    as (s' & Hrun & Ht & _); [vm_compute; reflexivity|].
  exists s'. exact (conj Hrun Ht).
Defined.

Lemma table_rep_io `{Platform} s t ht al cs live : table_rep s ht al cs live -> table_rep (set_io s t) ht al cs live.
Proof. intros (bk & nb & nc & l & Hm & Hh). exists bk, nb, nc, l. split; [done|by apply (heap_same s)]. Qed.

Lemma hash_demo_rep : exists cs, table_rep (H := arm64_virt) hash_demo ht_demo [] cs [].
Proof.
  destruct kheap_demo_table as [meta Hr].
  assert (Hw : wp (hashtable_init (H := arm64_virt) ht_demo 4) kheap_demo
            (fun _ s' => exists cs, table_rep (H := arm64_virt) s' ht_demo [] cs []) (fun _ => True)).
  { apply (@wp_hashtable_init arm64_virt arm64_console _ ht_demo 4 _ _ _ _ _ _ Hr eq_refl); [lia|lia|lia| |done].
    intros meta' s' Ht _ _. destruct (kheap_table_rep _ _ _ _ _ _ Ht) as [ks Ht']. by exists (ks ++ [mkCache 0x40090000 32 meta']). }
  destruct (wp_result _ _ _ _ tt Hw) as (s' & Hrun & cs & Hr'); [vm_compute; reflexivity|].
  exists cs. unfold hash_demo, final. rewrite Hrun. exact (table_rep_io _ _ _ _ _ _ Hr').
Qed.

Lemma hashtable_refines_witness :
  let os := [Insert 5 50; Insert 9 90; Insert 5 51; Lookup 5; Remove 5; Lookup 5; Lookup 7] in
  exists s' al' cs, run_ops (H := arm64_virt) ht_demo os hash_demo = Ok [51; 50; 0] s' /\
    table_rep (H := arm64_virt) s' ht_demo al' cs [] /\ spec_ops os [] = ([51; 50; 0], map pair_of al').
Proof.
  intros os. destruct hash_demo_rep as [cs Hr].
  assert (Hok : Forall op_ok os) by (repeat constructor; vm_compute; done).
  destruct (wp_result _ _ _ _ [51; 50; 0] (@hashtable_refines arm64_virt arm64_console _ ht_demo os _ _ _ Hr Hok))
    as (s' & Hrun & al' & Hr' & Hsp & _); [vm_compute; reflexivity|].
  exists s', al', cs. exact (conj Hrun (conj Hr' Hsp)).
Defined.

Lemma hashtable_insert_correct_witness :
  exists s' x cs, hashtable_insert (H := arm64_virt) ht_demo 5 50 hash_demo = Ok tt s' /\
    table_rep (H := arm64_virt) s' ht_demo [mkNode x 5 50] cs [].
Proof.
  destruct hash_demo_rep as [cs Hr].
  destruct (wp_result _ _ _ _ tt (@hashtable_insert_correct arm64_virt arm64_console _ ht_demo 5 50 _ _ _ Hr
              ltac:(vm_compute; done) ltac:(vm_compute; done)))
    as (s' & Hrun & x & Hr' & _); [vm_compute; reflexivity|].
  exists s', x, cs. exact (conj Hrun Hr').
Defined.

Lemma hashtable_remove_correct_witness :
  safe (hashtable_remove (H := arm64_virt) ht_demo 5) hash_demo (fun _ s' => s' = hash_demo).
Proof.
  destruct hash_demo_rep as [cs Hr].
  eapply wp_weaken; [exact (@hashtable_remove_correct arm64_virt _ ht_demo 5 _ _ _ Hr)|].
  intros a s' (_ & _ & Hs & _). exact (Hs eq_refl).
Defined.
