(* ===== verification/Ob.v ===== *)
(** * The object manager: base/ob/ob.c

    Objects of registered types live in the slab cache of their type and are
    found by number in a hash table.  An object dies when its reference count
    and its handle count have both reached zero. *)

From Stdlib Require Import String.
From S2P Require Import Prelude Machine Logic Console Boards Sync Str Boot Pmm Heap Slab Kheap Hash.

#[local] Open Scope string_scope.
#[local] Open Scope list_scope.
#[local] Open Scope Z_scope.

(** Offsets in the structs of include/ob/ob.hpp. *)
Definition ty_name : Z := 0.
Definition ty_instance_size : Z := 8.
Definition ty_ops : Z := 16.
Definition ty_slab : Z := 72.
Definition ty_default_rights : Z := 80.
Definition sizeof_object_type : Z := 88.

(** [object_type_ops_t]: seven function pointers. *)
Record object_type_ops_t := mkOps {
  op_create : Z; op_destroy : Z; op_read : Z; op_write : Z; op_wait : Z; op_ioop : Z; op_on_revoke : Z
}.
Definition ops_create : Z := 0.
Definition ops_destroy : Z := 8.

Definition MAX_OBJECT_TYPES : Z := 64.
Definition om_type_count : Z := 5632.
Definition om_id_table : Z := 5640.
Definition om_next_object_id : Z := 5672.
Definition om_table_lock : Z := 5676.
Definition sizeof_object_manager : Z := 5680.

Definition ob_type_id : Z := 0.
Definition ob_refcount : Z := 4.
Definition ob_handle_count : Z := 8.
Definition ob_generation : Z := 12.
Definition ob_object_id : Z := 16.
Definition ob_lock : Z := 24.
Definition ob_destroyed : Z := 28.
Definition sizeof_object_header : Z := 48.

(** Calls through the function pointers of a type.  The code behind a pointer
    is whatever registered it; [create_code f n] and [destroy_code f n] say that
    [f] points to such code, written for objects of [n] bytes, header included:
    the [instance_size] of its type. *)
Class Callbacks `{Platform} := {
  call_create : Z -> Z -> Z -> M Z;
  call_destroy : Z -> Z -> M unit;
  create_code : Z -> Z -> Prop;
  destroy_code : Z -> Z -> Prop
}.

Section ob.
Context `{Callbacks}.

(** ** Operations *)

Definition ob_type_for (type_id : Z) : Z := g_om + sizeof_object_type * type_id.

Definition ob_init : M unit :=
  hashtable_init (g_om + om_id_table) 4096 ;;
  store32 (g_om + om_table_lock) 0 ;;
  store32 (g_om + om_next_object_id) 1 ;;
  store32 (g_om + om_type_count) 0.

Definition store_ops (p : Z) (ops : object_type_ops_t) : M unit :=
  store64 p (op_create ops) ;;
  store64 (p + 8) (op_destroy ops) ;;
  store64 (p + 16) (op_read ops) ;;
  store64 (p + 24) (op_write ops) ;;
  store64 (p + 32) (op_wait ops) ;;
  store64 (p + 40) (op_ioop ops) ;;
  store64 (p + 48) (op_on_revoke ops).

Definition object_type_register (name instance_size : Z) (ops : object_type_ops_t) : M Z :=
  idx <- atomic_fetch_add (g_om + om_type_count) 1 ;;
  (if MAX_OBJECT_TYPES <=? idx then panic "ob" "object type table full!" [] else ret tt) ;;
  let t := g_om + sizeof_object_type * idx in
  store64 (t + ty_name) name ;;
  store64 (t + ty_instance_size) (wrap64 (sizeof_object_header + instance_size)) ;;
  store_ops (t + ty_ops) ops ;;
  size <- load64 (t + ty_instance_size) ;;
  slab <- slab_cache_create size ;;
  store64 (t + ty_slab) slab ;;
  ret t.

(** [if (type->ops.create && type->ops.create(obj, create_args) != 0)]. *)
Definition create_fails (type obj create_args : Z) : M bool :=
  f <- load64 (type + ty_ops + ops_create) ;;
  if f =? 0 then ret false
  else r <- call_create f obj create_args ;; ret (negb (r =? 0)).

Definition object_create (type create_args : Z) : M Z :=
  slab <- load64 (type + ty_slab) ;;
  mem <- slab_alloc slab ;;
  if mem =? 0 then ret 0
  else
    store32 (mem + ob_type_id) (wrap32 ((type - g_om) / sizeof_object_type)) ;;
    store32 (mem + ob_refcount) 1 ;;
    store32 (mem + ob_handle_count) 0 ;;
    store32 (mem + ob_generation) 0 ;;
    id <- atomic_fetch_add (g_om + om_next_object_id) 1 ;;
    store64 (mem + ob_object_id) id ;;
    store32 (mem + ob_lock) 0 ;;
    failed <- create_fails type mem create_args ;;
    if failed : bool then
      slab <- load64 (type + ty_slab) ;;
      slab_free slab mem ;;
      ret 0
    else
      spin_lock (g_om + om_table_lock) ;;
      id <- load64 (mem + ob_object_id) ;;
      hashtable_insert (g_om + om_id_table) id mem ;;
      spin_unlock (g_om + om_table_lock) ;;
      ret mem.

Definition object_ref (obj : Z) : M unit := atomic_fetch_add (obj + ob_refcount) 1 ;; ret tt.

(** [atomic_load(&obj->refcount) == 0 && atomic_load(&obj->handle_count) == 0
    && !obj->destroyed]. *)
Definition dead (obj : Z) : M bool :=
  refs <- atomic_load (obj + ob_refcount) ;;
  if negb (refs =? 0) then ret false
  else
    handles <- atomic_load (obj + ob_handle_count) ;;
    if negb (handles =? 0) then ret false
    else destroyed <- load8 (obj + ob_destroyed) ;; ret (destroyed =? 0).

(** The end of [object_maybe_destroy]: what a dead object goes through. *)
Definition object_destroy (obj : Z) : M unit :=
  type_id <- load32 (obj + ob_type_id) ;;
  let type := g_om + sizeof_object_type * type_id in
  f <- load64 (type + ty_ops + ops_destroy) ;;
  when (negb (f =? 0)) (call_destroy f obj) ;;
  spin_lock (g_om + om_table_lock) ;;
  id <- load64 (obj + ob_object_id) ;;
  hashtable_remove (g_om + om_id_table) id ;;
  spin_unlock (g_om + om_table_lock) ;;
  slab <- load64 (type + ty_slab) ;;
  slab_free slab obj.

Definition object_maybe_destroy (obj : Z) : M unit :=
  spin_lock (obj + ob_lock) ;;
  go <- dead obj ;;
  when go (store8 (obj + ob_destroyed) 1) ;;
  spin_unlock (obj + ob_lock) ;;
  if negb go then ret tt else object_destroy obj.

Definition object_deref (obj : Z) : M unit :=
  refs <- atomic_fetch_sub (obj + ob_refcount) 1 ;;
  if refs =? 1 then object_maybe_destroy obj else ret tt.
End ob.

(** ** Representation *)

(** A registered type, with its cache. *)
Record otype := mkType { t_create : Z; t_destroy : Z; t_rights : Z; t_cache : cache_t }.

(** An object: its address, the fields of its header, and its [destroyed]
    byte. *)
Record object := mkObj {
  o_addr : Z; o_type : Z; o_refs : Z; o_handles : Z; o_gen : Z; o_id : Z; o_dead : Z
}.

Section ob_rep.
Context `{Callbacks}.

Record type_mem (m : memory) (i : Z) (ty : otype) : Prop := {
  tym_create : get64 m (ob_type_for i + 16) = t_create ty;
  tym_destroy : get64 m (ob_type_for i + 24) = t_destroy ty;
  tym_slab : get64 m (ob_type_for i + 72) = c_addr (t_cache ty);
  tym_rights : get32 m (ob_type_for i + 80) = t_rights ty
}.

(** No callback, or one for objects of at most [sz] bytes. *)
Definition callback_for (code : Z -> Z -> Prop) (sz f : Z) : Prop :=
  f = 0 \/ exists n, sizeof_object_header <= n <= sz /\ code f n.

(** The callbacks of a type are code for objects that fit its cache, and its
    objects have room for a header. *)
Record type_ok (ty : otype) : Prop := {
  tyo_create : callback_for create_code (c_size (t_cache ty)) (t_create ty);
  tyo_destroy : callback_for destroy_code (c_size (t_cache ty)) (t_destroy ty);
  tyo_size : sizeof_object_header <= c_size (t_cache ty) <= 4080
}.

Record obj_mem (m : memory) (o : object) : Prop := {
  obm_type : get32 m (o_addr o) = o_type o;
  obm_refs : get32 m (o_addr o + 4) = o_refs o;
  obm_handles : get32 m (o_addr o + 8) = o_handles o;
  obm_gen : get32 m (o_addr o + 12) = o_gen o;
  obm_id : get64 m (o_addr o + 16) = o_id o;
  obm_lock : get32 m (o_addr o + 24) = 0;
  obm_dead : get8 m (o_addr o + 28) = o_dead o
}.

(** The size of the objects of type [i]. *)
Definition type_size (tys : list otype) (i : Z) : Z :=
  match tys !! Z.to_nat i with Some ty => c_size (t_cache ty) | None => 0 end.

Definition obj_range (tys : list otype) (o : object) : Z * Z := (o_addr o, type_size tys (o_type o)).

(** The object manager's memory outside its table. *)
Definition om_area : list (Z * Z) := [(g_om, 5632); (g_om + 5632, 4); (g_om + 5672, 4); (g_om + 5676, 4)].

(** Its fields. *)
Record om_mem (m : memory) (tys : list otype) (next : Z) : Prop := {
  omm_types : forall i ty, tys !! i = Some ty -> type_mem m (Z.of_nat i) ty;
  omm_count : get32 m (g_om + 5632) = Z.of_nat (length tys);
  omm_next : get32 m (g_om + 5672) = next;
  omm_lock : get32 m (g_om + 5676) = 0
}.

Definition entry_of (o : object) : Z * Z := (o_id o, o_addr o).

(** The object manager with the types [tys] and the objects [objs], the latest
    first, [next] being the number of the next object. *)
Record om_rep (s : kstate) (tys : list otype) (objs : list object) (next : Z)
    (cs : list cache_t) (live : list (Z * Z)) : Prop := {
  om_table : exists al, map pair_of al = map entry_of objs /\
    table_rep s (g_om + om_id_table) al (map t_cache tys ++ cs) (om_area ++ map (obj_range tys) objs ++ live);
  om_fields : om_mem (k_mem s) tys next;
  om_max : Z.of_nat (length tys) <= MAX_OBJECT_TYPES;
  om_types : Forall type_ok tys;
  om_objs : Forall (obj_mem (k_mem s)) objs;
  om_typed : Forall (fun o => 0 <= o_type o < Z.of_nat (length tys)) objs;
  om_ids : NoDup (map o_id objs);
  om_fresh : Forall (fun o => 0 <= o_id o < next) objs
}.

(** A callback for objects of [sz] bytes writes the payload of its object, the
    devices and the static of its own file. *)
Definition in_payload_only (obj sz : Z) (s s' : kstate) : Prop :=
  exists m t b, s' = set_test (set_io (set_mem s m) t) b /\
    mods [(obj + sizeof_object_header, sz - sizeof_object_header)] (k_mem s) m.
End ob_rep.

(** What the object manager relies on. *)
Class CallbacksOk `{Callbacks} := {
  create_ok : forall f n obj args s, create_code f n -> sizeof_object_header <= n -> valid obj n = true ->
    safe (call_create f obj args) s (fun _ s' => in_payload_only obj n s s');
  destroy_ok : forall f n obj s, destroy_code f n -> sizeof_object_header <= n -> valid obj n = true ->
    safe (call_destroy f obj) s (fun _ s' => in_payload_only obj n s s')
}.

Ltac unfold_ob :=
  unfold ty_name, ty_instance_size, ty_ops, ty_slab, ty_default_rights, sizeof_object_type, ops_create, ops_destroy,
    MAX_OBJECT_TYPES, om_type_count, om_id_table, om_next_object_id, om_table_lock, sizeof_object_manager,
    ob_type_id, ob_refcount, ob_handle_count, ob_generation, ob_object_id, ob_lock, ob_destroyed,
    sizeof_object_header in *.

Section ob_lemmas.
Context `{Callbacks, !Console}.

(** ** The fields under steps *)

Lemma same_bytes_word n s s' x :
  getw n (k_mem s') x = getw n (k_mem s) x -> same_bytes [(x, Z.of_nat n)] s s'.
Proof.
  intros He. constructor; [|constructor]. intros b Hb. simpl in Hb.
  replace b with (x + (b - x)) by lia. by rewrite !(get8_getw n), He by lia.
Qed.

Lemma obj_mem_same s s' o sz rs :
  same_bytes rs s s' -> (o_addr o, sz) ∈ rs -> 48 <= sz -> obj_mem (k_mem s) o -> obj_mem (k_mem s') o.
Proof.
  intros Hs Hin Hsz [].
  assert (Hg : forall n k, 0 <= k -> k + Z.of_nat n <= 48 ->
            getw n (k_mem s') (o_addr o + k) = getw n (k_mem s) (o_addr o + k)).
  { intros n k Hlo Hhi. apply (same_bytes_getw _ _ _ _ _ n _ Hs Hin); lia. }
  split; [|by rewrite Hg by lia..|].
  - specialize (Hg 4%nat 0). rewrite Z.add_0_r in Hg. by rewrite Hg by lia.
  - rewrite <- getw_1. rewrite Hg by lia. by rewrite getw_1.
Qed.

Lemma type_mem_same s s' i ty :
  same_bytes [(g_om, 5632)] s s' -> 0 <= i < 64 -> type_mem (k_mem s) i ty -> type_mem (k_mem s') i ty.
Proof.
  intros Hs Hi []. assert (Hin : (g_om, 5632) ∈ [(g_om, 5632)]) by by left.
  assert (Hg : forall n k, 0 <= k -> k + Z.of_nat n <= 88 ->
            getw n (k_mem s') (ob_type_for i + k) = getw n (k_mem s) (ob_type_for i + k)).
  { intros n k Hlo Hhi. apply (same_bytes_getw _ _ _ _ _ n _ Hs Hin); unfold ob_type_for; unfold_ob; lia. }
  split; by rewrite Hg by lia.
Qed.

Lemma om_mem_same s s' tys next :
  same_bytes om_area s s' -> Z.of_nat (length tys) <= 64 -> om_mem (k_mem s) tys next -> om_mem (k_mem s') tys next.
Proof.
  intros Hs Hl [Ht Hc Hn Hk]. pose proof Hs as Hs'. apply Forall_cons in Hs' as [Hs1 _].
  assert (Hg : forall x, (x, 4) ∈ om_area -> get32 (k_mem s') x = get32 (k_mem s) x).
  { intros x Hx. apply (same_bytes_getw _ _ _ _ _ 4 _ Hs Hx); simpl; lia. }
  split; [|by rewrite Hg by (unfold om_area; rewrite !elem_of_cons; auto)..].
  intros i ty Hi. apply (type_mem_same s); [by constructor| |by apply Ht].
  apply lookup_lt_Some in Hi. lia.
Qed.

(** ** The object manager under steps *)

Lemma type_size_bounds tys i :
  Forall type_ok tys -> 0 <= i < Z.of_nat (length tys) -> 48 <= type_size tys i <= 4080.
Proof.
  intros Ht Hi. unfold type_size. destruct (lookup_lt_is_Some_2 tys (Z.to_nat i)) as [ty Hty]; [lia|].
  rewrite Hty. apply (Forall_lookup_1 _ _ _ _ Ht) in Hty. by destruct Hty.
Qed.

Lemma objs_same s s' tys objs :
  Forall type_ok tys -> Forall (fun o => 0 <= o_type o < Z.of_nat (length tys)) objs ->
  same_bytes (map (obj_range tys) objs) s s' -> Forall (obj_mem (k_mem s)) objs -> Forall (obj_mem (k_mem s')) objs.
Proof.
  intros Ht Hi Hs Ho. apply Forall_forall. intros o Hin.
  eapply (obj_mem_same s); [exact Hs|apply list_elem_of_fmap; by exists o| |by apply (proj1 (Forall_forall _ _) Ho)].
  apply (type_size_bounds _ _ Ht). by apply (proj1 (Forall_forall _ _) Hi).
Qed.

Lemma om_rep_same s s' tys objs next cs live :
  k_mem s' = k_mem s -> k_pmm s' = k_pmm s -> om_rep s tys objs next cs live -> om_rep s' tys objs next cs live.
Proof.
  intros Hm Hp [(al & Hal & Ht) Hf Hx Hty Ho Hi Hid Hfr]. split; rewrite ?Hm; try done.
  exists al. split; [done|by eapply table_rep_same].
Qed.

Lemma om_rep_perm s tys objs next cs cs' live live' :
  cs ≡ₚ cs' -> live ≡ₚ live' -> om_rep s tys objs next cs live -> om_rep s tys objs next cs' live'.
Proof.
  intros Hc Hl [(al & Hal & Ht) Hf Hx Hty Ho Hi Hid Hfr]. split; try done.
  exists al. split; [done|]. eapply table_rep_perm; [..|exact Ht]; [by rewrite Hc|by rewrite Hl].
Qed.

(** The memory of an object, in front of everything else. *)
Lemma om_front tys pre o post live :
  om_area ++ map (obj_range tys) (pre ++ o :: post) ++ live ≡ₚ
  obj_range tys o :: om_area ++ map (obj_range tys) (pre ++ post) ++ live.
Proof.
  rewrite !map_app, map_cons, <- !app_assoc. cbn [app].
  rewrite (app_assoc om_area (map (obj_range tys) pre) (_ :: _)).
  rewrite (app_assoc om_area (map (obj_range tys) pre) (map _ post ++ _)).
  symmetry. apply Permutation_middle.
Qed.

Lemma om_owned s tys objs next cs live o :
  om_rep s tys objs next cs live -> o ∈ objs -> owned s (o_addr o) (type_size tys (o_type o)).
Proof.
  intros Hr Ho. destruct (om_table _ _ _ _ _ _ Hr) as (al & _ & Ht).
  apply (table_rep_owned _ _ _ _ _ (obj_range tys o) Ht). rewrite !elem_of_app. right. left.
  apply list_elem_of_fmap. by exists o.
Qed.

Lemma om_size s tys objs next cs live o :
  om_rep s tys objs next cs live -> o ∈ objs -> 48 <= type_size tys (o_type o) <= 4080.
Proof.
  intros Hr Ho. apply (type_size_bounds _ _ (om_types _ _ _ _ _ _ Hr)).
  by apply (proj1 (Forall_forall _ _) (om_typed _ _ _ _ _ _ Hr)).
Qed.

(** Writing inside an object that keeps its number, type and place. *)
Lemma om_write_obj s tys pre o post next cs live m o' :
  om_rep s tys (pre ++ o :: post) next cs live ->
  mods [obj_range tys o] (k_mem s) m -> obj_mem m o' ->
  o_addr o' = o_addr o -> o_type o' = o_type o -> o_id o' = o_id o ->
  om_rep (set_mem s m) tys (pre ++ o' :: post) next cs live /\ same_bytes live s (set_mem s m).
Proof.
  intros [(al & Hal & Ht) Hf Hx Hty Ho Hi Hid Hfr] Hm Ho' Ha Hotype Hoid.
  assert (Hrange : obj_range tys o' = obj_range tys o) by (unfold obj_range; congruence).
  eapply table_rep_perm in Ht; [|reflexivity|apply om_front].
  destruct (table_rep_writes _ _ _ _ [obj_range tys o] _ [obj_range tys o] m Ht) as [Ht' Hs]; [|done|].
  { constructor; [|constructor]. exists (obj_range tys o).1, (obj_range tys o).2. split; [by left|lia]. }
  rewrite !same_bytes_app in Hs. destruct Hs as (Hs1 & Hs2 & Hs3). split; [|done].
  apply Forall_app in Ho as [Ho1 Ho2]. apply Forall_cons in Ho2 as [Ho2 Ho3].
  apply Forall_app in Hi as [Hi1 Hi2]. apply Forall_cons in Hi2 as [Hi2 Hi3].
  rewrite map_app, same_bytes_app in Hs2. destruct Hs2 as [Hsp Hsq]. split.
  - exists al. split.
    + rewrite Hal, !map_app. simpl. unfold entry_of at 2 5. by rewrite Ha, Hoid.
    + eapply table_rep_perm; [reflexivity| |exact Ht']. rewrite om_front, Hrange. done.
  - by eapply (om_mem_same s).
  - done.
  - done.
  - apply Forall_app. split; [by eapply (objs_same s)|]. apply Forall_cons. split; [done|by eapply (objs_same s)].
  - apply Forall_app. split; [done|]. apply Forall_cons. by rewrite Hotype.
  - rewrite map_app in *. simpl in *. by rewrite Hoid.
  - rewrite Forall_app, Forall_cons in *. by rewrite Hoid.
Qed.

(** A field of a header is written. *)
Lemma obj_valid s tys objs next cs live o k n :
  om_rep s tys objs next cs live -> o ∈ objs -> 0 <= k -> k + n <= 48 -> valid (o_addr o + k) n = true.
Proof.
  intros Hr Ho Hk Hn. pose proof (om_size _ _ _ _ _ _ _ Hr Ho) as Hs.
  pose proof (ow_valid _ _ _ (om_owned _ _ _ _ _ _ _ Hr Ho)) as Hv. solve_valid.
Qed.

(** ** The critical section around the table *)

Lemma table_rep_lock s ht al cs l live v :
  table_rep s ht al cs ((l, 4) :: live) ->
  let s' := set_mem s (put32 (k_mem s) l v) in
  table_rep s' ht al cs ((l, 4) :: live) /\ same_bytes live s s'.
Proof.
  intros Ht s'. apply (table_rep_writes _ _ _ _ [(l, 4)] live [(l, 4)] _ Ht); [|apply (mods_putw 4)].
  constructor; [|constructor]. exists l, 4. split; [by left|simpl; lia].
Qed.

Lemma wp_critical {B} (P : list node -> Prop) s ht al cs l rest x n p (c : Z -> M unit) (k : M B) Q E :
  table_rep s ht al cs ((l, 4) :: rest) -> get32 (k_mem s) l = 0 ->
  (x, n) ∈ rest -> x <= p -> p + 8 <= x + n ->
  (forall s1 (R : unit -> kstate -> Prop), table_rep s1 ht al cs ((l, 4) :: rest) -> heap_only s s1 ->
     (forall al' s2, P al' -> table_rep s2 ht al' cs ((l, 4) :: rest) -> same_bytes ((l, 4) :: rest) s1 s2 ->
        heap_only s1 s2 -> R tt s2) -> wp (c (get64 (k_mem s) p)) s1 R E) ->
  (forall al' s', P al' -> table_rep s' ht al' cs ((l, 4) :: rest) -> same_bytes ((l, 4) :: rest) s s' ->
     heap_only s s' -> wp k s' Q E) ->
  wp (spin_lock l ;; id <- load64 p ;; c id ;; spin_unlock l ;; k) s Q E.
Proof.
  intros Ht Hl0 Hin Hp1 Hp2 Hc Hk.
  assert (Hvl : valid l 4 = true).
  { apply (ow_valid _ _ _ (table_rep_owned _ _ _ _ _ (l, 4) Ht ltac:(by left))). }
  assert (Hvp : valid p 8 = true).
  { pose proof (ow_valid _ _ _ (table_rep_owned _ _ _ _ _ (x, n) Ht ltac:(by right))) as Hv. simpl in Hv. solve_valid. }
  apply wp_bind, wp_spin_lock; [done|done|]. destruct (table_rep_lock _ _ _ _ _ _ 1 Ht) as [Ht1 Hs1].
  set (s1 := set_mem s _) in *. apply wp_bind, wp_load; [done|].
  rewrite (same_bytes_getw _ s s1 x n 8 p Hs1 Hin) by (simpl; lia).
  apply wp_bind, Hc; [done|apply heap_only_set_mem|]. intros al' s2 HP Ht2 Hs2 Ho2.
  apply wp_bind, wp_spin_unlock; [done|]. destruct (table_rep_lock _ _ _ _ _ _ 0 Ht2) as [Ht3 Hs3].
  set (s3 := set_mem s2 _) in *. apply (Hk al'); [done|done| |].
  - apply Forall_cons. split.
    + apply (Forall_inv (same_bytes_word 4 s s3 l ltac:(rewrite Hl0; apply (getw_putw 4); simpl; lia))).
    + apply Forall_cons in Hs2 as [_ Hs2]. change (same_bytes rest s s3).
      eapply same_bytes_trans; [exact Hs1|]. by eapply same_bytes_trans.
  - eapply heap_only_trans; [apply heap_only_set_mem|]. eapply heap_only_trans; [exact Ho2|apply heap_only_set_mem].
Qed.

(** ** Reference counts *)

Definition set_refs (v : Z) (o : object) : object :=
  mkObj (o_addr o) (o_type o) v (o_handles o) (o_gen o) (o_id o) (o_dead o).
Definition set_handles (v : Z) (o : object) : object :=
  mkObj (o_addr o) (o_type o) (o_refs o) v (o_gen o) (o_id o) (o_dead o).
Definition set_dead (v : Z) (o : object) : object :=
  mkObj (o_addr o) (o_type o) (o_refs o) (o_handles o) (o_gen o) (o_id o) v.

Lemma obj_mem_set_refs m o v : u32 v -> obj_mem m o -> obj_mem (put32 m (o_addr o + 4) v) (set_refs v o).
Proof.
  intros Hv []. split; simpl; rewrite ?(getw_putw_ne 4) by (simpl; lia); try done; [by apply (getw_putw 4)|].
  rewrite get8_putw, decide_False by lia. done.
Qed.

Lemma obj_mem_set_handles m o v : u32 v -> obj_mem m o -> obj_mem (put32 m (o_addr o + 8) v) (set_handles v o).
Proof.
  intros Hv []. split; simpl; rewrite ?(getw_putw_ne 4) by (simpl; lia); try done; [by apply (getw_putw 4)|].
  rewrite get8_putw, decide_False by lia. done.
Qed.

Lemma om_obj_mem s tys objs next cs live o :
  om_rep s tys objs next cs live -> o ∈ objs -> obj_mem (k_mem s) o.
Proof. intros Hr Ho. by apply (proj1 (Forall_forall _ _) (om_objs _ _ _ _ _ _ Hr)). Qed.

(** A counter of an object changes. *)
Lemma om_set_refs s tys pre o post next cs live v :
  om_rep s tys (pre ++ o :: post) next cs live -> u32 v ->
  let s' := set_mem s (put32 (k_mem s) (o_addr o + 4) v) in
  om_rep s' tys (pre ++ set_refs v o :: post) next cs live /\ same_bytes live s s'.
Proof.
  intros Hr Hv s'. assert (Ho : o ∈ pre ++ o :: post) by (apply elem_of_app; right; by left).
  pose proof (om_size _ _ _ _ _ _ _ Hr Ho) as Hsz.
  eapply om_write_obj; [exact Hr| |by apply obj_mem_set_refs, (om_obj_mem _ _ _ _ _ _ _ Hr)|done..].
  eapply mods_put_in; [by left|lia|simpl; lia].
Qed.

Lemma om_set_handles s tys pre o post next cs live v :
  om_rep s tys (pre ++ o :: post) next cs live -> u32 v ->
  let s' := set_mem s (put32 (k_mem s) (o_addr o + 8) v) in
  om_rep s' tys (pre ++ set_handles v o :: post) next cs live /\ same_bytes live s s'.
Proof.
  intros Hr Hv s'. assert (Ho : o ∈ pre ++ o :: post) by (apply elem_of_app; right; by left).
  pose proof (om_size _ _ _ _ _ _ _ Hr Ho) as Hsz.
  eapply om_write_obj; [exact Hr| |by apply obj_mem_set_handles, (om_obj_mem _ _ _ _ _ _ _ Hr)|done..].
  eapply mods_put_in; [by left|lia|simpl; lia].
Qed.

Lemma wp_object_ref s tys pre o post next cs live (Q : unit -> kstate -> Prop) E :
  om_rep s tys (pre ++ o :: post) next cs live ->
  (forall s', om_rep s' tys (pre ++ set_refs (wrap32 (o_refs o + 1)) o :: post) next cs live ->
     same_bytes live s s' -> heap_only s s' -> Q tt s') ->
  wp (object_ref (o_addr o)) s Q E.
Proof.
  intros Hr HQ. assert (Ho : o ∈ pre ++ o :: post) by (apply elem_of_app; right; by left).
  unfold object_ref. unfold_ob. apply wp_bind, wp_fetch_add; [by apply (obj_valid _ _ _ _ _ _ _ _ _ Hr Ho)|].
  rewrite (obm_refs _ _ (om_obj_mem _ _ _ _ _ _ _ Hr Ho)). apply wp_ret.
  destruct (om_set_refs _ _ _ _ _ _ _ _ _ Hr (wrap32_range (o_refs o + 1))) as [Hr' Hs].
  apply HQ; [done|done|apply heap_only_set_mem].
Qed.

(** ** Destruction *)

(** Both counts are zero and it is not being destroyed yet. *)
Definition deadb (o : object) : bool := (o_refs o =? 0) && (o_handles o =? 0) && (o_dead o =? 0).

(** The test for death, under the object's lock. *)
Lemma obj_mem_locked m o v :
  obj_mem m o -> let m' := put32 m (o_addr o + 24) v in
  get32 m' (o_addr o + 4) = o_refs o /\ get32 m' (o_addr o + 8) = o_handles o /\
  get8 m' (o_addr o + 28) = o_dead o.
Proof.
  intros [] m'. unfold m'. rewrite !(getw_putw_ne 4 4) by lia. rewrite get8_putw, decide_False by lia. done.
Qed.

Lemma obj_mem_relocked m o v :
  obj_mem m o -> obj_mem (put32 (put32 m (o_addr o + 24) v) (o_addr o + 24) 0) o.
Proof.
  intros []. split; rewrite ?(getw_putw_ne 4) by (simpl; lia); try done; [by apply (getw_putw 4)|].
  rewrite !get8_putw, !decide_False by lia. done.
Qed.

Lemma obj_mem_dying m o v :
  obj_mem m o ->
  obj_mem (put32 (putw 1 (put32 m (o_addr o + 24) v) (o_addr o + 28) 1) (o_addr o + 24) 0) (set_dead 1 o).
Proof.
  intros []. split; simpl; rewrite ?(getw_putw_ne 4), ?(getw_putw_ne 1), ?(getw_putw_ne 4) by (simpl; lia); try done.
  - by apply (getw_putw 4).
  - rewrite get8_putw, decide_False by lia. rewrite get8_putw, decide_True by lia.
    replace (o_addr o + 28 - (o_addr o + 28)) with 0 by lia. done.
Qed.

Lemma wp_check_dead s tys pre o post next cs live (k : bool -> M unit) Q E :
  om_rep s tys (pre ++ o :: post) next cs live ->
  (deadb o = false -> forall s', om_rep s' tys (pre ++ o :: post) next cs live -> same_bytes live s s' ->
     heap_only s s' -> wp (k false) s' Q E) ->
  (deadb o = true -> forall s', om_rep s' tys (pre ++ set_dead 1 o :: post) next cs live -> same_bytes live s s' ->
     heap_only s s' -> wp (k true) s' Q E) ->
  wp (spin_lock (o_addr o + ob_lock) ;;
      go <- dead (o_addr o) ;;
      when go (store8 (o_addr o + ob_destroyed) 1) ;;
      spin_unlock (o_addr o + ob_lock) ;;
      k go) s Q E.
Proof.
  intros Hr Hf Ht. assert (Ho : o ∈ pre ++ o :: post) by (apply elem_of_app; right; by left).
  pose proof (om_obj_mem _ _ _ _ _ _ _ Hr Ho) as Hm.
  pose proof (fun k n => obj_valid _ _ _ _ _ _ _ k n Hr Ho) as Hv.
  pose proof (om_size _ _ _ _ _ _ _ Hr Ho) as Hsz. unfold_ob.
  apply wp_bind, wp_spin_lock; [by apply Hv|by apply (obm_lock _ _ Hm)|].
  destruct (obj_mem_locked _ _ 1 Hm) as (Hrefs & Hhandles & Hdead).
  set (s1 := set_mem s _).
  assert (Hgo : dead (o_addr o) s1 = Ok (deadb o) s1).
  { apply safe_eq. unfold dead, deadb, atomic_load. unfold_ob.
    wp_step. apply wp_load; [by apply Hv|]. simpl. rewrite Hrefs. destruct (o_refs o =? 0); [|by apply wp_ret].
    simpl. wp_step. apply wp_load; [by apply Hv|]. simpl. rewrite Hhandles.
    destruct (o_handles o =? 0); [|by apply wp_ret]. simpl. wp_step. apply wp_load; [by apply Hv|].
    rewrite getw_1. simpl. rewrite Hdead. by apply wp_ret. }
  apply wp_bind. eapply wp_run; [exact Hgo|]. destruct (deadb o) eqn:Hd; simpl.
  - wp_step. apply wp_store; [by apply Hv|]. apply wp_bind, wp_spin_unlock; [by apply Hv|].
    unfold s1. simpl. rewrite !set_mem_mem. set (m := put32 (putw 1 _ _ _) _ _).
    destruct (om_write_obj s tys pre o post next cs live m (set_dead 1 o) Hr) as [Hr' Hs']; [| |done..|].
    + intros b [Hb _]%outside_cons. simpl in Hb. unfold m. by rewrite !get8_putw, !decide_False by lia.
    + by apply obj_mem_dying.
    + apply Ht; [done|done|done|apply heap_only_set_mem].
  - wp_step. apply wp_ret, wp_bind, wp_spin_unlock; [by apply Hv|].
    unfold s1. simpl. rewrite !set_mem_mem. set (m := put32 _ _ _).
    destruct (om_write_obj s tys pre o post next cs live m o Hr) as [Hr' Hs']; [| |done..|].
    + intros b [Hb _]%outside_cons. simpl in Hb. unfold m. by rewrite !get8_putw, !decide_False by lia.
    + by apply obj_mem_relocked.
    + apply Hf; [done|done|done|apply heap_only_set_mem].
Qed.

(** The rest, once the object is marked. *)
Lemma remove_pair_objs pre o post :
  NoDup (map o_id (pre ++ o :: post)) ->
  remove_pair (o_id o) (map entry_of (pre ++ o :: post)) = map entry_of (pre ++ post).
Proof.
  induction pre as [|x pre IH]; simpl; intros Hnd.
  - by rewrite Z.eqb_refl.
  - apply NoDup_cons in Hnd as [Hx Hnd]. rewrite (proj2 (Z.eqb_neq _ _)); [by rewrite IH|].
    intros He. apply Hx. rewrite He, map_app. apply elem_of_app. right. by left.
Qed.

(** Types that differ only in the free objects of their caches. *)
Definition same_type (ty ty' : otype) : Prop :=
  t_create ty' = t_create ty /\ t_destroy ty' = t_destroy ty /\ t_rights ty' = t_rights ty /\
  c_addr (t_cache ty') = c_addr (t_cache ty) /\ c_size (t_cache ty') = c_size (t_cache ty).

Definition same_types : list otype -> list otype -> Prop := Forall2 same_type.

Lemma same_types_size tys tys' i : same_types tys tys' -> type_size tys' i = type_size tys i.
Proof.
  intros Hs. unfold type_size. destruct (tys !! Z.to_nat i) as [ty|] eqn:Hty.
  - destruct (Forall2_lookup_l _ _ _ _ _ Hs Hty) as (ty' & -> & Hst). apply Hst.
  - apply lookup_ge_None in Hty. rewrite (Forall2_length _ _ _ Hs) in Hty. by rewrite (lookup_ge_None_2 _ _ Hty).
Qed.

Lemma same_types_ranges tys tys' objs :
  same_types tys tys' -> map (obj_range tys') objs = map (obj_range tys) objs.
Proof. intros Hs. apply map_ext. intros o. unfold obj_range. by rewrite (same_types_size tys tys'). Qed.

Lemma same_types_ok tys tys' : same_types tys tys' -> Forall type_ok tys -> Forall type_ok tys'.
Proof.
  intros Hs. induction Hs as [|ty ty' tys tys' (E1 & E2 & _ & _ & E3) _ IH]; intros Hok; [done|].
  apply Forall_cons in Hok as [[] Hok]. apply Forall_cons. split; [|by apply IH]. split; by rewrite ?E1, ?E2, ?E3.
Qed.

Lemma same_types_mem m tys tys' next : same_types tys tys' -> om_mem m tys next -> om_mem m tys' next.
Proof.
  intros Hs [Ht Hc Hn Hk]. split; [|by rewrite <- (Forall2_length _ _ _ Hs)|done|done].
  intros i ty' Hi. destruct (Forall2_lookup_r _ _ _ _ _ Hs Hi) as (ty & Hty & E1 & E2 & E3 & E4 & _).
  destruct (Ht i ty Hty). split; by rewrite ?E1, ?E2, ?E3, ?E4.
Qed.

Definition set_free (l : list Z) (ty : otype) : otype :=
  mkType (t_create ty) (t_destroy ty) (t_rights ty) (mkCache (c_addr (t_cache ty)) (c_size (t_cache ty)) l).

Lemma same_types_insert tys i ty l :
  tys !! i = Some ty -> same_types tys (<[i := set_free l ty]> tys).
Proof.
  intros Hi. rewrite <- (list_insert_id tys i ty) at 1 by done.
  apply Forall2_insert; [|by split_and!]. induction tys as [|x tys IH] in i |- *; constructor; [by split_and!|].
  apply (IH 0%nat).
Qed.

Lemma caches_front tys i ty cs :
  tys !! i = Some ty -> map t_cache tys ++ cs ≡ₚ t_cache ty :: map t_cache (delete i tys) ++ cs.
Proof. intros Hi. rewrite (delete_Permutation tys i ty Hi) at 1. done. Qed.

Lemma caches_insert tys i ty l cs :
  tys !! i = Some ty ->
  mkCache (c_addr (t_cache ty)) (c_size (t_cache ty)) l :: map t_cache (delete i tys) ++ cs ≡ₚ
  map t_cache (<[i := set_free l ty]> tys) ++ cs.
Proof. intros Hi. rewrite (insert_Permutation tys i ty _ Hi). done. Qed.

(** What the kernel's own files do, and what the callbacks they call do: the
    other statics stay. *)
Definition calls_only (s s' : kstate) : Prop :=
  exists m p t b, s' = set_test (set_io (set_pmm (set_mem s m) p) t) b.

Lemma calls_heap s s' : heap_only s s' -> calls_only s s'.
Proof. intros (m & p & ->). exists m, p, (k_io s), (g_test_destroyed s). by destruct s. Qed.

Lemma calls_payload a n s s' : in_payload_only a n s s' -> calls_only s s'.
Proof. intros (m & t & b & -> & _). exists m, (k_pmm s), t, b. by destruct s. Qed.

Lemma calls_only_trans s1 s2 s3 : calls_only s1 s2 -> calls_only s2 s3 -> calls_only s1 s3.
Proof. intros (m & p & t & b & ->) (m' & p' & t' & b' & ->). by exists m', p', t', b'. Qed.

Lemma calls_only_refl s : calls_only s s.
Proof. apply calls_heap, heap_only_refl. Qed.

Lemma obj_mem_payload m m' o sz :
  mods [(o_addr o + 48, sz)] m m' -> obj_mem m o -> obj_mem m' o.
Proof.
  intros Hm [].
  assert (Hg : forall n k, 0 <= k -> k + Z.of_nat n <= 48 -> getw n m' (o_addr o + k) = getw n m (o_addr o + k)).
  { intros n k Hlo Hhi. eapply mods_getw; [exact Hm|]. solve_aparts. }
  split; [|by rewrite Hg by lia..|].
  - specialize (Hg 4%nat 0). rewrite Z.add_0_r in Hg. by rewrite Hg by lia.
  - rewrite <- getw_1. rewrite Hg by lia. by rewrite getw_1.
Qed.

(** A callback runs on an object. *)
Lemma om_callback s s' tys pre o post next cs live :
  om_rep s tys (pre ++ o :: post) next cs live ->
  in_payload_only (o_addr o) (type_size tys (o_type o)) s s' ->
  om_rep s' tys (pre ++ o :: post) next cs live /\ same_bytes live s s'.
Proof.
  intros Hr (m & t & b & -> & Hm). assert (Ho : o ∈ pre ++ o :: post) by (apply elem_of_app; right; by left).
  pose proof (om_size _ _ _ _ _ _ _ Hr Ho) as Hsz. unfold_ob.
  pose proof (obj_mem_payload _ _ _ _ Hm (om_obj_mem _ _ _ _ _ _ _ Hr Ho)) as Hmem.
  destruct (om_write_obj s tys pre o post next cs live m o Hr) as [Hr' Hs]; [|done..|].
  { intros x [Hx _]%outside_cons. simpl in Hx. apply Hm, outside_cons. split; [lia|constructor]. }
  split; [by apply (om_rep_same (set_mem s m))|exact Hs].
Qed.

Lemma om_type_mem s tys objs next cs live i ty :
  om_rep s tys objs next cs live -> tys !! Z.to_nat i = Some ty -> 0 <= i -> type_mem (k_mem s) i ty.
Proof.
  intros Hr Hty Hi. pose proof (omm_types _ _ _ (om_fields _ _ _ _ _ _ Hr) _ _ Hty) as Ht.
  by rewrite Z2Nat.id in Ht.
Qed.

Lemma om_area_valid s tys objs next cs live r :
  om_rep s tys objs next cs live -> r ∈ om_area -> valid r.1 r.2 = true.
Proof.
  intros Hr Hin. destruct (om_table _ _ _ _ _ _ Hr) as (al & _ & Ht).
  apply (ow_valid _ _ _ (table_rep_owned _ _ _ _ _ r Ht ltac:(apply elem_of_app; by left))).
Qed.

Lemma type_valid s tys objs next cs live i ty k n :
  om_rep s tys objs next cs live -> tys !! Z.to_nat i = Some ty -> 0 <= i -> 0 <= k -> k + n <= 88 ->
  valid (ob_type_for i + k) n = true.
Proof.
  intros Hr Hty Hi Hk Hn. pose proof (om_max _ _ _ _ _ _ Hr) as Hmax. apply lookup_lt_Some in Hty.
  pose proof (om_area_valid _ _ _ _ _ _ (g_om, 5632) Hr ltac:(by left)) as Hv. simpl in Hv.
  unfold ob_type_for. unfold_ob. solve_valid.
Qed.

(** The type [i] with the object [x] back in its cache. *)
Definition give_back (i x : Z) (tys : list otype) : list otype :=
  match tys !! Z.to_nat i with
  | Some ty => <[Z.to_nat i := set_free (x :: c_free (t_cache ty)) ty]> tys
  | None => tys
  end.

Definition om_rest : list (Z * Z) := [(g_om, 5632); (g_om + 5632, 4); (g_om + 5672, 4)].

Lemma om_lock_front X : om_area ++ X ≡ₚ (g_om + 5676, 4) :: om_rest ++ X.
Proof. symmetry. apply (Permutation_middle om_rest). Qed.

Lemma om_lock_front' r X : r :: om_area ++ X ≡ₚ (g_om + 5676, 4) :: r :: om_rest ++ X.
Proof. rewrite om_lock_front. apply perm_swap. Qed.

(** The object's number leaves the table. *)
Lemma wp_unregister {B} s tys pre o post next cs live (k : M B) Q E :
  om_rep s tys (pre ++ o :: post) next cs live ->
  (forall s' al, map pair_of al = map entry_of (pre ++ post) ->
     table_rep s' (g_om + om_id_table) al (map t_cache tys ++ cs)
       (obj_range tys o :: om_area ++ map (obj_range tys) (pre ++ post) ++ live) ->
     same_bytes (obj_range tys o :: om_area ++ map (obj_range tys) (pre ++ post) ++ live) s s' ->
     heap_only s s' -> wp k s' Q E) ->
  wp (spin_lock (g_om + om_table_lock) ;;
      id <- load64 (o_addr o + ob_object_id) ;;
      hashtable_remove (g_om + om_id_table) id ;;
      spin_unlock (g_om + om_table_lock) ;; k) s Q E.
Proof.
  intros Hr HQ. pose proof Hr as [(al & Hal & Ht) Hf Hx Hty Ho Hi Hid Hfr].
  assert (Hin : o ∈ pre ++ o :: post) by (apply elem_of_app; right; by left).
  pose proof (om_size _ _ _ _ _ _ _ Hr Hin) as Hsz.
  eapply table_rep_perm in Ht; [|reflexivity|rewrite om_front; apply om_lock_front'].
  eapply (wp_critical (fun al' => map pair_of al' = map entry_of (pre ++ post)));
    [exact Ht|apply Hf|by left|unfold_ob; simpl; lia|unfold_ob; simpl; lia| |].
  - intros s1 R Ht1 Ho1 HR. eapply wp_remove; [exact Ht1|]. intros s2 Ht2 Hs2 Ho2 _.
    eapply HR; [|exact Ht2|exact Hs2|exact Ho2].
    unfold_ob. rewrite (obm_id _ _ (om_obj_mem _ _ _ _ _ _ _ Hr Hin)).
    by rewrite remove_pair_of, Hal, remove_pair_objs.
  - intros al' s' Hal' Ht' Hs' Ho'. apply (HQ s' al'); [done| | |done].
    + eapply table_rep_perm; [reflexivity| |exact Ht']. symmetry. apply om_lock_front'.
    + unfold same_bytes in *. rewrite !Forall_cons, !Forall_app in *. unfold om_area, om_rest in *.
      rewrite !Forall_cons in *. tauto.
Qed.

(** Its memory goes back to the cache of its type. *)
Lemma om_after_free s s' tys pre o post next cs live al ty l :
  om_rep s tys (pre ++ o :: post) next cs live -> tys !! Z.to_nat (o_type o) = Some ty ->
  map pair_of al = map entry_of (pre ++ post) ->
  table_rep s' (g_om + om_id_table) al (map t_cache (<[Z.to_nat (o_type o) := set_free l ty]> tys) ++ cs)
    (om_area ++ map (obj_range tys) (pre ++ post) ++ live) ->
  same_bytes (om_area ++ map (obj_range tys) (pre ++ post)) s s' ->
  om_rep s' (<[Z.to_nat (o_type o) := set_free l ty]> tys) (pre ++ post) next cs live.
Proof.
  intros [_ Hf Hx Hty Ho Hi Hid Hfr] Hi0 Hal Ht Hs. rewrite same_bytes_app in Hs. destruct Hs as [Hs1 Hs2].
  pose proof (same_types_insert tys _ _ l Hi0) as Hst.
  assert (Hsub : Permutation (pre ++ o :: post) (o :: pre ++ post)) by (symmetry; apply Permutation_middle).
  rewrite Hsub in Ho, Hi, Hid, Hfr. apply Forall_cons in Ho as [_ Ho]. apply Forall_cons in Hi as [_ Hi].
  apply Forall_cons in Hfr as [_ Hfr]. simpl in Hid. apply NoDup_cons in Hid as [_ Hid].
  pose proof (Forall2_length _ _ _ Hst) as Hlen. split.
  - exists al. split; [done|]. by rewrite (same_types_ranges _ _ _ Hst).
  - apply (same_types_mem _ _ _ _ Hst). by eapply (om_mem_same s).
  - by rewrite <- Hlen.
  - by eapply same_types_ok.
  - by eapply (objs_same s).
  - by rewrite <- Hlen.
  - done.
  - done.
Qed.

(** Nothing was printed and no callback's static changed. *)
Definition quiet (s s' : kstate) : Prop := k_io s' = k_io s /\ g_test_destroyed s' = g_test_destroyed s.

(** The [destroy] callback [f], if any, ran once on [obj], and nothing else was
    seen from outside. *)
Definition notified (s : kstate) (f obj : Z) (s' : kstate) : Prop :=
  if f =? 0 then quiet s s'
  else exists sa sb, quiet s sa /\ call_destroy f obj sa = Ok tt sb /\ quiet sb s'.

(** The [create] callback [f], if any, was asked once about [obj] and answered
    [r]; without one the answer is 0. *)
Definition asked (s : kstate) (f obj args r : Z) (s' : kstate) : Prop :=
  if f =? 0 then r = 0 /\ quiet s s'
  else exists sa sb, quiet s sa /\ call_create f obj args sa = Ok r sb /\ quiet sb s'.

Definition type_destroy (tys : list otype) (i : Z) : Z :=
  match tys !! Z.to_nat i with Some ty => t_destroy ty | None => 0 end.

Lemma quiet_trans s1 s2 s3 : quiet s1 s2 -> quiet s2 s3 -> quiet s1 s3.
Proof. intros [H3 H4] [H5 H6]. split; congruence. Qed.

Lemma quiet_heap s s' : heap_only s s' -> quiet s s'.
Proof. by intros (m & p & ->). Qed.

Lemma asked_quiet s0 s f obj args r s' s1 :
  quiet s0 s -> asked s f obj args r s' -> quiet s' s1 -> asked s0 f obj args r s1.
Proof.
  intros Hq0 Ha Hq1. unfold asked in *. destruct (f =? 0).
  - destruct Ha as [-> Ha]. split; [done|]. eapply quiet_trans; [exact Hq0|]. by eapply quiet_trans.
  - destruct Ha as (sa & sb & Hqa & Hc & Hqb). exists sa, sb.
    split; [by eapply quiet_trans|]. split; [exact Hc|by eapply quiet_trans].
Qed.

Lemma notified_pre s s1 f obj s' : quiet s s1 -> notified s1 f obj s' -> notified s f obj s'.
Proof.
  intros Hq. unfold notified. destruct (f =? 0); [by apply quiet_trans|].
  intros (sa & sb & Ha & Hc & Hb). exists sa, sb. split; [by eapply quiet_trans|done].
Qed.

(** What is left of an object that died: its [destroy] callback ran, it is out
    of the table, and its memory is free again, with its [destroyed] byte. *)
Definition destroyed_at (s : kstate) (tys : list otype) (pre : list object) (o : object) (post : list object)
    (next : Z) (cs : list cache_t) (live : list (Z * Z)) (s' : kstate) : Prop :=
  om_rep s' (give_back (o_type o) (o_addr o) tys) (pre ++ post) next cs live /\
  same_bytes live s s' /\ calls_only s s' /\ get8 (k_mem s') (o_addr o + 28) = o_dead o /\
  notified s (type_destroy tys (o_type o)) (o_addr o) s'.

Lemma wp_free_object s tys pre o post next cs live al ty (Q : unit -> kstate -> Prop) E s0 :
  om_rep s0 tys (pre ++ o :: post) next cs live -> tys !! Z.to_nat (o_type o) = Some ty ->
  map pair_of al = map entry_of (pre ++ post) ->
  table_rep s (g_om + om_id_table) al (map t_cache tys ++ cs)
    (obj_range tys o :: om_area ++ map (obj_range tys) (pre ++ post) ++ live) ->
  same_bytes (obj_range tys o :: om_area ++ map (obj_range tys) (pre ++ post) ++ live) s0 s ->
  calls_only s0 s ->
  (forall s', om_rep s' (give_back (o_type o) (o_addr o) tys) (pre ++ post) next cs live ->
     same_bytes live s0 s' -> calls_only s0 s' -> get8 (k_mem s') (o_addr o + 28) = o_dead o -> quiet s s' -> Q tt s') ->
  wp (slab_free (c_addr (t_cache ty)) (o_addr o)) s Q E.
Proof.
  intros Hr Hty Hal Ht Hs Ho HQ. assert (Hin : o ∈ pre ++ o :: post) by (apply elem_of_app; right; by left).
  pose proof (om_size _ _ _ _ _ _ _ Hr Hin) as Hsz.
  assert (Hsize : type_size tys (o_type o) = c_size (t_cache ty)) by (unfold type_size; by rewrite Hty).
  unfold obj_range in Ht at 1. rewrite Hsize in *.
  eapply table_rep_perm in Ht; [|by apply caches_front|reflexivity].
  destruct (t_cache ty) as [a sz l] eqn:Hc. simpl in *.
  eapply wp_table_free; [exact Ht|]. intros s' Ht' Hs' Ho' Hm' Hap.
  apply Forall_cons in Hs as [Hs0 Hs].
  assert (Hall : same_bytes (om_area ++ map (obj_range tys) (pre ++ post) ++ live) s0 s')
    by (eapply same_bytes_trans; [exact Hs|exact Hs']).
  rewrite app_assoc, same_bytes_app in Hall. destruct Hall as [Hall Hlive].
  apply HQ; [|done|eapply calls_only_trans; [exact Ho|by apply calls_heap]| |by apply quiet_heap].
  - unfold give_back. rewrite Hty. eapply om_after_free; [exact Hr|exact Hty|exact Hal| |exact Hall].
    eapply table_rep_perm; [|reflexivity|exact Ht'].
    rewrite <- (caches_insert tys _ ty (o_addr o :: c_free (t_cache ty)) cs Hty). by rewrite Hc.
  - rewrite <- (obm_dead _ _ (om_obj_mem _ _ _ _ _ _ _ Hr Hin)).
    rewrite <- (Hs0 (o_addr o + 28)) by (unfold obj_range; simpl; lia).
    eapply mods_get8; [exact Hm'|]. solve_aparts.
Qed.

Context `{!CallbacksOk}.

Lemma callback_for_more code n sz f : n <= sz -> callback_for code n f -> callback_for code sz f.
Proof. intros Hn [?|(k & Hk & Hf)]; [by left|right]. exists k. split; [lia|done]. Qed.

Lemma in_payload_more obj n sz s s' : n <= sz -> in_payload_only obj n s s' -> in_payload_only obj sz s s'.
Proof.
  intros Hn (m & t & b & -> & Hm). exists m, t, b. split; [done|]. intros x [Hx _]%outside_cons. apply Hm.
  apply outside_cons. simpl in *. split; [lia|constructor].
Qed.

(** The callbacks of a type on one of its objects. *)
Lemma create_runs f sz obj args s :
  callback_for create_code sz f -> f <> 0 -> valid obj sz = true ->
  exists r s', call_create f obj args s = Ok r s' /\ in_payload_only obj sz s s'.
Proof.
  intros [?|(n & Hn & Hf)] Hz Hv; [done|].
  destruct (proj1 (safe_run _ _ _) (create_ok f n obj args s Hf ltac:(lia) (valid_sub obj sz obj n Hv ltac:(lia) ltac:(lia))))
    as (r & s' & Hrun & Hp). exists r, s'. split; [done|]. eapply in_payload_more; [|exact Hp]. lia.
Qed.

Lemma destroy_runs f sz obj s :
  callback_for destroy_code sz f -> f <> 0 -> valid obj sz = true ->
  exists s', call_destroy f obj s = Ok tt s' /\ in_payload_only obj sz s s'.
Proof.
  intros [?|(n & Hn & Hf)] Hz Hv; [done|].
  destruct (proj1 (safe_run _ _ _) (destroy_ok f n obj s Hf ltac:(lia) (valid_sub obj sz obj n Hv ltac:(lia) ltac:(lia))))
    as ([] & s' & Hrun & Hp). exists s'. split; [done|]. eapply in_payload_more; [|exact Hp]. lia.
Qed.

Lemma wp_destroy s tys pre o post next cs live (Q : unit -> kstate -> Prop) E :
  om_rep s tys (pre ++ o :: post) next cs live ->
  (forall s', destroyed_at s tys pre o post next cs live s' -> Q tt s') ->
  wp (object_destroy (o_addr o)) s Q E.
Proof.
  intros Hr HQ. unfold object_destroy. assert (Hin : o ∈ pre ++ o :: post) by (apply elem_of_app; right; by left).
  pose proof (om_size _ _ _ _ _ _ _ Hr Hin) as Hsz.
  pose proof (proj1 (Forall_forall _ _) (om_typed _ _ _ _ _ _ Hr) o Hin) as Hi. simpl in Hi.
  destruct (lookup_lt_is_Some_2 tys (Z.to_nat (o_type o))) as [ty Hty]; [lia|].
  apply wp_bind, wp_load; [unfold_ob; by apply (obj_valid _ _ _ _ _ _ _ _ _ Hr Hin)|].
  unfold ob_type_id. rewrite Z.add_0_r, (obm_type _ _ (om_obj_mem _ _ _ _ _ _ _ Hr Hin)).
  change (g_om + sizeof_object_type * o_type o) with (ob_type_for (o_type o)).
  pose proof (fun k n => type_valid _ _ _ _ _ _ _ _ k n Hr Hty ltac:(lia)) as Hv.
  pose proof (om_type_mem _ _ _ _ _ _ _ _ Hr Hty ltac:(lia)) as [_ Hd _ _].
  apply wp_bind, wp_load; [unfold_ob; rewrite <- Z.add_assoc; by apply Hv|].
  unfold ty_ops, ops_destroy. rewrite <- Z.add_assoc. change (16 + 8) with 24. rewrite Hd.
  assert (Htd : type_destroy tys (o_type o) = t_destroy ty) by (unfold type_destroy; by rewrite Hty).
  assert (Hafter : forall s1, om_rep s1 tys (pre ++ o :: post) next cs live -> same_bytes live s s1 -> calls_only s s1 ->
    (forall s', quiet s1 s' -> notified s (t_destroy ty) (o_addr o) s') ->
    wp (spin_lock (g_om + om_table_lock) ;;
      id <- load64 (o_addr o + ob_object_id) ;;
      hashtable_remove (g_om + om_id_table) id ;;
      spin_unlock (g_om + om_table_lock) ;;
      slab <- load64 (ob_type_for (o_type o) + ty_slab) ;;
      slab_free slab (o_addr o)) s1 Q E).
  { intros s1 Hr1 Hs1 Ho1 Hn1. eapply wp_unregister; [exact Hr1|]. intros s2 al Hal Ht2 Hs2 Ho2.
    pose proof (om_type_mem _ _ _ _ _ _ _ _ Hr1 Hty ltac:(lia)) as Htm.
    apply wp_bind, wp_load; [unfold_ob; by apply Hv|].
    assert (Hslab : get64 (k_mem s2) (ob_type_for (o_type o) + ty_slab) = c_addr (t_cache ty)).
    { apply (type_mem_same s1 s2); [| |done].
      - apply Forall_cons in Hs2 as [_ Hs2]. apply Forall_cons in Hs2 as [Hs2 _]. by constructor.
      - pose proof (om_max _ _ _ _ _ _ Hr) as Hmax. unfold_ob. lia. }
    rewrite Hslab. eapply wp_free_object; [exact Hr1|exact Hty|exact Hal|exact Ht2|exact Hs2|by apply calls_heap|].
    intros s' Hr' Hs' Ho' Hd' Hq'. apply HQ. split; [done|]. split; [by eapply same_bytes_trans|].
    split; [by eapply calls_only_trans|]. split; [done|]. rewrite Htd. apply Hn1.
    eapply quiet_trans; [by apply quiet_heap|done]. }
  apply wp_bind, wp_when.
  - intros Hnz. pose proof (Forall_lookup_1 _ _ _ _ (om_types _ _ _ _ _ _ Hr) Hty) as [_ Hcode _].
    pose proof (ow_valid _ _ _ (om_owned _ _ _ _ _ _ _ Hr Hin)) as Hov.
    assert (Hts : type_size tys (o_type o) = c_size (t_cache ty)) by (unfold type_size; by rewrite Hty).
    rewrite <- Hts in Hcode. apply negb_true_iff, Z.eqb_neq in Hnz.
    destruct (destroy_runs _ _ (o_addr o) s Hcode Hnz Hov) as (s1 & Hrun & Hp). eapply wp_run; [exact Hrun|].
    destruct (om_callback _ _ _ _ _ _ _ _ _ Hr Hp) as [Hr1 Hs1].
    apply Hafter; [done|done|by eapply calls_payload|]. intros s' Hq. unfold notified.
    rewrite (proj2 (Z.eqb_neq _ _) Hnz). by exists s, s1.
  - intros Hz. apply Hafter; [done|apply same_bytes_refl|apply calls_only_refl|].
    intros s' Hq. unfold notified. apply negb_false_iff in Hz. by rewrite Hz.
Qed.

Lemma wp_maybe_destroy s tys pre o post next cs live (Q : unit -> kstate -> Prop) E :
  om_rep s tys (pre ++ o :: post) next cs live ->
  (deadb o = false -> forall s', om_rep s' tys (pre ++ o :: post) next cs live -> same_bytes live s s' ->
     heap_only s s' -> Q tt s') ->
  (deadb o = true -> forall s', destroyed_at s tys pre (set_dead 1 o) post next cs live s' -> Q tt s') ->
  wp (object_maybe_destroy (o_addr o)) s Q E.
Proof.
  intros Hr Hf Ht. unfold object_maybe_destroy. eapply (wp_check_dead _ _ _ _ _ _ _ _ (fun go => _)); [exact Hr| |].
  - intros Hd s' Hr' Hs' Ho'. apply wp_ret. by apply Hf.
  - intros Hd s1 Hr1 Hs1 Ho1. cbn [negb].
    change (o_addr o) with (o_addr (set_dead 1 o)). eapply wp_destroy; [exact Hr1|].
    intros s' (Hr' & Hs' & Ho' & Hd' & Hn'). apply Ht; [done|]. split; [done|]. split; [by eapply same_bytes_trans|].
    split; [eapply calls_only_trans; [by apply calls_heap|done]|]. split; [done|].
    eapply notified_pre; [by apply quiet_heap|exact Hn'].
Qed.

Lemma wp_object_deref s tys pre o post next cs live (Q : unit -> kstate -> Prop) E :
  om_rep s tys (pre ++ o :: post) next cs live ->
  let o' := set_refs (wrap32 (o_refs o - 1)) o in
  (~ (o_refs o = 1 /\ o_handles o = 0 /\ o_dead o = 0) -> forall s', om_rep s' tys (pre ++ o' :: post) next cs live ->
     same_bytes live s s' -> heap_only s s' -> Q tt s') ->
  (o_refs o = 1 -> o_handles o = 0 -> o_dead o = 0 -> forall s',
     destroyed_at s tys pre (set_dead 1 o') post next cs live s' -> Q tt s') ->
  wp (object_deref (o_addr o)) s Q E.
Proof.
  intros Hr o' Hf Ht. assert (Ho : o ∈ pre ++ o :: post) by (apply elem_of_app; right; by left).
  unfold object_deref. unfold_ob. apply wp_bind, wp_fetch_sub; [by apply (obj_valid _ _ _ _ _ _ _ _ _ Hr Ho)|].
  rewrite (obm_refs _ _ (om_obj_mem _ _ _ _ _ _ _ Hr Ho)).
  destruct (om_set_refs _ _ _ _ _ _ _ _ _ Hr (wrap32_range (o_refs o - 1))) as [Hr1 Hs1].
  pose proof (heap_only_set_mem s (put32 (k_mem s) (o_addr o + 4) (wrap32 (o_refs o - 1)))) as Ho1.
  destruct (Z.eqb_spec (o_refs o) 1) as [He|He]; [|apply wp_ret, Hf; [tauto|done..]].
  change (o_addr o) with (o_addr o'). eapply wp_maybe_destroy; [exact Hr1| |].
  - intros Hd s' Hr' Hs' Ho'. apply Hf; [|done|by eapply same_bytes_trans|exact (heap_only_trans _ _ _ Ho1 Ho')].
    intros (_ & Hh & Hdd). unfold deadb in Hd. simpl in Hd. by rewrite He, Hh, Hdd in Hd.
  - intros Hd s' (Hr' & Hs' & Ho' & Hd' & Hn'). unfold deadb in Hd. simpl in Hd.
    apply andb_true_iff in Hd as [[_ Hh]%andb_true_iff Hdd]. apply Z.eqb_eq in Hh, Hdd.
    apply Ht; [done|done|done|]. split; [done|]. split; [by eapply same_bytes_trans|].
    split; [exact (calls_only_trans _ _ _ (calls_heap _ _ Ho1) Ho')|]. split; [done|].
    eapply notified_pre; [apply quiet_heap, heap_only_set_mem|exact Hn'].
Qed.

(** ** Creation *)

Lemma om_live_owned s tys objs next cs live r : om_rep s tys objs next cs live -> r ∈ live -> owned s r.1 r.2.
Proof.
  intros Hr Hin. destruct (om_table _ _ _ _ _ _ Hr) as (al & _ & Ht).
  apply (table_rep_owned _ _ _ _ _ r Ht). rewrite !elem_of_app. by right; right.
Qed.

(** Writing to other memory in use. *)
Lemma om_writes s tys objs next cs ws live rs m :
  om_rep s tys objs next cs (ws ++ live) -> within rs ws -> mods rs (k_mem s) m ->
  om_rep (set_mem s m) tys objs next cs (ws ++ live) /\ same_bytes live s (set_mem s m).
Proof.
  intros [(al & Hal & Ht) Hf Hx Hty Ho Hi Hid Hfr] Hw Hm.
  assert (Hp : om_area ++ map (obj_range tys) objs ++ ws ++ live ≡ₚ ws ++ om_area ++ map (obj_range tys) objs ++ live).
  { rewrite !app_assoc. apply Permutation_app_tail. rewrite <- (app_assoc ws). apply Permutation_app_comm. }
  eapply table_rep_perm in Ht; [|reflexivity|exact Hp].
  destruct (table_rep_writes _ _ _ _ ws _ rs m Ht Hw Hm) as [Ht' Hs].
  rewrite !same_bytes_app in Hs. destruct Hs as (Hs1 & Hs2 & Hs3). split; [|done].
  split; [|by eapply (om_mem_same s)|done|done|by eapply (objs_same s)|done..].
  exists al. split; [done|]. by eapply table_rep_perm; [reflexivity|symmetry; exact Hp|].
Qed.

(** The next number is taken. *)
Lemma om_set_next s tys objs next cs live :
  om_rep s tys objs next cs live -> 0 <= next < 2 ^ 32 - 1 ->
  let s' := set_mem s (put32 (k_mem s) (g_om + 5672) (wrap32 (next + 1))) in
  om_rep s' tys objs (next + 1) cs live /\ same_bytes live s s'.
Proof.
  intros [(al & Hal & Ht) [Hf1 Hf2 Hf3 Hf4] Hx Hty Ho Hi Hid Hfr] Hn s'. set (X := map (obj_range tys) objs ++ live) in *.
  assert (Hp : om_area ++ X ≡ₚ (g_om + 5672, 4) :: [(g_om, 5632); (g_om + 5632, 4); (g_om + 5676, 4)] ++ X).
  { symmetry. apply (Permutation_middle [(g_om, 5632); (g_om + 5632, 4)] ((g_om + 5676, 4) :: X)). }
  eapply table_rep_perm in Ht; [|reflexivity|exact Hp].
  destruct (table_rep_writes s _ _ _ [(g_om + 5672, 4)] _ [(g_om + 5672, 4)] (k_mem s') Ht) as [Ht' Hs].
  { constructor; [|constructor]. exists (g_om + 5672), 4. split; [by left|simpl; lia]. }
  { apply (mods_putw 4). }
  change (set_mem s (k_mem s')) with s' in *.
  apply same_bytes_app in Hs as [Hs1 Hs2]. apply same_bytes_app in Hs2 as [Hs2 Hs3].
  split; [|done]. apply Forall_cons in Hs1 as [Ha Hs1]. apply Forall_cons in Hs1 as [Hb Hs1].
  apply Forall_cons in Hs1 as [Hc _].
  assert (Hword : forall x, same_bytes [(x, 4)] s s' -> get32 (k_mem s') x = get32 (k_mem s) x).
  { intros x Hw. apply (same_bytes_getw _ _ _ x 4 4 x Hw); [by left|lia|simpl; lia]. }
  split; [| |done|done|by eapply (objs_same s)|done|done|].
  - exists al. split; [done|]. eapply table_rep_perm; [reflexivity|symmetry; exact Hp|done].
  - split.
    + intros i ty Hty'. apply (type_mem_same s); [by constructor| |by apply Hf1].
      apply lookup_lt_Some in Hty'. unfold_ob. lia.
    + rewrite Hword by (by constructor). done.
    + unfold s'. simpl. rewrite wrap32_small by (unfold u32; lia). apply (getw_putw 4). simpl; lia.
    + rewrite Hword by (by constructor). done.
  - eapply Forall_impl; [exact Hfr|]. simpl. lia.
Qed.

(** Taking an object from the cache of a type. *)
Lemma wp_om_alloc s tys i ty objs next cs live (Q : Z -> kstate -> Prop) (E : kstate -> Prop) :
  om_rep s tys objs next cs live -> tys !! i = Some ty ->
  (forall x l s', om_rep s' (<[i := set_free l ty]> tys) objs next cs ((x, c_size (t_cache ty)) :: live) ->
     same_bytes live s s' -> heap_only s s' -> 
     (c_free (t_cache ty) = x :: l /\ same_bytes [(x, c_size (t_cache ty))] s s') \/ c_free (t_cache ty) = [] ->
     all_free (c_size (t_cache ty)) (c_free (t_cache ty)) (x :: l) -> Q x s') ->
  (forall s', exhausted s' -> E s') ->
  wp (slab_alloc (c_addr (t_cache ty))) s Q E.
Proof.
  intros [(al & Hal & Ht) Hf Hx Hty Ho Hi Hid Hfr] Hi0 HQ HE.
  pose proof (Forall_lookup_1 _ _ _ _ Hty Hi0) as [_ _ Hsz].
  pose proof (fun l => same_types_insert tys i ty l Hi0) as Hst.
  eapply table_rep_perm in Ht; [|by apply caches_front|reflexivity].
  destruct (t_cache ty) as [a sz l0] eqn:Hc. cbn [c_addr c_size c_free] in *.
  eapply wp_table_alloc; [exact Ht|lia| |by auto]. intros x l s' Ht' Hs' Ho' Hsv Hbytes.
  rewrite !same_bytes_app in Hs'. destruct Hs' as (Hs1 & Hs2 & Hs3).
  pose proof (Forall2_length _ _ _ (Hst l)) as Hlen.
  apply (HQ x l); [|done|done| |by eapply served_all].
  - split.
    + exists al. split; [done|]. rewrite (same_types_ranges _ _ _ (Hst l)).
      eapply table_rep_perm; [| |exact Ht'].
      * rewrite <- (caches_insert tys i ty l cs Hi0). by rewrite Hc.
      * rewrite !app_assoc. apply Permutation_middle.
    + apply (same_types_mem _ _ _ _ (Hst l)). by eapply (om_mem_same s).
    + by rewrite <- Hlen.
    + eapply same_types_ok; [apply Hst|done].
    + by eapply (objs_same s).
    + by rewrite <- Hlen.
    + done.
    + done.
  - destruct Hsv as [[-> _]|[-> _]]; [left|by right]. split; [done|by apply Hbytes].
Qed.

(** Giving it back. *)
Lemma wp_om_free s tys i ty objs next cs live x (Q : unit -> kstate -> Prop) E :
  om_rep s tys objs next cs ((x, c_size (t_cache ty)) :: live) -> tys !! i = Some ty ->
  (forall s', om_rep s' (<[i := set_free (x :: c_free (t_cache ty)) ty]> tys) objs next cs live ->
     same_bytes live s s' -> heap_only s s' -> Q tt s') ->
  wp (slab_free (c_addr (t_cache ty)) x) s Q E.
Proof.
  intros [(al & Hal & Ht) Hf Hx Hty Ho Hi Hid Hfr] Hi0 HQ.
  pose proof (fun l => same_types_insert tys i ty l Hi0) as Hst.
  eapply table_rep_perm in Ht; [|by apply caches_front|rewrite app_assoc; symmetry; apply Permutation_middle].
  destruct (t_cache ty) as [a sz l0] eqn:Hc. cbn [c_addr c_size c_free] in *.
  eapply wp_table_free; [exact Ht|]. intros s' Ht' Hs' Ho' _ _.
  rewrite !same_bytes_app in Hs'. destruct Hs' as ((Hs1 & Hs2) & Hs3).
  pose proof (Forall2_length _ _ _ (Hst (x :: l0))) as Hlen.
  apply HQ; [|done|done]. split.
  - exists al. split; [done|]. rewrite (same_types_ranges _ _ _ (Hst (x :: l0))).
    eapply table_rep_perm; [| |exact Ht'].
    + rewrite <- (caches_insert tys i ty (x :: l0) cs Hi0). by rewrite Hc.
    + by rewrite app_assoc.
  - apply (same_types_mem _ _ _ _ (Hst (x :: l0))). by eapply (om_mem_same s).
  - by rewrite <- Hlen.
  - eapply same_types_ok; [apply Hst|done].
  - by eapply (objs_same s).
  - by rewrite <- Hlen.
  - done.
  - done.
Qed.

(** The object enters the table. *)
Lemma wp_register {B} s tys o objs next cs live (k : M B) Q (E : kstate -> Prop) :
  om_rep s tys objs next cs (obj_range tys o :: live) -> obj_mem (k_mem s) o ->
  0 <= o_type o < Z.of_nat (length tys) -> o_id o < next -> 0 <= o_id o -> o_id o ∉ map o_id objs ->
  (forall s', om_rep s' tys (o :: objs) next cs live -> same_bytes live s s' -> heap_only s s' -> wp k s' Q E) ->
  (forall s', exhausted s' -> E s') ->
  wp (spin_lock (g_om + om_table_lock) ;;
      id <- load64 (o_addr o + ob_object_id) ;;
      hashtable_insert (g_om + om_id_table) id (o_addr o) ;;
      spin_unlock (g_om + om_table_lock) ;; k) s Q E.
Proof.
  intros Hr Hm Hoty Hid1 Hid0 Hnew HQ HE.
  pose proof (om_live_owned _ _ _ _ _ _ _ Hr ltac:(by left)) as [Hpos Htop _ _ _]. simpl in Hpos, Htop.
  pose proof Hr as [(al & Hal & Ht) Hf Hx Hty Ho Hi Hid Hfr].
  pose proof (type_size_bounds _ _ Hty Hoty) as Hsz.
  assert (Hp : om_area ++ map (obj_range tys) objs ++ obj_range tys o :: live ≡ₚ
    (g_om + 5676, 4) :: obj_range tys o :: om_rest ++ map (obj_range tys) objs ++ live).
  { rewrite (app_assoc om_area). rewrite <- (Permutation_middle (om_area ++ _)), <- app_assoc. apply om_lock_front'. }
  eapply table_rep_perm in Ht; [|reflexivity|exact Hp].
  eapply (wp_critical (fun al' => exists y, al' = mkNode y (o_id o) (o_addr o) :: al));
    [exact Ht|apply Hf|by left|unfold_ob; simpl; lia|unfold_ob; simpl; lia| |].
  - intros s1 R Ht1 Ho1 HR. unfold_ob. rewrite (obm_id _ _ Hm).
    pose proof (get64_u64 (k_mem s) (o_addr o + 16)) as Hu. rewrite (obm_id _ _ Hm) in Hu.
    eapply wp_insert; [exact Ht1|exact Hu|unfold u64; lia| |by auto].
    intros y s2 Ht2 Hs2 Ho2. eapply HR; [by exists y|done|done|done].
  - intros al' s' [y ->] Ht' Hs' Ho'.
    assert (Hall : same_bytes om_area s s' /\ same_bytes (map (obj_range tys) objs) s s' /\
                   same_bytes live s s' /\ same_bytes [obj_range tys o] s s').
    { unfold same_bytes in *. unfold om_rest, om_area in *. rewrite !Forall_cons, !Forall_app, !Forall_cons in *.
      rewrite Forall_nil. tauto. }
    destruct Hall as (Hs1 & Hs2 & Hs3 & Hs4). apply HQ; [|done|done]. split.
    + exists (mkNode y (o_id o) (o_addr o) :: al). split; [simpl; by rewrite Hal|].
      eapply table_rep_perm; [reflexivity| |exact Ht']. cbn [map]. rewrite <- om_lock_front'.
      cbn [app]. by rewrite (Permutation_middle om_area).
    + by eapply (om_mem_same s).
    + done.
    + done.
    + apply Forall_cons. split; [|by eapply (objs_same s)].
      eapply (obj_mem_same s s' o _ _ Hs4); [by left|lia|done].
    + by apply Forall_cons.
    + simpl. by apply NoDup_cons.
    + apply Forall_cons. split; [simpl; lia|done].
Qed.

(** Writing the fields of a new object. *)
Lemma wp_init_header {B} s tys objs next cs live x sz ti (k : M B) Q E :
  om_rep s tys objs next cs ((x, sz) :: live) -> 48 <= sz -> u32 ti -> 0 <= next < 2 ^ 32 - 1 ->
  (forall s', om_rep s' tys objs (next + 1) cs ((x, sz) :: live) -> same_bytes live s s' -> heap_only s s' ->
     obj_mem (k_mem s') (mkObj x ti 1 0 0 next (get8 (k_mem s) (x + 28))) -> wp k s' Q E) ->
  wp (store32 (x + ob_type_id) ti ;;
      store32 (x + ob_refcount) 1 ;;
      store32 (x + ob_handle_count) 0 ;;
      store32 (x + ob_generation) 0 ;;
      id <- atomic_fetch_add (g_om + om_next_object_id) 1 ;;
      store64 (x + ob_object_id) id ;;
      store32 (x + ob_lock) 0 ;; k) s Q E.
Proof.
  intros Hr Hsz Hti Hnext HQ.
  pose proof (ow_valid _ _ _ (om_live_owned _ _ _ _ _ _ _ Hr ltac:(by left))) as Hv. simpl in Hv.
  assert (Hw : within [(x, 48)] [(x, sz)]).
  { constructor; [|constructor]. exists x, sz. split; [by left|simpl; lia]. }
  unfold_ob. wp_step. wp_step. wp_step. wp_step. wp_step. wp_step. wp_step. wp_step.
  simpl. rewrite ?set_mem_mem. set (m1 := put32 (put32 _ _ _) _ _).
  destruct (om_writes s tys objs next cs [(x, sz)] live [(x, 48)] m1 Hr Hw) as [Hr1 Hs1].
  { intros b [Hb _]%outside_cons. unfold m1. by rewrite !get8_putw, !decide_False by lia. }
  apply wp_bind, wp_fetch_add.
  { apply (om_area_valid _ _ _ _ _ _ (g_om + 5672, 4) Hr1). unfold om_area. rewrite !elem_of_cons. auto. }
  rewrite (omm_next _ _ _ (om_fields _ _ _ _ _ _ Hr1)).
  destruct (om_set_next _ _ _ _ _ _ Hr1 Hnext) as [Hr2 Hs2]. set (s2 := set_mem (set_mem s m1) _) in *.
  apply Forall_cons in Hs2 as Hs2'. destruct Hs2' as [Hx Hl2].
  wp_step. wp_step. wp_step. wp_step. simpl. rewrite ?set_mem_mem.
  match goal with |- wp k ?st Q E => set (s3 := st) end.
  destruct (om_writes s2 tys objs (next + 1) cs [(x, sz)] live [(x, 48)] (k_mem s3) Hr2 Hw) as [Hr3 Hs3].
  { intros b [Hb _]%outside_cons. unfold s3. simpl. by rewrite !get8_putw, !decide_False by lia. }
  change (set_mem s2 (k_mem s3)) with s3 in *.
  assert (Hg : forall n a, x <= a -> a + Z.of_nat n <= x + sz -> getw n (k_mem s2) a = getw n m1 a).
  { intros n a Ha1 Ha2. apply (same_bytes_getw _ (set_mem s m1) s2 x sz n a Hs2); [by left|lia|lia]. }
  apply HQ; [done| | |].
  - eapply same_bytes_trans; [exact Hs1|]. by eapply same_bytes_trans.
  - exact (heap_only_set_mem s (k_mem s3)).
  - assert (Hid : u64 next) by (unfold u64; lia).
    assert (Hk : forall n a, a + Z.of_nat n <= x + 16 \/ x + 24 <= a -> a + Z.of_nat n <= x + 24 \/ x + 28 <= a ->
              x <= a -> a + Z.of_nat n <= x + sz -> getw n (k_mem s3) a = getw n m1 a).
    { intros n a Ha1 Ha2 Ha3 Ha4. unfold s3. simpl. rewrite !(getw_putw_ne _ n) by (simpl; lia). by apply Hg. }
    split; cbn [o_addr o_type o_refs o_handles o_gen o_id o_dead].
    + rewrite Hk by (simpl; lia). unfold m1. rewrite !(getw_putw_ne 4 4 _ _ x) by lia.
      rewrite Z.add_0_r. by apply (getw_putw 4).
    + rewrite Hk by (simpl; lia). unfold m1. rewrite !(getw_putw_ne 4 4) by lia. apply (getw_putw 4). simpl; lia.
    + rewrite Hk by (simpl; lia). unfold m1. rewrite !(getw_putw_ne 4 4) by lia. apply (getw_putw 4). simpl; lia.
    + rewrite Hk by (simpl; lia). unfold m1. apply (getw_putw 4). simpl; lia.
    + unfold s3. simpl. rewrite (getw_putw_ne 4 8) by lia. by apply (getw_putw 8).
    + unfold s3. simpl. apply (getw_putw 4). simpl; lia.
    + rewrite <- getw_1. rewrite Hk by (simpl; lia). unfold m1. rewrite getw_1.
      by rewrite !get8_putw, !decide_False by lia.
Qed.

(** The [create] callback of a type on a new object. *)
Lemma wp_create_fails s tys i ty objs next cs live o args (Q : bool -> kstate -> Prop) E :
  om_rep s tys objs next cs (obj_range tys o :: live) -> tys !! Z.to_nat i = Some ty -> 0 <= i ->
  o_type o = i -> obj_mem (k_mem s) o ->
  (forall r s', asked s (t_create ty) (o_addr o) args r s' -> om_rep s' tys objs next cs (obj_range tys o :: live) ->
     obj_mem (k_mem s') o -> same_bytes live s s' -> calls_only s s' -> Q (negb (r =? 0)) s') ->
  wp (create_fails (ob_type_for i) (o_addr o) args) s Q E.
Proof.
  intros Hr Hty Hi Hoi Hm HQ. subst i. pose proof (om_types _ _ _ _ _ _ Hr) as Htok.
  pose proof (Forall_lookup_1 _ _ _ _ Htok Hty) as [Hcode _ _].
  pose proof (om_type_mem _ _ _ _ _ _ _ _ Hr Hty Hi) as [Hc _ _ _].
  assert (Hsz : 48 <= type_size tys (o_type o) <= 4080).
  { apply type_size_bounds; [done|]. apply lookup_lt_Some in Hty. lia. }
  unfold create_fails. unfold_ob. rewrite <- Z.add_assoc. change (16 + 0) with 16.
  apply wp_bind, wp_load; [by apply (type_valid _ _ _ _ _ _ _ _ _ _ Hr Hty)|]. rewrite Hc.
  destruct (Z.eqb_spec (t_create ty) 0) as [Hz|Hz].
  - apply wp_ret, (HQ 0); [|done|done|apply same_bytes_refl|apply calls_only_refl].
    unfold asked. by rewrite Hz.
  - apply wp_bind.
    assert (Hts : type_size tys (o_type o) = c_size (t_cache ty)) by (unfold type_size; by rewrite Hty).
    rewrite <- Hts in Hcode.
    destruct (create_runs _ _ (o_addr o) args s Hcode Hz (ow_valid _ _ _ (om_live_owned _ _ _ _ _ _ _ Hr ltac:(by left))))
      as (r & s' & Hrun & Hp).
    eapply wp_run; [exact Hrun|].
    assert (Hask : asked s (t_create ty) (o_addr o) args r s').
    { unfold asked. rewrite (proj2 (Z.eqb_neq _ _) Hz). by exists s, s'. }
    pose proof (calls_payload _ _ _ _ Hp) as Hcalls. destruct Hp as (m & t & b & -> & Hmods).
    destruct (om_writes s tys objs next cs [obj_range tys o] live [obj_range tys o] m Hr) as [Hr' Hs'].
    + constructor; [|constructor]. exists (obj_range tys o).1, (obj_range tys o).2. split; [by left|lia].
    + intros x [Hx _]%outside_cons. simpl in Hx. apply Hmods, outside_cons. unfold_ob. split; [lia|constructor].
    + apply wp_ret, HQ; [exact Hask|by apply (om_rep_same (set_mem s m))| |exact Hs'|exact Hcalls].
      by eapply obj_mem_payload.
Qed.

Lemma wp_object_create s tys i ty objs next cs live args (Q : Z -> kstate -> Prop) (E : kstate -> Prop) :
  om_rep s tys objs next cs live -> tys !! Z.to_nat i = Some ty -> 0 <= i -> 0 <= next < 2 ^ 32 - 1 ->
  (forall x l d s', om_rep s' (<[Z.to_nat i := set_free l ty]> tys) (mkObj x i 1 0 0 next d :: objs) (next + 1) cs live ->
     same_bytes live s s' -> calls_only s s' -> asked s (t_create ty) x args 0 s' ->
     (c_free (t_cache ty) = x :: l /\ d = get8 (k_mem s) (x + 28)) \/ c_free (t_cache ty) = [] ->
     all_free (c_size (t_cache ty)) (c_free (t_cache ty)) (x :: l) -> Q x s') ->
  (forall x r l s', all_free (c_size (t_cache ty)) (c_free (t_cache ty)) (x :: l) -> r <> 0 -> asked s (t_create ty) x args r s' -> om_rep s' (<[Z.to_nat i := set_free (x :: l) ty]> tys) objs (next + 1) cs live ->
     same_bytes live s s' -> calls_only s s' -> Q 0 s') ->
  (forall s', exhausted s' -> E s') ->
  wp (object_create (ob_type_for i) args) s Q E.
Proof.
  intros Hr Hty Hi Hnext HQ HQ0 HE. pose proof (om_max _ _ _ _ _ _ Hr) as Hmax.
  pose proof (lookup_lt_Some _ _ _ Hty) as Hlt. pose proof (om_type_mem _ _ _ _ _ _ _ _ Hr Hty Hi) as [_ _ Hsl _].
  pose proof (Forall_lookup_1 _ _ _ _ (om_types _ _ _ _ _ _ Hr) Hty) as [_ _ Hsz].
  unfold object_create. apply wp_bind, wp_load; [unfold_ob; by apply (type_valid _ _ _ _ _ _ _ _ _ _ Hr Hty)|].
  unfold ty_slab. rewrite Hsl. apply wp_bind. eapply wp_om_alloc; [exact Hr|exact Hty| |exact HE].
  intros x l s1 Hr1 Hs1 Ho1 Hsv Hall. set (tys1 := <[_ := _]> tys) in *.
  assert (Hty1 : tys1 !! Z.to_nat i = Some (set_free l ty)) by (by apply list_lookup_insert_eq).
  pose proof (om_live_owned _ _ _ _ _ _ _ Hr1 ltac:(by left)) as [Hx0 _ _ _ _]. simpl in Hx0.
  rewrite (proj2 (Z.eqb_neq x 0)) by lia.
  replace (wrap32 ((ob_type_for i - g_om) / sizeof_object_type)) with i.
  2:{ unfold ob_type_for. unfold_ob. replace (g_om + 88 * i - g_om) with (i * 88) by lia.
      rewrite Z.div_mul by lia. rewrite wrap32_small by (unfold u32; lia). done. }
  unfold_ob. eapply wp_init_header; [exact Hr1|lia|unfold u32; lia|done|].
  intros s2 Hr2 Hs2 Ho2 Hm2. set (o := mkObj x i 1 0 0 next _) in *.
  assert (Hrange : (x, c_size (t_cache ty)) = obj_range tys1 o).
  { unfold obj_range, type_size. simpl. by rewrite Hty1. }
  rewrite Hrange in Hr2. change x with (o_addr o). apply wp_bind.
  eapply wp_create_fails; [exact Hr2|exact Hty1|done|done|done|]. intros r s3 Hask Hr3 Hm3 Hs3 Ho3.
  assert (Hs : same_bytes live s s3) by (eapply same_bytes_trans; [exact Hs1|by eapply same_bytes_trans]).
  assert (Hcalls : calls_only s s3).
  { exact (calls_only_trans _ _ _ (calls_heap _ _ (heap_only_trans _ _ _ Ho1 Ho2)) Ho3). }
  assert (Hask' : forall s4, heap_only s3 s4 -> asked s (t_create ty) x args r s4).
  { intros s4 Ho4. eapply asked_quiet; [|exact Hask|by apply quiet_heap].
    apply quiet_heap. by eapply heap_only_trans. }
  destruct (Z.eqb_spec r 0) as [->|Hr0]; cbn [negb].
  2:{ pose proof (om_type_mem _ _ _ _ _ _ _ _ Hr3 Hty1 Hi) as [_ _ Hsl3 _].
    apply wp_bind, wp_load; [unfold_ob; by apply (type_valid _ _ _ _ _ _ _ _ _ _ Hr3 Hty1)|].
    unfold ty_slab. rewrite Hsl3. apply wp_bind.
    rewrite <- Hrange in Hr3. eapply (wp_om_free s3 tys1); [exact Hr3|exact Hty1|]. intros s4 Hr4 Hs4 Ho4. apply wp_ret.
    apply (HQ0 x r l); [exact Hall|exact Hr0|by apply Hask'| |by eapply same_bytes_trans|exact (calls_only_trans _ _ _ Hcalls (calls_heap _ _ Ho4))].
    unfold tys1 in Hr4. by rewrite list_insert_insert_eq in Hr4. }
  eapply wp_register; [exact Hr3|exact Hm3|..].
  - unfold tys1. rewrite length_insert. simpl. lia.
  - simpl. lia.
  - simpl. lia.
  - intros Hin. apply list_elem_of_fmap in Hin as (o' & He & Hin).
    apply (proj1 (Forall_forall _ _) (om_fresh _ _ _ _ _ _ Hr)) in Hin. simpl in He, Hin. lia.
  - intros s4 Hr4 Hs4 Ho4. apply wp_ret.
    eapply (HQ x l); [exact Hr4|by eapply same_bytes_trans|exact (calls_only_trans _ _ _ Hcalls (calls_heap _ _ Ho4))|by apply Hask'| |exact Hall].
    destruct Hsv as [[Hl Hbytes]|Hl]; [left|by right]. split; [done|].
    apply (Forall_inv Hbytes). simpl. unfold_ob. lia.
  - exact HE.
Qed.

(** ** Registration *)

(** The types so far are untouched by writes to the slot after them. *)
Lemma om_mem_slot m m' tys next :
  om_mem m tys next -> Z.of_nat (length tys) < 64 ->
  mods [(ob_type_for (Z.of_nat (length tys)), 88); (g_om + 5632, 4)] m m' ->
  forall i ty, tys !! i = Some ty -> type_mem m' (Z.of_nat i) ty.
Proof.
  intros Hm Hl Hmods i ty Hi. destruct (omm_types _ _ _ Hm i ty Hi) as [E1 E2 E3 E4].
  apply lookup_lt_Some in Hi.
  assert (Hg : forall n k, 0 <= k -> k + Z.of_nat n <= 88 ->
            getw n m' (ob_type_for (Z.of_nat i) + k) = getw n m (ob_type_for (Z.of_nat i) + k)).
  { intros n k Hlo Hhi. eapply mods_getw; [exact Hmods|]. unfold ob_type_for in *. unfold_ob. solve_aparts. }
  split; by rewrite Hg by lia.
Qed.

(** The struct of a type, as [object_type_register] fills it. *)
Lemma wp_fill_type {B} s t name size ops (k : M B) Q E :
  valid t 88 = true -> u64 size -> u64 (op_create ops) -> u64 (op_destroy ops) ->
  (forall m, mods [(t, 72)] (k_mem s) m -> get64 m (t + 8) = size -> get64 m (t + 16) = op_create ops ->
     get64 m (t + 24) = op_destroy ops -> wp k (set_mem s m) Q E) ->
  wp (store64 (t + ty_name) name ;;
      store64 (t + ty_instance_size) size ;;
      store_ops (t + ty_ops) ops ;; k) s Q E.
Proof.
  intros Hv Hs Hc Hd HQ. unfold store_ops. unfold_ob. wp_step. wp_step. wp_step. wp_step. wp_step.
  repeat (wp_step; [wp_step]). wp_step. simpl. rewrite ?set_mem_mem. apply HQ.
  - intros b [Hb _]%outside_cons. by rewrite !get8_putw, !decide_False by lia.
  - rewrite !(getw_putw_ne 8 8 _ _ (t + 8)) by lia. by apply (getw_putw 8).
  - rewrite !(getw_putw_ne 8 8 _ _ (t + 16)) by lia. by apply (getw_putw 8).
  - rewrite !(getw_putw_ne 8 8 _ (_ + _ + _) (t + 24)) by lia. rewrite <- (Z.add_assoc t 16 8). by apply (getw_putw 8).
Qed.

(** The manager's types and its counter, in front. *)
Definition om_tail : list (Z * Z) := [(g_om + 5672, 4); (g_om + 5676, 4)].

Lemma om_tail_same s s' :
  same_bytes om_tail s s' ->
  get32 (k_mem s') (g_om + 5672) = get32 (k_mem s) (g_om + 5672) /\
  get32 (k_mem s') (g_om + 5676) = get32 (k_mem s) (g_om + 5676).
Proof.
  intros Hs. split.
  - apply (same_bytes_getw _ _ _ (g_om + 5672) 4 4 _ Hs); [by left|lia|simpl; lia].
  - apply (same_bytes_getw _ _ _ (g_om + 5676) 4 4 _ Hs); [by right; left|lia|simpl; lia].
Qed.

(** The table around the filling of a type's slot. *)
Lemma om_slot_writes s al tys objs live cs rs m :
  table_rep s (g_om + om_id_table) al cs (om_area ++ map (obj_range tys) objs ++ live) ->
  within rs [(g_om, 5632); (g_om + 5632, 4)] -> mods rs (k_mem s) m ->
  table_rep (set_mem s m) (g_om + om_id_table) al cs (om_area ++ map (obj_range tys) objs ++ live) /\
  same_bytes om_tail s (set_mem s m) /\ same_bytes (map (obj_range tys) objs) s (set_mem s m) /\
  same_bytes live s (set_mem s m).
Proof.
  intros Ht Hw Hm.
  destruct (table_rep_writes s _ al cs [(g_om, 5632); (g_om + 5632, 4)] (om_tail ++ map (obj_range tys) objs ++ live) rs m Ht Hw Hm)
    as [Ht' Hs].
  rewrite !same_bytes_app in Hs. split; [exact Ht'|tauto].
Qed.

(** A type entered after the others. *)
Lemma om_add_type s s' al tys objs next cs0 cs live ty :
  let n := Z.of_nat (length tys) in
  om_rep s tys objs next cs0 live -> n < 64 -> type_ok ty -> map pair_of al = map entry_of objs ->
  table_rep s' (g_om + om_id_table) al (t_cache ty :: map t_cache tys ++ cs) (om_area ++ map (obj_range tys) objs ++ live) ->
  type_mem (k_mem s') n ty ->
  (forall k x, g_om <= x -> x + Z.of_nat k <= ob_type_for n -> getw k (k_mem s') x = getw k (k_mem s) x) ->
  get32 (k_mem s') (g_om + 5632) = n + 1 ->
  same_bytes om_tail s s' -> same_bytes (map (obj_range tys) objs) s s' ->
  om_rep s' (tys ++ [ty]) objs next cs live.
Proof.
  intros n Hr Hl Hok Hal Ht Htym Hold Hcount Htl Hob. pose proof Hr as [_ Hf Hx Hty Ho Hidx Hid Hfr].
  destruct (om_tail_same _ _ Htl) as [Hnext Hlock]. destruct Hf as [Hf1 Hf2 Hf3 Hf4].
  assert (Hlen : Z.of_nat (length (tys ++ [ty])) = n + 1) by (rewrite length_app; simpl; lia).
  assert (Hsame : forall o, 0 <= o_type o < n -> obj_range (tys ++ [ty]) o = obj_range tys o).
  { intros o Hot. unfold obj_range, type_size. rewrite lookup_app_l by lia. done. }
  split.
  - exists al. split; [done|]. rewrite (map_ext_in (obj_range (tys ++ [ty])) (obj_range tys)).
    + eapply table_rep_perm; [|reflexivity|exact Ht]. rewrite map_app, <- app_assoc. apply Permutation_middle.
    + intros o Hin. apply Hsame. apply list_elem_of_In in Hin. by apply (proj1 (Forall_forall _ _) Hidx).
  - split; [|by rewrite Hcount, Hlen|by rewrite Hnext|by rewrite Hlock].
    intros i ty' Hty'. apply lookup_app_Some in Hty' as [Hty'|[Hge Hty']].
    + destruct (Hf1 i ty' Hty') as [E1 E2 E3 E4]. apply lookup_lt_Some in Hty' as Hlt.
      assert (Hti : ob_type_for (Z.of_nat i) = g_om + 88 * Z.of_nat i) by done.
      assert (Hn : ob_type_for n = g_om + 88 * n) by done.
      split; rewrite Hold by (simpl; lia); done.
    + apply list_lookup_singleton_Some in Hty' as [Hz <-]. by replace (Z.of_nat i) with n by lia.
  - rewrite Hlen. unfold MAX_OBJECT_TYPES. lia.
  - apply Forall_app. split; [done|by constructor].
  - by eapply (objs_same s).
  - rewrite Hlen. eapply Forall_impl; [exact Hidx|]. simpl. lia.
  - done.
  - done.
Qed.

(** A type with other default rights, which its owner stores itself. *)
Definition set_rights (r : Z) (ty : otype) : otype := mkType (t_create ty) (t_destroy ty) r (t_cache ty).

Lemma set_rights_ranges tys k ty r o :
  tys !! k = Some ty -> obj_range (<[k := set_rights r ty]> tys) o = obj_range tys o.
Proof.
  intros Hk. unfold obj_range, type_size. destruct (decide (Z.to_nat (o_type o) = k)) as [->|Hne].
  - rewrite list_lookup_insert_eq by (by eapply lookup_lt_Some). by rewrite Hk.
  - by rewrite list_lookup_insert_ne by done.
Qed.

Lemma om_set_rights s tys objs next cs live i ty r :
  om_rep s tys objs next cs live -> tys !! Z.to_nat i = Some ty -> 0 <= i -> u32 r ->
  let s' := set_mem s (put32 (k_mem s) (ob_type_for i + 80) r) in
  om_rep s' (<[Z.to_nat i := set_rights r ty]> tys) objs next cs live /\ same_bytes live s s'.
Proof.
  intros [(al & Hal & Ht) [Hf1 Hf2 Hf3 Hf4] Hx Hty Ho Hidx Hid Hfr] Hi Hi0 Hr s'.
  pose proof (lookup_lt_Some _ _ _ Hi) as Hlt. unfold MAX_OBJECT_TYPES in Hx.
  set (tys' := <[_ := _]> tys). assert (Hlen : length tys' = length tys) by apply length_insert.
  assert (Hti : forall j, ob_type_for j = g_om + 88 * j) by done.
  destruct (table_rep_writes s _ _ _ [(g_om, 5632)] _ [(ob_type_for i + 80, 4)] (k_mem s') Ht) as [Ht' Hs].
  { constructor; [|constructor]. exists g_om, 5632. rewrite Hti. split; [by left|simpl; lia]. }
  { apply (mods_putw 4). }
  change (set_mem s (k_mem s')) with s' in *.
  change (same_bytes ([(g_om + 5632, 4); (g_om + 5672, 4); (g_om + 5676, 4)] ++ map (obj_range tys) objs ++ live) s s') in Hs.
  rewrite !same_bytes_app in Hs. destruct Hs as (Hs1 & Hs2 & Hs3).
  split; [|done].
  assert (Hword : forall x, (x, 4) ∈ [(g_om + 5632, 4); (g_om + 5672, 4); (g_om + 5676, 4)] ->
            get32 (k_mem s') x = get32 (k_mem s) x).
  { intros x Hin. apply (same_bytes_getw _ _ _ x 4 4 x Hs1); [done|lia|simpl; lia]. }
  split.
  - exists al. split; [done|]. unfold tys'. rewrite (map_ext _ _ (fun o => set_rights_ranges tys _ ty r o Hi)).
    replace (map t_cache (<[Z.to_nat i := set_rights r ty]> tys)) with (map t_cache tys); [done|].
    change (t_cache <$> tys = t_cache <$> <[Z.to_nat i := set_rights r ty]> tys). rewrite list_fmap_insert.
    symmetry. apply list_insert_id. by rewrite list_lookup_fmap, Hi.
  - split.
    + intros j ty' Hj. unfold s'. cbn [k_mem set_mem]. destruct (decide (j = Z.to_nat i)) as [->|Hne].
      * unfold tys' in Hj. rewrite list_lookup_insert_eq in Hj by done. injection Hj as <-.
        destruct (Hf1 _ _ Hi) as [E1 E2 E3 E4]. rewrite Z2Nat.id in * by done.
        split; [rewrite (getw_putw_ne 4 8) by lia; done..|]. by apply (getw_putw 4).
      * unfold tys' in Hj. rewrite list_lookup_insert_ne in Hj by done.
        destruct (Hf1 _ _ Hj) as [E1 E2 E3 E4]. rewrite Hti in *.
        assert (Z.of_nat j < i \/ i < Z.of_nat j) by lia.
        split; rewrite (Hti (Z.of_nat j)); [rewrite (getw_putw_ne 4 8) by (simpl; lia); done..|]. by rewrite (getw_putw_ne 4 4) by (simpl; lia).
    + rewrite Hlen, Hword; [done|by left].
    + rewrite Hword; [done|right; by left].
    + rewrite Hword; [done|do 2 right; by left].
  - by rewrite Hlen.
  - unfold tys'. apply Forall_insert; [done|]. by destruct (Forall_lookup_1 _ _ _ _ Hty Hi).
  - by eapply (objs_same s).
  - by rewrite Hlen.
  - done.
  - done.
Qed.

(** What is read in the type table once [object_type_register] has filled the
    slot [t] ([m1]), its cache is made ([m2]) and stored ([m3]). *)
Lemma type_slot_reads m m1 m2 n t a :
  t = g_om + 88 * n -> 0 <= n < 64 ->
  mods [(t, 72)] (put32 m (g_om + 5632) (wrap32 (n + 1))) m1 ->
  (forall k x, g_om <= x -> x + Z.of_nat k <= g_om + 5632 -> getw k m2 x = getw k m1 x) ->
  get32 m2 (g_om + 5632) = get32 m1 (g_om + 5632) ->
  let m3 := put64 m2 (t + 72) a in
  (forall k x, g_om <= x -> x + Z.of_nat k <= g_om + 5632 -> x + Z.of_nat k <= t + 72 \/ t + 80 <= x ->
     getw k m3 x = getw k m1 x) /\
  (forall k x, g_om <= x -> x + Z.of_nat k <= g_om + 5632 -> x + Z.of_nat k <= t \/ t + 80 <= x ->
     getw k m3 x = getw k m x) /\
  get32 m3 (g_om + 5632) = n + 1.
Proof.
  intros Ht Hn Hm1 Hsame Hc m3.
  assert (Hget : forall k x, g_om <= x -> x + Z.of_nat k <= g_om + 5632 ->
            x + Z.of_nat k <= t + 72 \/ t + 80 <= x -> getw k m3 x = getw k m1 x).
  { intros k x Hx1 Hx2 Hx3. unfold m3. rewrite (getw_putw_ne 8 k) by (simpl; lia). by apply Hsame. }
  split; [exact Hget|]. split.
  - intros k x Hx1 Hx2 Hx3. rewrite Hget by lia. rewrite (mods_getw _ k _ _ _ Hm1) by solve_aparts.
    apply (getw_putw_ne 4 k). simpl. lia.
  - unfold m3. rewrite (getw_putw_ne 8 4), Hc by (simpl; lia). rewrite (mods_getw _ 4 _ _ _ Hm1) by solve_aparts.
    rewrite wrap32_small by (unfold u32; lia). apply (getw_putw 4). simpl. lia.
Qed.

Lemma wp_type_register s tys objs next meta cs live name isz ops (Q : Z -> kstate -> Prop) (E : kstate -> Prop) :
  om_rep s tys objs next (mkCache cache_metadata_cache 32 meta :: cs) live ->
  cache_meta_initialized s = true -> Z.of_nat (length tys) < 64 -> 0 <= isz <= 4032 ->
  callback_for create_code (48 + isz) (op_create ops) -> callback_for destroy_code (48 + isz) (op_destroy ops) ->
  u64 (op_create ops) -> u64 (op_destroy ops) ->
  (forall a meta' s', let ty := mkType (op_create ops) (op_destroy ops)
       (get32 (k_mem s) (ob_type_for (Z.of_nat (length tys)) + 80)) (mkCache a (object_size (48 + isz)) []) in
     om_rep s' (tys ++ [ty]) objs next (mkCache cache_metadata_cache 32 meta' :: cs) live ->
     same_bytes live s s' -> heap_only s s' -> Q (ob_type_for (Z.of_nat (length tys))) s') ->
  (forall s', exhausted s' -> E s') ->
  wp (object_type_register name isz ops) s Q E.
Proof.
  intros Hr Hi Hl Hisz Hcc Hdc Huc Hud HQ HE. pose proof Hr as [(al & Hal & Ht) Hf Hx Hty Ho Hidx Hid Hfr].
  set (n := Z.of_nat (length tys)) in *. set (t := ob_type_for n).
  assert (Htn : t = g_om + 88 * n) by done.
  pose proof (om_area_valid _ _ _ _ _ _ (g_om, 5632) Hr ltac:(by left)) as Hv. simpl in Hv.
  assert (Hvt : valid t 88 = true) by solve_valid.
  unfold object_type_register, om_type_count. apply wp_bind, wp_fetch_add.
  { apply (om_area_valid _ _ _ _ _ _ (g_om + 5632, 4) Hr). unfold om_area. rewrite !elem_of_cons. auto. }
  rewrite (omm_count _ _ _ Hf). fold n. unfold MAX_OBJECT_TYPES.
  rewrite (proj2 (Z.leb_gt 64 n)) by lia. apply wp_bind, wp_ret.
  change (g_om + sizeof_object_type * n) with t. rewrite wrap64_small by (unfold u64; unfold_ob; lia).
  eapply wp_fill_type; [exact Hvt|unfold u64; unfold_ob; lia|done|done|].
  intros m1 Hm1 Hsz Hcr Hde. simpl in Hm1. rewrite set_mem_mem.
  assert (Hmods1 : mods [(t, 72); (g_om + 5632, 4)] (k_mem s) m1).
  { intros b [Hb1 [Hb2 _]%outside_cons]%outside_cons. rewrite Hm1 by (apply outside_cons; split; [lia|constructor]).
    by rewrite get8_putw, decide_False by lia. }
  assert (Hw : forall k, k <= 88 -> within [(t, k); (g_om + 5632, 4)] [(g_om, 5632); (g_om + 5632, 4)]).
  { intros k Hk. constructor; [|constructor; [|constructor]].
    - exists g_om, 5632. split; [by left|]. simpl. lia.
    - exists (g_om + 5632), 4. split; [right; by left|]. simpl. lia. }
  destruct (om_slot_writes _ _ _ _ _ _ _ _ Ht (Hw 72 ltac:(lia)) Hmods1) as (Ht1 & Hs1 & Hs1' & Hs1'').
  apply wp_bind, wp_load; [unfold_ob; solve_valid|]. unfold ty_instance_size. simpl k_mem. rewrite Hsz.
  apply wp_bind.
  assert (Hpc : map t_cache tys ++ mkCache cache_metadata_cache 32 meta :: cs ≡ₚ
                mkCache cache_metadata_cache 32 meta :: map t_cache tys ++ cs) by (symmetry; apply Permutation_middle).
  eapply table_rep_perm in Ht1; [|exact Hpc|reflexivity].
  eapply wp_table_cache_create; [unfold_ob; lia| |exact Ht1| |exact HE]; [done|].
  intros a meta' s2 Ha Ht2 Hs2 Ho2. rewrite !same_bytes_app in Hs2. destruct Hs2 as (Hs2a & Hs2b & Hs2c).
  apply wp_bind, wp_store; [unfold_ob; solve_valid|]. apply wp_ret. set (s3 := set_mem s2 _).
  assert (Hmods3 : mods [(t + 72, 8)] (k_mem s2) (k_mem s3)) by apply (mods_putw 8).
  assert (Hw3 : within [(t + 72, 8)] [(g_om, 5632); (g_om + 5632, 4)]).
  { constructor; [|constructor]. exists g_om, 5632. split; [by left|]. simpl. lia. }
  destruct (om_slot_writes _ _ _ _ _ _ _ _ Ht2 Hw3 Hmods3) as (Ht3 & Hs3 & Hs3' & Hs3'').
  change (set_mem s2 (k_mem s3)) with s3 in *.
  assert (Htl : same_bytes om_tail s s3).
  { eapply same_bytes_trans; [exact Hs1|]. eapply same_bytes_trans; [|exact Hs3].
    do 2 apply Forall_cons in Hs2a as [_ Hs2a]. exact Hs2a. }
  assert (Hob : same_bytes (map (obj_range tys) objs) s s3).
  { eapply same_bytes_trans; [exact Hs1'|]. by eapply same_bytes_trans. }
  assert (Hon : heap_only s s3).
  { eapply heap_only_trans; [apply heap_only_set_mem|]. eapply heap_only_trans; [exact Ho2|apply heap_only_set_mem]. }
  destruct (type_slot_reads (k_mem s) m1 (k_mem s2) n t a Htn ltac:(lia) Hm1) as (Hget & Hold & Hcount).
  { intros k x Hx1 Hx2. apply (same_bytes_getw _ (set_mem s m1) s2 g_om 5632 k x Hs2a); [by left|done|lia]. }
  { apply (same_bytes_getw _ (set_mem s m1) s2 (g_om + 5632) 4 4 _ Hs2a); [by right; left|simpl; lia..]. }
  change (put64 (k_mem s2) (t + 72) a) with (k_mem s3) in *.
  apply (HQ a meta'); [|eapply same_bytes_trans; [exact Hs1''|by eapply same_bytes_trans]|exact Hon].
  eapply (om_add_type s s3 al); [exact Hr|exact Hl| |exact Hal| | |..|exact Hcount|exact Htl|exact Hob].
  - destruct (object_size_bounds (48 + isz)) as (_ & O1 & O2 & [q Hq]); [lia|].
    split; cbn [t_create t_destroy t_cache c_size]; [eapply callback_for_more; [|done]; done..|]. unfold_ob. lia.
  - eapply table_rep_perm; [|reflexivity|exact Ht3]. cbn [t_cache]. change (48 + isz) with (sizeof_object_header + isz).
    rewrite <- (Permutation_middle (map t_cache tys) cs). apply perm_swap.
  - fold n t. split; cbn [t_create t_destroy t_cache t_rights c_addr].
    + rewrite Hget by (simpl; lia). done.
    + rewrite Hget by (simpl; lia). done.
    + unfold s3. simpl. apply (getw_putw 8). simpl. lia.
    + rewrite Hold by (simpl; lia). done.
  - intros k x Hx1 Hx2. fold n t in Hx2. apply Hold; lia.
Qed.

(** ** Initialisation *)

(** The object manager next to the kernel heap, whose blocks are [bs]. *)
Record os_rep (s : kstate) (bs : list block) (tys : list otype) (objs : list object) (next : Z)
    (cs : list cache_t) (live : list (Z * Z)) : Prop := {
  os_init : kheap_initialized (k_kheap s) = true;
  os_blocks : Forall (block_ok s) bs;
  os_om : exists ks, map c_addr ks = kmalloc_caches (k_kheap s) /\ map c_size ks = bucket_sizes /\
            om_rep s tys objs next (ks ++ cs) ((bs ≫= extents) ++ live)
}.

Lemma os_rep_io s t bs tys objs next cs live :
  os_rep s bs tys objs next cs live -> os_rep (set_io s t) bs tys objs next cs live.
Proof.
  intros [Hi Hb (ks & Ha & Hs & Hr)]. split; [exact Hi| |].
  - exact (blocks_ok_same s (set_io s t) bs (same_bytes_refl (bs ≫= extents) s) eq_refl eq_refl eq_refl Hb).
  - exists ks. split; [done|]. split; [done|]. by apply (om_rep_same s).
Qed.

Lemma om_split_area : separated ((g_om + om_id_table, 32) :: om_area) /\
  within ((g_om + om_id_table, 32) :: om_area) [(g_om, sizeof_object_manager)].
Proof.
  unfold om_area. unfold_ob. split.
  - simpl. repeat (split; [solve_aparts|]). done.
  - repeat (constructor; [exists g_om, 5680; split; [by left|simpl; lia]|]). constructor.
Qed.

(** The three fields [ob_init] sets, on an empty table. *)
Lemma wp_init_fields s al cs live (Q : unit -> kstate -> Prop) E :
  table_rep s (g_om + om_id_table) al cs (om_area ++ live) ->
  (forall s', table_rep s' (g_om + om_id_table) al cs (om_area ++ live) -> om_mem (k_mem s') [] 1 ->
     same_bytes live s s' -> heap_only s s' -> k_pmm s' = k_pmm s -> Q tt s') ->
  wp (store32 (g_om + om_table_lock) 0 ;;
      store32 (g_om + om_next_object_id) 1 ;;
      store32 (g_om + om_type_count) 0) s Q E.
Proof.
  intros Ht HQ.
  assert (Hv : forall r, r ∈ om_area -> valid r.1 r.2 = true).
  { intros r Hr. apply (ow_valid _ _ _ (table_rep_owned _ _ _ _ _ r Ht ltac:(apply elem_of_app; by left))). }
  assert (Hin : (g_om + 5632, 4) ∈ om_area /\ (g_om + 5672, 4) ∈ om_area /\ (g_om + 5676, 4) ∈ om_area).
  { unfold om_area. rewrite !elem_of_cons. auto 10. }
  destruct Hin as (Hin1 & Hin2 & Hin3). unfold om_table_lock, om_next_object_id, om_type_count.
  apply wp_bind, wp_store; [apply (Hv _ Hin3)|]. apply wp_bind, wp_store; [apply (Hv _ Hin2)|].
  apply wp_store; [apply (Hv _ Hin1)|]. simpl. rewrite !set_mem_mem. set (m := put32 (put32 _ _ _) _ _).
  destruct (table_rep_writes s _ al cs om_area live [(g_om + 5632, 4); (g_om + 5672, 4); (g_om + 5676, 4)] m Ht) as [Ht' Hs].
  - assert (Hw : forall r, r ∈ om_area -> exists x n, (x, n) ∈ om_area /\ x <= r.1 /\ r.1 + r.2 <= x + n).
    { intros [x n] Hr. exists x, n. split; [done|simpl; lia]. }
    repeat (constructor; [by apply Hw|]). constructor.
  - intros b [Hb1 [Hb2 [Hb3 _]%outside_cons]%outside_cons]%outside_cons. unfold m.
    by rewrite !get8_putw, !decide_False by lia.
  - apply HQ; [done| |done|apply heap_only_set_mem|done]. unfold m. simpl. split; [done|..].
    + apply (getw_putw 4). simpl; lia.
    + rewrite (getw_putw_ne 4 4) by lia. apply (getw_putw 4). simpl; lia.
    + rewrite !(getw_putw_ne 4 4) by lia. apply (getw_putw 4). simpl; lia.
Qed.

Lemma wp_ob_init s bs meta cs live (Q : unit -> kstate -> Prop) (E : kstate -> Prop) :
  kheap_rep s bs (mkCache cache_metadata_cache 32 meta :: cs) ((g_om, sizeof_object_manager) :: live) ->
  cache_meta_initialized s = true -> free_set s <> ∅ ->
  (forall meta' s', os_rep s' bs [] [] 1 (mkCache cache_metadata_cache 32 meta' :: cs) live ->
     same_bytes ((bs ≫= extents) ++ live) s s' -> heap_only s s' -> Q tt s') ->
  (forall s', E s') ->
  wp ob_init s Q E.
Proof.
  intros Hr Hi Hfs HQ HE. destruct om_split_area as [Hsep Hw].
  apply (kheap_rep_split _ _ _ [(g_om, sizeof_object_manager)] _ _ ltac:(exact Hr) Hsep) in Hw as Hr0.
  unfold ob_init. apply wp_bind. eapply wp_hashtable_init; [exact Hr0|done|lia|lia|done| |exact HE].
  intros meta' s1 (bk & nb & nc & l & Hm & [Hin Hbs (ks & Ha & Hks & Hh)]) Hs1 Ho1. set (cs' := mkCache cache_metadata_cache 32 meta' :: cs) in *.
  assert (Ht : table_rep s1 (g_om + om_id_table) [] (ks ++ cs') (om_area ++ (bs ≫= extents) ++ live)).
  { exists bk, nb, nc, l. split; [done|]. eapply heap_perm; [..|exact Hh]; [apply Permutation_middle|].
    change ((g_om, 5632) :: _) with (om_area ++ live).
    rewrite !app_assoc. apply Permutation_app_tail. rewrite (Permutation_app_comm (bs ≫= extents)).
    rewrite <- !app_assoc. apply Permutation_app_head, Permutation_app_comm. }
  eapply wp_init_fields; [exact Ht|]. intros s2 Ht2 Hm2 Hs2 Ho2 Hp2.
  apply same_bytes_app in Hs2 as Hs2'. destruct Hs2' as [Hs2b Hs2l].
  apply same_bytes_app in Hs1 as [Hs1b Hs1l].
  assert (Hs1l' : same_bytes live s s1) by (change ((g_om, 5632) :: _) with (om_area ++ live) in Hs1l; by apply same_bytes_app in Hs1l as [_ ?]).
  apply (HQ meta'); [| |by eapply heap_only_trans].
  - pose proof (heap_only_kheap _ _ Ho2) as Hk. split; [by rewrite Hk| |].
    + by apply (blocks_ok_same s1); rewrite ?Hk, ?Hp2.
    + exists ks. rewrite Hk. split; [done|]. split; [done|]. split; try done; try constructor.
      by exists [].
  - apply same_bytes_app. split; by eapply same_bytes_trans.
Qed.
(** ** The kernel heap next to the objects *)

Lemma os_heap s bs tys objs next cs live :
  os_rep s bs tys objs next cs live ->
  exists cs1 live1, kheap_rep s bs cs1 (live1 ++ live) /\
    forall s' bs' ws, kheap_rep s' bs' cs1 (ws ++ live1 ++ live) -> same_bytes live1 s s' ->
      os_rep s' bs' tys objs next cs (ws ++ live).
Proof.
  intros [Hin Hbs (ks & Ha & Hks & [(al & Hal & bk & nb & nc & l & Hm & Hh) Hf Hx Hty Ho Hi Hid Hfr])].
  set (ht := g_om + om_id_table) in *. set (T := table_area ht bk nb al) in *. set (X := om_area ++ map (obj_range tys) objs).
  exists (mkCache nc 24 l :: map t_cache tys ++ cs), (T ++ X). split.
  - split; [done|done|]. exists ks. split; [done|]. split; [done|]. unfold X.
    eapply heap_perm; [..|exact Hh]; solve_perm.
  - intros s' bs' ws [Hin' Hbs' (ks' & Ha' & Hks' & Hh')] Hs.
    pose proof Hs as Hs0. apply same_bytes_app in Hs0 as [HsT HsX]. apply same_bytes_app in HsX as [HsA HsO].
    split; [done|done|]. exists ks'. split; [done|]. split; [done|].
    split; [|by eapply (om_mem_same s)|done|done|by eapply (objs_same s)|done..].
    exists al. split; [done|]. exists bk, nb, nc, l. split.
    + eapply (table_mem_same s s' _ _ _ _ _ _ []); [exact Hm|by rewrite app_nil_r].
    + fold ht T. unfold X in *. eapply heap_perm; [..|exact Hh']; solve_perm.
Qed.
End ob_lemmas.
