(* ===== verification/ObSpec.v ===== *)
(** * What the object manager promises

    The properties of base/ob/ob.c, with the states they are tried on: a
    machine after [mm_init] and [ob_init]. *)

From Stdlib Require Import String.
From S2P Require Import Prelude Machine Logic Console Boards Sync Str Boot Pmm Heap Slab Kheap Mm Hash Ob.

#[local] Open Scope string_scope.
#[local] Open Scope list_scope.
#[local] Open Scope Z_scope.

Section properties.
Context `{Callbacks, !Console, !CallbacksOk}.

(** Initialisation makes the object manager empty, with no types and no
    objects, next to the kernel heap and to whatever else was in use. *)
Theorem ob_init_correct s bs meta cs live :
  kheap_rep s bs (mkCache cache_metadata_cache 32 meta :: cs) ((g_om, sizeof_object_manager) :: live) ->
  cache_meta_initialized s = true -> free_set s <> ∅ ->
  wp ob_init s
     (fun _ s' => (exists meta', os_rep s' bs [] [] 1 (mkCache cache_metadata_cache 32 meta' :: cs) live) /\
        same_bytes ((bs ≫= extents) ++ live) s s')
     (fun _ => True).
Proof.
  intros Hr Hi Hf. eapply wp_ob_init; [exact Hr|done|done| |done].
  intros meta' s' Hr' Hs _. split; [by exists meta'|done].
Qed.

(** Registration of a type puts it after the others with its two
    callbacks and a cache of its own for objects of the header and the payload
    asked for; its rights are whatever the slot held, since nothing sets them.
    It panics only when no frame is left. *)
Theorem object_type_register_correct s tys objs next meta cs live name isz ops :
  om_rep s tys objs next (mkCache cache_metadata_cache 32 meta :: cs) live ->
  cache_meta_initialized s = true -> Z.of_nat (length tys) < 64 -> 0 <= isz <= 4032 ->
  callback_for create_code (48 + isz) (op_create ops) -> callback_for destroy_code (48 + isz) (op_destroy ops) ->
  u64 (op_create ops) -> u64 (op_destroy ops) ->
  wp (object_type_register name isz ops) s
     (fun t s' => t = ob_type_for (Z.of_nat (length tys)) /\ same_bytes live s s' /\
        exists a meta', om_rep s'
          (tys ++ [mkType (op_create ops) (op_destroy ops)
                     (get32 (k_mem s) (ob_type_for (Z.of_nat (length tys)) + 80)) (mkCache a (object_size (48 + isz)) [])])
          objs next (mkCache cache_metadata_cache 32 meta' :: cs) live)
     exhausted.
Proof.
  intros. eapply wp_type_register; [eassumption|done..| |done].
  intros a meta' s' ty Hr' Hs _. split; [done|]. split; [done|]. by exists a, meta'.
Qed.

(** C15: Creation.  It returns an object of the type with one reference, no
    handle, the next number, in memory apart from everything in use, and enters
    it in the table, after the type's [create] callback was asked once about it
    and answered 0; or, when the callback refuses, it returns 0, no object was
    added, and the type's cache has all the free objects it had, the refused
    one among them (or, if it had none, all those of the one frame it took).
    The number is used up either way. *)
Theorem object_create_correct s tys i ty objs next cs live args :
  om_rep s tys objs next cs live -> tys !! Z.to_nat i = Some ty -> 0 <= i -> 0 <= next < 2 ^ 32 - 1 ->
  wp (object_create (ob_type_for i) args) s
     (fun x s' => same_bytes live s s' /\ calls_only s s' /\
        ((asked s (t_create ty) x args 0 s' /\
          exists l d, all_free (c_size (t_cache ty)) (c_free (t_cache ty)) (x :: l) /\
            om_rep s' (<[Z.to_nat i := set_free l ty]> tys) (mkObj x i 1 0 0 next d :: objs) (next + 1) cs live) \/
         (x = 0 /\ exists y r l, r <> 0 /\ asked s (t_create ty) y args r s' /\
          all_free (c_size (t_cache ty)) (c_free (t_cache ty)) (y :: l) /\ om_rep s' (<[Z.to_nat i := set_free (y :: l) ty]> tys) objs (next + 1) cs live)))
     exhausted.
Proof.
  intros Hr Hty Hi Hn. eapply wp_object_create; [exact Hr|exact Hty|done|done| | |done].
  - intros x l d s' Hr' Hs Hc Ha _ Hall. split; [done|]. split; [done|]. left. split; [done|]. by exists l, d.
  - intros x r l s' Hall Hr0 Ha Hr' Hs Hc. split; [done|]. split; [done|]. right. split; [done|]. by exists x, r, l.
Qed.


(** Creation does not clear [destroyed], so memory that held an object is
    never freed a second time.  After the last reference to an object is
    dropped, the next object of its type gets the same memory, still marked
    destroyed; when its own last reference is dropped it is neither destroyed
    nor taken out of the table. *)
Theorem object_recycled_leaks s tys pre o post next cs live args :
  om_rep s tys (pre ++ o :: post) next cs live -> o_refs o = 1 -> o_handles o = 0 -> o_dead o = 0 ->
  0 <= next < 2 ^ 32 - 1 ->
  wp (object_deref (o_addr o) ;; x <- object_create (ob_type_for (o_type o)) args ;;
      if x =? 0 then ret 0 else object_deref x ;; ret x) s
     (fun x s' => x = 0 \/
        x = o_addr o /\ exists tys', om_rep s' tys' (mkObj x (o_type o) 0 0 0 next 1 :: pre ++ post) (next + 1) cs live)
     exhausted.
Proof.
  intros Hr Hrefs Hh Hd Hn. apply wp_bind. eapply wp_object_deref; [exact Hr|by intros []|].
  intros _ _ _ s1 (Hr1 & _ & _ & Hbyte & _). cbn [o_type o_addr set_refs set_dead o_dead] in *.
  assert (Ho : o ∈ pre ++ o :: post) by (apply elem_of_app; right; by left).
  pose proof (proj1 (Forall_forall _ _) (om_typed _ _ _ _ _ _ Hr) o Ho) as Hi. simpl in Hi.
  destruct (lookup_lt_is_Some_2 tys (Z.to_nat (o_type o))) as [ty Hty]; [lia|].
  unfold give_back in Hr1. rewrite Hty in Hr1. set (ty1 := set_free _ ty) in *.
  assert (Hty1 : <[Z.to_nat (o_type o) := ty1]> tys !! Z.to_nat (o_type o) = Some ty1).
  { apply list_lookup_insert_eq. lia. }
  apply wp_bind. eapply wp_object_create; [exact Hr1|exact Hty1|lia|done| | |done].
  - intros x l d s2 Hr2 _ _ _ Hf _. destruct Hf as [[Hf Hdd]|Hf]; [|done].
    injection Hf as <- _. rewrite Hbyte in Hdd. subst d.
    destruct (Z.eqb_spec (o_addr o) 0) as [Hz|Hz]; [by apply wp_ret; left|].
    apply wp_bind. change (o_addr o) with (o_addr (mkObj (o_addr o) (o_type o) 1 0 0 next 1)) at 1.
    eapply (wp_object_deref s2 _ []); [exact Hr2| |done]. intros _ s3 Hr3 _ _. apply wp_ret. right.
    split; [done|]. eexists. exact Hr3.
  - intros x r l s2 _ _ _ _ _ _. apply wp_ret. by left.
Qed.
End properties.

(** ** Witnesses

    A type with a payload of 32 bytes, whose [create] callback fills a word of
    the payload or refuses a non-zero argument, and whose [destroy] callback
    clears the word and is seen in a static. *)

#[local] Existing Instances arm64_virt arm64_console.

#[global] Instance demo_callbacks : Callbacks (H := arm64_virt) := {|
  call_create := fun f obj args => if f =? 0x40081000 then (if args =? 0 then store64 (obj + 48) 0xC0FFEE ;; ret 0 else ret 1) else fault;
  call_destroy := fun f obj => if f =? 0x40082000 then store64 (obj + 48) 0 ;; modify (fun s => set_test s true) else fault;
  create_code := fun f n => f = 0x40081000 /\ n = 80;
  destroy_code := fun f n => f = 0x40082000 /\ n = 80
|}.

Definition demo_ops : object_type_ops_t := mkOps 0x40081000 0x40082000 0 0 0 0 0.

Definition mm_demo : kstate := final (mm_init (H := arm64_virt) demo_boot_info) cold_state.
Definition os_demo : kstate := final ob_init mm_demo.
Definition type_demo : kstate := final (object_type_register 0x40083000 32 demo_ops) os_demo.
Definition obj_demo : kstate := final (object_create (ob_type_for 0) 0) type_demo.


Lemma demo_payload obj s v b :
  valid obj 80 = true ->
  in_payload_only obj 80 s (set_test (set_mem s (put64 (k_mem s) (obj + 48) v)) b).
Proof.
  intros _. exists (put64 (k_mem s) (obj + 48) v), (k_io s), b. split; [by destruct s|].
  eapply mods_put_in; [by left|unfold_ob; lia|unfold_ob; simpl; lia].
Qed.

#[global] Instance demo_callbacks_ok : CallbacksOk (H0 := demo_callbacks).
Proof.
  split.
  - intros f n obj args s [-> ->] _ Hv. unfold call_create. cbn [demo_callbacks]. rewrite Z.eqb_refl.
    destruct (args =? 0).
    + apply wp_bind, wp_store; [solve_valid|]. apply wp_ret.
      replace (set_mem s _) with (set_test (set_mem s (put64 (k_mem s) (obj + 48) 0xC0FFEE)) (g_test_destroyed s)) by (by destruct s).
      by apply demo_payload.
    + apply wp_ret. exists (k_mem s), (k_io s), (g_test_destroyed s). split; [by destruct s|by intros b _].
  - intros f n obj s [-> ->] _ Hv. unfold call_destroy. cbn [demo_callbacks]. rewrite Z.eqb_refl.
    apply wp_bind, wp_store; [solve_valid|]. apply wp_modify. by apply demo_payload.
Qed.

Lemma demo_create_for : callback_for create_code (48 + 32) (op_create demo_ops).
Proof. right. exists 80. by unfold sizeof_object_header. Qed.

Lemma demo_destroy_for : callback_for destroy_code (48 + 32) (op_destroy demo_ops).
Proof. right. exists 80. by unfold sizeof_object_header. Qed.

Lemma mm_demo_meta : cache_meta_initialized mm_demo = true.
Proof. vm_compute. reflexivity. Qed.

Lemma os_demo_meta : cache_meta_initialized os_demo = true.
Proof. vm_compute. reflexivity. Qed.

Lemma mm_demo_frames : free_set mm_demo <> ∅.
Proof. intros He. apply (f_equal (fun F : gset Z => size F)) in He. vm_compute in He. discriminate He. Qed.

(** Nothing sets the rights of a type. *)
Lemma os_demo_rights : get32 (k_mem os_demo) (ob_type_for 0 + 80) = 0.
Proof. vm_compute. reflexivity. Qed.

Lemma mm_demo_rep : exists meta, kheap_rep mm_demo [] [mkCache 0x40090000 32 meta] om_demo.
Proof.
  assert (Hw : safe (mm_init demo_boot_info) cold_state
            (fun _ s' => exists meta, kheap_rep s' [] [mkCache 0x40090000 32 meta] om_demo)).
  { eapply wp_mm_init; [exact demo_mm_pre|]. intros s' meta Hr _ _ _. exists meta. exact Hr. }
  destruct (wp_result _ _ _ _ tt Hw) as (s' & Hrun & meta & Hr); [vm_compute; reflexivity|].
  exists meta. unfold mm_demo, final. rewrite Hrun. exact (kheap_rep_io _ _ _ _ _ Hr).
Qed.

Lemma ob_init_correct_witness :
  exists s' meta, ob_init mm_demo = Ok tt s' /\ os_rep s' [] [] [] 1 [mkCache 0x40090000 32 meta] [].
Proof.
  destruct mm_demo_rep as [meta Hr].
  destruct (wp_result _ _ _ _ tt (ob_init_correct mm_demo [] meta [] [] Hr mm_demo_meta mm_demo_frames)) as (s' & Hrun & (meta' & Hr') & _);
    [vm_compute; reflexivity|].
  exists s', meta'. exact (conj Hrun Hr').
Defined.

Lemma os_demo_rep : exists meta, os_rep os_demo [] [] [] 1 [mkCache 0x40090000 32 meta] [].
Proof.
  destruct mm_demo_rep as [meta Hr].
  unfold os_demo. apply (os_final ob_init mm_demo tt (fun s => exists meta, os_rep s [] [] [] 1 [mkCache 0x40090000 32 meta] []) (fun _ => True));
    [|vm_compute; reflexivity].
  eapply wp_ob_init; [exact Hr|exact mm_demo_meta|exact mm_demo_frames| |done].
  intros meta' s' Hr' _ _ _. exists meta'. exact (os_rep_io _ _ _ _ _ _ _ _ Hr').
Qed.

Lemma os_demo_om : exists meta cs, om_rep os_demo [] [] 1 (mkCache 0x40090000 32 meta :: cs) [].
Proof.
  destruct os_demo_rep as (meta & Hr). exists meta. generalize os_demo, Hr. intros s [_ _ (ks & _ & _ & Hom)].
  exists ks. eapply om_rep_perm; [..|exact Hom]; [|reflexivity]. symmetry. apply Permutation_cons_append.
Qed.

Lemma object_type_register_correct_witness :
  exists s' tys cs, object_type_register 0x40083000 32 demo_ops os_demo = Ok (ob_type_for 0) s' /\
    om_rep s' tys [] 1 cs [] /\ length tys = 1%nat.
Proof.
  destruct os_demo_om as (meta & cs & Hr).
  destruct (wp_result _ _ _ _ (ob_type_for 0)
    (object_type_register_correct os_demo [] [] 1 meta cs [] 0x40083000 32 demo_ops Hr os_demo_meta ltac:(simpl; lia)
       ltac:(lia) demo_create_for demo_destroy_for ltac:(vm_compute; intuition discriminate) ltac:(vm_compute; intuition discriminate)))
    as (s' & Hrun & _ & _ & a & meta' & Hr'); [vm_compute; reflexivity|].
  exists s'. eexists _, _. exact (conj Hrun (conj Hr' eq_refl)).
Defined.

(** The state with the type, and with an object of it. *)
Lemma type_demo_om : exists a cs, om_rep type_demo [mkType 0x40081000 0x40082000 0 (mkCache a 80 [])] [] 1 cs [].
Proof.
  destruct os_demo_om as (meta & cs & Hr).
  unfold type_demo. apply (os_final (object_type_register 0x40083000 32 demo_ops) os_demo (ob_type_for 0)
    (fun s => exists a cs, om_rep s [mkType 0x40081000 0x40082000 0 (mkCache a 80 [])] [] 1 cs []) exhausted);
    [|vm_compute; reflexivity].
  eapply (wp_type_register os_demo []); [exact Hr|exact os_demo_meta|simpl; lia|lia|exact demo_create_for|exact demo_destroy_for| | | |done].
  1,2: vm_compute; intuition discriminate.
  intros a meta' s' ty Hr' _ _ _. exists a, (mkCache 0x40090000 32 meta' :: cs).
  assert (Hty : ty = mkType 0x40081000 0x40082000 0 (mkCache a 80 [])).
  { unfold ty. change (ob_type_for (Z.of_nat (length []))) with (ob_type_for 0). rewrite os_demo_rights. reflexivity. }
  rewrite <- Hty. exact (om_rep_same s' (set_io s' []) _ _ _ _ _ eq_refl eq_refl Hr').
Qed.

Lemma object_create_correct_witness :
  exists s' l d tys cs, object_create (ob_type_for 0) 0 type_demo = Ok 0x40102FB0 s' /\
    om_rep s' tys [mkObj 0x40102FB0 0 1 0 0 1 d] 2 cs [] /\ tys !! 0%nat = Some (mkType 0x40081000 0x40082000 0 l).
Proof.
  destruct type_demo_om as (a & cs & Hr).
  destruct (wp_result _ _ _ _ 0x40102FB0
    (object_create_correct type_demo _ 0 _ [] 1 cs [] 0 Hr eq_refl ltac:(lia) ltac:(lia)))
    as (s' & Hrun & _ & _ & [(_ & l & d & _ & Hr')|(Hz & _)]); [vm_compute; reflexivity| |discriminate Hz].
  exists s'. eexists _, d, _, cs. exact (conj Hrun (conj Hr' eq_refl)).
Defined.

Lemma obj_demo_dead : get8 (k_mem obj_demo) (0x40102FB0 + 28) = 0.
Proof. vm_compute. reflexivity. Qed.

Lemma obj_demo_om :
  exists a l cs, om_rep obj_demo [mkType 0x40081000 0x40082000 0 (mkCache a 80 l)] [mkObj 0x40102FB0 0 1 0 0 1 0] 2 cs [].
Proof.
  destruct type_demo_om as (a & cs & Hr).
  assert (Hd : exists l d, om_rep obj_demo [mkType 0x40081000 0x40082000 0 (mkCache a 80 l)] [mkObj 0x40102FB0 0 1 0 0 1 d] 2 cs []).
  { unfold obj_demo. apply (os_final (object_create (ob_type_for 0) 0) type_demo 0x40102FB0 (fun s => exists l d,
      om_rep s [mkType 0x40081000 0x40082000 0 (mkCache a 80 l)] [mkObj 0x40102FB0 0 1 0 0 1 d] 2 cs []) exhausted);
      [|vm_compute; reflexivity].
    eapply wp_object_create; [exact Hr|reflexivity|lia|lia| | |done].
    - intros x l d s' Hr' _ _ _ _ _ ->. exists l, d. exact (om_rep_same s' (set_io s' []) _ _ _ _ _ eq_refl eq_refl Hr').
    - intros x r l s' _ _ _ _ _ _ Hz. discriminate Hz. }
  destruct Hd as (l & d & Hr'). exists a, l, cs.
  assert (Hz : d = 0).
  { pose proof (obm_dead _ _ (om_obj_mem _ _ _ _ _ _ _ Hr' (list_elem_of_here _ _))) as Hdd. cbn [o_dead o_addr] in Hdd.
    rewrite obj_demo_dead in Hdd. symmetry. exact Hdd. }
  rewrite Hz in Hr'. exact Hr'.
Qed.


Lemma object_recycled_leaks_witness :
  exists s' tys cs,
    (object_deref 0x40102FB0 ;; x <- object_create (ob_type_for 0) 0 ;;
     if x =? 0 then ret 0 else object_deref x ;; ret x) obj_demo = Ok 0x40102FB0 s' /\
    om_rep s' tys [mkObj 0x40102FB0 0 0 0 0 2 1] 3 cs [].
Proof.
  destruct obj_demo_om as (a & l & cs & Hr).
  destruct (wp_result _ _ _ _ 0x40102FB0
    (object_recycled_leaks obj_demo _ [] _ [] 2 cs [] 0 Hr eq_refl eq_refl eq_refl ltac:(lia)))
    as (s' & Hrun & [Hz|(_ & tys' & Hr')]); [vm_compute; reflexivity|discriminate Hz|].
  exists s', tys', cs. exact (conj Hrun Hr').
Defined.
