(* ===== verification/ObRace.v ===== *)
(** * Objects between harts: the destruction protocol of base/ob/ob.c

    [object_ref], [object_deref], [object_maybe_destroy] of ob.c and what
    [object_grant], [cap_lookup] and [object_close] of cap.c do to an object's
    counters, cut at their accesses to the object's header and interleaved.  The
    lock is that of Spin.v.  The work of a table under its own lock is one step
    here; what a table keeps of the object is the number of its entries. *)

From S2P Require Import Prelude Machine Logic Console Boards Sync Spin Str Boot Pmm Heap Slab Kheap Mm Hash Ob ObSpec.

(** Where a hart is in the code that touches an object. *)
Inductive place :=
| Run                     (* outside it *)
| Drop                    (* about to take off its reference *)
| Granting | Closing      (* about to count a handle, or to count it off *)
| Lock | Spinning         (* in the [spin_lock] of object_maybe_destroy *)
| CheckRefs | CheckHandles | CheckDestroyed
| Mark                    (* about to set [destroyed] *)
| Unlock (go : bool)
| Destroy.                (* past [if (!go) return] *)

#[global] Instance place_eq_dec : EqDecision place.
Proof. solve_decision. Defined.

(** A hart: the references it holds, and its place. *)
Abbreviation hart := (nat * place)%type.

(** [r_entries] counts the table entries that name the object, [r_freed] how
    often it has been destroyed. *)
Record race := mkRace { r_state : kstate; r_harts : list hart; r_entries : nat; r_freed : nat }.

Section race.
Context `{Platform}.
(** The object, and whether it may be granted to a table. *)
Context (obj : Z) (shared : bool).

Abbreviation lock := (obj + ob_lock).

(** Where a step of [spin_lock] leaves a hart. *)
Definition after_spin (q : pc) : place :=
  match q with Crit => CheckRefs | Poll => Spinning | _ => Lock end.

(** One access of a hart inside the protocol. *)
Definition place_step (p : place) : M place :=
  match p with
  | Drop => old <- atomic_fetch_sub (obj + ob_refcount) 1 ;;
            ret (if old =? 1 then Lock else Run)
  | Granting => atomic_fetch_add (obj + ob_handle_count) 1 ;; ret Run
  | Closing => atomic_fetch_sub (obj + ob_handle_count) 1 ;; ret Lock
  | Lock => q <- spin_step lock Xchg ;; ret (after_spin q)
  | Spinning => q <- spin_step lock Poll ;; ret (after_spin q)
  | CheckRefs => refs <- atomic_load (obj + ob_refcount) ;;
                 ret (if refs =? 0 then CheckHandles else Unlock false)
  | CheckHandles => handles <- atomic_load (obj + ob_handle_count) ;;
                    ret (if handles =? 0 then CheckDestroyed else Unlock false)
  | CheckDestroyed => destroyed <- load8 (obj + ob_destroyed) ;;
                      ret (if destroyed =? 0 then Mark else Unlock false)
  | Mark => store8 (obj + ob_destroyed) 1 ;; ret (Unlock true)
  | Unlock go => spin_unlock lock ;; ret (if go then Destroy else Run)
  | Run | Destroy => ret p
  end.

(** A hart uses only what it has: a reference it holds, or an entry of the
    table.  Destroying gives the memory away, so anything may be there after;
    what harts do elsewhere leaves the header alone. *)
Inductive race_step (i : nat) : race -> race -> Prop :=
| race_local n p p' s s' hs e f :
    hs !! i = Some (n, p) -> p <> Run -> p <> Destroy -> place_step p s = Ok p' s' ->
    race_step i (mkRace s hs e f) (mkRace s' (<[i := (n, p')]> hs) e f)
| race_ref n s s' hs e f :
    hs !! i = Some (S n, Run) -> get32 (k_mem s) (obj + ob_refcount) < 2 ^ 32 - 1 -> object_ref obj s = Ok tt s' ->
    race_step i (mkRace s hs e f) (mkRace s' (<[i := (S (S n), Run)]> hs) e f)
| race_deref n s hs e f :
    hs !! i = Some (S n, Run) ->
    race_step i (mkRace s hs e f) (mkRace s (<[i := (n, Drop)]> hs) e f)
| race_grant n s hs e f :
    shared = true -> hs !! i = Some (S n, Run) ->
    race_step i (mkRace s hs e f) (mkRace s (<[i := (S n, Granting)]> hs) (S e) f)
| race_lookup n s s' hs e f :
    hs !! i = Some (n, Run) -> object_ref obj s = Ok tt s' ->
    race_step i (mkRace s hs (S e) f) (mkRace s' (<[i := (S n, Run)]> hs) (S e) f)
| race_close n s hs e f :
    hs !! i = Some (n, Run) ->
    race_step i (mkRace s hs (S e) f) (mkRace s (<[i := (n, Closing)]> hs) e f)
| race_destroy n s s' hs e f :
    hs !! i = Some (n, Destroy) ->
    race_step i (mkRace s hs e f) (mkRace s' (<[i := (n, Run)]> hs) e (S f))
| race_elsewhere n s s' hs e f :
    hs !! i = Some (n, Run) -> unchanged [(obj, sizeof_object_header)] (k_mem s) (k_mem s') ->
    race_step i (mkRace s hs e f) (mkRace s' hs e f).

(** The references the harts hold, and those they are about to take off. *)
Definition holds (h : hart) : nat := (h.1 + match h.2 with Drop => 1 | _ => 0 end)%nat.
Definition held (hs : list hart) : nat := sum_list_with holds hs.

(** A live object that nobody is touching, with its references and handles
    counted. *)
Record race_start (c : race) : Prop := {
  rs_run : Forall (fun h => h.2 = Run) (r_harts c);
  rs_refs : get32 (k_mem (r_state c)) (obj + ob_refcount) = Z.of_nat (held (r_harts c));
  rs_handles : get32 (k_mem (r_state c)) (obj + ob_handle_count) = Z.of_nat (r_entries c);
  rs_lock : get32 (k_mem (r_state c)) lock = 0;
  rs_live : get8 (k_mem (r_state c)) (obj + ob_destroyed) = 0;
  rs_freed : r_freed c = 0%nat;
  rs_held : (0 < held (r_harts c))%nat;
  rs_private : shared = false -> r_entries c = 0%nat
}.

Inductive race_reach (c0 : race) : race -> Prop :=
| race_refl : race_reach c0 c0
| race_trans c i c' : race_reach c0 c -> race_step i c c' -> race_reach c0 c'.

(** ** The header

    All the protocol looks at, and what each access does to it. *)

Record view := mkView { v_refs : Z; v_handles : Z; v_lock : Z; v_dead : Z }.

Definition header (s : kstate) : view :=
  mkView (get32 (k_mem s) (obj + ob_refcount)) (get32 (k_mem s) (obj + ob_handle_count))
         (get32 (k_mem s) lock) (get8 (k_mem s) (obj + ob_destroyed)).

Definition place_view (p : place) (v : view) : place * view :=
  let 'mkView r h l d := v in
  match p with
  | Drop => (if r =? 1 then Lock else Run, mkView (wrap32 (r - 1)) h l d)
  | Granting => (Run, mkView r (wrap32 (h + 1)) l d)
  | Closing => (Lock, mkView r (wrap32 (h - 1)) l d)
  | Lock => (if l =? 0 then CheckRefs else Spinning, mkView r h 1 d)
  | Spinning => (if l =? 0 then Lock else Spinning, v)
  | CheckRefs => (if r =? 0 then CheckHandles else Unlock false, v)
  | CheckHandles => (if h =? 0 then CheckDestroyed else Unlock false, v)
  | CheckDestroyed => (if d =? 0 then Mark else Unlock false, v)
  | Mark => (Unlock true, mkView r h l 1)
  | Unlock go => (if go then Destroy else Run, mkView r h 0 d)
  | Run | Destroy => (p, v)
  end.

Hypothesis obj_valid : valid obj sizeof_object_header = true.

Lemma view_put32 s x v :
  x = obj + ob_refcount \/ x = obj + ob_handle_count \/ x = lock -> u32 v ->
  header (set_mem s (put32 (k_mem s) x v)) =
  let 'mkView r h l d := header s in
  mkView (if decide (x = obj + ob_refcount) then v else r) (if decide (x = obj + ob_handle_count) then v else h)
         (if decide (x = lock) then v else l) d.
Proof.
  intros Hx Hv. unfold header, ob_refcount, ob_handle_count, ob_lock, ob_destroyed in *. cbn [set_mem k_mem].
  rewrite <- !getw_1.
  destruct Hx as [ -> | [ -> | -> ] ]; repeat case_decide; try lia;
    rewrite ?(getw_putw 4) by exact Hv; rewrite ?(getw_putw_ne 4 4) by lia;
    rewrite ?(getw_putw_ne 4 1) by lia; done.
Qed.

Ltac put_view Hput :=
  rewrite ?Hput by first [apply wrap32_range|unfold u32; lia|auto]; repeat case_decide; try lia.

Lemma place_run p s :
  exists s', place_step p s = Ok (place_view p (header s)).1 s' /\ header s' = (place_view p (header s)).2.
Proof.
  enough (Hw : safe (place_step p) s (fun p' s' => p' = (place_view p (header s)).1 /\ header s' = (place_view p (header s)).2)).
  { apply safe_run in Hw as (p' & s' & Hr & -> & Hh). by exists s'. }
  assert (Hv : forall x k, obj <= x -> x + k <= obj + 48 -> valid x k = true).
  { intros x k H1 H2. eapply valid_sub; [exact obj_valid|lia|done]. }
  assert (Hput : forall x v, x = obj + ob_refcount \/ x = obj + ob_handle_count \/ x = lock -> u32 v ->
            header (set_mem s (put32 (k_mem s) x v)) = _) by (intros x v; apply view_put32).
  unfold place_view. destruct (header s) as [r h l d] eqn:Hh. pose proof Hh as Hh'. injection Hh' as Hr' Hh' Hl' Hd'.
  unfold ob_refcount, ob_handle_count, ob_lock, ob_destroyed in *.
  destruct p as [| | | | | | | | | | go |]; unfold place_step, ob_refcount, ob_handle_count, ob_lock, ob_destroyed.
  - by apply wp_ret.
  - apply wp_bind, wp_fetch_sub; [apply Hv; lia|]. apply wp_ret. put_view Hput. by rewrite Hr'.
  - apply wp_bind, wp_fetch_add; [apply Hv; lia|]. apply wp_ret. put_view Hput. by rewrite Hh'.
  - apply wp_bind, wp_fetch_sub; [apply Hv; lia|]. apply wp_ret. put_view Hput. by rewrite Hh'.
  - apply wp_bind. unfold wp at 1. rewrite spin_step_run by (apply Hv; lia). apply wp_ret. rewrite Hl'.
    rewrite Hput by (auto || done). put_view Hput. by destruct (l =? 0).
  - apply wp_bind. unfold wp at 1. rewrite spin_step_run by (apply Hv; lia). apply wp_ret. rewrite Hl', Hh.
    by destruct (l =? 0).
  - apply wp_bind, wp_load; [apply Hv; lia|]. apply wp_ret. by rewrite Hr'.
  - apply wp_bind, wp_load; [apply Hv; lia|]. apply wp_ret. by rewrite Hh'.
  - apply wp_bind, wp_load; [apply Hv; lia|]. apply wp_ret. by rewrite getw_1, Hd'.
  - apply wp_bind, wp_store; [apply Hv; lia|]. apply wp_ret. split; [done|].
    unfold header, ob_refcount, ob_handle_count, ob_lock, ob_destroyed. cbn [set_mem k_mem].
    rewrite !(getw_putw_ne 1 4) by lia. rewrite get8_put1, decide_True by lia. by rewrite Hr', Hh', Hl'.
  - apply wp_bind, wp_spin_unlock; [apply Hv; lia|]. apply wp_ret. put_view Hput. done.
  - by apply wp_ret.
Qed.

Lemma ref_run s s' :
  object_ref obj s = Ok tt s' ->
  header s' = mkView (wrap32 (v_refs (header s) + 1)) (v_handles (header s)) (v_lock (header s)) (v_dead (header s)).
Proof.
  intros Hrun.
  assert (Hw : safe (object_ref obj) s (fun _ s'' =>
    s'' = set_mem s (put32 (k_mem s) (obj + ob_refcount) (wrap32 (get32 (k_mem s) (obj + ob_refcount) + 1))))).
  { unfold object_ref. apply wp_bind, wp_fetch_add; [|by apply wp_ret].
    eapply valid_sub; [exact obj_valid|..]; unfold ob_refcount, sizeof_object_header; simpl; lia. }
  apply safe_run in Hw as ([] & s2 & Hr & ->). rewrite Hr in Hrun. injection Hrun as <-.
  rewrite view_put32 by (auto || apply wrap32_range). unfold header, ob_refcount, ob_handle_count, ob_lock.
  repeat case_decide; try lia; done.
Qed.

Lemma elsewhere_view s s' : unchanged [(obj, sizeof_object_header)] (k_mem s) (k_mem s') -> header s' = header s.
Proof.
  intros Hu. assert (Hb : forall b, obj <= b < obj + 48 -> get8 (k_mem s') b = get8 (k_mem s) b).
  { intros b Hb. apply Hu. unfold outside. rewrite Forall_singleton. simpl. unfold sizeof_object_header. lia. }
  unfold header, ob_refcount, ob_handle_count, ob_lock, ob_destroyed.
  f_equal; [apply getw_ext; intros b Hb'; apply Hb; lia..|apply Hb; lia].
Qed.

(** ** Counting harts *)

(** The harts at one of the places [P]. *)
Definition places (P : place -> bool) (hs : list hart) : nat :=
  sum_list_with (fun h => if P h.2 then 1 else 0)%nat hs.

Lemma sum_insert {A} (f : A -> nat) l i x y :
  l !! i = Some x -> (sum_list_with f (<[i := y]> l) + f x = sum_list_with f l + f y)%nat.
Proof.
  revert i. induction l as [|a l IH]; intros [|i] Hi; simplify_eq/=; [lia|].
  specialize (IH _ Hi). lia.
Qed.

Lemma places_insert P hs i h h' :
  hs !! i = Some h ->
  (places P (<[i := h']> hs) + (if P h.2 then 1 else 0) = places P hs + (if P h'.2 then 1 else 0))%nat.
Proof. apply sum_insert. Qed.

Lemma places_in P hs i h : hs !! i = Some h -> P h.2 = true -> (0 < places P hs)%nat.
Proof.
  unfold places. revert i. induction hs as [|a hs IH]; intros [|i] Hi HP; simplify_eq/=; [rewrite HP; lia|].
  specialize (IH _ Hi HP). lia.
Qed.

Lemma places_two P hs i j h h' :
  i <> j -> hs !! i = Some h -> hs !! j = Some h' -> P h.2 = true -> P h'.2 = true -> (2 <= places P hs)%nat.
Proof.
  intros Hij Hi Hj HP HP'. revert i j Hij Hi Hj. unfold places.
  induction hs as [|a hs IH]; intros [|i] [|j] Hij Hi Hj; simplify_eq/=.
  - rewrite HP. pose proof (places_in P _ _ _ Hj HP') as Hp. unfold places in Hp. lia.
  - rewrite HP'. pose proof (places_in P _ _ _ Hi HP) as Hp. unfold places in Hp. lia.
  - assert (i <> j) as Hij' by congruence. specialize (IH i j Hij' Hi Hj). lia.
Qed.

Lemma places_or P Q hs :
  (forall p, P p && Q p = false) -> places (fun p => P p || Q p) hs = (places P hs + places Q hs)%nat.
Proof.
  intros HPQ. unfold places. induction hs as [|h hs IH]; simpl; [done|]. rewrite IH.
  specialize (HPQ h.2). destruct (P h.2), (Q h.2); simpl in *; try done; lia.
Qed.

Definition checking (p : place) : bool :=
  match p with CheckRefs | CheckHandles | CheckDestroyed | Unlock _ => true | _ => false end.
Definition marking (p : place) : bool := match p with Mark => true | _ => false end.
Definition decided (p : place) : bool := match p with Unlock true | Destroy => true | _ => false end.

(** Before the memory is given away: the lock's word counts the harts in the
    critical section, [destroyed] those that have decided to destroy. *)
Definition once (v : view) (hs : list hart) : Prop :=
  v_lock v = Z.of_nat (places checking hs + places marking hs) /\
  (places checking hs + places marking hs <= 1)%nat /\
  v_dead v = Z.of_nat (places decided hs) /\ (places decided hs <= 1)%nat /\
  ((0 < places marking hs)%nat -> places decided hs = 0%nat).

Definition once_inv (c : race) : Prop := r_freed c = 0%nat -> once (header (r_state c)) (r_harts c).

Ltac once_counts Hi y :=
  pose proof (places_insert checking _ _ _ y Hi);
  pose proof (places_insert marking _ _ _ y Hi);
  pose proof (places_insert decided _ _ _ y Hi).

(** A hart that goes from one place outside the critical section to another. *)
Lemma once_move v v' hs i n n' p p' :
  hs !! i = Some (n, p) -> checking p || marking p || decided p = false -> checking p' || marking p' || decided p' = false ->
  v_lock v' = v_lock v -> v_dead v' = v_dead v -> once v hs -> once v' (<[i := (n', p')]> hs).
Proof.
  intros Hi Hp Hp' Hl Hd (O1 & O2 & O3 & O4 & O5). once_counts Hi (n', p'). unfold once. rewrite Hl, Hd.
  cbn [snd] in *. destruct (checking p), (marking p), (decided p), (checking p'), (marking p'), (decided p'); try done.
  repeat split; lia.
Qed.

Lemma once_local v hs i n p :
  hs !! i = Some (n, p) -> p <> Destroy -> once v hs -> let '(p', v') := place_view p v in once v' (<[i := (n, p')]> hs).
Proof.
  intros Hi Hd (O1 & O2 & O3 & O4 & O5). destruct (place_view p v) as [p' v'] eqn:Hv.
  once_counts Hi (n, p'). pose proof (places_in checking _ _ _ Hi). pose proof (places_in marking _ _ _ Hi).
  clear Hi. destruct v as [r h l d]. cbn [v_lock v_dead snd] in *.
  destruct p as [| | | | | | | | | | go |]; try done; injection Hv as Hp <-; unfold once; cbn [v_lock v_dead];
    subst p'; repeat case_match; cbn [checking marking decided] in *; repeat split; lia.
Qed.

Lemma once_step i c c' : race_step i c c' -> once_inv c -> once_inv c'.
Proof.
  intros Hs HO Hf.
  destruct Hs as [n p p' s s' hs e f Hi Hr Hd Hrun|n s s' hs e f Hi Hb Hrun|n s hs e f Hi|n s hs e f Hsh Hi
    |n s s' hs e f Hi Hrun|n s hs e f Hi|n s s' hs e f Hi|n s s' hs e f Hi Hu]; cbn [r_state r_harts r_freed] in *;
    try discriminate Hf; specialize (HO Hf); cbn [r_state r_harts r_freed] in HO.
  - destruct (place_run p s) as (s2 & Hrun2 & Hv). pose proof (once_local _ _ _ _ _ Hi Hd HO) as HO'.
    destruct (place_view p (header s)) as [p2 v2]. cbn [fst snd] in *. rewrite Hrun2 in Hrun. injection Hrun as <- <-.
    by rewrite Hv.
  - apply ref_run in Hrun. eapply once_move; [exact Hi|done|done|by rewrite Hrun..|exact HO].
  - by eapply once_move.
  - by eapply once_move.
  - apply ref_run in Hrun. eapply once_move; [exact Hi|done|done|by rewrite Hrun..|exact HO].
  - by eapply once_move.
  - by rewrite (elsewhere_view _ _ Hu).
Qed.

(** ** Objects that are in no table *)

(** On the way to destroying the object; at work on a handle; told not to. *)
Definition late (p : place) : bool :=
  match p with Run | Drop | Granting | Closing => false | _ => true end.
Definition handling (p : place) : bool := match p with Granting | Closing => true | _ => false end.
Definition refused (p : place) : bool := match p with Unlock false => true | _ => false end.

Lemma places_mono P Q hs : (forall p, P p = true -> Q p = true) -> (places P hs <= places Q hs)%nat.
Proof.
  intros HPQ. unfold places. induction hs as [|h hs IH]; simpl; [done|].
  specialize (HPQ h.2). destruct (P h.2), (Q h.2); try lia; by specialize (HPQ eq_refl).
Qed.

(** The only hart at one of the places [P] is at none of [Q]. *)
Lemma places_only P Q hs i h :
  hs !! i = Some h -> P h.2 = true -> Q h.2 = false -> P Run = false -> (forall p, Q p = true -> P p = true) ->
  (places P hs <= 1)%nat -> places Q hs = 0%nat.
Proof.
  intros Hi HP HQ HR HQP H1.
  pose proof (places_insert P hs i h (0%nat, Run) Hi) as H2. pose proof (places_insert Q hs i h (0%nat, Run) Hi) as H3.
  pose proof (places_mono Q P (<[i := (0%nat, Run)]> hs) HQP) as H4.
  cbn [snd] in *. rewrite HP, HR in H2. rewrite HQ in H3. destruct (Q Run); lia.
Qed.

Lemma held_insert hs i h h' : hs !! i = Some h -> (held (<[i := h']> hs) + holds h = held hs + holds h')%nat.
Proof. apply (sum_insert holds). Qed.

Lemma held_has hs i h : hs !! i = Some h -> (holds h <= held hs)%nat.
Proof. intros Hi. pose proof (held_insert _ _ _ (0%nat, Run) Hi) as Hh. unfold holds in *. simpl in Hh. lia. Qed.

(** As long as somebody holds a reference the counter is right and nobody is
    destroying; then exactly one hart is, until it has; then nobody is left. *)
Definition private (v : view) (hs : list hart) (f : nat) : Prop :=
  places handling hs = 0%nat /\ places refused hs = 0%nat /\
  (f = 0%nat -> v_refs v = Z.of_nat (held hs) /\ v_handles v = 0 /\
     ((0 < held hs)%nat -> places late hs = 0%nat) /\ (held hs = 0%nat -> places late hs = 1%nat)) /\
  ((0 < f)%nat -> f = 1%nat /\ held hs = 0%nat /\ places late hs = 0%nat).

Definition private_inv (c : race) : Prop :=
  r_entries c = 0%nat /\ private (header (r_state c)) (r_harts c) (r_freed c).

Ltac private_counts Hi y :=
  pose proof (places_insert handling _ _ _ y Hi);
  pose proof (places_insert refused _ _ _ y Hi);
  pose proof (places_insert late _ _ _ y Hi);
  pose proof (held_insert _ _ _ y Hi);
  pose proof (held_has _ _ _ Hi).

Lemma private_gone v hs i n p : private v hs 1 -> hs !! i = Some (n, p) -> n = 0%nat /\ p = Run.
Proof.
  intros (P1 & _ & _ & P4) Hi. destruct P4 as (_ & Hh & Hl); [lia|].
  private_counts Hi (0%nat, Run). unfold holds in *. cbn [fst snd] in *.
  destruct p; cbn [handling late] in *; first [lia|split; [lia|done]].
Qed.

Lemma private_busy v hs i n p f : private v hs (S f) -> hs !! i = Some (n, p) -> n = 0%nat /\ p = Run.
Proof. intros HP Hi. pose proof HP as (_ & _ & _ & P4). destruct P4 as ([= ->] & _); [lia|]. by eapply private_gone. Qed.

Lemma private_local v hs i n p f :
  hs !! i = Some (n, p) -> p <> Run -> p <> Destroy -> u32 (v_refs v) -> (f = 0%nat -> once v hs) -> private v hs f ->
  let '(p', v') := place_view p v in private v' (<[i := (n, p')]> hs) f.
Proof.
  intros Hi Hr Hd Hu HO HP. destruct f as [|f]; [|].
  2:{ by destruct (private_busy _ _ _ _ _ _ HP Hi) as [_ ->]. }
  destruct HP as (P1 & P2 & P3 & _). destruct (P3 eq_refl) as (H1 & H2 & H3 & H4). clear P3.
  specialize (HO eq_refl). destruct HO as (_ & _ & O3 & _ & _).
  pose proof (places_only late decided hs i (n, p) Hi) as Hone.
  pose proof (places_in late hs i (n, p) Hi) as Hlate. pose proof (places_in refused hs i (n, p) Hi) as Href.
  pose proof (places_in handling hs i (n, p) Hi) as Hhand.
  destruct (place_view p v) as [p' v'] eqn:Hv. private_counts Hi (n, p'). clear Hi.
  destruct v as [r h l d]. unfold holds in *. cbn [v_refs v_handles v_dead fst snd] in *. unfold u32 in Hu.
  destruct p as [| | | | | | | | | | go |]; try done; injection Hv as Hp <-; unfold private; cbn [v_refs v_handles];
    subst p'; repeat case_match; cbn [handling refused late decided] in *; try lia;
    try (specialize (Hlate eq_refl)); try (specialize (Href eq_refl)); try (specialize (Hhand eq_refl)); try lia;
    try (rewrite wrap32_small by (unfold u32; lia)); repeat split; try lia.
  assert (Hdl : forall p, decided p = true -> late p = true) by (by intros []).
  specialize (Hone eq_refl eq_refl eq_refl Hdl). lia.
Qed.

(** A reference taken, or given up to [object_deref]; the object gone. *)
Lemma private_ref v v' hs i n f :
  hs !! i = Some (S n, Run) -> v_refs v < 2 ^ 32 - 1 -> 0 <= v_refs v -> v_refs v' = wrap32 (v_refs v + 1) ->
  v_handles v' = v_handles v -> private v hs f -> private v' (<[i := (S (S n), Run)]> hs) f.
Proof.
  intros Hi Hb H0 Hr Hh HP. destruct f as [|f]; [|by destruct (private_busy _ _ _ _ _ _ HP Hi)].
  destruct HP as (P1 & P2 & P3 & _). destruct (P3 eq_refl) as (Q1 & Q2 & Q3 & Q4).
  private_counts Hi (S (S n), Run). unfold holds in *. cbn [fst snd handling refused late] in *.
  unfold private. rewrite Hr, Hh, wrap32_small by (unfold u32; lia).
  split; [lia|]. split; [lia|]. split; [|lia]. intros _. repeat split; lia.
Qed.

Lemma private_deref v hs i n f :
  hs !! i = Some (S n, Run) -> private v hs f -> private v (<[i := (n, Drop)]> hs) f.
Proof.
  intros Hi HP. destruct f as [|f]; [|by destruct (private_busy _ _ _ _ _ _ HP Hi)].
  destruct HP as (P1 & P2 & P3 & _). destruct (P3 eq_refl) as (Q1 & Q2 & Q3 & Q4).
  private_counts Hi (n, Drop). unfold holds in *. cbn [fst snd handling refused late] in *. unfold private.
  split; [lia|]. split; [lia|]. split; [|lia]. intros _. repeat split; lia.
Qed.

Lemma private_destroy v v' hs i n f :
  hs !! i = Some (n, Destroy) -> private v hs f -> private v' (<[i := (n, Run)]> hs) (S f).
Proof.
  intros Hi HP. destruct f as [|f].
  2:{ by destruct (private_busy _ _ _ _ _ _ HP Hi). }
  destruct HP as (P1 & P2 & P3 & _). destruct (P3 eq_refl) as (Q1 & Q2 & Q3 & Q4).
  pose proof (places_in late hs i (n, Destroy) Hi eq_refl) as Hl.
  private_counts Hi (n, Run). unfold holds in *. cbn [fst snd handling refused late] in *.
  split; [lia|]. split; [lia|]. split; [lia|]. intros _. repeat split; lia.
Qed.

Lemma private_step i c c' :
  shared = false -> race_step i c c' -> once_inv c -> private_inv c -> private_inv c'.
Proof.
  intros Hsh Hs HO [He HP]. unfold private_inv, once_inv in *.
  destruct Hs as [n p p' s s' hs e f Hi Hr Hd Hrun|n s s' hs e f Hi Hb Hrun|n s hs e f Hi|n s hs e f Ht Hi
    |n s s' hs e f Hi Hrun|n s hs e f Hi|n s s' hs e f Hi|n s s' hs e f Hi Hu];
    cbn [r_state r_harts r_entries r_freed] in *; try congruence; (split; [done|]).
  - destruct (place_run p s) as (s2 & Hrun2 & Hv).
    pose proof (private_local (header s) _ _ _ _ _ Hi Hr Hd (get32_u32 (k_mem s) _) HO HP) as HP'.
    destruct (place_view p (header s)) as [p2 v2]. cbn [fst snd] in *. rewrite Hrun2 in Hrun. injection Hrun as <- <-.
    by rewrite Hv.
  - apply ref_run in Hrun. pose proof (get32_u32 (k_mem s) (obj + ob_refcount)) as [H0 _].
    eapply private_ref; [exact Hi| | | | |exact HP]; [exact Hb|exact H0|by rewrite Hrun..].
  - by apply private_deref.
  - by eapply private_destroy.
  - by rewrite (elsewhere_view _ _ Hu).
Qed.

Lemma start_places P c : P Run = false -> race_start c -> places P (r_harts c) = 0%nat.
Proof.
  intros HP [Hrun _ _ _ _ _ _ _]. unfold places. induction Hrun as [|h hs Hh _ IH]; simpl; [done|]. by rewrite Hh, HP.
Qed.

Lemma start_once c : race_start c -> once_inv c.
Proof.
  intros Hs _. unfold once. rewrite !start_places by done. destruct Hs. unfold header. cbn [v_lock v_dead]. lia.
Qed.

Lemma start_private c : shared = false -> race_start c -> private_inv c.
Proof.
  intros Hsh Hs. pose proof Hs as [_ Hr Hh _ _ Hf Hp He]. split; [by apply He|]. unfold private.
  rewrite !start_places by done. unfold header. cbn [v_refs v_handles]. rewrite Hr, Hh, (He Hsh), Hf. lia.
Qed.

Lemma reach_once c0 c : race_start c0 -> race_reach c0 c -> once_inv c.
Proof. intros Hs. induction 1 as [|c i c' _ IH Hstep]; [by apply start_once|by eapply once_step]. Qed.

Lemma reach_private c0 c : shared = false -> race_start c0 -> race_reach c0 c -> private_inv c.
Proof.
  intros Hsh Hs. induction 1 as [|c i c' Hr IH Hstep]; [by apply start_private|].
  eapply private_step; [done|exact Hstep|by eapply reach_once|exact IH].
Qed.

(** While one hart destroys the object every other is done with it. *)
Lemma private_alone v hs i j n h :
  private v hs 0 -> hs !! i = Some (n, Destroy) -> hs !! j = Some h -> i <> j -> n = 0%nat /\ h = (0%nat, Run).
Proof.
  intros HP Hi Hj Hij. pose proof HP as (P1 & P2 & P3 & _). destruct (P3 eq_refl) as (_ & _ & Q3 & Q4).
  pose proof (places_in late hs i (n, Destroy) Hi eq_refl) as Hl.
  pose proof (held_has _ _ _ Hi) as Hn. unfold holds in Hn. cbn [fst snd] in Hn. split; [lia|].
  assert (HP' : private v (<[i := (n, Run)]> hs) 1) by (by eapply private_destroy).
  destruct h as [m p]. rewrite <- (list_lookup_insert_ne hs i j (n, Run)) in Hj by done.
  by destruct (private_gone _ _ _ _ _ HP' Hj) as [-> ->].
Qed.

Lemma private_idle v hs f : private v hs f -> Forall (eq (0%nat, Run)) hs -> f <> 0%nat.
Proof.
  intros (_ & _ & P3 & _) Hidle ->. destruct (P3 eq_refl) as (_ & _ & _ & P4).
  assert (Hz : held hs = 0%nat /\ places late hs = 0%nat).
  { clear P3 P4. unfold held, places. induction Hidle as [|h hs <- _ [IH1 IH2]]; simpl; [done|]. by rewrite IH1, IH2. }
  destruct Hz as [Hz1 Hz2]. rewrite P4 in Hz2; done.
Qed.
End race.

(** ** One hart by itself *)

Section alone.
Context `{Callbacks} (obj : Z).
Hypothesis obj_valid : valid obj sizeof_object_header = true.

Abbreviation lock := (obj + ob_lock).

(** The protocol run to its end by a hart alone: whether it destroys. *)
Definition alone_step (p : place) : M (place + bool) :=
  match p with
  | Run => ret (inr false)
  | Destroy => ret (inr true)
  | _ => p' <- place_step obj p ;; ret (inl p')
  end.
Definition place_alone (p : place) : M bool := while alone_step p.

Definition destroy_after (p : place) : M unit :=
  go <- place_alone p ;; if go : bool then object_destroy obj else ret tt.

Lemma header_valid k n : 0 <= k -> k + n <= 48 -> valid (obj + k) n = true.
Proof. intros Hk Hn. eapply valid_sub; [exact obj_valid|lia|unfold sizeof_object_header; lia]. Qed.

Ltac head_valid := apply header_valid; unfold ob_refcount, ob_handle_count, ob_lock, ob_destroyed; lia.

(** Whether [object_maybe_destroy] finds the object dead. *)
Definition dead_in (m : memory) : bool :=
  (get32 m (obj + ob_refcount) =? 0) && (get32 m (obj + ob_handle_count) =? 0) && (get8 m (obj + ob_destroyed) =? 0).

Lemma dead_run s : dead obj s = Ok (dead_in (k_mem s)) s.
Proof.
  unfold dead, dead_in, atomic_load, load32, load8.
  rewrite (run_bind _ _ _ _ _ (load_run 4 (obj + ob_refcount) s ltac:(head_valid))).
  destruct (_ =? 0); [cbn [negb andb]|done].
  rewrite (run_bind _ _ _ _ _ (load_run 4 (obj + ob_handle_count) s ltac:(head_valid))).
  destruct (_ =? 0); [cbn [negb andb]|done].
  rewrite (run_bind _ _ _ _ _ (load_run 1 (obj + ob_destroyed) s ltac:(head_valid))). by rewrite getw_1.
Qed.

(** With the lock taken, [m] the memory: the rest of the critical section. *)
Definition decided_mem (m : memory) : memory :=
  put32 (if dead_in m then put8 m (obj + ob_destroyed) 1 else m) lock 0.

Ltac alone_round Hstep := cbn [run_for alone_step]; unfold bind at 1; rewrite Hstep; cbn [ret].

Lemma checks_run_for s :
  run_for 6 alone_step CheckRefs s = Some (dead_in (k_mem s), set_mem s (decided_mem (k_mem s))).
Proof.
  assert (Hu : forall go t, place_step obj (Unlock go) t =
            Ok (if go then Destroy else Run) (set_mem t (put32 (k_mem t) lock 0))).
  { intros go t. unfold place_step. rewrite (run_bind _ _ t tt (set_mem t (put32 (k_mem t) lock 0))); [done|].
    apply safe_eq, wp_spin_unlock; [head_valid|done]. }
  assert (Hr : forall t, place_step obj CheckRefs t =
            Ok (if get32 (k_mem t) (obj + ob_refcount) =? 0 then CheckHandles else Unlock false) t).
  { intros t. unfold place_step, atomic_load. by rewrite (run_bind _ _ _ _ _ (load_run 4 (obj + ob_refcount) t ltac:(head_valid))). }
  assert (Hh : forall t, place_step obj CheckHandles t =
            Ok (if get32 (k_mem t) (obj + ob_handle_count) =? 0 then CheckDestroyed else Unlock false) t).
  { intros t. unfold place_step, atomic_load. by rewrite (run_bind _ _ _ _ _ (load_run 4 (obj + ob_handle_count) t ltac:(head_valid))). }
  assert (Hd : forall t, place_step obj CheckDestroyed t =
            Ok (if get8 (k_mem t) (obj + ob_destroyed) =? 0 then Mark else Unlock false) t).
  { intros t. unfold place_step. rewrite <- getw_1. by rewrite (run_bind _ _ _ _ _ (load_run 1 (obj + ob_destroyed) t ltac:(head_valid))). }
  assert (Hm : forall t, place_step obj Mark t = Ok (Unlock true) (set_mem t (put8 (k_mem t) (obj + ob_destroyed) 1))).
  { intros t. unfold place_step. by rewrite (run_bind _ _ _ _ _ (store_run 1 (obj + ob_destroyed) 1 t ltac:(head_valid))). }
  unfold decided_mem, dead_in. alone_round Hr.
  destruct (get32 (k_mem s) (obj + ob_refcount) =? 0); [|by alone_round Hu].
  cbn [andb]. alone_round Hh.
  destruct (get32 (k_mem s) (obj + ob_handle_count) =? 0); [|by alone_round Hu].
  cbn [andb]. alone_round Hd.
  destruct (get8 (k_mem s) (obj + ob_destroyed) =? 0); [|by alone_round Hu].
  alone_round Hm. by alone_round Hu.
Qed.

Lemma maybe_destroy_alone s : destroy_after Lock s = object_maybe_destroy obj s.
Proof.
  assert (Hv : valid lock 4 = true) by head_valid.
  set (s1 := set_mem s (put32 (k_mem s) lock 1)).
  assert (Hlock : place_step obj Lock s = Ok (if get32 (k_mem s) lock =? 0 then CheckRefs else Spinning) s1).
  { unfold place_step. rewrite (run_bind _ _ _ _ _ (spin_step_run lock Hv Xchg s)). by destruct (_ =? 0). }
  unfold destroy_after, object_maybe_destroy. destruct (get32 (k_mem s) lock =? 0) eqn:Hl.
  - assert (Hs : spin_lock lock s = Ok tt s1) by (apply safe_eq, wp_spin_lock; [done|by apply Z.eqb_eq|done]).
    rewrite (run_bind _ _ _ _ _ Hs), (run_bind _ _ _ _ _ (dead_run s1)).
    assert (Ha : place_alone Lock s = Ok (dead_in (k_mem s1)) (set_mem s1 (decided_mem (k_mem s1)))).
    { apply (while_run_for 7); [lia|]. cbn [run_for alone_step]. rewrite (run_bind _ _ _ _ _ Hlock). apply checks_run_for. }
    rewrite (run_bind _ _ _ _ _ Ha). set (go := dead_in (k_mem s1)).
    set (s2 := set_mem s1 (decided_mem (k_mem s1))).
    assert (Hw : (when go (store8 (obj + ob_destroyed) 1) ;; spin_unlock lock) s1 = Ok tt s2).
    { apply safe_eq. unfold s2, decided_mem. fold go. destruct go.
      - apply wp_bind, wp_store; [head_valid|]. by apply wp_spin_unlock.
      - apply wp_bind, wp_ret. by apply wp_spin_unlock. }
    unfold bind in Hw |- *. destruct (when go _ s1) as [[] s3| | |]; try done. rewrite Hw. by destruct go.
  - apply Z.eqb_neq in Hl. unfold bind. rewrite while_held_hangs by done. fold s1.
    assert (Hl1 : get32 (k_mem s1) lock =? 0 = false).
    { apply Z.eqb_neq. unfold s1. simpl. rewrite (getw_putw 4) by lia. lia. }
    destruct (while_stuck_in (fun p s' => p = Spinning /\ s' = s1)
                alone_step Lock s Spinning s1) as (y & s' & [-> ->] & Hh).
    + unfold alone_step. by rewrite (run_bind _ _ _ _ _ Hlock).
    + done.
    + intros p s' [-> ->]. exists Spinning, s1. split; [|done].
      assert (Hp : place_step obj Spinning s1 = Ok Spinning s1).
      { unfold place_step. rewrite (run_bind _ _ _ _ _ (spin_step_run lock Hv Poll s1)). by rewrite Hl1. }
      unfold alone_step. by rewrite (run_bind _ _ _ _ _ Hp).
    + unfold place_alone. by rewrite Hh.
Qed.
End alone.

(** ** Properties *)

Section properties.
Context `{Callbacks} (obj : Z).
Hypothesis obj_valid : valid obj sizeof_object_header = true.

(** C16: However many harts use an object, and whether or not it is in a table,
    until its memory is given away two of them are never in the critical
    section of [object_maybe_destroy] together, and two never both decide to
    destroy it; whoever decides has marked it destroyed. *)
Theorem one_hart_destroys shared c0 c i j n m p q :
  race_start obj shared c0 -> race_reach obj shared c0 c -> r_freed c = 0%nat ->
  r_harts c !! i = Some (n, p) -> r_harts c !! j = Some (m, q) ->
  (decided p = true -> get8 (k_mem (r_state c)) (obj + ob_destroyed) = 1) /\
  (i <> j -> ~ (decided p = true /\ decided q = true) /\
             ~ (checking p || marking p = true /\ checking q || marking q = true)).
Proof.
  intros Hs Hr Hf Hi Hj. pose proof (reach_once _ _ obj_valid _ _ Hs Hr Hf) as (O1 & O2 & O3 & O4 & _).
  change (v_dead _) with (get8 (k_mem (r_state c)) (obj + ob_destroyed)) in O3. split.
  - intros Hp. pose proof (places_in decided _ _ _ Hi Hp). lia.
  - intros Hij. split; intros [Hp Hq].
    + pose proof (places_two decided _ _ _ _ _ Hij Hi Hj Hp Hq). lia.
    + pose proof (places_two (fun p => checking p || marking p) _ _ _ _ _ Hij Hi Hj Hp Hq) as H2.
      rewrite places_or in H2 by (by intros []). lia.
Qed.

(** C4: An object that is in no table is destroyed once and only when nobody has
    it.  The hart that destroys it finds every other hart without a reference
    and outside the code; after that no hart touches it again; and when all
    harts are done with it, it has been destroyed: nothing leaks.  This is so
    in every interleaving of the accesses of [object_ref] and
    [object_deref]. *)
Theorem private_object_dies_once c0 c :
  race_start obj false c0 -> race_reach obj false c0 c ->
  (r_freed c <= 1)%nat /\
  (r_freed c = 1%nat -> Forall (eq (0%nat, Run)) (r_harts c)) /\
  (Forall (eq (0%nat, Run)) (r_harts c) -> r_freed c = 1%nat) /\
  (forall i n, r_harts c !! i = Some (n, Destroy) ->
     r_freed c = 0%nat /\ n = 0%nat /\ forall j h, i <> j -> r_harts c !! j = Some h -> h = (0%nat, Run)).
Proof.
  intros Hs Hr. destruct (reach_private _ _ obj_valid _ _ eq_refl Hs Hr) as [_ HP].
  assert (Hle : (r_freed c <= 1)%nat) by (destruct HP as (_ & _ & _ & HP); lia).
  split; [done|]. split; [|split].
  - intros Hf. rewrite Hf in HP. apply Forall_lookup. intros i [n p] Hi.
    by destruct (private_gone _ _ _ _ _ HP Hi) as [-> ->].
  - intros Hidle. pose proof (private_idle _ _ _ HP Hidle). lia.
  - intros i n Hi. destruct (r_freed c) as [|f]; [|by destruct (private_busy _ _ _ _ _ _ HP Hi)].
    pose proof (places_in late _ _ _ Hi eq_refl) as Hl. pose proof (held_has _ _ _ Hi) as Hn.
    destruct HP as (P1 & P2 & P3 & P4) eqn:HPe. split; [done|]. clear HPe.
    split; [|intros j h Hij Hj; by eapply (private_alone _ _ i j)].
    destruct (P3 eq_refl) as (_ & _ & Q3 & _). unfold holds in Hn. simpl in Hn. lia.
Qed.

(** C31: Run by one hart alone, the accesses of the protocol are the code:
    [object_deref] is its atomic subtraction and then the protocol from where
    it leaves the hart, [object_close] after it has emptied the entry is
    the same with the count of handles; also when the lock is held and both
    spin for ever. *)
Theorem alone_is_object_deref s :
  (p <- place_step obj Drop ;; destroy_after obj p) s = object_deref obj s /\
  (p <- place_step obj Closing ;; destroy_after obj p) s =
  (atomic_fetch_sub (obj + ob_handle_count) 1 ;; object_maybe_destroy obj) s.
Proof.
  assert (Hsub : forall k, 0 <= k <= 44 -> exists s', atomic_fetch_sub (obj + k) 1 s = Ok (get32 (k_mem s) (obj + k)) s').
  { intros k Hk. eexists. apply safe_eq, wp_fetch_sub; [apply header_valid; [done|lia..]|]. split; reflexivity. }
  split; unfold place_step, object_deref.
  - destruct (Hsub ob_refcount) as [s' Hs']; [unfold ob_refcount; lia|].
    unfold bind at 1 2. rewrite Hs'. cbn [ret]. unfold bind. rewrite Hs'.
    destruct (_ =? 1); [by apply maybe_destroy_alone|].
    unfold destroy_after. rewrite (run_bind _ _ s' false s'); [done|].
    by apply (while_run_for 1).
  - destruct (Hsub ob_handle_count) as [s' Hs']; [unfold ob_handle_count; lia|].
    unfold bind at 1 2. rewrite Hs'. cbn [ret]. unfold bind. rewrite Hs'. by apply maybe_destroy_alone.
Qed.
End properties.

(** ** Schedules, to run the harts in a given order *)

Inductive move := Local | Ref | Deref | Grant | Lookup | Close | Destroyed (s : kstate).

Section schedules.
Context `{Platform} (obj : Z) (shared : bool).

(** The next configuration when hart [i] makes a move it can make. *)
Definition race_move (i : nat) (a : move) (c : race) : option race :=
  let 'mkRace s hs e f := c in
  match a, hs !! i with
  | Local, Some (n, p) =>
      if decide (p = Run \/ p = Destroy) then None
      else match place_step obj p s with Ok p' s' => Some (mkRace s' (<[i := (n, p')]> hs) e f) | _ => None end
  | Ref, Some (S n, Run) =>
      if get32 (k_mem s) (obj + ob_refcount) <? 2 ^ 32 - 1 then
        match object_ref obj s with Ok _ s' => Some (mkRace s' (<[i := (S (S n), Run)]> hs) e f) | _ => None end
      else None
  | Deref, Some (S n, Run) => Some (mkRace s (<[i := (n, Drop)]> hs) e f)
  | Grant, Some (S n, Run) => if shared then Some (mkRace s (<[i := (S n, Granting)]> hs) (S e) f) else None
  | Lookup, Some (n, Run) =>
      match e, object_ref obj s with
      | S _, Ok _ s' => Some (mkRace s' (<[i := (S n, Run)]> hs) e f)
      | _, _ => None
      end
  | Close, Some (n, Run) => match e with S e => Some (mkRace s (<[i := (n, Closing)]> hs) e f) | O => None end
  | Destroyed s', Some (n, Destroy) => Some (mkRace s' (<[i := (n, Run)]> hs) e (S f))
  | _, _ => None
  end.

Fixpoint race_moves (l : list (nat * move)) (c : race) : option race :=
  match l with
  | [] => Some c
  | (i, a) :: l => c' ← race_move i a c; race_moves l c'
  end.

Lemma race_move_step i a c c' : race_move i a c = Some c' -> race_step obj shared i c c'.
Proof.
  destruct c as [s hs e f]. unfold race_move. intros Hm.
  destruct a, (hs !! i) as [[n p]|] eqn:Hi; try done.
  - case_decide as Hp; [done|]. destruct (place_step obj p s) as [p' s'| | |] eqn:Hrun; try done. injection Hm as <-.
    eapply race_local; [done|tauto|tauto|done].
  - destruct n as [|n], p; try done. destruct (Z.ltb_spec (get32 (k_mem s) (obj + ob_refcount)) (2 ^ 32 - 1)); [|done].
    destruct (object_ref obj s) as [[] s'| | |] eqn:Hrun; try done. injection Hm as <-. by apply race_ref.
  - destruct n as [|n], p; try done. injection Hm as <-. by apply race_deref.
  - destruct n as [|n], p; try done. destruct shared eqn:Hsh; [|done]. injection Hm as <-. by apply race_grant.
  - destruct p, e as [|e]; try done. destruct (object_ref obj s) as [[] s'| | |] eqn:Hrun; try done.
    injection Hm as <-. by apply race_lookup.
  - destruct p, e as [|e]; try done. injection Hm as <-. by apply race_close.
  - destruct p; try done. injection Hm as <-. by apply race_destroy.
Qed.

Lemma race_moves_reach l c0 c c' :
  race_reach obj shared c0 c -> race_moves l c = Some c' -> race_reach obj shared c0 c'.
Proof.
  revert c. induction l as [|[i a] l IH]; intros c Hr Hl; simpl in Hl; [by injection Hl as <-|].
  destruct (race_move i a c) as [c1|] eqn:Hm; [|done]. eapply IH; [|exact Hl].
  eapply race_trans; [exact Hr|by eapply race_move_step].
Qed.
End schedules.

(** ** Two harts and one object *)

Section two_harts.
Abbreviation thing := 0x40102FB0.

(** An object with [refs] references and [handles] handles, live and unlocked. *)
Definition thing_state (refs handles : Z) : kstate :=
  set_mem cold_state (put32 (put32 (put32 (put8 ∅ (thing + ob_destroyed) 0) (thing + ob_lock) 0)
    (thing + ob_handle_count) handles) (thing + ob_refcount) refs).

(** Both harts hold a reference; no table has the object. *)
Definition both_hold : race := mkRace (thing_state 2 0) [(1%nat, Run); (1%nat, Run)] 0 0.
(** The first hart holds the only reference; a table has the object. *)
Definition one_holds : race := mkRace (thing_state 1 1) [(1%nat, Run); (0%nat, Run)] 1 0.

(** The harts give their references up; the second was the last. *)
Definition both_drop : list (nat * move) :=
  [(0%nat, Deref); (1%nat, Deref); (0%nat, Local)] ++ replicate 7 (1%nat, Local).

(** The first hart drops its reference and reads a count of 0; before it reads
    the count of handles, the second finds the object in the table, and closes
    the handle. *)
Definition lookup_between : list (nat * move) :=
  [(0%nat, Deref); (0%nat, Local); (0%nat, Local); (0%nat, Local);
   (1%nat, Lookup); (1%nat, Close); (1%nat, Local)] ++ replicate 4 (0%nat, Local).

Lemma both_hold_start : race_start thing false both_hold.
Proof. split; [by repeat constructor|by vm_compute..|cbn; lia|done]. Qed.

Lemma one_holds_start : race_start thing true one_holds.
Proof. split; [by repeat constructor|by vm_compute..|cbn; lia|done]. Qed.

(** With the object in a table this is not so: the two counts are read one
    after the other.  A hart drops the last reference and finds the count of
    references at 0; a second hart looks the object up, which gives it a
    reference, and closes its handle; the first hart then finds the count of
    handles at 0 and destroys the object.  The second hart still has its
    reference, and is about to take the lock of the memory given away. *)
Theorem shared_object_dies_in_use s' :
  race_start thing true one_holds /\
  exists c, race_reach (H := arm64_virt) thing true one_holds c /\
    r_freed c = 1%nat /\ r_harts c = [(0%nat, Run); (1%nat, Lock)] /\ r_state c = s'.
Proof.
  split; [apply one_holds_start|].
  eexists. split; [|split; [|split]].
  - eapply (race_moves_reach thing true (lookup_between ++ [(0%nat, Destroyed s')])); [apply race_refl|]. vm_compute. reflexivity.
  - reflexivity.
  - reflexivity.
  - reflexivity.
Qed.

(** The configuration a schedule leads to. *)
Definition after (shared : bool) (l : list (nat * move)) (c : race) : race :=
  match race_moves (H := arm64_virt) thing shared l c with Some c' => c' | None => c end.

Lemma after_reach shared l c :
  is_Some (race_moves (H := arm64_virt) thing shared l c) ->
  race_reach (H := arm64_virt) thing shared c (after shared l c).
Proof. unfold after. intros [c' Hc]. rewrite Hc. by eapply race_moves_reach; [apply race_refl|]. Qed.

(** Hart 1 has decided to destroy the object; hart 0 never comes near it. *)
Lemma private_object_dies_once_witness :
  let c := after false both_drop both_hold in
  r_harts c = [(0%nat, Run); (0%nat, Destroy)] /\
  forall j h, (1 <> j)%nat -> r_harts c !! j = Some h -> h = (0%nat, Run).
Proof.
  cbn zeta. assert (Hh : r_harts (after false both_drop both_hold) = [(0%nat, Run); (0%nat, Destroy)]) by by vm_compute.
  split; [exact Hh|].
  pose proof (@private_object_dies_once arm64_virt thing eq_refl both_hold (after false both_drop both_hold)
    both_hold_start (after_reach false both_drop both_hold ltac:(vm_compute; eauto))) as (_ & _ & _ & Hd).
  destruct (Hd 1%nat 0%nat) as (_ & _ & Hj); [by rewrite Hh|exact Hj].
Defined.

(** Here both harts are in the code at once: the second closes its handle. *)
Lemma one_hart_destroys_witness :
  let c := after true lookup_between one_holds in
  r_harts c = [(0%nat, Destroy); (1%nat, Lock)] /\
  get8 (k_mem (r_state c)) (thing + ob_destroyed) = 1.
Proof.
  cbn zeta. assert (Hh : r_harts (after true lookup_between one_holds) = [(0%nat, Destroy); (1%nat, Lock)]) by by vm_compute.
  split; [exact Hh|].
  eapply (@one_hart_destroys arm64_virt thing eq_refl true one_holds (after true lookup_between one_holds) 0 1);
    [exact one_holds_start|apply after_reach; vm_compute; eauto|by vm_compute|by rewrite Hh|by rewrite Hh|done].
Defined.

Lemma alone_is_object_deref_witness :
  let s := thing_state 2 0 in
  (p <- place_step (H := arm64_virt) thing Drop ;; destroy_after (H0 := demo_callbacks) thing p) s =
  object_deref (H0 := demo_callbacks) thing s.
Proof. exact (proj1 (@alone_is_object_deref arm64_virt demo_callbacks thing eq_refl (thing_state 2 0))). Defined.
End two_harts.
