(* ===== verification/Cap.v ===== *)
(** * Capabilities: base/ob/cap.c

    A capability table has 4096 entries, each with an object, the rights
    granted on it and the generation the object had; a handle is the index of
    an entry. *)

From Stdlib Require Import String.
From S2P Require Import Prelude Machine Logic Console Boards Sync Str Boot Pmm Heap Slab Kheap Mm Hash Ob.

#[local] Open Scope string_scope.
#[local] Open Scope list_scope.
#[local] Open Scope Z_scope.

(** Offsets in [cap_table_t] and [cap_entry_t] of include/ob/ob.hpp. *)
Definition CAP_TABLE_MAX : Z := 4096.
Definition CAP_INVALID : Z := 0xffffffff.
Definition sizeof_cap_entry : Z := 16.
Definition ce_object : Z := 0.
Definition ce_rights : Z := 8.
Definition ce_generation : Z := 12.
Definition ct_next_free_hint : Z := 65536.
Definition ct_lock : Z := 65540.
Definition sizeof_cap_table : Z := 65544.

Definition RIGHT_READ : Z := 1.
Definition RIGHT_WRITE : Z := 2.

Section cap.
Context `{Callbacks}.

Definition entry_at (table idx : Z) : Z := table + sizeof_cap_entry * idx.

Definition cap_table_create : M Z :=
  t <- kmalloc sizeof_cap_table ;;
  if t =? 0 then ret 0
  else
    memset t 0 sizeof_cap_table ;;
    store32 (t + ct_lock) 0 ;;
    ret t.

(** One round of the search of [object_grant]. *)
Definition try_slot (table obj rights hint i : Z) : M (option Z) :=
  let idx := wrap32 (hint + i) mod CAP_TABLE_MAX in
  o <- load64 (entry_at table idx + ce_object) ;;
  if o =? 0 then
    generation <- load32 (obj + ob_generation) ;;
    store64 (entry_at table idx + ce_object) obj ;;
    store32 (entry_at table idx + ce_rights) rights ;;
    store32 (entry_at table idx + ce_generation) generation ;;
    atomic_store_release (table + ct_next_free_hint) (idx + 1) ;;
    ret (Some idx)
  else ret None.

Definition object_grant (table obj rights : Z) : M Z :=
  type_id <- load32 (obj + ob_type_id) ;;
  default_rights <- load32 (ob_type_for type_id + ty_default_rights) ;;
  if negb (Z.land rights default_rights =? rights) then
    klog_info "cap" "grant rejected: rights exceed type default_rights" [] ;;
    ret CAP_INVALID
  else
    spin_lock (table + ct_lock) ;;
    hint <- atomic_load (table + ct_next_free_hint) ;;
    found <- for_ret (Z.to_nat CAP_TABLE_MAX) 0 (try_slot table obj rights hint) ;;
    let slot := default CAP_INVALID found in
    spin_unlock (table + ct_lock) ;;
    (if negb (slot =? CAP_INVALID) then
       atomic_fetch_add (obj + ob_handle_count) 1 ;; ret tt
     else klog_info "cap" "grant failed: table full" []) ;;
    ret slot.

(** Returns the [int] of the C function: 0, or -1. *)
Definition object_close (table handle : Z) : M Z :=
  if CAP_TABLE_MAX <=? handle then ret (-1)
  else
    spin_lock (table + ct_lock) ;;
    obj <- load64 (entry_at table handle + ce_object) ;;
    if obj =? 0 then
      spin_unlock (table + ct_lock) ;;
      ret (-1)
    else
      store64 (entry_at table handle + ce_object) 0 ;;
      spin_unlock (table + ct_lock) ;;
      atomic_fetch_sub (obj + ob_handle_count) 1 ;;
      object_maybe_destroy obj ;;
      ret 0.

Definition cap_lookup (table handle required_rights : Z) : M Z :=
  if CAP_TABLE_MAX <=? handle then ret 0
  else
    spin_lock (table + ct_lock) ;;
    let e := entry_at table handle in
    obj <- load64 (e + ce_object) ;;
    if obj =? 0 then
      spin_unlock (table + ct_lock) ;;
      ret 0
    else
      generation <- load32 (obj + ob_generation) ;;
      e_generation <- load32 (e + ce_generation) ;;
      if negb (generation =? e_generation) then
        store64 (entry_at table handle + ce_object) 0 ;;
        spin_unlock (table + ct_lock) ;;
        atomic_fetch_sub (obj + ob_handle_count) 1 ;;
        object_maybe_destroy obj ;;
        ret 0
      else
        rights <- load32 (e + ce_rights) ;;
        if negb (Z.land rights required_rights =? required_rights) then
          spin_unlock (table + ct_lock) ;;
          ret 0
        else
          object_ref obj ;;
          spin_unlock (table + ct_lock) ;;
          ret obj.
End cap.

(** ** Representation *)

Record cap_entry := mkEntry { e_object : Z; e_rights : Z; e_gen : Z }.

(** A table's memory, as words: a block of several frames need not be
    accessible as one range. *)
Definition cap_area (t : Z) : list (Z * Z) := words t 8193.

Section cap_rep.
Context `{Callbacks}.

(** The table at [t] with the entries [ents] and its lock at [k]. *)
Record cap_mem (m : memory) (t : Z) (ents : list cap_entry) (hint k : Z) : Prop := {
  cm_len : length ents = 4096%nat;
  cm_entries : forall i e, ents !! i = Some e ->
    get64 m (entry_at t (Z.of_nat i)) = e_object e /\
    get32 m (entry_at t (Z.of_nat i) + 8) = e_rights e /\
    get32 m (entry_at t (Z.of_nat i) + 12) = e_gen e;
  cm_hint : get32 m (t + 65536) = hint;
  cm_lock : get32 m (t + 65540) = k
}.

(** The object [x] of an entry is one of [objs]. *)
Definition known (objs : list object) (x : Z) : Prop := exists o, o ∈ objs /\ o_addr o = x.

(** The object manager with a capability table. *)
Record cap_rep (s : kstate) (tys : list otype) (objs : list object) (next : Z) (cs : list cache_t)
    (t : Z) (ents : list cap_entry) (hint : Z) (live : list (Z * Z)) : Prop := {
  cr_om : om_rep s tys objs next cs (cap_area t ++ live);
  cr_mem : cap_mem (k_mem s) t ents hint 0;
  cr_known : Forall (fun e => e_object e = 0 \/ known objs (e_object e)) ents
}.
End cap_rep.

Ltac unfold_cap :=
  unfold entry_at, CAP_TABLE_MAX, sizeof_cap_entry, ce_object, ce_rights, ce_generation, ct_next_free_hint,
    ct_lock, sizeof_cap_table in *; unfold_ob.

Section cap_lemmas.
Context `{Callbacks, !Console, !CallbacksOk}.

(** ** The words of a table *)

Lemma cap_word t j : 0 <= j < 8193 -> (t + 8 * j, 8) ∈ cap_area t.
Proof. intros Hj. unfold cap_area, words. apply list_elem_of_fmap. exists j. split; [done|]. apply elem_of_seqZ. lia. Qed.

Lemma cap_within t j a n : 0 <= j < 8193 -> t + 8 * j <= a -> a + n <= t + 8 * j + 8 -> within [(a, n)] (cap_area t).
Proof.
  intros Hj Ha Hn. constructor; [|constructor]. exists (t + 8 * j), 8. split; [by apply cap_word|done].
Qed.

Section table.
Context (s : kstate) (tys : list otype) (objs : list object) (next : Z) (cs : list cache_t) (t : Z) (live : list (Z * Z)).
Context (Hr : om_rep s tys objs next cs (cap_area t ++ live)).

Lemma cap_valid j a n : 0 <= j < 8193 -> t + 8 * j <= a -> a + n <= t + 8 * j + 8 -> valid a n = true.
Proof.
  intros Hj Ha Hn. assert (Hin : (t + 8 * j, 8) ∈ cap_area t ++ live) by (apply elem_of_app; left; by apply cap_word).
  pose proof (ow_valid _ _ _ (om_live_owned _ _ _ _ _ _ _ Hr Hin)) as Hv. simpl in Hv. solve_valid.
Qed.

Lemma entry_valid i k n : 0 <= i < 4096 -> 0 <= k -> k + n <= 8 \/ 8 <= k -> k + n <= 16 -> valid (entry_at t i + k) n = true.
Proof.
  intros Hi Hk Hn Ht. unfold_cap. destruct (Z_lt_ge_dec k 8).
  - apply (cap_valid (2 * i)); lia.
  - apply (cap_valid (2 * i + 1)); lia.
Qed.

Lemma cap_write j a n v :
  0 <= j < 8193 -> t + 8 * j <= a -> a + Z.of_nat n <= t + 8 * j + 8 ->
  let s' := set_mem s (putw n (k_mem s) a v) in
  om_rep s' tys objs next cs (cap_area t ++ live) /\ same_bytes live s s'.
Proof.
  intros Hj Ha Hn s'. apply (om_writes _ _ _ _ _ (cap_area t) live [(a, Z.of_nat n)]); [done| |apply mods_putw].
  by eapply cap_within.
Qed.

Lemma entry_write i k n v :
  0 <= i < 4096 -> 0 <= k -> k + Z.of_nat n <= 8 \/ 8 <= k -> k + Z.of_nat n <= 16 ->
  let s' := set_mem s (putw n (k_mem s) (entry_at t i + k) v) in
  om_rep s' tys objs next cs (cap_area t ++ live) /\ same_bytes live s s'.
Proof.
  intros Hi Hk Hn Ht. unfold_cap. destruct (Z_lt_ge_dec k 8).
  - apply (cap_write (2 * i)); lia.
  - apply (cap_write (2 * i + 1)); lia.
Qed.
End table.

Lemma cap_mem_same s s' t ents hint k :
  same_bytes (cap_area t) s s' -> cap_mem (k_mem s) t ents hint k -> cap_mem (k_mem s') t ents hint k.
Proof.
  intros Hs [Hl He Hh Hk].
  assert (Hg : forall j a n, 0 <= j < 8193 -> t + 8 * j <= a -> a + Z.of_nat n <= t + 8 * j + 8 ->
            getw n (k_mem s') a = getw n (k_mem s) a).
  { intros j a n Hj Ha Hn. apply (same_bytes_getw _ _ _ _ _ n _ Hs (cap_word t j Hj)); lia. }
  split; [done| | |].
  - intros i e Hi. apply lookup_lt_Some in Hi as Hlt. destruct (He i e Hi) as (E1 & E2 & E3).
    unfold_cap. rewrite (Hg (2 * Z.of_nat i)), !(Hg (2 * Z.of_nat i + 1)) by (simpl; lia). done.
  - rewrite (Hg 8192) by (simpl; lia). done.
  - rewrite (Hg 8192) by (simpl; lia). done.
Qed.

(** ** Its fields under writes *)

Lemma cap_set_lock m t ents hint k v :
  u32 v -> cap_mem m t ents hint k -> cap_mem (put32 m (t + 65540) v) t ents hint v.
Proof.
  intros Hv [Hl He Hh Hk]. split; [done| | |by apply (getw_putw 4)].
  - intros i e Hi. apply lookup_lt_Some in Hi as Hlt. unfold_cap. rewrite !(getw_putw_ne 4) by (simpl; lia). by apply He.
  - by rewrite (getw_putw_ne 4 4) by lia.
Qed.

Lemma cap_set_hint m t ents hint k v :
  u32 v -> cap_mem m t ents hint k -> cap_mem (put32 m (t + 65536) v) t ents v k.
Proof.
  intros Hv [Hl He Hh Hk]. split; [done| |by apply (getw_putw 4)|].
  - intros i e Hi. apply lookup_lt_Some in Hi as Hlt. unfold_cap. rewrite !(getw_putw_ne 4) by (simpl; lia). by apply He.
  - by rewrite (getw_putw_ne 4 4) by lia.
Qed.

(** An entry is rewritten. *)
Lemma cap_set_entry m m' t ents hint k i e :
  cap_mem m t ents hint k -> 0 <= i < 4096 -> mods [(entry_at t i, 16)] m m' ->
  get64 m' (entry_at t i) = e_object e -> get32 m' (entry_at t i + 8) = e_rights e ->
  get32 m' (entry_at t i + 12) = e_gen e -> cap_mem m' t (<[Z.to_nat i := e]> ents) hint k.
Proof.
  intros [Hl He Hh Hk] Hi Hm E1 E2 E3. split; [by rewrite length_insert| | |].
  - intros j e' Hj. apply list_lookup_insert_Some in Hj as [(<- & <- & _)|[Hne Hj]].
    + rewrite Z2Nat.id by lia. done.
    + apply lookup_lt_Some in Hj as Hlt. destruct (He j e' Hj) as (F1 & F2 & F3).
      unfold_cap. rewrite !(mods_getw _ _ _ _ _ Hm) by solve_aparts. done.
  - unfold_cap. rewrite (mods_getw _ _ _ _ _ Hm) by solve_aparts. done.
  - unfold_cap. rewrite (mods_getw _ _ _ _ _ Hm) by solve_aparts. done.
Qed.

(** ** The table's lock *)

(** The state while the lock is at [k]. *)
Definition cap_state (s : kstate) tys objs next cs t ents hint k live : Prop :=
  om_rep s tys objs next cs (cap_area t ++ live) /\ cap_mem (k_mem s) t ents hint k.

Lemma wp_cap_lock s tys objs next cs t ents hint live (Q : unit -> kstate -> Prop) E :
  cap_state s tys objs next cs t ents hint 0 live ->
  (forall s', cap_state s' tys objs next cs t ents hint 1 live -> same_bytes live s s' -> heap_only s s' -> Q tt s') ->
  wp (spin_lock (t + ct_lock)) s Q E.
Proof.
  intros [Hr Hm] HQ. unfold ct_lock.
  assert (Hv : valid (t + 65540) 4 = true) by (apply (cap_valid _ _ _ _ _ _ _ Hr 8192); lia).
  apply wp_spin_lock; [done|by apply (cm_lock _ _ _ _ _ Hm)|].
  destruct (cap_write _ _ _ _ _ _ _ Hr 8192 (t + 65540) 4 1) as [Hr' Hs]; [lia|lia|simpl; lia|].
  apply HQ; [split; [done|]|done|apply heap_only_set_mem]. eapply cap_set_lock; [unfold u32; lia|done].
Qed.

Lemma wp_cap_unlock s tys objs next cs t ents hint k live (Q : unit -> kstate -> Prop) E :
  cap_state s tys objs next cs t ents hint k live ->
  (forall s', cap_state s' tys objs next cs t ents hint 0 live -> same_bytes live s s' -> heap_only s s' -> Q tt s') ->
  wp (spin_unlock (t + ct_lock)) s Q E.
Proof.
  intros [Hr Hm] HQ. unfold ct_lock.
  assert (Hv : valid (t + 65540) 4 = true) by (apply (cap_valid _ _ _ _ _ _ _ Hr 8192); lia).
  apply wp_spin_unlock; [done|].
  destruct (cap_write _ _ _ _ _ _ _ Hr 8192 (t + 65540) 4 0) as [Hr' Hs]; [lia|lia|simpl; lia|].
  apply HQ; [split; [done|]|done|apply heap_only_set_mem]. eapply cap_set_lock; [unfold u32; lia|done].
Qed.

(** ** Granting *)

(** The slot the search looks at in round [i]. *)
Definition slot_at (hint i : Z) : Z := wrap32 (hint + i) mod 4096.

Lemma slot_range hint i : 0 <= slot_at hint i < 4096.
Proof. apply Z.mod_pos_bound. lia. Qed.

(** What the next search starts from: RISC-V always stores 0. *)
Definition next_hint (idx : Z) : Z := match arch with ARM64 => idx + 1 | RISCV => 0 end.

Lemma next_hint_range idx : 0 <= idx < 4096 -> u32 (next_hint idx).
Proof. intros Hi. unfold next_hint, u32. destruct arch; lia. Qed.

Lemma om_set_refs_live s tys objs next cs live o :
  om_rep s tys objs next cs live -> o ∈ objs -> 0 < o_addr o < 2 ^ 64.
Proof.
  intros Hr Ho. pose proof (om_size _ _ _ _ _ _ _ Hr Ho).
  destruct (om_owned _ _ _ _ _ _ _ Hr Ho) as [? ? _ _ _]. lia.
Qed.

(** A free slot is taken. *)
Lemma wp_take_slot s tys objs next cs t ents hint live o rights hint0 i e (Q : option Z -> kstate -> Prop) E :
  cap_state s tys objs next cs t ents hint 1 live -> o ∈ objs -> u32 rights ->
  ents !! Z.to_nat (slot_at hint0 i) = Some e -> e_object e = 0 ->
  (forall s', cap_state s' tys objs next cs t
       (<[Z.to_nat (slot_at hint0 i) := mkEntry (o_addr o) rights (o_gen o)]> ents) (next_hint (slot_at hint0 i)) 1 live ->
     same_bytes live s s' -> heap_only s s' -> Q (Some (slot_at hint0 i)) s') ->
  wp (try_slot t (o_addr o) rights hint0 i) s Q E.
Proof.
  intros [Hr Hm] Ho Hrights He He0 HQ. unfold try_slot. set (idx := slot_at hint0 i) in *.
  change (wrap32 (hint0 + i) mod CAP_TABLE_MAX) with idx.
  pose proof (slot_range hint0 i) as Hidx. fold idx in Hidx.
  destruct (cm_entries _ _ _ _ _ Hm _ _ He) as (E1 & _ & _). rewrite Z2Nat.id in E1 by lia.
  pose proof (fun k n => entry_valid _ _ _ _ _ _ _ Hr idx k n Hidx) as Hv.
  unfold_cap. fold (entry_at t idx) in *. change (t + 16 * idx) with (entry_at t idx) in *.
  apply wp_bind, wp_load; [apply Hv; simpl; lia|]. rewrite Z.add_0_r, E1, He0. simpl.
  apply wp_bind, wp_load; [by apply (obj_valid _ _ _ _ _ _ _ _ _ Hr Ho)|].
  pose proof (om_obj_mem _ _ _ _ _ _ _ Hr Ho) as Hom. rewrite (obm_gen _ _ Hom).
  pose proof (get32_u32 (k_mem s) (o_addr o + 12)) as Hgen. rewrite (obm_gen _ _ Hom) in Hgen.
  pose proof (om_set_refs_live _ _ _ _ _ _ _ Hr Ho) as Hoa.
  rewrite <- (Z.add_0_r (entry_at t idx)) at 1.
  destruct (entry_write _ _ _ _ _ _ _ Hr idx 0 8 (o_addr o) Hidx) as [Hr1 Hs1]; [lia|simpl; lia|simpl; lia|].
  destruct (entry_write _ _ _ _ _ _ _ Hr1 idx 8 4 rights Hidx) as [Hr2 Hs2]; [lia|simpl; lia|simpl; lia|].
  destruct (entry_write _ _ _ _ _ _ _ Hr2 idx 12 4 (o_gen o) Hidx) as [Hr3 Hs3]; [lia|simpl; lia|simpl; lia|].
  destruct (cap_write _ _ _ _ _ _ _ Hr3 8192 (t + 65536) 4 (next_hint idx)) as [Hr4 Hs4]; [lia|lia|simpl; lia|].
  apply wp_bind, wp_store; [apply Hv; simpl; lia|]. apply wp_bind, wp_store; [apply Hv; simpl; lia|].
  apply wp_bind, wp_store; [apply Hv; simpl; lia|].
  apply wp_bind, wp_store_release; [apply (cap_valid _ _ _ _ _ _ _ Hr 8192); lia|]. apply wp_ret.
  fold (next_hint idx). cbn [k_mem set_mem] in *.
  apply HQ; [split; [exact Hr4|]| |].
  - cbn [k_mem set_mem]. apply (cap_set_hint _ _ _ hint); [by apply next_hint_range|].
    eapply cap_set_entry; [exact Hm|done| |..]; cbn [e_object e_rights e_gen].
    + intros b [Hb _]%outside_cons. by rewrite !get8_putw, !decide_False by lia.
    + rewrite !(getw_putw_ne 4 8) by (simpl; lia). rewrite Z.add_0_r. apply (getw_putw 8). simpl. lia.
    + rewrite (getw_putw_ne 4 4) by (simpl; lia). by apply (getw_putw 4).
    + by apply (getw_putw 4).
  - eapply same_bytes_trans; [exact Hs1|]. eapply same_bytes_trans; [exact Hs2|]. by eapply same_bytes_trans.
  - exact (heap_only_set_mem s _).
Qed.

(** The search of [object_grant]. *)
Lemma wp_find_slot s tys objs next cs t ents hint live o rights (Q : option Z -> kstate -> Prop) E :
  cap_state s tys objs next cs t ents hint 1 live -> o ∈ objs -> u32 rights ->
  (forall i e s', 0 <= i < 4096 -> ents !! Z.to_nat (slot_at hint i) = Some e -> e_object e = 0 ->
     (forall j e', 0 <= j < i -> ents !! Z.to_nat (slot_at hint j) = Some e' -> e_object e' <> 0) ->
     cap_state s' tys objs next cs t
       (<[Z.to_nat (slot_at hint i) := mkEntry (o_addr o) rights (o_gen o)]> ents) (next_hint (slot_at hint i)) 1 live ->
     same_bytes live s s' -> heap_only s s' -> Q (Some (slot_at hint i)) s') ->
  ((forall j e, 0 <= j < 4096 -> ents !! Z.to_nat (slot_at hint j) = Some e -> e_object e <> 0) -> Q None s) ->
  wp (for_ret (Z.to_nat CAP_TABLE_MAX) 0 (try_slot t (o_addr o) rights hint)) s Q E.
Proof.
  intros Hs Ho Hrights HQ HQ0.
  apply (wp_for_ret (fun i s' => s' = s /\
    forall j e, 0 <= j < i -> ents !! Z.to_nat (slot_at hint j) = Some e -> e_object e <> 0)).
  - split; [done|]. intros j e Hj. lia.
  - intros i s' Hi (-> & Hbefore). change (0 + Z.of_nat (Z.to_nat CAP_TABLE_MAX)) with 4096 in Hi.
    pose proof (slot_range hint i) as Hidx. destruct Hs as [Hr Hm].
    destruct (lookup_lt_is_Some_2 ents (Z.to_nat (slot_at hint i))) as [e He]; [rewrite (cm_len _ _ _ _ _ Hm); lia|].
    destruct (decide (e_object e = 0)) as [He0|He0].
    + eapply wp_take_slot; [by split|done|done|exact He|done|]. intros s' Hs' Hb Hon. by eapply HQ.
    + destruct (cm_entries _ _ _ _ _ Hm _ _ He) as (E1 & _ & _). rewrite Z2Nat.id in E1 by lia.
      unfold try_slot. change (wrap32 (hint + i) mod CAP_TABLE_MAX) with (slot_at hint i).
      pose proof (entry_valid _ _ _ _ _ _ _ Hr (slot_at hint i) 0 8 Hidx) as Hv.
      apply wp_bind, wp_load; [apply Hv; simpl; lia|]. unfold ce_object. rewrite Z.add_0_r, E1.
      rewrite (proj2 (Z.eqb_neq _ _) He0). apply wp_ret. split; [done|]. intros j e' Hj He'.
      destruct (decide (j = i)) as [->|]; [congruence|]. apply (Hbefore j); [lia|done].
  - intros s' (-> & Hall). by apply HQ0.
Qed.

Lemma slot_mod hint i : slot_at hint i = (hint + i) mod 4096.
Proof.
  unfold slot_at, wrap32. apply Z.mod_mod_divide. exists (2 ^ 20). lia.
Qed.

(** The search looks at every slot. *)
Lemma slot_onto hint idx : 0 <= idx < 4096 -> exists j, 0 <= j < 4096 /\ slot_at hint j = idx.
Proof.
  intros Hidx. exists ((idx - hint) mod 4096). split; [apply Z.mod_pos_bound; lia|].
  rewrite slot_mod, Zplus_mod_idemp_r. replace (hint + (idx - hint)) with idx by lia. by apply Z.mod_small.
Qed.

Lemma known_update pre o o' post x :
  o_addr o' = o_addr o -> known (pre ++ o :: post) x -> known (pre ++ o' :: post) x.
Proof.
  intros Ha (y & Hy & <-). apply elem_of_app in Hy as [Hy|[->|Hy]%elem_of_cons].
  - exists y. split; [apply elem_of_app; by left|done].
  - exists o'. split; [apply elem_of_app; right; by left|done].
  - exists y. split; [apply elem_of_app; right; by right|done].
Qed.

Definition entries_known (objs : list object) (ents : list cap_entry) : Prop :=
  Forall (fun e => e_object e = 0 \/ known objs (e_object e)) ents.

Lemma entries_update pre o o' post ents :
  o_addr o' = o_addr o -> entries_known (pre ++ o :: post) ents -> entries_known (pre ++ o' :: post) ents.
Proof.
  intros Ha Hk. eapply Forall_impl; [exact Hk|]. intros e [He|He]; [by left|right; by eapply known_update].
Qed.

(** The counter of handles, next to a table. *)
Lemma cap_set_handles s tys pre o post next cs t ents hint k live v :
  cap_state s tys (pre ++ o :: post) next cs t ents hint k live -> u32 v ->
  let s' := set_mem s (put32 (k_mem s) (o_addr o + 8) v) in
  cap_state s' tys (pre ++ set_handles v o :: post) next cs t ents hint k live /\ same_bytes live s s'.
Proof.
  intros [Hr Hm] Hv s'. destruct (om_set_handles _ _ _ _ _ _ _ _ _ Hr Hv) as [Hr' Hs].
  apply same_bytes_app in Hs as [Hsc Hs]. split; [|exact Hs]. split; [exact Hr'|]. by eapply (cap_mem_same s).
Qed.

Lemma cap_set_refs s tys pre o post next cs t ents hint k live v :
  cap_state s tys (pre ++ o :: post) next cs t ents hint k live -> u32 v ->
  let s' := set_mem s (put32 (k_mem s) (o_addr o + 4) v) in
  cap_state s' tys (pre ++ set_refs v o :: post) next cs t ents hint k live /\ same_bytes live s s'.
Proof.
  intros [Hr Hm] Hv s'. destruct (om_set_refs _ _ _ _ _ _ _ _ _ Hr Hv) as [Hr' Hs].
  apply same_bytes_app in Hs as [Hsc Hs]. split; [|exact Hs]. split; [exact Hr'|]. by eapply (cap_mem_same s).
Qed.

Lemma cap_state_io s x tys objs next cs t ents hint k live :
  cap_state s tys objs next cs t ents hint k live -> cap_state (set_io s x) tys objs next cs t ents hint k live.
Proof. intros [Hr Hm]. split; [by apply (om_rep_same s)|done]. Qed.

Lemma cap_rep_state s tys objs next cs t ents hint live :
  cap_rep s tys objs next cs t ents hint live <->
  cap_state s tys objs next cs t ents hint 0 live /\ entries_known objs ents.
Proof. split; [by intros []|by intros [[] ?]]. Qed.

Lemma om_type s tys objs next cs live o :
  om_rep s tys objs next cs live -> o ∈ objs -> exists ty, tys !! Z.to_nat (o_type o) = Some ty /\ 0 <= o_type o.
Proof.
  intros Hr Ho. pose proof (proj1 (Forall_forall _ _) (om_typed _ _ _ _ _ _ Hr) o Ho) as Hi. simpl in Hi.
  destruct (lookup_lt_is_Some_2 tys (Z.to_nat (o_type o))) as [ty Hty]; [lia|]. exists ty. split; [done|lia].
Qed.

Definition rights_of (tys : list otype) (o : object) : Z :=
  match tys !! Z.to_nat (o_type o) with Some ty => t_rights ty | None => 0 end.

(** The rest of [object_grant], once the rights are accepted. *)
Lemma wp_grant_slot s tys pre o post next cs t ents hint live rights (Q : Z -> kstate -> Prop) E :
  let objs := pre ++ o :: post in let objs' := pre ++ set_handles (wrap32 (o_handles o + 1)) o :: post in
  cap_state s tys objs next cs t ents hint 0 live -> u32 rights ->
  (forall i e s', 0 <= i < 4096 -> ents !! Z.to_nat (slot_at hint i) = Some e -> e_object e = 0 ->
     (forall j e', 0 <= j < i -> ents !! Z.to_nat (slot_at hint j) = Some e' -> e_object e' <> 0) ->
     cap_state s' tys objs' next cs t (<[Z.to_nat (slot_at hint i) := mkEntry (o_addr o) rights (o_gen o)]> ents)
       (next_hint (slot_at hint i)) 0 live ->
     same_bytes live s s' -> heap_only s s' -> Q (slot_at hint i) s') ->
  ((forall e, e ∈ ents -> e_object e <> 0) -> forall s', cap_state s' tys objs next cs t ents hint 0 live ->
     same_bytes live s s' -> calls_only s s' -> Q CAP_INVALID s') ->
  wp (spin_lock (t + ct_lock) ;;
      hint <- atomic_load (t + ct_next_free_hint) ;;
      found <- for_ret (Z.to_nat CAP_TABLE_MAX) 0 (try_slot t (o_addr o) rights hint) ;;
      let slot := default CAP_INVALID found in
      spin_unlock (t + ct_lock) ;;
      (if negb (slot =? CAP_INVALID) then
         atomic_fetch_add (o_addr o + ob_handle_count) 1 ;; ret tt
       else klog_info "cap" "grant failed: table full" []) ;;
      ret slot) s Q E.
Proof.
  intros objs objs' Hs Hrights HQ HQ0. assert (Ho : o ∈ objs) by (apply elem_of_app; right; by left).
  apply wp_bind. eapply wp_cap_lock; [exact Hs|]. intros s1 Hs1 Hb1 Ho1. pose proof Hs1 as [Hr1 Hm1].
  apply wp_bind, wp_load; [unfold ct_next_free_hint; apply (cap_valid _ _ _ _ _ _ _ Hr1 8192); simpl; lia|].
  unfold ct_next_free_hint. rewrite (cm_hint _ _ _ _ _ Hm1). apply wp_bind.
  eapply wp_find_slot; [exact Hs1|exact Ho|exact Hrights| |].
  - intros i e s2 Hi He He0 Hbefore Hs2 Hb2 Ho2. pose proof (slot_range hint i) as Hidx. simpl default.
    apply wp_bind. eapply wp_cap_unlock; [exact Hs2|]. intros s3 Hs3 Hb3 Ho3. pose proof Hs3 as [Hr3 _].
    rewrite (proj2 (Z.eqb_neq _ _)) by (unfold CAP_INVALID; lia). cbn [negb].
    unfold ob_handle_count. apply wp_bind, wp_bind, wp_fetch_add; [by apply (obj_valid _ _ _ _ _ _ _ _ _ Hr3 Ho)|].
    rewrite (obm_handles _ _ (om_obj_mem _ _ _ _ _ _ _ Hr3 Ho)). apply wp_ret, wp_ret.
    destruct (cap_set_handles _ _ _ _ _ _ _ _ _ _ _ _ _ Hs3 (wrap32_range (o_handles o + 1))) as [Hs4 Hb4].
    apply (HQ i e); [done|done|done|done|exact Hs4| |].
    + eapply same_bytes_trans; [exact Hb1|]. eapply same_bytes_trans; [exact Hb2|]. by eapply same_bytes_trans.
    + eapply heap_only_trans; [exact Ho1|]. eapply heap_only_trans; [exact Ho2|].
      eapply heap_only_trans; [exact Ho3|apply heap_only_set_mem].
  - intros Hall. simpl default. apply wp_bind. eapply wp_cap_unlock; [exact Hs1|]. intros s3 Hs3 Hb3 Ho3.
    rewrite Z.eqb_refl. cbn [negb]. apply wp_bind. wp_print. apply wp_ret. apply HQ0.
    + intros e [i Hi]%list_elem_of_lookup. apply lookup_lt_Some in Hi as Hlt. rewrite (cm_len _ _ _ _ _ Hm1) in Hlt.
      destruct (slot_onto hint (Z.of_nat i)) as (j & Hj & Hji); [lia|]. apply (Hall j e Hj). by rewrite Hji, Nat2Z.id.
    + by apply cap_state_io.
    + by eapply same_bytes_trans.
    + destruct (calls_heap _ _ (heap_only_trans _ _ _ Ho1 Ho3)) as (m & p & x & b & ->). by eexists _, _, _, _.
Qed.

Lemma wp_object_grant s tys pre o post next cs t ents hint live rights (Q : Z -> kstate -> Prop) E :
  let objs := pre ++ o :: post in let objs' := pre ++ set_handles (wrap32 (o_handles o + 1)) o :: post in
  cap_state s tys objs next cs t ents hint 0 live -> u32 rights ->
  (Z.land rights (rights_of tys o) <> rights -> forall x, Q CAP_INVALID (set_io s x)) ->
  (Z.land rights (rights_of tys o) = rights ->
   forall i e s', 0 <= i < 4096 -> ents !! Z.to_nat (slot_at hint i) = Some e -> e_object e = 0 ->
     (forall j e', 0 <= j < i -> ents !! Z.to_nat (slot_at hint j) = Some e' -> e_object e' <> 0) ->
     cap_state s' tys objs' next cs t (<[Z.to_nat (slot_at hint i) := mkEntry (o_addr o) rights (o_gen o)]> ents)
       (next_hint (slot_at hint i)) 0 live ->
     same_bytes live s s' -> heap_only s s' -> Q (slot_at hint i) s') ->
  (Z.land rights (rights_of tys o) = rights -> (forall e, e ∈ ents -> e_object e <> 0) -> forall s',
     cap_state s' tys objs next cs t ents hint 0 live -> same_bytes live s s' -> calls_only s s' -> Q CAP_INVALID s') ->
  wp (object_grant t (o_addr o) rights) s Q E.
Proof.
  intros objs objs' Hs Hrights HQ1 HQ2 HQ3. pose proof Hs as [Hr _].
  assert (Ho : o ∈ objs) by (apply elem_of_app; right; by left).
  destruct (om_type _ _ _ _ _ _ _ Hr Ho) as (ty & Hty & Hi).
  unfold object_grant, ob_type_id. rewrite Z.add_0_r. apply wp_bind, wp_load.
  { rewrite <- (Z.add_0_r (o_addr o)). by apply (obj_valid _ _ _ _ _ _ _ _ _ Hr Ho). }
  rewrite (obm_type _ _ (om_obj_mem _ _ _ _ _ _ _ Hr Ho)).
  apply wp_bind, wp_load; [by apply (type_valid _ _ _ _ _ _ _ _ _ _ Hr Hty)|].
  unfold ty_default_rights. rewrite (tym_rights _ _ _ (om_type_mem _ _ _ _ _ _ _ _ Hr Hty Hi)).
  assert (Hd : rights_of tys o = t_rights ty) by (unfold rights_of; by rewrite Hty). rewrite Hd in *.
  destruct (Z.eqb_spec (Z.land rights (t_rights ty)) rights) as [He|He]; cbn [negb].
  - eapply wp_grant_slot; [exact Hs|exact Hrights|by apply HQ2|by apply HQ3].
  - apply wp_bind. wp_print. apply wp_ret. by apply HQ1.
Qed.

(** ** Dropping a handle *)

(** The object [o] has one handle less, and dies if nothing holds it. *)
Definition handle_dropped (s : kstate) tys pre o post next cs t ents hint live (s' : kstate) : Prop :=
  let o' := set_handles (wrap32 (o_handles o - 1)) o in
  (if deadb o'
   then cap_state s' (give_back (o_type o) (o_addr o) tys) (pre ++ post) next cs t ents hint 0 live /\
        notified s (type_destroy tys (o_type o)) (o_addr o) s'
   else cap_state s' tys (pre ++ o' :: post) next cs t ents hint 0 live /\ quiet s s') /\
  same_bytes live s s' /\ calls_only s s'.

Lemma wp_drop_handle {B} s0 s tys pre o post next cs t ents hint live (k : M B) Q E :
  cap_state s tys (pre ++ o :: post) next cs t ents hint 0 live -> same_bytes live s0 s -> heap_only s0 s ->
  (forall s', handle_dropped s0 tys pre o post next cs t ents hint live s' -> wp k s' Q E) ->
  wp (atomic_fetch_sub (o_addr o + ob_handle_count) 1 ;; object_maybe_destroy (o_addr o) ;; k) s Q E.
Proof.
  intros Hs Hb0 Ho0 HQ. pose proof Hs as [Hr _].
  assert (Ho : o ∈ pre ++ o :: post) by (apply elem_of_app; right; by left).
  unfold ob_handle_count. apply wp_bind, wp_fetch_sub; [by apply (obj_valid _ _ _ _ _ _ _ _ _ Hr Ho)|].
  rewrite (obm_handles _ _ (om_obj_mem _ _ _ _ _ _ _ Hr Ho)).
  destruct (cap_set_handles _ _ _ _ _ _ _ _ _ _ _ _ _ Hs (wrap32_range (o_handles o - 1))) as [[Hr1 Hm1] Hb1].
  set (s1 := set_mem s _) in *. set (o1 := set_handles _ o) in *.
  assert (Ho1 : heap_only s0 s1) by (eapply heap_only_trans; [exact Ho0|apply heap_only_set_mem]).
  assert (Hb01 : same_bytes live s0 s1) by (by eapply same_bytes_trans).
  apply wp_bind. change (o_addr o) with (o_addr o1). eapply wp_maybe_destroy; [exact Hr1| |].
  - intros Hd s' Hr' Hb' Hc'. apply same_bytes_app in Hb' as [Hbc Hb']. apply HQ. unfold handle_dropped. fold o1.
    rewrite Hd. split; [split; [split; [done|by eapply (cap_mem_same s1)]|]|].
    { apply quiet_heap. by eapply heap_only_trans. }
    split; [by eapply same_bytes_trans|apply calls_heap; by eapply heap_only_trans].
  - intros Hd s' (Hr' & Hb' & Hc' & _ & Hn'). apply same_bytes_app in Hb' as [Hbc Hb'].
    apply HQ. unfold handle_dropped. fold o1. rewrite Hd.
    split; [split; [split; [exact Hr'|by eapply (cap_mem_same s1)]|]|].
    + eapply notified_pre; [by apply quiet_heap|exact Hn'].
    + split; [by eapply same_bytes_trans|exact (calls_only_trans _ _ _ (calls_heap _ _ Ho1) Hc')].
Qed.

(** An entry is emptied. *)
Definition clear (e : cap_entry) : cap_entry := mkEntry 0 (e_rights e) (e_gen e).

Lemma cap_clear s tys objs next cs t ents hint k live i e :
  cap_state s tys objs next cs t ents hint k live -> 0 <= i < 4096 -> ents !! Z.to_nat i = Some e ->
  let s' := set_mem s (put64 (k_mem s) (entry_at t i + ce_object) 0) in
  cap_state s' tys objs next cs t (<[Z.to_nat i := clear e]> ents) hint k live /\ same_bytes live s s'.
Proof.
  intros [Hr Hm] Hi He s'. unfold ce_object in *.
  destruct (entry_write _ _ _ _ _ _ _ Hr i 0 8 0 Hi) as [Hr' Hs]; [lia|simpl; lia|simpl; lia|].
  split; [split; [exact Hr'|]|exact Hs].
  destruct (cm_entries _ _ _ _ _ Hm _ _ He) as (_ & E2 & E3). rewrite Z2Nat.id in E2, E3 by lia.
  unfold s'. cbn [k_mem set_mem]. rewrite Z.add_0_r. eapply cap_set_entry; [exact Hm|done| |..]; cbn [clear e_object e_rights e_gen].
  - intros b [Hb _]%outside_cons. by rewrite get8_putw, decide_False by lia.
  - apply (getw_putw 8). simpl. lia.
  - by rewrite (getw_putw_ne 8 4) by lia.
  - by rewrite (getw_putw_ne 8 4) by lia.
Qed.

(** Reading an entry under the lock. *)
Lemma wp_entry_object {A} s tys objs next cs t ents hint k live h e (f : Z -> M A) Q E :
  cap_state s tys objs next cs t ents hint k live -> 0 <= h < 4096 -> ents !! Z.to_nat h = Some e ->
  wp (f (e_object e)) s Q E ->
  wp (obj <- load64 (entry_at t h + ce_object) ;; f obj) s Q E.
Proof.
  intros [Hr Hm] Hh He HQ. destruct (cm_entries _ _ _ _ _ Hm _ _ He) as (E1 & _ & _). rewrite Z2Nat.id in E1 by lia.
  pose proof (entry_valid _ _ _ _ _ _ _ Hr h 0 8 Hh) as Hv.
  apply wp_bind, wp_load; [apply Hv; simpl; lia|]. unfold ce_object. by rewrite Z.add_0_r, E1.
Qed.

(** What holds after the lock was taken and released with nothing else done. *)
Definition untouched (s : kstate) tys objs next cs t ents hint live (s' : kstate) : Prop :=
  cap_state s' tys objs next cs t ents hint 0 live /\ same_bytes live s s' /\ heap_only s s'.

Lemma wp_object_close_empty s tys objs next cs t ents hint live h e (Q : Z -> kstate -> Prop) E :
  cap_state s tys objs next cs t ents hint 0 live -> 0 <= h < 4096 -> ents !! Z.to_nat h = Some e ->
  e_object e = 0 -> (forall s', untouched s tys objs next cs t ents hint live s' -> Q (-1) s') ->
  wp (object_close t h) s Q E.
Proof.
  intros Hs Hh He He0 HQ. unfold object_close. rewrite (proj2 (Z.leb_gt _ _)) by (unfold CAP_TABLE_MAX; lia).
  apply wp_bind. eapply wp_cap_lock; [exact Hs|]. intros s1 Hs1 Hb1 Ho1.
  eapply wp_entry_object; [exact Hs1|exact Hh|exact He|]. rewrite He0. simpl.
  apply wp_bind. eapply wp_cap_unlock; [exact Hs1|]. intros s2 Hs2 Hb2 Ho2. apply wp_ret, HQ.
  split; [done|]. split; [by eapply same_bytes_trans|by eapply heap_only_trans].
Qed.

Lemma wp_object_close s tys pre o post next cs t ents hint live h e (Q : Z -> kstate -> Prop) E :
  cap_state s tys (pre ++ o :: post) next cs t ents hint 0 live -> 0 <= h < 4096 -> ents !! Z.to_nat h = Some e ->
  e_object e = o_addr o ->
  (forall s', handle_dropped s tys pre o post next cs t (<[Z.to_nat h := clear e]> ents) hint live s' -> Q 0 s') ->
  wp (object_close t h) s Q E.
Proof.
  intros Hs Hh He He0 HQ. assert (Ho : o ∈ pre ++ o :: post) by (apply elem_of_app; right; by left).
  pose proof (om_set_refs_live _ _ _ _ _ _ _ (proj1 Hs) Ho) as Hpos.
  unfold object_close. rewrite (proj2 (Z.leb_gt _ _)) by (unfold CAP_TABLE_MAX; lia).
  apply wp_bind. eapply wp_cap_lock; [exact Hs|]. intros s1 Hs1 Hb1 Ho1.
  eapply wp_entry_object; [exact Hs1|exact Hh|exact He|]. rewrite He0. rewrite (proj2 (Z.eqb_neq _ 0)) by lia.
  destruct (cap_clear _ _ _ _ _ _ _ _ _ _ _ _ Hs1 Hh He) as [Hs2 Hb2].
  apply wp_bind, wp_store; [apply (entry_valid _ _ _ _ _ _ _ (proj1 Hs1)); unfold ce_object; simpl; lia|].
  apply wp_bind. eapply wp_cap_unlock; [exact Hs2|]. intros s3 Hs3 Hb3 Ho3.
  eapply wp_drop_handle; [exact Hs3| | |].
  - eapply same_bytes_trans; [exact Hb1|]. by eapply same_bytes_trans.
  - eapply heap_only_trans; [exact Ho1|]. eapply heap_only_trans; [apply heap_only_set_mem|exact Ho3].
  - intros s' Hd. by apply wp_ret, HQ.
Qed.

(** ** Looking a handle up *)

Lemma wp_cap_lookup_empty s tys objs next cs t ents hint live h e r (Q : Z -> kstate -> Prop) E :
  cap_state s tys objs next cs t ents hint 0 live -> 0 <= h < 4096 -> ents !! Z.to_nat h = Some e ->
  e_object e = 0 -> (forall s', untouched s tys objs next cs t ents hint live s' -> Q 0 s') ->
  wp (cap_lookup t h r) s Q E.
Proof.
  intros Hs Hh He He0 HQ. unfold cap_lookup. rewrite (proj2 (Z.leb_gt _ _)) by (unfold CAP_TABLE_MAX; lia).
  apply wp_bind. eapply wp_cap_lock; [exact Hs|]. intros s1 Hs1 Hb1 Ho1. cbv zeta.
  eapply wp_entry_object; [exact Hs1|exact Hh|exact He|]. rewrite He0. simpl.
  apply wp_bind. eapply wp_cap_unlock; [exact Hs1|]. intros s2 Hs2 Hb2 Ho2. apply wp_ret, HQ.
  split; [done|]. split; [by eapply same_bytes_trans|by eapply heap_only_trans].
Qed.

Lemma wp_cap_lookup s tys pre o post next cs t ents hint live h e r (Q : Z -> kstate -> Prop) E :
  cap_state s tys (pre ++ o :: post) next cs t ents hint 0 live -> 0 <= h < 4096 -> ents !! Z.to_nat h = Some e ->
  e_object e = o_addr o ->
  (e_gen e <> o_gen o -> forall s',
     handle_dropped s tys pre o post next cs t (<[Z.to_nat h := clear e]> ents) hint live s' -> Q 0 s') ->
  (e_gen e = o_gen o -> Z.land (e_rights e) r <> r -> forall s',
     untouched s tys (pre ++ o :: post) next cs t ents hint live s' -> Q 0 s') ->
  (e_gen e = o_gen o -> Z.land (e_rights e) r = r -> forall s',
     untouched s tys (pre ++ set_refs (wrap32 (o_refs o + 1)) o :: post) next cs t ents hint live s' ->
     Q (o_addr o) s') ->
  wp (cap_lookup t h r) s Q E.
Proof.
  intros Hs Hh He He0 HQ1 HQ2 HQ3. assert (Ho : o ∈ pre ++ o :: post) by (apply elem_of_app; right; by left).
  pose proof (om_set_refs_live _ _ _ _ _ _ _ (proj1 Hs) Ho) as Hpos.
  unfold cap_lookup. rewrite (proj2 (Z.leb_gt _ _)) by (unfold CAP_TABLE_MAX; lia).
  apply wp_bind. eapply wp_cap_lock; [exact Hs|]. intros s1 Hs1 Hb1 Ho1. cbv zeta. pose proof Hs1 as [Hr1 Hm1].
  eapply wp_entry_object; [exact Hs1|exact Hh|exact He|]. rewrite He0. rewrite (proj2 (Z.eqb_neq _ 0)) by lia.
  destruct (cm_entries _ _ _ _ _ Hm1 _ _ He) as (_ & E2 & E3). rewrite Z2Nat.id in E2, E3 by lia.
  pose proof (fun k n => entry_valid _ _ _ _ _ _ _ Hr1 h k n Hh) as Hv. unfold ce_generation, ce_rights, ob_generation.
  apply wp_bind, wp_load; [by apply (obj_valid _ _ _ _ _ _ _ _ _ Hr1 Ho)|].
  rewrite (obm_gen _ _ (om_obj_mem _ _ _ _ _ _ _ Hr1 Ho)).
  apply wp_bind, wp_load; [apply Hv; simpl; lia|]. rewrite E3.
  destruct (Z.eqb_spec (o_gen o) (e_gen e)) as [Hg|Hg]; cbn [negb].
  - apply wp_bind, wp_load; [apply Hv; simpl; lia|]. rewrite E2.
    destruct (Z.eqb_spec (Z.land (e_rights e) r) r) as [Hl|Hl]; cbn [negb].
    + unfold object_ref, ob_refcount. apply wp_bind, wp_bind, wp_fetch_add; [by apply (obj_valid _ _ _ _ _ _ _ _ _ Hr1 Ho)|].
      rewrite (obm_refs _ _ (om_obj_mem _ _ _ _ _ _ _ Hr1 Ho)). apply wp_ret.
      destruct (cap_set_refs _ _ _ _ _ _ _ _ _ _ _ _ _ Hs1 (wrap32_range (o_refs o + 1))) as [Hs2 Hb2].
      apply wp_bind. eapply wp_cap_unlock; [exact Hs2|]. intros s3 Hs3 Hb3 Ho3. apply wp_ret, HQ3; [done|done|].
      split; [done|]. split.
      * eapply same_bytes_trans; [exact Hb1|]. by eapply same_bytes_trans.
      * eapply heap_only_trans; [exact Ho1|]. eapply heap_only_trans; [apply heap_only_set_mem|exact Ho3].
    + apply wp_bind. eapply wp_cap_unlock; [exact Hs1|]. intros s2 Hs2 Hb2 Ho2. apply wp_ret, HQ2; [done|done|].
      split; [done|]. split; [by eapply same_bytes_trans|by eapply heap_only_trans].
  - destruct (cap_clear _ _ _ _ _ _ _ _ _ _ _ _ Hs1 Hh He) as [Hs2 Hb2].
    apply wp_bind, wp_store; [apply Hv; unfold ce_object; simpl; lia|].
    apply wp_bind. eapply wp_cap_unlock; [exact Hs2|]. intros s3 Hs3 Hb3 Ho3.
    eapply wp_drop_handle; [exact Hs3| | |].
    + eapply same_bytes_trans; [exact Hb1|]. by eapply same_bytes_trans.
    + eapply heap_only_trans; [exact Ho1|]. eapply heap_only_trans; [apply heap_only_set_mem|exact Ho3].
    + intros s' Hd. apply wp_ret, HQ1; [congruence|done].
Qed.
(** ** A new table *)

Definition no_entry : cap_entry := mkEntry 0 0 0.

(** A block of zeros is an empty table. *)
Lemma cap_mem_zero s b bs cs live :
  kheap_rep s (b :: bs) cs live -> b_size b = 65544 ->
  (forall p, in_payload b p -> get8 (k_mem s) p = 0) ->
  cap_mem (k_mem s) (b_hdr b + 16) (replicate 4096 no_entry) 0 0.
Proof.
  intros Hr Hsz Hz.
  assert (Hg : forall n p, b_hdr b + 16 <= p -> p + Z.of_nat n <= b_hdr b + 16 + 65544 -> getw n (k_mem s) p = 0).
  { intros n p H1' H2'. apply getw_zero. intros i Hi. apply Hz. unfold in_payload. lia. }
  split; [by rewrite length_replicate| | |].
  - intros i e Hi. apply lookup_replicate in Hi as [-> Hi]. unfold_cap. rewrite !Hg by (simpl; lia). done.
  - apply Hg; simpl; lia.
  - apply Hg; simpl; lia.
Qed.

(** No row of frames was there for the 65544 bytes of a table and its header:
    all that happened is that some of the frames were taken. *)
Definition no_row (s s' : kstate) : Prop :=
  ~ in_a_row s 17 /\ exists s1 t, pmm_only s s1 /\ s' = set_io s1 t.

Lemma wp_cap_table_create s bs tys objs next cs live (Q : Z -> kstate -> Prop) (E : kstate -> Prop) :
  os_rep s bs tys objs next cs live ->
  (forall t s', 0 < t -> os_rep s' bs tys objs next cs (cap_area t ++ live) ->
     cap_mem (k_mem s') t (replicate 4096 no_entry) 0 0 -> same_bytes live s s' -> heap_only s s' -> Q t s') ->
  (free_set s = ∅ -> Q 0 s) -> (forall s', no_row s s' -> E s') ->
  wp cap_table_create s Q E.
Proof.
  intros Hr HQ HQ0 HE. destruct (os_heap _ _ _ _ _ _ _ Hr) as (cs1 & live1 & Hk & Hback).
  unfold cap_table_create, sizeof_cap_table. apply wp_bind. eapply wp_kmalloc; [exact Hk|lia| | |].
  3:{ intros s' [[? _]|[_ Hno]]; [lia|]. by apply HE. }
  - intros b s1 Hsz _ (Hhdr & Hk1 & Hb1 & Ho1). rewrite (proj2 (Z.eqb_neq _ 0)) by lia.
    apply wp_bind. rewrite <- Hsz. eapply wp_memset_block; [exact Hk1|]. intros s2 Hk2 Hb2 Ho2 Hz2.
    pose proof (cap_mem_zero _ _ _ _ _ Hk2 Hsz Hz2) as Hm2. set (t := b_hdr b + 16) in *.
    pose proof (kheap_words _ _ _ _ _ 8193 Hk2 ltac:(lia)) as Hw. fold t in Hw. fold (cap_area t) in Hw.
    assert (Hb12 : same_bytes (live1 ++ live) s s2).
    { apply same_bytes_app in Hb1 as [_ Hb1]. apply same_bytes_app in Hb2 as [_ Hb2]. by eapply same_bytes_trans. }
    apply same_bytes_app in Hb12 as [Hb12 Hb12'].
    pose proof (Hback s2 bs (cap_area t) Hw Hb12) as Hr2. pose proof Hr2 as [_ _ (ks & _ & _ & Hom)].
    eapply om_rep_perm in Hom; [|reflexivity|apply perm_move].
    apply wp_bind, wp_store; [apply (cap_valid _ _ _ _ _ _ _ Hom 8192); unfold ct_lock; simpl; lia|]. apply wp_ret.
    unfold ct_lock. change (b_hdr b + 16) with t.
    destruct (kheap_writes _ _ _ (cap_area t) _ [(t + 65540, 4)] (put32 (k_mem s2) (t + 65540) 0) Hw) as [Hw3 Hb3].
    { apply (cap_within t 8192); lia. } { apply (mods_putw 4). }
    apply same_bytes_app in Hb3 as [_ Hb3]. apply same_bytes_app in Hb3 as [Hb3 Hb3'].
    apply HQ.
    + unfold t. lia.
    + apply Hback; [exact Hw3|]. by eapply same_bytes_trans.
    + eapply cap_set_lock; [unfold u32; lia|exact Hm2].
    + by eapply same_bytes_trans.
    + eapply heap_only_trans; [exact Ho1|]. eapply heap_only_trans; [exact Ho2|apply heap_only_set_mem].
  - intros [?|[_ Hf]]; [lia|]. simpl. by apply wp_ret, HQ0.
Qed.
End cap_lemmas.
