(* ===== verification/CapSpec.v ===== *)
(** * What objects and capabilities promise

    An abstract machine of objects and of the entries of one capability table,
    its invariant, and the proof that the code of ob.c and cap.c implements it:
    every legal sequence of calls on the concrete state is a run of the abstract
    machine. *)

From S2P Require Import Prelude Machine Logic Console Boards Sync Str Boot Pmm Heap Slab Kheap Mm Hash Ob ObSpec Cap.

#[local] Open Scope list_scope.
#[local] Open Scope Z_scope.

(** ** The abstract machine *)

Record astate := mkA {
  a_tys : list otype;
  a_objs : list object;
  a_next : Z;
  a_ents : list cap_entry;
  a_hint : Z
}.

Inductive call :=
| Create (i args : Z)
| Ref (obj : Z)
| Deref (obj : Z)
| Grant (obj rights : Z)
| Lookup (handle rights : Z)
| Close (handle : Z).

Section spec.
Context `{Callbacks}.

(** The search for a free entry starts at the hint and takes the first. *)
Definition first_free (ents : list cap_entry) (hint i : Z) : Prop :=
  0 <= i < 4096 /\ (exists e, ents !! Z.to_nat (slot_at hint i) = Some e /\ e_object e = 0) /\
  forall j e, 0 <= j < i -> ents !! Z.to_nat (slot_at hint j) = Some e -> e_object e <> 0.

Definition full (ents : list cap_entry) : Prop := forall e, e ∈ ents -> e_object e <> 0.

(** The object [o] after one of its counts went down: gone if nothing holds it
    any more. *)
Definition settle (tys : list otype) (pre : list object) (o : object) (post : list object) : list otype * list object :=
  if deadb o then (give_back (o_type o) (o_addr o) tys, pre ++ post) else (tys, pre ++ o :: post).

Inductive astep : astate -> call -> Z -> astate -> Prop :=
| A_create tys objs next ents hint i args ty x l d :
    tys !! Z.to_nat i = Some ty -> all_free (c_size (t_cache ty)) (c_free (t_cache ty)) (x :: l) ->
    astep (mkA tys objs next ents hint) (Create i args) x
      (mkA (<[Z.to_nat i := set_free l ty]> tys) (mkObj x i 1 0 0 next d :: objs) (next + 1) ents hint)
| A_create_fails tys objs next ents hint i args ty l :
    tys !! Z.to_nat i = Some ty -> t_create ty <> 0 -> all_free (c_size (t_cache ty)) (c_free (t_cache ty)) l ->
    astep (mkA tys objs next ents hint) (Create i args) 0
      (mkA (<[Z.to_nat i := set_free l ty]> tys) objs (next + 1) ents hint)
| A_ref tys pre o post next ents hint :
    astep (mkA tys (pre ++ o :: post) next ents hint) (Ref (o_addr o)) 0
      (mkA tys (pre ++ set_refs (o_refs o + 1) o :: post) next ents hint)
| A_deref tys pre o post next ents hint tys' objs' :
    settle tys pre (set_refs (o_refs o - 1) o) post = (tys', objs') ->
    astep (mkA tys (pre ++ o :: post) next ents hint) (Deref (o_addr o)) 0 (mkA tys' objs' next ents hint)
| A_grant_denied tys pre o post next ents hint r :
    Z.land r (rights_of tys o) <> r ->
    astep (mkA tys (pre ++ o :: post) next ents hint) (Grant (o_addr o) r) CAP_INVALID
      (mkA tys (pre ++ o :: post) next ents hint)
| A_grant_full tys pre o post next ents hint r :
    Z.land r (rights_of tys o) = r -> full ents ->
    astep (mkA tys (pre ++ o :: post) next ents hint) (Grant (o_addr o) r) CAP_INVALID
      (mkA tys (pre ++ o :: post) next ents hint)
| A_grant tys pre o post next ents hint r i :
    Z.land r (rights_of tys o) = r -> first_free ents hint i ->
    astep (mkA tys (pre ++ o :: post) next ents hint) (Grant (o_addr o) r) (slot_at hint i)
      (mkA tys (pre ++ set_handles (o_handles o + 1) o :: post) next
         (<[Z.to_nat (slot_at hint i) := mkEntry (o_addr o) r (o_gen o)]> ents) (next_hint (slot_at hint i)))
| A_lookup_none a h r :
    (4096 <= h \/ exists e, a_ents a !! Z.to_nat h = Some e /\ e_object e = 0) -> astep a (Lookup h r) 0 a
| A_lookup_denied a h r e :
    0 <= h < 4096 -> a_ents a !! Z.to_nat h = Some e -> e_object e <> 0 -> Z.land (e_rights e) r <> r ->
    astep a (Lookup h r) 0 a
| A_lookup tys pre o post next ents hint h r e :
    0 <= h < 4096 -> ents !! Z.to_nat h = Some e -> e_object e = o_addr o -> Z.land (e_rights e) r = r ->
    astep (mkA tys (pre ++ o :: post) next ents hint) (Lookup h r) (o_addr o)
      (mkA tys (pre ++ set_refs (o_refs o + 1) o :: post) next ents hint)
| A_close_none a h :
    (4096 <= h \/ exists e, a_ents a !! Z.to_nat h = Some e /\ e_object e = 0) -> astep a (Close h) (-1) a
| A_close tys pre o post next ents hint h e tys' objs' :
    0 <= h < 4096 -> ents !! Z.to_nat h = Some e -> e_object e = o_addr o ->
    settle tys pre (set_handles (o_handles o - 1) o) post = (tys', objs') ->
    astep (mkA tys (pre ++ o :: post) next ents hint) (Close h) 0
      (mkA tys' objs' next (<[Z.to_nat h := clear e]> ents) hint).

(** ** Its invariant *)

Definition handles_in (ents : list cap_entry) (x : Z) : nat := length (filter (fun e => e_object e = x) ents).

(** The handle count of an object is the number of entries that name it, and
    every entry names a live object, of the same generation. *)
Record counted (objs : list object) (ents : list cap_entry) : Prop := {
  ct_handles : Forall (fun o => o_handles o = Z.of_nat (handles_in ents (o_addr o))) objs;
  ct_known : entries_known objs ents;
  ct_gens : Forall (fun e => Forall (fun o => o_addr o = e_object e -> e_gen e = o_gen o) objs) ents;
  ct_len : length ents = 4096%nat;
  ct_addrs : NoDup (map o_addr objs);
  ct_pos : Forall (fun o => 0 < o_addr o) objs;
  ct_refs : Forall (fun o => 0 <= o_refs o < 2 ^ 32) objs
}.

(** A caller names objects that are alive, drops only references there are, and
    the counters do not wrap. *)
Definition enabled (a : astate) (c : call) : Prop :=
  match c with
  | Create i _ => 0 <= i < Z.of_nat (length (a_tys a)) /\ 0 <= a_next a < 2 ^ 32 - 1
  | Ref x => exists o, o ∈ a_objs a /\ o_addr o = x /\ o_refs o < 2 ^ 32 - 1
  | Deref x => exists o, o ∈ a_objs a /\ o_addr o = x /\ 0 < o_refs o
  | Grant x r => u32 r /\ exists o, o ∈ a_objs a /\ o_addr o = x
  | Lookup h r => 0 <= h /\ Forall (fun o => o_refs o < 2 ^ 32 - 1) (a_objs a)
  | Close h => 0 <= h
  end.

(** ** Clients

    A client makes calls one after the other, each depending on what the
    earlier ones returned. *)

Inductive client :=
| Done
| Call (c : call) (k : Z -> client).

(** Every call it makes is enabled, whatever the machine answers. *)
Fixpoint legal (a : astate) (p : client) : Prop :=
  match p with
  | Done => True
  | Call c k => enabled a c /\ forall v a', astep a c v a' -> counted (a_objs a') (a_ents a') -> legal a' (k v)
  end.

(** A run of a client on the abstract machine, with its calls and answers. *)
Inductive runs : client -> astate -> list (call * Z) -> astate -> Prop :=
| R_done a : runs Done a [] a
| R_call c k a v a1 tr a2 : astep a c v a1 -> runs (k v) a1 tr a2 -> runs (Call c k) a ((c, v) :: tr) a2.

Definition run_call (t : Z) (c : call) : M Z :=
  match c with
  | Create i args => object_create (ob_type_for i) args
  | Ref x => object_ref x ;; ret 0
  | Deref x => object_deref x ;; ret 0
  | Grant x r => object_grant t x r
  | Lookup h r => cap_lookup t h r
  | Close h => object_close t h
  end.

Fixpoint run_client (t : Z) (p : client) : M (list (call * Z)) :=
  match p with
  | Done => ret []
  | Call c k => v <- run_call t c ;; tr <- run_client t (k v) ;; ret ((c, v) :: tr)
  end.

(** The abstract state [a] of the concrete state [s]. *)
Record abstracts (s : kstate) (a : astate) (cs : list cache_t) (t : Z) (live : list (Z * Z)) : Prop := {
  ab_state : cap_state s (a_tys a) (a_objs a) (a_next a) cs t (a_ents a) (a_hint a) 0 live;
  ab_counted : counted (a_objs a) (a_ents a)
}.
End spec.

Section invariant.
Context `{Callbacks}.

(** ** Counting *)

Lemma handles_in_insert ents i e e' x :
  ents !! i = Some e ->
  (handles_in (<[i := e']> ents) x + (if decide (e_object e = x) then 1 else 0) =
   handles_in ents x + (if decide (e_object e' = x) then 1 else 0))%nat.
Proof.
  intros Hi. unfold handles_in. rewrite (insert_Permutation ents i e e' Hi).
  rewrite (delete_Permutation ents i e Hi) at 2. rewrite !filter_cons. repeat case_decide; simpl; lia.
Qed.

Lemma handles_in_pos ents i e : ents !! i = Some e -> (0 < handles_in ents (e_object e))%nat.
Proof.
  intros Hi. unfold handles_in. rewrite (delete_Permutation ents i e Hi), filter_cons, decide_True by done. simpl. lia.
Qed.

Lemma handles_in_le ents x : (handles_in ents x <= length ents)%nat.
Proof. apply length_filter. Qed.

Lemma handles_in_none objs ents x :
  entries_known objs ents -> x <> 0 -> x ∉ map o_addr objs -> handles_in ents x = 0%nat.
Proof.
  intros Hk Hx Hno. unfold handles_in. induction Hk as [|e ents He _ IH]; [done|]. rewrite filter_cons.
  case_decide as Hd; [|done]. exfalso. destruct He as [He|(o & Ho & He)]; [congruence|].
  apply Hno, list_elem_of_fmap. exists o. split; [congruence|done].
Qed.

(** Objects at different places of a list are at different addresses. *)
Lemma addrs_split pre o post :
  NoDup (map o_addr (pre ++ o :: post)) -> Forall (fun y => o_addr y <> o_addr o) (pre ++ post).
Proof.
  rewrite map_app, map_cons. rewrite <- Permutation_middle. intros [Hno _]%NoDup_cons.
  apply Forall_forall. intros y Hy He. apply Hno. rewrite <- map_app, <- He. apply list_elem_of_fmap. by exists y.
Qed.

(** ** Preservation *)

Lemma known_perm objs objs' ents : objs ≡ₚ objs' -> entries_known objs ents -> entries_known objs' ents.
Proof.
  intros Hp Hk. eapply Forall_impl; [exact Hk|]. intros e [He|(o & Ho & Ha)]; [by left|right].
  exists o. by rewrite <- Hp.
Qed.

Lemma counted_perm objs objs' ents : objs ≡ₚ objs' -> counted objs ents -> counted objs' ents.
Proof.
  intros Hp [H1 H2 H3 H4 H5 H6 H7]. split; rewrite <- ?Hp; try done; [by eapply known_perm|].
  eapply Forall_impl; [exact H3|]. intros e He. by rewrite <- Hp.
Qed.

(** An object whose place, generation and handles stay. *)
Lemma counted_update o o' rest ents :
  counted (o :: rest) ents -> o_addr o' = o_addr o -> o_gen o' = o_gen o -> o_handles o' = o_handles o ->
  0 <= o_refs o' < 2 ^ 32 -> counted (o' :: rest) ents.
Proof.
  intros [H1 H2 H3 H4 H5 H6 H7] Ha Hg Hh Hr. rewrite Forall_cons in *. split; rewrite ?Forall_cons.
  - by rewrite Hh, Ha.
  - by eapply (entries_update [] o).
  - eapply Forall_impl; [exact H3|]. intros e [He1 He2]%Forall_cons. apply Forall_cons. by rewrite Ha, Hg.
  - done.
  - simpl in *. by rewrite Ha.
  - by rewrite Ha.
  - split; [done|apply H7].
Qed.

(** A new object, at a new place. *)
Lemma counted_create o objs ents :
  counted objs ents -> o_addr o ∉ map o_addr objs -> 0 < o_addr o -> o_handles o = 0 -> 0 <= o_refs o < 2 ^ 32 ->
  counted (o :: objs) ents.
Proof.
  intros [H1 H2 H3 H4 H5 H6 H7] Hno Hpos Hh Hr. pose proof (handles_in_none _ _ (o_addr o) H2 ltac:(lia) Hno) as Hz. split.
  - apply Forall_cons. split; [by rewrite Hh, Hz|done].
  - eapply Forall_impl; [exact H2|]. intros e [He|(y & Hy & Ha)]; [by left|right]. exists y. split; [by right|done].
  - apply Forall_forall. intros e He. apply Forall_cons. split; [|by apply (proj1 (Forall_forall _ _) H3)].
    intros Ha. exfalso. apply list_elem_of_lookup in He as [i Hi]. apply handles_in_pos in Hi. rewrite <- Ha in Hi. lia.
  - done.
  - simpl. by apply NoDup_cons.
  - by apply Forall_cons.
  - by apply Forall_cons.
Qed.

(** A free entry names the first object. *)
Lemma counted_grant o rest ents i e r :
  counted (o :: rest) ents -> ents !! i = Some e -> e_object e = 0 ->
  counted (set_handles (o_handles o + 1) o :: rest) (<[i := mkEntry (o_addr o) r (o_gen o)]> ents).
Proof.
  intros [H1 H2 H3 H4 H5 H6 H7] Hi He. pose proof (addrs_split [] o rest H5) as Hne. simpl in Hne.
  assert (Hcount : forall x, 0 < x -> (handles_in (<[i := mkEntry (o_addr o) r (o_gen o)]> ents) x =
    handles_in ents x + (if decide (o_addr o = x) then 1 else 0))%nat).
  { intros x Hx. pose proof (handles_in_insert ents i e (mkEntry (o_addr o) r (o_gen o)) x Hi) as Hc. simpl in Hc.
    rewrite (decide_False (P := e_object e = x)) in Hc by lia. lia. }
  apply Forall_cons in H1 as [H1 H1']. apply Forall_cons in H6 as [H6 H6']. split; rewrite ?Forall_cons; simpl.
  - split; [rewrite Hcount, decide_True by done; lia|]. apply Forall_forall. intros y Hy.
    pose proof (proj1 (Forall_forall _ _) H1' y Hy) as Hyc. pose proof (proj1 (Forall_forall _ _) Hne y Hy) as Hya.
    pose proof (proj1 (Forall_forall _ _) H6' y Hy) as Hyp. simpl in *.
    rewrite Hcount, decide_False by (done || congruence). rewrite Hyc. lia.
  - apply Forall_insert; [by eapply (entries_update [] o)|]. right. eexists. split; [by left|done].
  - apply Forall_insert.
    + eapply Forall_impl; [exact H3|]. intros e' He'. apply Forall_cons in He' as [E1 E2]. by apply Forall_cons.
    + apply Forall_cons. split; [done|]. apply Forall_forall. intros y Hy Ha. exfalso.
      by apply (proj1 (Forall_forall _ _) Hne y Hy).
  - by rewrite length_insert.
  - done.
  - done.
  - by apply Forall_cons in H7.
Qed.

(** An entry that names the first object is emptied. *)
Lemma counted_clear o rest ents i e :
  counted (o :: rest) ents -> ents !! i = Some e -> e_object e = o_addr o ->
  0 < o_handles o /\ counted (set_handles (o_handles o - 1) o :: rest) (<[i := clear e]> ents).
Proof.
  intros [H1 H2 H3 H4 H5 H6 H7] Hi He. pose proof (addrs_split [] o rest H5) as Hne. simpl in Hne.
  assert (Hcount : forall x, 0 < x -> (handles_in (<[i := clear e]> ents) x +
    (if decide (o_addr o = x) then 1 else 0) = handles_in ents x)%nat).
  { intros x Hx. pose proof (handles_in_insert ents i e (clear e) x Hi) as Hc. simpl in Hc.
    rewrite (decide_False (P := 0 = x)) in Hc by lia. rewrite He in Hc. lia. }
  pose proof (handles_in_pos ents i e Hi) as Hpos. rewrite He in Hpos.
  apply Forall_cons in H1 as [H1 H1']. apply Forall_cons in H6 as [H6 H6']. split; [lia|]. split; rewrite ?Forall_cons; simpl.
  - split; [pose proof (Hcount _ H6) as Hc; rewrite decide_True in Hc by done; lia|]. apply Forall_forall. intros y Hy.
    pose proof (proj1 (Forall_forall _ _) H1' y Hy) as Hyc. pose proof (proj1 (Forall_forall _ _) Hne y Hy) as Hya.
    pose proof (proj1 (Forall_forall _ _) H6' y Hy) as Hyp. simpl in *.
    pose proof (Hcount _ Hyp) as Hc. rewrite decide_False in Hc by congruence. lia.
  - apply Forall_insert; [by eapply (entries_update [] o)|]. by left.
  - apply Forall_insert.
    + eapply Forall_impl; [exact H3|]. intros e' He'. apply Forall_cons in He' as [E1 E2]. by apply Forall_cons.
    + apply Forall_cons. split; [simpl; lia|]. apply Forall_forall. intros y Hy Ha. exfalso.
      apply (proj1 (Forall_forall _ _) H6') in Hy. simpl in *. lia.
  - by rewrite length_insert.
  - done.
  - done.
  - by apply Forall_cons in H7.
Qed.

(** An object without handles goes away. *)
Lemma counted_remove o rest ents : counted (o :: rest) ents -> o_handles o = 0 -> counted rest ents.
Proof.
  intros [H1 H2 H3 H4 H5 H6 H7] Hh. rewrite !Forall_cons in *. destruct H1 as [H1 H1']. split; try tauto.
  - apply Forall_forall. intros e He. apply (proj1 (Forall_forall _ _) H2) in He as Hk.
    destruct Hk as [Hk|(y & [->|Hy]%elem_of_cons & Ha)]; [by left| |right; by exists y].
    exfalso. apply list_elem_of_lookup in He as [i Hi]. apply handles_in_pos in Hi. rewrite <- Ha in Hi. lia.
  - eapply Forall_impl; [exact H3|]. by intros e [_ He]%Forall_cons.
  - simpl in H5. by apply NoDup_cons in H5 as [_ H5].
Qed.

Lemma counted_settle tys pre o post ents tys' objs' :
  counted (pre ++ o :: post) ents -> settle tys pre o post = (tys', objs') -> counted objs' ents.
Proof.
  intros Hc. unfold settle. destruct (deadb o) eqn:Hd; intros [= <- <-]; [|done].
  apply (counted_perm _ (o :: pre ++ post)) in Hc; [|symmetry; apply Permutation_middle].
  apply (counted_remove o); [done|]. unfold deadb in Hd. lia.
Qed.
End invariant.

(** ** The code implements it *)

Section simulation.
Context `{Callbacks, !Console, !CallbacksOk}.

(** Addresses of live objects. *)
Lemma om_addrs s tys objs next cs live :
  om_rep s tys objs next cs live -> NoDup (map o_addr objs) /\ Forall (fun o => 0 < o_addr o) objs.
Proof.
  intros Hr. split.
  - destruct (om_table _ _ _ _ _ _ Hr) as (al & _ & Ht). apply table_rep_separated in Ht.
    apply separated_app in Ht as (_ & Ht & _). apply separated_app in Ht as (Ht & _ & _).
    assert (Hall : Forall (fun o => 0 < type_size tys (o_type o)) objs).
    { apply Forall_forall. intros o Ho. pose proof (om_size _ _ _ _ _ _ _ Hr Ho). lia. }
    clear Hr. induction Hall as [|o objs Ho Hall IH]; [constructor|]. simpl in *. destruct Ht as [Ha Ht].
    apply NoDup_cons. split; [|by apply IH]. intros (y & Hy & Hin)%list_elem_of_fmap.
    assert (Hay : apart (obj_range tys o) (obj_range tys y)).
    { apply (proj1 (Forall_forall _ _) Ha). apply list_elem_of_fmap. by exists y. }
    pose proof (proj1 (Forall_forall _ _) Hall y Hin) as Hsz. unfold apart, obj_range in Hay. simpl in *. lia.
  - apply Forall_forall. intros o Ho. pose proof (om_set_refs_live _ _ _ _ _ _ _ Hr Ho). lia.
Qed.

(** A table with no entries counts no handle. *)
Lemma handles_in_new n x : x <> 0 -> handles_in (replicate n no_entry) x = 0%nat.
Proof. intros Hx. induction n as [|n IH]; [done|]. unfold handles_in in *. simpl. rewrite filter_cons_False; [done|]. simpl. lia. Qed.

Lemma counted_new s tys objs next cs live :
  om_rep s tys objs next cs live -> Forall (fun o => o_handles o = 0) objs ->
  counted objs (replicate 4096 no_entry).
Proof.
  intros Hr Hh. destruct (om_addrs _ _ _ _ _ _ Hr) as [Hnd Hpos].
  assert (He : forall P : cap_entry -> Prop, P no_entry -> Forall P (replicate 4096 no_entry)) by (intros P; apply Forall_replicate).
  rewrite Forall_forall in Hh, Hpos. split; [| | |by rewrite length_replicate|done|by rewrite Forall_forall|].
  - apply Forall_forall. intros o Ho. pose proof (Hpos o Ho). rewrite handles_in_new by lia. by apply Hh.
  - apply He. by left.
  - apply He, Forall_forall. intros o Ho Ha. pose proof (Hpos o Ho). simpl in Ha. lia.
  - apply Forall_forall. intros o Ho. rewrite <- (obm_refs _ _ (om_obj_mem _ _ _ _ _ _ _ Hr Ho)). apply get32_u32.
Qed.

Definition simulates (s : kstate) (a : astate) (c : call) (cs : list cache_t) (t : Z) (live : list (Z * Z))
    (v : Z) (s' : kstate) : Prop :=
  exists a', astep a c v a' /\ abstracts s' a' cs t live /\ same_bytes live s s'.

Lemma counted_swap pre o o' post ents ents' :
  (counted (o :: pre ++ post) ents -> counted (o' :: pre ++ post) ents') ->
  counted (pre ++ o :: post) ents -> counted (pre ++ o' :: post) ents'.
Proof.
  intros Hc Ho. apply (counted_perm _ (pre ++ o' :: post) ents' (Permutation_middle pre post o')), Hc.
  by apply (counted_perm _ _ ents (symmetry (Permutation_middle pre post o))).
Qed.

Lemma counted_in objs ents o :
  counted objs ents -> o ∈ objs ->
  0 <= o_handles o <= 4096 /\ 0 < o_addr o /\ 0 <= o_refs o < 2 ^ 32.
Proof.
  intros [C1 C2 C3 C4 C5 C6 C7] Ho. rewrite Forall_forall in *.
  pose proof (handles_in_le ents (o_addr o)) as Hle. rewrite C4 in Hle.
  rewrite (C1 o Ho). split; [lia|]. split; [by apply C6|by apply C7].
Qed.

Section calls.
Context (s : kstate) (tys : list otype) (objs : list object) (next : Z) (ents : list cap_entry) (hint : Z).
Context (cs : list cache_t) (t : Z) (live : list (Z * Z)) (E : kstate -> Prop).
Context (Hs : cap_state s tys objs next cs t ents hint 0 live) (Hc : counted objs ents).
Abbreviation a := (mkA tys objs next ents hint).

Lemma sim_create i args :
  enabled a (Create i args) -> (forall s', exhausted s' -> E s') ->
  wp (object_create (ob_type_for i) args) s (simulates s a (Create i args) cs t live) E.
Proof.
  intros [Hi Hn] HE. simpl in Hi, Hn. destruct Hs as [Hr Hm].
  destruct (lookup_lt_is_Some_2 tys (Z.to_nat i)) as [ty Hty]; [lia|].
  eapply wp_object_create; [exact Hr|exact Hty|lia|exact Hn| | |exact HE].
  - intros x l d s' Hr' Hb' _ _ _ Hall. apply same_bytes_app in Hb' as [Hbc Hb'].
    eexists. split; [by apply A_create|]. split; [|exact Hb']. split; [split; [exact Hr'|by eapply (cap_mem_same s)]|].
    destruct (om_addrs _ _ _ _ _ _ Hr') as [Hnd Hpos]. simpl in Hnd. apply NoDup_cons in Hnd as [Hno _].
    apply Forall_cons in Hpos as [Hpos _]. by apply counted_create.
  - intros x r l s' Hall Hr0 Ha Hr' Hb' _. apply same_bytes_app in Hb' as [Hbc Hb'].
    assert (Hz : t_create ty <> 0) by (intros Hz; unfold asked in Ha; rewrite Hz in Ha; by destruct Ha).
    eexists. split; [by eapply A_create_fails|]. split; [|exact Hb']. split; [|exact Hc].
    split; [exact Hr'|by eapply (cap_mem_same s)].
Qed.
End calls.

(** The calls on an object, whose place in the list is named. *)
Section object_calls.
Context (s : kstate) (tys : list otype) (pre : list object) (o : object) (post : list object).
Context (next : Z) (ents : list cap_entry) (hint : Z).
Context (cs : list cache_t) (t : Z) (live : list (Z * Z)) (E : kstate -> Prop).
Context (Hs : cap_state s tys (pre ++ o :: post) next cs t ents hint 0 live) (Hc : counted (pre ++ o :: post) ents).
Abbreviation a := (mkA tys (pre ++ o :: post) next ents hint).

Lemma here : o ∈ pre ++ o :: post.
Proof. apply elem_of_app. right. by left. Qed.

Lemma here_counted : 0 <= o_handles o <= 4096 /\ 0 < o_addr o /\ 0 <= o_refs o < 2 ^ 32.
Proof. exact (counted_in _ _ _ Hc here). Qed.

Lemma counted_refs v : 0 <= v < 2 ^ 32 -> counted (pre ++ set_refs v o :: post) ents.
Proof. intros Hv. eapply counted_swap; [|exact Hc]. intros Hc'. by eapply counted_update. Qed.

Lemma sim_ref :
  o_refs o < 2 ^ 32 - 1 ->
  wp (object_ref (o_addr o) ;; ret 0) s (simulates s a (Ref (o_addr o)) cs t live) E.
Proof.
  intros Hlt. destruct Hs as [Hr Hm]. pose proof here_counted as (_ & _ & Href). apply wp_bind.
  eapply wp_object_ref; [exact Hr|]. intros s' Hr' Hb' _. apply same_bytes_app in Hb' as [Hbc Hb'].
  rewrite wrap32_small in Hr' by (unfold u32; lia). apply wp_ret.
  eexists. split; [by apply A_ref|]. split; [|exact Hb'].
  split; [split; [exact Hr'|by eapply (cap_mem_same s)]|]. apply counted_refs. lia.
Qed.

Lemma sim_deref :
  0 < o_refs o ->
  wp (object_deref (o_addr o) ;; ret 0) s (simulates s a (Deref (o_addr o)) cs t live) E.
Proof.
  intros Hlt. destruct Hs as [Hr Hm]. pose proof here_counted as (_ & _ & Href). apply wp_bind.
  assert (Hw : wrap32 (o_refs o - 1) = o_refs o - 1) by (apply wrap32_small; unfold u32; lia).
  pose proof (counted_refs (o_refs o - 1) ltac:(lia)) as Hc'.
  eapply wp_object_deref; [exact Hr| |]; rewrite Hw.
  - intros Hnd s' Hr' Hb' _. apply same_bytes_app in Hb' as [Hbc Hb']. apply wp_ret.
    assert (Hset : settle tys pre (set_refs (o_refs o - 1) o) post = (tys, pre ++ set_refs (o_refs o - 1) o :: post)).
    { unfold settle, deadb. cbn [o_refs o_handles o_dead set_refs]. destruct (_ && _) eqn:Hd; [|done]. exfalso. lia. }
    eexists. split; [by apply A_deref|]. split; [|exact Hb'].
    split; [split; [exact Hr'|by eapply (cap_mem_same s)]|exact Hc'].
  - intros H1' Hh Hd s' (Hr' & Hb' & _). apply same_bytes_app in Hb' as [Hbc Hb']. apply wp_ret.
    assert (Hset : settle tys pre (set_refs (o_refs o - 1) o) post = (give_back (o_type o) (o_addr o) tys, pre ++ post)).
    { unfold settle, deadb. cbn [o_refs o_handles o_dead set_refs]. by rewrite H1', Hh, Hd. }
    eexists. split; [by apply A_deref|]. split; [|exact Hb'].
    split; [split; [exact Hr'|by eapply (cap_mem_same s)]|]. by eapply counted_settle.
Qed.

Lemma sim_grant r :
  u32 r -> wp (object_grant t (o_addr o) r) s (simulates s a (Grant (o_addr o) r) cs t live) E.
Proof.
  intros Hu. pose proof here_counted as (Hh & _ & _).
  assert (Hw : wrap32 (o_handles o + 1) = o_handles o + 1) by (apply wrap32_small; unfold u32; lia).
  eapply wp_object_grant; [exact Hs|exact Hu|..]; rewrite ?Hw.
  - intros Hd x. eexists. split; [by apply A_grant_denied|].
    split; [split; [by apply cap_state_io|exact Hc]|exact (same_bytes_refl live s)].
  - intros Hd i e s' Hi He He0 Hfirst Hs' Hb' _. eexists. split.
    + apply A_grant; [exact Hd|]. split; [exact Hi|]. split; [by exists e|exact Hfirst].
    + split; [|exact Hb']. split; [exact Hs'|]. eapply counted_swap; [|exact Hc].
      intros Hc'. by eapply counted_grant.
  - intros Hd Hfull s' Hs' Hb' _. eexists. split; [by apply A_grant_full|]. split; [|exact Hb']. by split.
Qed.

Lemma gens_agree h e :
  ents !! Z.to_nat h = Some e -> e_object e = o_addr o -> e_gen e = o_gen o.
Proof.
  intros He Ha. pose proof (Forall_lookup_1 _ _ _ _ (ct_gens _ _ Hc) He) as Hg. simpl in Hg.
  by apply (proj1 (Forall_forall _ _) Hg o here).
Qed.

Lemma sim_lookup h r e :
  0 <= h < 4096 -> ents !! Z.to_nat h = Some e -> e_object e = o_addr o -> o_refs o < 2 ^ 32 - 1 ->
  wp (cap_lookup t h r) s (simulates s a (Lookup h r) cs t live) E.
Proof.
  intros Hh He Ha Hlt. pose proof here_counted as (_ & Hpos & Href). pose proof (gens_agree h e He Ha) as Hg.
  eapply wp_cap_lookup; [exact Hs|exact Hh|exact He|exact Ha|by intros []| |].
  - intros _ Hd s' (Hs' & Hb' & _). eexists. split; [eapply A_lookup_denied; [exact Hh|exact He|lia|exact Hd]|].
    split; [|exact Hb']. by split.
  - intros _ Hd s' (Hs' & Hb' & _). rewrite wrap32_small in Hs' by (unfold u32; lia).
    eexists. split; [by eapply A_lookup|]. split; [|exact Hb']. split; [exact Hs'|]. apply counted_refs. lia.
Qed.

Lemma sim_close h e :
  0 <= h < 4096 -> ents !! Z.to_nat h = Some e -> e_object e = o_addr o ->
  wp (object_close t h) s (simulates s a (Close h) cs t live) E.
Proof.
  intros Hh He Ha. pose proof here_counted as (Hhb & _ & _).
  destruct (counted_clear o (pre ++ post) ents (Z.to_nat h) e) as [Hhp Hc1]; [|exact He|exact Ha|].
  { by apply (counted_perm _ _ ents (symmetry (Permutation_middle pre post o))). }
  apply (counted_perm _ _ _ (Permutation_middle pre post _)) in Hc1.
  eapply wp_object_close; [exact Hs|exact Hh|exact He|exact Ha|]. intros s' (Hs' & Hb' & _). revert Hs'.
  rewrite wrap32_small by (unfold u32; lia). intros Hs'.
  destruct (settle tys pre (set_handles (o_handles o - 1) o) post) as [tys' objs'] eqn:Hset.
  eexists. split; [by eapply A_close|]. split; [|exact Hb']. split; [|by eapply counted_settle].
  unfold settle in Hset. destruct (deadb _); injection Hset as <- <-; apply Hs'.
Qed.
End object_calls.

(** The entry of a handle names nothing, or a live object. *)
Lemma entry_cases objs ents h :
  counted objs ents -> 0 <= h ->
  4096 <= h \/ h < 4096 /\ exists e, ents !! Z.to_nat h = Some e /\
    (e_object e = 0 \/ exists pre o post, objs = pre ++ o :: post /\ e_object e = o_addr o).
Proof.
  intros Hc Hh. destruct (Z_le_gt_dec 4096 h) as [|Hlt]; [by left|right]. split; [lia|].
  destruct (lookup_lt_is_Some_2 ents (Z.to_nat h)) as [e He]; [rewrite (ct_len _ _ Hc); lia|].
  exists e. split; [done|]. pose proof (Forall_lookup_1 _ _ _ _ (ct_known _ _ Hc) He) as [Hz|(o & Ho & Ha)]; [by left|right].
  apply list_elem_of_split in Ho as (pre & post & ->). by exists pre, o, post.
Qed.

Lemma sim_stay s a c cs t live v s' :
  astep a c v a -> counted (a_objs a) (a_ents a) ->
  untouched s (a_tys a) (a_objs a) (a_next a) cs t (a_ents a) (a_hint a) live s' -> simulates s a c cs t live v s'.
Proof. intros Hst Hc (Hs' & Hb' & _). exists a. split; [done|]. split; [by split|done]. Qed.

Lemma sim_lookup_call s a cs t live h r E :
  abstracts s a cs t live -> 0 <= h -> Forall (fun o => o_refs o < 2 ^ 32 - 1) (a_objs a) ->
  wp (cap_lookup t h r) s (simulates s a (Lookup h r) cs t live) E.
Proof.
  intros Ha Hh Hf. pose proof Ha as [Hs Hc]. destruct a as [tys objs next ents hint].
  cbn [a_tys a_objs a_next a_ents a_hint] in *.
  destruct (entry_cases _ _ h Hc Hh) as [Hge|(Hlt & e & Hent & [Hz|(pre & o & post & -> & Hao)])].
  - unfold cap_lookup. rewrite (proj2 (Z.leb_le _ _)) by done. apply wp_ret.
    eexists. split; [apply A_lookup_none; by left|]. split; [done|apply same_bytes_refl].
  - eapply wp_cap_lookup_empty; [exact Hs|lia|exact Hent|exact Hz|]. intros s' Hs'.
    eapply sim_stay; [|exact Hc|exact Hs']. apply A_lookup_none. right. by exists e.
  - eapply sim_lookup; [exact Hs|exact Hc|lia|exact Hent|exact Hao|].
    apply (proj1 (Forall_forall _ _) Hf o), here.
Qed.

Lemma sim_close_call s a cs t live h E :
  abstracts s a cs t live -> 0 <= h -> wp (object_close t h) s (simulates s a (Close h) cs t live) E.
Proof.
  intros Ha Hh. pose proof Ha as [Hs Hc]. destruct a as [tys objs next ents hint].
  cbn [a_tys a_objs a_next a_ents a_hint] in *.
  destruct (entry_cases _ _ h Hc Hh) as [Hge|(Hlt & e & Hent & [Hz|(pre & o & post & -> & Hao)])].
  - unfold object_close. rewrite (proj2 (Z.leb_le _ _)) by done. apply wp_ret.
    eexists. split; [apply A_close_none; by left|]. split; [done|apply same_bytes_refl].
  - eapply wp_object_close_empty; [exact Hs|lia|exact Hent|exact Hz|]. intros s' Hs'.
    eapply sim_stay; [|exact Hc|exact Hs']. apply A_close_none. right. by exists e.
  - by eapply sim_close; [exact Hs|exact Hc|lia|exact Hent|exact Hao].
Qed.

(** Every enabled call is a step of the abstract machine. *)
Lemma wp_call s a c cs t live (E : kstate -> Prop) :
  abstracts s a cs t live -> enabled a c -> (forall s', exhausted s' -> E s') ->
  wp (run_call t c) s (simulates s a c cs t live) E.
Proof.
  intros Ha He HE. destruct a as [tys objs next ents hint]. pose proof Ha as [Hs Hc]. cbn [a_tys a_objs a_next a_ents a_hint] in *.
  destruct c as [i args|x|x|x r|h r|h]; cbn [run_call].
  - by apply sim_create.
  - destruct He as (o & Ho & <- & Hlt). apply list_elem_of_split in Ho as (pre & post & Heq). simpl in Heq. subst objs.
    by apply sim_ref.
  - destruct He as (o & Ho & <- & Hlt). apply list_elem_of_split in Ho as (pre & post & Heq). simpl in Heq. subst objs.
    by apply sim_deref.
  - destruct He as (Hu & o & Ho & <-). apply list_elem_of_split in Ho as (pre & post & Heq). simpl in Heq. subst objs.
    by apply sim_grant.
  - destruct He as [Hh Href]. by apply sim_lookup_call.
  - by apply sim_close_call.
Qed.

Lemma wp_client p s a cs t live (E : kstate -> Prop) :
  abstracts s a cs t live -> legal a p -> (forall s', exhausted s' -> E s') ->
  wp (run_client t p) s
    (fun tr s' => exists a', runs p a tr a' /\ abstracts s' a' cs t live /\ same_bytes live s s') E.
Proof.
  revert s a. induction p as [|c k IH]; intros s a Ha Hl HE; simpl.
  - apply wp_ret. exists a. split; [constructor|]. split; [done|apply same_bytes_refl].
  - destruct Hl as [Hen Hk]. apply wp_bind. eapply wp_weaken; [by apply wp_call|].
    intros v s1 (a1 & Hst & Ha1 & Hb1). apply wp_bind. eapply wp_weaken.
    + apply IH; [exact Ha1|apply (Hk v a1 Hst), (ab_counted _ _ _ _ _ Ha1)|exact HE].
    + intros tr s2 (a2 & Hr & Ha2 & Hb2). apply wp_ret. exists a2.
      split; [by econstructor|]. split; [done|by eapply same_bytes_trans].
Qed.
End simulation.

(** ** Properties *)

Section properties.
Context `{Callbacks, !Console, !CallbacksOk}.

(** C1: The object manager and a capability table implement the abstract
    machine.  Whatever sequence of creations, references, grants, lookups and
    closes a client makes, each chosen from the earlier answers and enabled
    when made, the code makes no invalid access, never spins, and answers as a
    run of the machine does; it ends in a state that represents the machine's
    final state, where every handle count is the number of handles there are
    and no handle names a dead object, and the memory of others is untouched.
    It stops early only in a panic, when no page frame is left.  The types'
    callbacks are any that write only the payload of the object they are given,
    the devices and a static of their own ([CallbacksOk]). *)
Theorem cap_refines s a cs t live p :
  abstracts s a cs t live -> legal a p ->
  wp (run_client t p) s
    (fun tr s' => exists a', runs p a tr a' /\ abstracts s' a' cs t live /\ same_bytes live s s')
    exhausted.
Proof. intros Ha Hl. by apply wp_client. Qed.

(** C10: Use after free is impossible through handles.  A lookup of a handle in
    a well-formed state returns a live object that the handle's entry names, with
    all the rights asked for, and one reference more than it had; or 0, when the
    handle is out of range, its entry is empty or lacks a right.  Nothing else
    changes. *)
Theorem cap_lookup_safe s a cs t live h r :
  abstracts s a cs t live -> 0 <= h -> Forall (fun o => o_refs o < 2 ^ 32 - 1) (a_objs a) ->
  safe (cap_lookup t h r) s (fun v s' =>
    (v = 0 /\ abstracts s' a cs t live /\
     (4096 <= h \/ exists e, a_ents a !! Z.to_nat h = Some e /\ (e_object e = 0 \/ Z.land (e_rights e) r <> r))) \/
    exists pre o post e, a_objs a = pre ++ o :: post /\ v = o_addr o /\
      a_ents a !! Z.to_nat h = Some e /\ e_object e = o_addr o /\ Z.land (e_rights e) r = r /\
      abstracts s' (mkA (a_tys a) (pre ++ set_refs (o_refs o + 1) o :: post) (a_next a) (a_ents a) (a_hint a)) cs t live).
Proof.
  intros Ha Hh Hf.
  eapply wp_weaken; [by apply sim_lookup_call|]. intros v s' (a' & Hst & Ha' & _).
  inversion Hst as [| | | | | | |? ? ? Hno|? ? ? e Hh' He Hz Hr| | |]; subst; cbn [a_tys a_objs a_next a_ents a_hint] in *;
    [left|left|right; by eexists _, _, _, _].
  - split_and!; [done..|]. destruct Hno as [?|(e & ? & ?)]; [by left|]. right. exists e. auto.
  - split_and!; [done..|]. right. exists e. auto.
Qed.
(** A new capability table is empty: 4096 entries that name nothing, at a
    place apart from everything in use.  [cap_table_create] returns 0 only when
    no page frame is free; it can panic when the free frames are not in a row. *)
Theorem cap_table_create_correct s bs tys objs next cs live :
  os_rep s bs tys objs next cs live -> Forall (fun o => o_handles o = 0) objs ->
  wp cap_table_create s (fun t s' =>
      (t = 0 /\ free_set s = ∅) \/
      (0 < t /\ same_bytes live s s' /\
       exists cs', abstracts s' (mkA tys objs next (replicate 4096 no_entry) 0) cs' t ((bs ≫= extents) ++ live)))
    (fun _ => True).
Proof.
  intros Hr Hh. eapply wp_cap_table_create; [exact Hr| |by left|done].
  intros t s' Ht [_ _ (ks & _ & _ & Hom)] Hm Hb _. right. split; [done|]. split; [done|]. exists (ks ++ cs).
  eapply om_rep_perm in Hom; [|reflexivity|apply perm_move]. split; [by split|]. by eapply counted_new.
Qed.
End properties.

(** ** Witnesses *)

#[local] Existing Instances arm64_virt arm64_console.

Definition table_demo : Z := 0x40102010.
Definition cap_demo : kstate := final cap_table_create os_demo.
Definition cap_type_demo : kstate :=
  final (t <- object_type_register 0x40083000 32 demo_ops ;; store32 (t + ty_default_rights) 3) cap_demo.

Lemma os_demo_frames : free_set os_demo <> ∅.
Proof. intros He. apply (f_equal (fun F : gset Z => size F)) in He. vm_compute in He. discriminate He. Qed.

Lemma cap_table_create_correct_witness :
  exists s' cs, cap_table_create os_demo = Ok table_demo s' /\
    abstracts s' (mkA [] [] 1 (replicate 4096 no_entry) 0) cs table_demo [].
Proof.
  destruct os_demo_rep as [meta Hr].
  destruct (wp_result _ _ _ _ table_demo (cap_table_create_correct os_demo [] [] [] 1 _ [] Hr (Forall_nil_2 _)))
    as (s' & Hrun & [[Hz _]|(_ & _ & cs & Ha)]); [vm_compute; reflexivity|discriminate Hz|].
  exists s', cs. exact (conj Hrun Ha).
Defined.

(** The table next to the object manager without types, then with a type. *)
Lemma cap_demo_rep :
  exists meta cs, cap_state cap_demo [] [] 1 (mkCache 0x40090000 32 meta :: cs) table_demo (replicate 4096 no_entry) 0 0 [].
Proof.
  destruct os_demo_rep as [meta Hr]. unfold cap_demo.
  apply (os_final cap_table_create os_demo table_demo (fun s => exists meta cs,
    cap_state s [] [] 1 (mkCache 0x40090000 32 meta :: cs) table_demo (replicate 4096 no_entry) 0 0 []) (fun _ => True));
    [|vm_compute; reflexivity].
  eapply wp_cap_table_create; [exact Hr| |intros Hf _; by destruct (os_demo_frames Hf)|done].
  intros t s' _ [_ _ (ks & _ & _ & Hom)] Hm _ _ ->. exists meta, ks. split; [|exact Hm].
  apply (om_rep_same s'); [reflexivity|reflexivity|].
  eapply om_rep_perm; [..|exact Hom]; [|reflexivity]. symmetry. apply Permutation_cons_append.
Qed.

Lemma cap_demo_meta : cache_meta_initialized cap_demo = true.
Proof. vm_compute. reflexivity. Qed.

Lemma cap_demo_rights : get32 (k_mem cap_demo) (ob_type_for 0 + 80) = 0.
Proof. vm_compute. reflexivity. Qed.

Definition start_with (a : Z) (ents : list cap_entry) : astate :=
  mkA [mkType 0x40081000 0x40082000 3 (mkCache a 80 [])] [] 1 ents 0.
Definition start_demo (a : Z) : astate := start_with a (replicate 4096 no_entry).

Lemma cap_type_demo_rep : exists a cs, abstracts cap_type_demo (start_demo a) cs table_demo [].
Proof.
  destruct cap_demo_rep as (meta & cs & Hr & Hm). unfold cap_type_demo.
  apply (os_final (t <- object_type_register 0x40083000 32 demo_ops ;; store32 (t + ty_default_rights) 3) cap_demo tt
    (fun s => exists a cs, abstracts s (start_demo a) cs table_demo []) exhausted); [|vm_compute; reflexivity].
  apply wp_bind. eapply (wp_type_register cap_demo []); [exact Hr|exact cap_demo_meta|simpl; lia|lia|exact demo_create_for|exact demo_destroy_for| | | |done].
  1,2: vm_compute; intuition discriminate.
  intros a meta' s' ty Hr' Hb _. assert (Hty : ty = mkType 0x40081000 0x40082000 0 (mkCache a 80 [])).
  { unfold ty. change (ob_type_for (Z.of_nat (length []))) with (ob_type_for 0). rewrite cap_demo_rights. reflexivity. }
  rewrite Hty in Hr'. apply same_bytes_app in Hb as [Hb _]. cbn [app] in Hr'.
  assert (H0 : [mkType 0x40081000 0x40082000 0 (mkCache a 80 [])] !! Z.to_nat 0 = Some (mkType 0x40081000 0x40082000 0 (mkCache a 80 [])))
    by reflexivity.
  apply wp_store; [by apply (type_valid _ _ _ _ _ _ _ _ 80 4 Hr' H0)|].
  destruct (om_set_rights s' _ _ _ _ _ 0 _ 3 Hr' H0 ltac:(lia) ltac:(unfold u32; lia)) as [Hr2 Hb2].
  apply same_bytes_app in Hb2 as [Hb2 _]. set (s2 := set_mem s' _) in *. intros _. exists a, (mkCache 0x40090000 32 meta' :: cs). split.
  - split; [exact (om_rep_same s2 (set_io s2 []) _ _ _ _ _ eq_refl eq_refl Hr2)|].
    apply (cap_mem_same s' s2 _ _ _ _ Hb2). exact (cap_mem_same _ _ _ _ _ _ Hb Hm).
  - eapply counted_new; [exact Hr2|constructor].
Qed.

(** A client that creates an object, takes a handle to it with the right to
    read, and drops its own reference: the handle alone holds the object. *)
Definition with_handle (k : Z -> client) : client :=
  Call (Create 0 0) (fun obj => if obj =? 0 then Done else
  Call (Grant obj RIGHT_READ) (fun h => if h =? CAP_INVALID then Done else
  Call (Deref obj) (fun _ => k h))).

(** One that then looks the object up and closes the handle. *)
Definition demo_client : client :=
  with_handle (fun h => Call (Lookup h RIGHT_READ) (fun _ => Call (Close h) (fun _ => Done))).

Lemma app_cons_single {A} (pre : list A) o post x : pre ++ o :: post = [x] -> pre = [] /\ o = x /\ post = [].
Proof. destruct pre as [|y [|z pre]]; simpl; intros [= <- ?]; subst; try done. Qed.

Lemma with_handle_legal a ents0 k :
  (forall h objs ents tys hint, 0 <= h -> Forall (fun o => o_refs o < 2 ^ 32 - 1) objs ->
     legal (mkA tys objs 2 ents hint) (k h)) ->
  legal (start_with a ents0) (with_handle k).
Proof.
  intros Hk. unfold with_handle. cbn [legal]. split; [simpl; lia|]. intros x a1 Hst _.
  destruct (Z.eqb_spec x 0) as [Hx|Hx]; [done|].
  inversion Hst; subst; [|done]. cbn [legal]. split.
  { split; [unfold u32, RIGHT_READ; lia|]. eexists. split; [left|done]. }
  intros h a2 Hst2 _. destruct (Z.eqb_spec h CAP_INVALID) as [Hh|Hh]; [done|]. clear Hst.
  inversion Hst2; subst; [done|done|].
  match goal with He : _ ++ _ :: _ = [_] |- _ => apply app_cons_single in He as (-> & -> & ->) end.
  cbn [legal app]. split.
  { eexists. split; [left|]. split; [done|]. simpl. lia. }
  intros v a3 Hst3 _. clear Hst2. inversion Hst3; subst.
  match goal with He : _ ++ _ :: _ = [_] |- _ => apply app_cons_single in He as (-> & -> & ->) end.
  match goal with He : settle _ _ _ _ = _ |- _ => injection He as <- <- end.
  match goal with |- context [slot_at 0 ?i] => pose proof (slot_range 0 i) end.
  apply Hk; [lia|by repeat constructor].
Qed.

Lemma demo_legal a : legal (start_demo a) demo_client.
Proof.
  apply with_handle_legal. intros h objs ents tys hint Hh Hr. cbn [legal]. split; [done|].
  intros v a' _ _. split; [done|done].
Qed.

Definition demo_trace : list (call * Z) :=
  [(Create 0 0, 0x40113FB0); (Grant 0x40113FB0 RIGHT_READ, 0); (Deref 0x40113FB0, 0); (Lookup 0 RIGHT_READ, 0x40113FB0);
   (Close 0, 0)].

Lemma cap_refines_witness :
  exists s' a a' cs, run_client table_demo demo_client cap_type_demo = Ok demo_trace s' /\
    runs demo_client (start_demo a) demo_trace a' /\ abstracts s' a' cs table_demo [].
Proof.
  destruct cap_type_demo_rep as (a & cs & Ha).
  destruct (wp_result _ _ _ _ demo_trace (cap_refines cap_type_demo _ cs table_demo [] demo_client Ha (demo_legal a)))
    as (s' & Hrun & a' & Hr & Ha' & _); [vm_compute; reflexivity|].
  exists s', a, a', cs. exact (conj Hrun (conj Hr Ha')).
Defined.

Definition held_client : client := with_handle (fun _ => Done).
Definition held_trace : list (call * Z) :=
  [(Create 0 0, 0x40113FB0); (Grant 0x40113FB0 RIGHT_READ, 0); (Deref 0x40113FB0, 0)].
Definition held_demo : kstate := final (run_client table_demo held_client) cap_type_demo.

Definition held_object (d : Z) : object := mkObj 0x40113FB0 0 0 1 0 1 d.

Lemma held_runs a ents a' :
  runs held_client (start_with a ents) held_trace a' ->
  exists d, a_objs a' = [held_object d].
Proof.
  intros Hr. inversion Hr as [|? ? ? ? ? ? ? H1 R1]; subst; clear Hr.
  inversion H1; subst; clear H1. cbn [Z.eqb Pos.eqb] in R1.
  inversion R1 as [|? ? ? ? ? ? ? H1 R2]; subst; clear R1.
  inversion H1; subst; clear H1.
  match goal with He : _ ++ _ :: _ = [_] |- _ => apply app_cons_single in He as (-> & -> & ->) end.
  inversion R2 as [|? ? ? ? ? ? ? H1 R3]; subst; clear R2.
  inversion H1; subst; clear H1.
  match goal with He : _ ++ _ :: _ = _ |- _ => apply app_cons_single in He as (-> & -> & ->) end.
  match goal with He : settle _ _ _ _ = _ |- _ => injection He as <- <- end.
  inversion R3; subst. by exists d.
Qed.

Lemma held_abstracts : exists a d cs, abstracts held_demo a cs table_demo [] /\ a_objs a = [held_object d].
Proof.
  destruct cap_type_demo_rep as (a & cs & Ha).
  assert (Hw : wp (run_client table_demo held_client) cap_type_demo
    (fun tr s' => tr = held_trace -> exists a' d, abstracts (set_io s' []) a' cs table_demo [] /\ a_objs a' = [held_object d])
    exhausted).
  { eapply wp_weaken; [apply (wp_client held_client _ _ _ _ _ exhausted Ha); [|done]|].
    - by apply with_handle_legal.
    - intros tr s' (a' & Hr & [Hs Hc] & _) ->. destruct (held_runs a _ a' Hr) as [d Hd]. exists a', d.
      split; [|exact Hd]. split; [by apply cap_state_io|exact Hc]. }
  apply (os_final _ cap_type_demo held_trace (fun s => exists a d cs, abstracts s a cs table_demo [] /\ a_objs a = [held_object d])
    exhausted); [|vm_compute; reflexivity].
  eapply wp_weaken; [exact Hw|]. intros tr s' H' Htr. destruct (H' Htr) as (a' & d & Hr). by exists a', d, cs.
Qed.

Lemma cap_lookup_safe_witness :
  exists s' a d cs, cap_lookup table_demo 0 RIGHT_READ held_demo = Ok 0x40113FB0 s' /\
    a_objs a = [mkObj 0x40113FB0 0 1 1 0 1 d] /\ abstracts s' a cs table_demo [].
Proof.
  destruct held_abstracts as (a & d & cs & Ha & Ho).
  destruct (wp_result _ _ _ _ 0x40113FB0 (cap_lookup_safe held_demo a cs table_demo [] 0 RIGHT_READ Ha ltac:(lia)
    ltac:(rewrite Ho; repeat constructor)))
    as (s' & Hrun & [(Hz & _ & _)|(pre & o & post & e & Hpo & _ & _ & _ & _ & Ha')]); [vm_compute; reflexivity|discriminate Hz|].
  rewrite Ho in Hpo. symmetry in Hpo. apply app_cons_single in Hpo as (-> & -> & ->).
  eexists s', (mkA _ _ _ _ _), d, cs. split; [exact Hrun|]. split; [|exact Ha']. reflexivity.
Defined.
