(* ===== verification/ObTest.v ===== *)
(** * The kernel's own test of its objects: [object_test] of base/ob/ob.c *)

From Stdlib Require Import String.
From S2P Require Import Prelude Machine Logic Console Boards Sync Str Boot Pmm Heap Slab Kheap Mm Hash Ob ObSpec Cap.

#[local] Open Scope string_scope.
#[local] Open Scope list_scope.
#[local] Open Scope Z_scope.

Section obtest.
Context `{Platform}.
(** Where the linker puts the two callbacks. *)
Context (create_addr destroy_addr : Z).

Definition test_object_create (obj args : Z) : M Z :=
  klog_info "test" "object create callback" [] ;;
  ret 0.

Definition test_object_destroy (obj : Z) : M unit :=
  klog_info "test" "object destroy callback" [] ;;
  modify (fun s => set_test s true).

#[local] Instance test_callbacks : Callbacks := {|
  call_create := fun f obj args => if f =? create_addr then test_object_create obj args else fault;
  call_destroy := fun f obj => if f =? destroy_addr then test_object_destroy obj else fault;
  create_code := fun f _ => f = create_addr;
  destroy_code := fun f _ => f = destroy_addr
|}.

(** The test after the type is registered and an object created. *)
Definition test_handles (obj : Z) : M unit :=
  cap_table <- cap_table_create ;;
  if cap_table =? 0 then klog_info "test" "[ob] FAIL: cap_table_create" []
  else
  handle <- object_grant cap_table obj RIGHT_READ ;;
  if handle =? CAP_INVALID then klog_info "test" "[ob] FAIL: object_grant with RIGHT_READ" []
  else
  handles <- atomic_load (obj + ob_handle_count) ;;
  if negb (handles =? 1) then klog_info "test" "[ob] FAIL: handle_count after grant" []
  else
  klog_info "test" "[ob] PASS: object_grant with RIGHT_READ" [] ;;
  write_lookup <- cap_lookup cap_table handle RIGHT_WRITE ;;
  if negb (write_lookup =? 0) then
    klog_info "test" "[ob] FAIL: cap_lookup allowed RIGHT_WRITE when only RIGHT_READ granted" []
  else
  klog_info "test" "[ob] PASS: cap_lookup RIGHT_WRITE rejected" [] ;;
  read_lookup <- cap_lookup cap_table handle RIGHT_READ ;;
  if negb (read_lookup =? obj) then klog_info "test" "[ob] FAIL: cap_lookup RIGHT_READ failed" []
  else
  object_deref read_lookup ;;
  klog_info "test" "[ob] PASS: cap_lookup RIGHT_READ succeeded" [] ;;
  object_deref obj ;;
  early <- gets g_test_destroyed ;;
  if early : bool then klog_info "test" "[ob] FAIL: object destroyed early while handle_count > 0" []
  else
  closed <- object_close cap_table handle ;;
  if negb (closed =? 0) then klog_info "test" "[ob] FAIL: object_close failed" []
  else
  late <- gets g_test_destroyed ;;
  if negb late then klog_info "test" "[ob] FAIL: destroy callback did not fire after closing handle" []
  else klog_info "test" "[ob] PASS: handle_count dropped and destroy callback triggered" [].

(** The address of the string literal naming the type. *)
Context (test_name : Z).

Definition object_test : M unit :=
  klog_info "test" "[ob] starting" [] ;;
  let ops := mkOps create_addr destroy_addr 0 0 0 0 0 in
  type <- object_type_register test_name 32 ops ;;
  if type =? 0 then klog_info "test" "[ob] FAIL: type registration" []
  else
  store32 (type + ty_default_rights) (Z.lor RIGHT_READ RIGHT_WRITE) ;;
  klog_info "test" "[ob] PASS: type registration" [] ;;
  obj <- object_create type 0 ;;
  if obj =? 0 then klog_info "test" "[ob] FAIL: object creation" []
  else
  klog_info "test" "[ob] PASS: object creation" [] ;;
  refs <- atomic_load (obj + ob_refcount) ;;
  if negb (refs =? 1) then klog_info "test" "[ob] FAIL: initial refcount" []
  else
  klog_info "test" "[ob] PASS: initial refcount" [] ;;
  test_handles obj.

(** ** The test in general *)

Context `{!Console}.

#[local] Instance test_callbacks_ok : CallbacksOk.
Proof.
  split; intros f n obj; [intros args|]; intros s -> Hsz Hv; unfold call_create, call_destroy; cbn [test_callbacks];
    rewrite Z.eqb_refl; apply wp_bind; wp_print.
  - apply wp_ret. exists (k_mem s), t, (g_test_destroyed s). split; [by destruct s|done].
  - apply wp_modify. exists (k_mem s), t, true. split; [by destruct s|done].
Qed.

(** What the two callbacks do to their static. *)
Lemma asked_test s obj args r s' :
  create_addr <> 0 -> asked s create_addr obj args r s' -> r = 0 /\ g_test_destroyed s' = g_test_destroyed s.
Proof.
  intros Hc. unfold asked. rewrite (proj2 (Z.eqb_neq _ _) Hc). intros (sa & sb & [_ Ha] & Hrun & [_ Hb]).
  assert (Hw : safe (call_create create_addr obj args) sa (fun r s' => r = 0 /\ g_test_destroyed s' = g_test_destroyed sa)).
  { unfold call_create. cbn [test_callbacks]. rewrite Z.eqb_refl. apply wp_bind. wp_print. by apply wp_ret. }
  apply safe_run in Hw as (r' & s2 & Hrun' & -> & Hg). rewrite Hrun' in Hrun. injection Hrun as <- <-.
  split; [done|congruence].
Qed.

Lemma notified_test s obj s' : destroy_addr <> 0 -> notified s destroy_addr obj s' -> g_test_destroyed s' = true.
Proof.
  intros Hc. unfold notified. rewrite (proj2 (Z.eqb_neq _ _) Hc). intros (sa & sb & _ & Hrun & [_ Hb]). rewrite Hb.
  assert (Hw : safe (call_destroy destroy_addr obj) sa (fun _ s' => g_test_destroyed s' = true)).
  { unfold call_destroy. cbn [test_callbacks]. rewrite Z.eqb_refl. apply wp_bind. wp_print. by apply wp_modify. }
  apply safe_run in Hw as ([] & s2 & Hrun' & Hg). rewrite Hrun' in Hrun. by injection Hrun as <-.
Qed.

(** Dropping a reference that is not the last thing that holds the object. *)
Lemma wp_cap_deref s tys pre o post next cs t ents hint live (Q : unit -> kstate -> Prop) E :
  cap_state s tys (pre ++ o :: post) next cs t ents hint 0 live -> 0 < o_handles o ->
  (forall s', cap_state s' tys (pre ++ set_refs (wrap32 (o_refs o - 1)) o :: post) next cs t ents hint 0 live ->
     same_bytes live s s' -> heap_only s s' -> Q tt s') ->
  wp (object_deref (o_addr o)) s Q E.
Proof.
  intros [Hr Hm] Hh HQ. eapply wp_object_deref; [exact Hr| |lia].
  intros _ s' Hr' Hb' Ho'. apply same_bytes_app in Hb' as [Hbc Hb'].
  apply HQ; [split; [exact Hr'|by eapply (cap_mem_same s)]|exact Hb'|exact Ho'].
Qed.

(** The first entry of an empty table is taken. *)
Lemma first_slot i e :
  0 <= i < 4096 -> replicate 4096 no_entry !! Z.to_nat (slot_at 0 i) = Some e ->
  (forall j e', 0 <= j < i -> replicate 4096 no_entry !! Z.to_nat (slot_at 0 j) = Some e' -> e_object e' <> 0) ->
  slot_at 0 i = 0.
Proof.
  intros Hi _ Hmin. destruct (decide (i = 0)) as [->|Hne]; [reflexivity|].
  exfalso. eapply (Hmin 0 no_entry); [lia| |done]. apply lookup_replicate. split; [done|]. vm_compute. lia.
Qed.

(** How the test ends, with the object at [x], its [destroyed] byte being [d]
    when it was created. *)
Definition test_ends tys objs next x i id d cs live (s' : kstate) : Prop :=
  exists t, 0 < t /\ cap_mem (k_mem s') t (<[0%nat := clear (mkEntry x RIGHT_READ 0)]> (replicate 4096 no_entry)) (next_hint 0) 0 /\
    if d =? 0 then om_rep s' (give_back i x tys) objs next cs (cap_area t ++ live) /\ g_test_destroyed s' = true
    else om_rep s' tys (mkObj x i 0 0 0 id d :: objs) next cs (cap_area t ++ live) /\ g_test_destroyed s' = false.

Lemma heap_test s s' : heap_only s s' -> g_test_destroyed s' = g_test_destroyed s.
Proof. by intros [_ Hg]%quiet_heap. Qed.

(** The end of the test: the references are dropped, then the handle. *)
Lemma wp_test_close s tys i ty objs x id d next cs t hint live (Q : unit -> kstate -> Prop) E :
  let e := mkEntry x RIGHT_READ 0 in let ents := <[0%nat := e]> (replicate 4096 no_entry) in
  cap_state s tys (mkObj x i 1 1 0 id d :: objs) next cs t ents hint 0 live ->
  tys !! Z.to_nat i = Some ty -> t_destroy ty = destroy_addr -> destroy_addr <> 0 ->
  g_test_destroyed s = false ->
  (forall s', cap_mem (k_mem s') t (<[0%nat := clear e]> (replicate 4096 no_entry)) hint 0 ->
     (if d =? 0 then om_rep s' (give_back i x tys) objs next cs (cap_area t ++ live) /\ g_test_destroyed s' = true
      else om_rep s' tys (mkObj x i 0 0 0 id d :: objs) next cs (cap_area t ++ live) /\ g_test_destroyed s' = false) ->
     same_bytes live s s' -> calls_only s s' -> Q tt s') ->
  wp (object_deref x ;;
      early <- gets g_test_destroyed ;;
      if early : bool then klog_info "test" "[ob] FAIL: object destroyed early while handle_count > 0" []
      else
      closed <- object_close t 0 ;;
      if negb (closed =? 0) then klog_info "test" "[ob] FAIL: object_close failed" []
      else
      late <- gets g_test_destroyed ;;
      if negb late then klog_info "test" "[ob] FAIL: destroy callback did not fire after closing handle" []
      else klog_info "test" "[ob] PASS: handle_count dropped and destroy callback triggered" []) s Q E.
Proof.
  intros e ents Hs Hty Hdt Hd0 Hg HQ. apply wp_bind.
  eapply (wp_cap_deref s tys [] (mkObj x i 1 1 0 id d)); [exact Hs|simpl; lia|]. intros s1 Hs1 Hb1 Ho1.
  change (cap_state s1 tys ([] ++ mkObj x i 0 1 0 id d :: objs) next cs t ents hint 0 live) in Hs1.
  apply wp_bind, wp_gets. rewrite (heap_test _ _ Ho1), Hg. apply wp_bind.
  assert (He : ents !! Z.to_nat 0 = Some e) by (apply list_lookup_insert_eq; rewrite length_replicate; lia).
  eapply (wp_object_close s1 tys [] (mkObj x i 0 1 0 id d) objs); [exact Hs1|lia|exact He|done|]. intros s2 (Hs2 & Hb2 & Hc2). cbn [negb Z.eqb].
  change (Z.to_nat 0) with 0%nat in Hs2. unfold ents in Hs2. rewrite list_insert_insert_eq in Hs2.
  apply wp_bind, wp_gets. unfold deadb in Hs2. change (wrap32 (_ - 1)) with 0 in Hs2.
  cbn [set_handles o_addr o_type o_refs o_handles o_gen o_id o_dead app Z.eqb andb] in Hs2.
  assert (Hb : same_bytes live s s2) by (by eapply same_bytes_trans).
  assert (Hc : calls_only s s2) by (exact (calls_only_trans _ _ _ (calls_heap _ _ Ho1) Hc2)).
  assert (Hio : forall u, calls_only s (set_io s2 u)).
  { intros u. eapply calls_only_trans; [exact Hc|]. exists (k_mem s2), (k_pmm s2), u, (g_test_destroyed s2). by destruct s2. }
  assert (Hg2 : g_test_destroyed s2 = (d =? 0)).
  { destruct (d =? 0).
    - destruct Hs2 as [_ Hn]. apply (notified_test s1 x); [exact Hd0|]. unfold type_destroy in Hn. by rewrite Hty, Hdt in Hn.
    - destruct Hs2 as [_ [_ ->]]. by rewrite (heap_test _ _ Ho1). }
  rewrite Hg2. destruct (d =? 0); destruct Hs2 as [[Hr2 Hm2] _]; cbn [negb]; wp_print;
    (apply HQ; [exact Hm2| |exact Hb|by apply Hio]);
    (split; [by apply (om_rep_same s2)|by rewrite <- Hg2]).
Qed.

Lemma calls_io s s1 u : calls_only s s1 -> calls_only s (set_io s1 u).
Proof.
  intros Hc. eapply calls_only_trans; [exact Hc|]. exists (k_mem s1), (k_pmm s1), u, (g_test_destroyed s1). by destruct s1.
Qed.

(** The test of the handles, from an object with one reference. *)
Lemma wp_test_handles s tys i ty objs x id d next cs live (Q : unit -> kstate -> Prop) (E : kstate -> Prop) :
  os_rep s [] tys (mkObj x i 1 0 0 id d :: objs) next cs live ->
  tys !! Z.to_nat i = Some ty -> t_rights ty = 3 -> t_destroy ty = destroy_addr -> destroy_addr <> 0 ->
  g_test_destroyed s = false ->
  (forall ks s', map c_addr ks = kmalloc_caches (k_kheap s') -> map c_size ks = bucket_sizes ->
     test_ends tys objs next x i id d (ks ++ cs) live s' -> same_bytes live s s' -> calls_only s s' -> Q tt s') ->
  (free_set s = ∅ -> forall u, Q tt (set_io s u)) -> (forall s', no_row s s' -> E s') ->
  wp (test_handles x) s Q E.
Proof.
  intros Hr Hty Hrights Hdt Hd0 Hg HQ HQ0 HE. unfold test_handles. set (o := mkObj x i 1 0 0 id d) in *. apply wp_bind.
  eapply wp_cap_table_create; [exact Hr| | |exact HE].
  2:{ intros Hf. simpl. wp_print. by apply HQ0. }
  intros t s1 Ht Hr1 Hm1 Hb1 Ho1. rewrite (proj2 (Z.eqb_neq t 0)) by lia.
  destruct Hr1 as [_ _ (ks & Ha & Hks & Hom1)]. cbn [mbind list_bind app] in Hom1. set (cs' := ks ++ cs) in *.
  assert (Hro : rights_of tys o = 3) by (unfold rights_of; simpl; by rewrite Hty).
  apply wp_bind. change x with (o_addr o) at 1. eapply (wp_object_grant s1 tys [] o objs); [by split|unfold u32; by vm_compute| | |].
  { rewrite Hro. by intros []. }
  2:{ intros _ Hfull. exfalso. eapply (Hfull no_entry); [|done]. by apply elem_of_replicate. }
  intros _ j e s2 Hj He _ Hmin Hs2 Hb2 Ho2. rewrite (first_slot j e Hj He Hmin) in *. clear Hmin He.
  change (Z.to_nat 0) with 0%nat in Hs2. cbn [o_addr o_gen o app set_handles] in Hs2.
  set (ents := <[0%nat := _]> _) in Hs2. change (wrap32 (o_handles o + 1)) with 1 in Hs2. set (o1 := mkObj x i 1 1 0 id d).
  change (cap_state s2 tys ([] ++ o1 :: objs) next cs' t ents (next_hint 0) 0 live) in Hs2.
  assert (Hin : o1 ∈ [] ++ o1 :: objs) by by left.
  change (0 =? CAP_INVALID) with false. cbn iota. unfold atomic_load, ob_handle_count.
  apply wp_bind, wp_load; [by apply (obj_valid _ _ _ _ _ _ _ 8 4 (proj1 Hs2) Hin)|].
  pose proof (obm_handles _ _ (om_obj_mem _ _ _ _ _ _ _ (proj1 Hs2) Hin)) as Hh. cbn [o1 o_addr o_handles] in Hh.
  rewrite Hh. cbn [negb Z.eqb Pos.eqb]. apply wp_bind. wp_print. apply (cap_state_io _ t0) in Hs2.
  assert (He : ents !! Z.to_nat 0 = Some (mkEntry x RIGHT_READ 0)).
  { apply list_lookup_insert_eq. rewrite length_replicate. lia. }
  apply wp_bind. eapply (wp_cap_lookup _ tys [] o1); [exact Hs2|lia|exact He|done|by intros []| |intros _ Hland; discriminate Hland].
  intros _ _ s3 (Hs3 & Hb3 & Ho3). cbn [negb Z.eqb]. apply wp_bind. wp_print. apply (cap_state_io _ t1) in Hs3.
  apply wp_bind. eapply (wp_cap_lookup _ tys [] o1); [exact Hs3|lia|exact He|done|by intros []|by intros _ []|].
  intros _ _ s4 (Hs4 & Hb4 & Ho4). change (o_addr o1) with x. rewrite Z.eqb_refl. cbn [negb].
  apply wp_bind. change x with (o_addr (mkObj x i 2 1 0 id d)) at 1.
  eapply (wp_cap_deref s4 tys [] (mkObj x i 2 1 0 id d) objs); [exact Hs4|simpl; lia|]. intros s5 Hs5 Hb5 Ho5.
  apply wp_bind. wp_print. apply (cap_state_io _ t2) in Hs5.
  assert (Hb : same_bytes live s s5).
  { eapply same_bytes_trans; [exact Hb1|]. eapply same_bytes_trans; [exact Hb2|]. eapply same_bytes_trans; [exact Hb3|].
    by eapply same_bytes_trans. }
  assert (Hc : calls_only s1 (set_io s5 t2)).
  { apply calls_io. eapply calls_only_trans; [apply calls_io, calls_heap; exact Ho2|].
    eapply calls_only_trans; [apply calls_io, calls_heap; exact Ho3|]. apply calls_heap. by eapply heap_only_trans. }
  eapply wp_test_close; [exact Hs5|exact Hty|exact Hdt|exact Hd0| |].
  - cbn [set_io g_test_destroyed]. rewrite (heap_test _ _ Ho5), (heap_test _ _ Ho4). cbn [set_io g_test_destroyed].
    rewrite (heap_test _ _ Ho3). cbn [set_io g_test_destroyed]. by rewrite (heap_test _ _ Ho2), (heap_test _ _ Ho1).
  - intros s6 Hm6 Hend Hb6 Hc6. pose proof (calls_only_trans _ _ _ Hc Hc6) as Hc16.
    apply (HQ ks); [|done|by exists t|by eapply same_bytes_trans|].
    + rewrite Ha. by destruct Hc16 as (m & p & u & b & ->).
    + eapply calls_only_trans; [apply calls_heap; exact Ho1|exact Hc16].
Qed.

(** The manager keeps its heap through steps that leave the other statics. *)
Lemma os_calls s s' tys objs next tys' objs' next' cs live cs' live' ks :
  os_rep s [] tys objs next cs live -> calls_only s s' ->
  map c_addr ks = kmalloc_caches (k_kheap s) -> map c_size ks = bucket_sizes ->
  om_rep s' tys' objs' next' (ks ++ cs') live' -> os_rep s' [] tys' objs' next' cs' live'.
Proof.
  intros [Hi _ _] (m & p & u & b & ->) Ha Hs Hr. split; [exact Hi|constructor|]. by exists ks.
Qed.

(** The table the test leaves behind: one entry was used and emptied. *)
Definition used_table (m : memory) (t : Z) : Prop :=
  cap_mem m t (<[0%nat := mkEntry 0 RIGHT_READ 0]> (replicate 4096 no_entry)) (next_hint 0) 0.

(** The ways the test can end, its type being [ty] and its object's number
    [id].  It passes; or stale memory marked the object destroyed, and it stays;
    or there was no frame for the table. *)
Inductive test_result (tys : list otype) (objs : list object) (id : Z) (cs : list cache_t) (live : list (Z * Z))
    (s' : kstate) : Prop :=
| test_passed t :
    0 < t -> os_rep s' [] tys objs (id + 1) cs (cap_area t ++ live) -> used_table (k_mem s') t ->
    g_test_destroyed s' = true -> test_result tys objs id cs live s'
| test_stale t x i d :
    d <> 0 -> 0 < t -> os_rep s' [] tys (mkObj x i 0 0 0 id d :: objs) (id + 1) cs (cap_area t ++ live) ->
    used_table (k_mem s') t -> g_test_destroyed s' = false -> test_result tys objs id cs live s'
| test_no_table x i d :
    free_set s' = ∅ -> os_rep s' [] tys (mkObj x i 1 0 0 id d :: objs) (id + 1) cs live ->
    g_test_destroyed s' = false -> test_result tys objs id cs live s'.

(** The ways the test can panic: for lack of a frame, or after the type and
    the object were made, with one reference to it, when the table's frames
    are not in a row. *)
Definition test_panics (tys : list otype) (objs : list object) (id : Z) (cs : list cache_t) (live : list (Z * Z))
    (s' : kstate) : Prop :=
  exhausted s' \/
  exists s1 ty x d meta,
    os_rep s1 [] (tys ++ [ty]) (mkObj x (Z.of_nat (length tys)) 1 0 0 id d :: objs) (id + 1)
      (mkCache cache_metadata_cache 32 meta :: cs) live /\ no_row s1 s'.

Lemma test_handles_result s tys ty objs x d id cs live (Q : unit -> kstate -> Prop) (E : kstate -> Prop) :
  let i := Z.of_nat (length tys) in
  os_rep s [] (tys ++ [ty]) (mkObj x i 1 0 0 id d :: objs) (id + 1) cs live ->
  t_rights ty = 3 -> t_destroy ty = destroy_addr -> destroy_addr <> 0 -> g_test_destroyed s = false ->
  (forall ty' s', t_create ty' = t_create ty -> t_destroy ty' = t_destroy ty -> t_rights ty' = t_rights ty ->
     test_result (tys ++ [ty']) objs id cs live s' -> same_bytes live s s' -> calls_only s s' -> Q tt s') ->
  (forall s', no_row s s' -> E s') ->
  wp (test_handles x) s Q E.
Proof.
  intros i Hr Hrights Hdt Hd0 Hg HQ HE.
  assert (Hty : (tys ++ [ty]) !! Z.to_nat i = Some ty).
  { unfold i. rewrite Nat2Z.id. by apply list_lookup_middle. }
  eapply wp_test_handles; [exact Hr|exact Hty|exact Hrights|exact Hdt|exact Hd0|exact Hg| | |exact HE].
  - intros ks s' Ha Hks (t & Ht & Hm & Hend) Hb Hc.
    assert (Ha' : map c_addr ks = kmalloc_caches (k_kheap s)) by (rewrite Ha; by destruct Hc as (m & p & u & b & ->)).
    assert (Hos := fun tys' objs' live' => os_calls s s' _ _ _ tys' objs' (id + 1) cs live cs live' ks Hr Hc Ha' Hks).
    destruct (Z.eqb_spec d 0) as [_|Hd]; destruct Hend as [Hend Hg'].
    + apply (HQ (set_free (x :: c_free (t_cache ty)) ty)); [done|done|done| |exact Hb|exact Hc].
      apply (test_passed _ _ _ _ _ _ t Ht); [|exact Hm|exact Hg']. apply Hos.
      unfold give_back in Hend. rewrite Hty in Hend. unfold i in Hend. rewrite Nat2Z.id in Hend.
      by rewrite insert_app_r_alt, Nat.sub_diag in Hend by done.
    + apply (HQ ty); [done|done|done| |exact Hb|exact Hc]. by apply (test_stale _ _ _ _ _ _ t x i d Hd Ht); [apply Hos| |].
  - intros Hf u. apply (HQ ty); [done|done|done| |exact (same_bytes_refl live s)|apply calls_io, calls_only_refl].
    eapply test_no_table; [exact Hf| |exact Hg]. destruct Hr as [Hi Hbs (ks & Ha & Hks & Hom)].
    eapply (os_calls s); [by split; [exact Hi|exact Hbs|exists ks]|apply calls_io, calls_only_refl|exact Ha|exact Hks|].
    by apply (om_rep_same s).
Qed.

Lemma om_gom_pos s tys objs next cs live : om_rep s tys objs next cs live -> 0 < g_om.
Proof.
  intros Hr. destruct (om_table _ _ _ _ _ _ Hr) as (al & _ & Ht).
  exact (ow_pos _ _ _ (table_rep_owned _ _ _ _ _ (g_om, 5632) Ht ltac:(apply elem_of_app; left; by left))).
Qed.

Lemma insert_type i tys (ty ty' : otype) :
  i = Z.of_nat (length tys) -> <[Z.to_nat i := ty']> (tys ++ [ty]) = tys ++ [ty'].
Proof. intros ->. rewrite Nat2Z.id, insert_app_r_alt, Nat.sub_diag by done. done. Qed.

(** Registering the type of the test. *)
Lemma wp_test_type s tys objs next meta cs live (k : Z -> M unit) (Q : unit -> kstate -> Prop) (E : kstate -> Prop) :
  om_rep s tys objs next (mkCache cache_metadata_cache 32 meta :: cs) live ->
  cache_meta_initialized s = true -> Z.of_nat (length tys) < 64 -> u64 create_addr -> u64 destroy_addr ->
  (forall ty meta' s', t_create ty = create_addr -> t_destroy ty = destroy_addr -> t_rights ty = 3 ->
     om_rep s' (tys ++ [ty]) objs next (mkCache cache_metadata_cache 32 meta' :: cs) live ->
     same_bytes live s s' -> heap_only s s' -> wp (k (ob_type_for (Z.of_nat (length tys)))) s' Q E) ->
  (forall s', exhausted s' -> E s') ->
  wp (type <- object_type_register test_name 32 (mkOps create_addr destroy_addr 0 0 0 0 0) ;;
      if type =? 0 then klog_info "test" "[ob] FAIL: type registration" []
      else store32 (type + ty_default_rights) (Z.lor RIGHT_READ RIGHT_WRITE) ;; k type) s Q E.
Proof.
  intros Hom Hi Hl Huc Hud HQ HE.
  apply wp_bind. eapply wp_type_register; [exact Hom|exact Hi|exact Hl|lia| | |exact Huc|exact Hud| |exact HE].
  1-2: right; exists 80; split; [unfold sizeof_object_header; lia|reflexivity].
  intros a meta' s1 ty0 Hom1 Hb1 Ho1. set (i := Z.of_nat (length tys)) in *.
  assert (Hty0 : (tys ++ [ty0]) !! Z.to_nat i = Some ty0).
  { unfold i. rewrite Nat2Z.id. by apply list_lookup_middle. }
  pose proof (om_gom_pos _ _ _ _ _ _ Hom1) as Hgom. rewrite (proj2 (Z.eqb_neq (ob_type_for i) 0)).
  2:{ unfold ob_type_for, sizeof_object_type. lia. }
  unfold ty_default_rights. change (Z.lor RIGHT_READ RIGHT_WRITE) with 3.
  apply wp_bind, wp_store; [by apply (type_valid _ _ _ _ _ _ _ _ 80 4 Hom1 Hty0); unfold i; lia|].
  destruct (om_set_rights _ _ _ _ _ _ _ _ 3 Hom1 Hty0) as [Hom2 Hb2]; [unfold i; lia|unfold u32; lia|].
  rewrite insert_type in Hom2 by done.
  apply (HQ (set_rights 3 ty0) meta'); [done|done|done|exact Hom2|by eapply same_bytes_trans|].
  eapply heap_only_trans; [exact Ho1|apply heap_only_set_mem].
Qed.

Lemma wp_object_test s tys objs next meta cs live (Q : unit -> kstate -> Prop) (E : kstate -> Prop) :
  os_rep s [] tys objs next (mkCache cache_metadata_cache 32 meta :: cs) live ->
  cache_meta_initialized s = true -> Z.of_nat (length tys) < 64 -> 0 <= next < 2 ^ 32 - 1 ->
  u64 create_addr -> u64 destroy_addr -> create_addr <> 0 -> destroy_addr <> 0 -> g_test_destroyed s = false ->
  (forall ty meta' s', t_create ty = create_addr -> t_destroy ty = destroy_addr -> t_rights ty = 3 ->
     test_result (tys ++ [ty]) objs next (mkCache cache_metadata_cache 32 meta' :: cs) live s' ->
     same_bytes live s s' -> calls_only s s' -> Q tt s') ->
  (forall s', test_panics tys objs next cs live s' -> E s') ->
  wp object_test s Q E.
Proof.
  intros Hr Hi Hl Hn Huc Hud Hc0 Hd0 Hg HQ HE. pose proof Hr as [Hin _ (ks & Ha & Hks & Hom)].
  unfold object_test. apply wp_bind. wp_print. cbn [mbind list_bind app] in Hom.
  apply (om_rep_same s (set_io s t)) in Hom; [|done|done]. set (s0 := set_io s t) in *.
  eapply (om_rep_perm _ _ _ _ _ (mkCache cache_metadata_cache 32 meta :: ks ++ cs)) in Hom;
    [|symmetry; apply Permutation_middle|reflexivity].
  eapply wp_test_type; [exact Hom|exact Hi|exact Hl|exact Huc|exact Hud| |by intros s' He; apply HE; left].
  intros ty1 meta' s2 Hcr Hde Hri Hom2 Hb2 Ho2. set (i := Z.of_nat (length tys)) in *.
  apply wp_bind. wp_print. apply (om_rep_same s2 (set_io s2 t0)) in Hom2; [|done|done].
  assert (Hty1 : (tys ++ [ty1]) !! Z.to_nat i = Some ty1).
  { unfold i. rewrite Nat2Z.id. by apply list_lookup_middle. }
  apply wp_bind. eapply wp_object_create; [exact Hom2|exact Hty1|unfold i; lia|exact Hn| | |by intros s' He; apply HE; left].
  2:{ intros x r l s3 _ Hr0 Hask _ _ _. exfalso. rewrite Hcr in Hask. apply asked_test in Hask as [Hz _]; done. }
  intros x l d s3 Hom3 Hb3 Hc3 Hask _ _. rewrite insert_type in Hom3 by done.
  rewrite Hcr in Hask. apply asked_test in Hask as [_ Hg3]; [|exact Hc0].
  set (o := mkObj x i 1 0 0 next d) in *. assert (Ho : o ∈ o :: objs) by by left.
  pose proof (om_set_refs_live _ _ _ _ _ _ _ Hom3 Ho) as Hx. rewrite (proj2 (Z.eqb_neq x 0)) by (simpl in Hx; lia).
  apply wp_bind. wp_print. apply (om_rep_same s3 (set_io s3 t1)) in Hom3; [|done|done].
  unfold atomic_load, ob_refcount. apply wp_bind, wp_load; [by apply (obj_valid _ _ _ _ _ _ _ 4 4 Hom3 Ho)|].
  pose proof (obm_refs _ _ (om_obj_mem _ _ _ _ _ _ _ Hom3 Ho)) as Hrefs. cbn [o o_addr o_refs] in Hrefs.
  rewrite Hrefs. cbn [negb Z.eqb Pos.eqb]. apply wp_bind. wp_print. apply (om_rep_same _ (set_io (set_io s3 t1) t2)) in Hom3; [|done|done].
  set (s4 := set_io _ t2) in *.
  assert (Hc : calls_only s s4).
  { apply calls_io, calls_io. eapply calls_only_trans; [apply calls_io, calls_only_refl|].
    eapply calls_only_trans; [apply calls_io, calls_heap; exact Ho2|exact Hc3]. }
  assert (Hb : same_bytes live s s4) by (by eapply same_bytes_trans).
  assert (Hos : os_rep s4 [] (tys ++ [set_free l ty1]) (o :: objs) (next + 1) (mkCache cache_metadata_cache 32 meta' :: cs) live).
  { eapply os_calls; [exact Hr|exact Hc|exact Ha|exact Hks|]. eapply om_rep_perm; [|reflexivity|exact Hom3]. apply Permutation_middle. }
  eapply test_handles_result; [exact Hos|exact Hri|exact Hde|exact Hd0| | |].
  3:{ intros s' Hno. apply HE. right. by exists s4, (set_free l ty1), x, d, meta'. }
  - cbn [s4 set_io g_test_destroyed]. rewrite Hg3. cbn [set_io g_test_destroyed]. by rewrite (heap_test _ _ Ho2).
  - intros ty' s5 H1' H2' H3' Hres Hb5 Hc5. apply (HQ ty' meta'); [by rewrite <- Hcr|by rewrite <- Hde|by rewrite <- Hri|exact Hres| |].
    + by eapply same_bytes_trans.
    + by eapply calls_only_trans.
Qed.

(** C33: The test in general.  From any state of the manager with room for a type,
    [object_test] makes no invalid access, never spins, and returns in one of
    three ways.  It passes: the callback ran when the handle was closed, after
    both references were gone, the object is gone and the table empty again.
    Or the memory the new object got was not clear at [destroyed]: then the
    object is never destroyed.  Or no frame was left for the table, and the
    object stays.  The manager is well formed in all three, with one more type,
    and the memory of others is untouched.  It panics in two cases only: no
    frame was left for the type or the object; or, once both were made, the
    next 17 frames were not in a row, which the table needs. *)
Theorem object_test_correct s tys objs next meta cs live :
  os_rep s [] tys objs next (mkCache cache_metadata_cache 32 meta :: cs) live ->
  cache_meta_initialized s = true -> Z.of_nat (length tys) < 64 -> 0 <= next < 2 ^ 32 - 1 ->
  u64 create_addr -> u64 destroy_addr -> create_addr <> 0 -> destroy_addr <> 0 -> g_test_destroyed s = false ->
  wp object_test s (fun _ s' => same_bytes live s s' /\
    exists ty meta', t_create ty = create_addr /\ t_destroy ty = destroy_addr /\
      t_rights ty = Z.lor RIGHT_READ RIGHT_WRITE /\
      test_result (tys ++ [ty]) objs next (mkCache cache_metadata_cache 32 meta' :: cs) live s')
    (test_panics tys objs next cs live).
Proof.
  intros Hr Hi Hl Hn Huc Hud Hc0 Hd0 Hg. eapply wp_object_test; try eassumption; [|done].
  intros ty meta' s' H1' H2' H3' Hres Hb _. split; [exact Hb|]. by exists ty, meta'.
Qed.
End obtest.

(** ** The test on a machine that was just started *)

Definition test_line (l : string) : list Z := header_text Info_ "test" ++ crlf l ++ [13; 10].

Definition test_lines : list string :=
  ["[ob] starting"; "[ob] PASS: type registration"; "object create callback"; "[ob] PASS: object creation";
   "[ob] PASS: initial refcount"; "[ob] PASS: object_grant with RIGHT_READ"; "[ob] PASS: cap_lookup RIGHT_WRITE rejected";
   "[ob] PASS: cap_lookup RIGHT_READ succeeded"; "object destroy callback";
   "[ob] PASS: handle_count dropped and destroy callback triggered"].

(** A kernel image of 480 KiB, its boot heap included, at [image], in 1 MiB. *)
Definition info_at (image : Z) : boot_info_t :=
  mkBootInfo (image + 0x70000) (image + 0x78000) image (image + 0x70000) (image + 0x20000) (image - 0x80000) 0x100000.

(** The boards the test is run on, with the place of the image. *)
Definition boards : list (Platform * Z) := [(arm64_virt, 0x40080000); (riscv_virt, 0x80200000)].

(** Started by [mm_init] and [ob_init]. *)
Definition started `{Platform} (image : Z) : kstate := final (mm_init (info_at image) ;; ob_init) cold_state.

Definition test_bytes `{Platform} : list io_event :=
  rev (map (IoWrite uart_base) (concat (map test_line test_lines))).

Definition passes (p : Platform) (image : Z) : bool :=
  match object_test (H := p) (image + 0x1000) (image + 0x2000) (image + 0x3000) (started (H := p) image) with
  | Ok _ s => g_test_destroyed s && bool_decide (k_io s = test_bytes (H := p))
  | _ => false
  end.

(** The kernel's own test passes.  On a machine just started by [mm_init]
    and [ob_init], of either architecture, [object_test] returns, prints its
    messages in this order and nothing else (no line says FAIL), and the
    [destroy] callback ran, after the last reference and the last handle were
    gone. *)
Theorem object_test_passes (p : Platform) image :
  (p, image) ∈ boards ->
  exists s', object_test (H := p) (image + 0x1000) (image + 0x2000) (image + 0x3000) (started (H := p) image) = Ok tt s' /\
    k_io s' = test_bytes (H := p) /\ g_test_destroyed s' = true.
Proof.
  intros Hp. assert (Hb : passes p image = true).
  { repeat (apply elem_of_cons in Hp as [[= -> ->]|Hp]); [..|by apply elem_of_nil in Hp]; vm_compute; reflexivity. }
  unfold passes in Hb. destruct (object_test _ _ _ _) as [[] s'| | |]; try discriminate Hb.
  apply andb_true_iff in Hb as [Hd Hio]. apply bool_decide_eq_true in Hio. by exists s'.
Qed.

Lemma object_test_passes_witness :
  exists s', object_test (H := riscv_virt) 0x80201000 0x80202000 0x80203000 (started (H := riscv_virt) 0x80200000) = Ok tt s' /\
    g_test_destroyed s' = true.
Proof.
  destruct (object_test_passes riscv_virt 0x80200000) as (s' & Hrun & _ & Hd); [right; left|]. exists s'. exact (conj Hrun Hd).
Defined.

(** The machine of ObSpec.v, with the two callbacks of the test. *)
Lemma object_test_correct_witness :
  exists s' ty meta, object_test (H := arm64_virt) 0x40081000 0x40082000 0x40083000 os_demo = Ok tt s' /\
    test_result (H := arm64_virt) 0x40081000 0x40082000 [ty] [] 1 [mkCache 0x40090000 32 meta] [] s'.
Proof.
  assert (Hr : exists meta, @os_rep arm64_virt (test_callbacks (H := arm64_virt) 0x40081000 0x40082000)
                 os_demo [] [] [] 1 [mkCache 0x40090000 32 meta] []).
  { destruct mm_demo_rep as [meta Hr].
    unfold os_demo. apply (os_final ob_init mm_demo tt (fun s => exists meta,
      @os_rep arm64_virt (test_callbacks (H := arm64_virt) 0x40081000 0x40082000) s [] [] [] 1 [mkCache 0x40090000 32 meta] []) (fun _ => True));
      [|vm_compute; reflexivity].
    eapply (wp_ob_init (H := arm64_virt) (H0 := test_callbacks (H := arm64_virt) 0x40081000 0x40082000) (H1 := arm64_console));
      [exact Hr|exact mm_demo_meta|exact mm_demo_frames| |done].
    intros meta' s' Hr' _ _ _. exists meta'. exact (os_rep_io _ _ _ _ _ _ _ _ Hr'). }
  destruct Hr as [meta Hr].
  destruct (wp_result _ _ _ _ tt (@object_test_correct arm64_virt 0x40081000 0x40082000 0x40083000 arm64_console os_demo [] [] 1 meta [] [] Hr
    os_demo_meta ltac:(simpl; lia) ltac:(lia) ltac:(unfold u64; lia) ltac:(unfold u64; lia) ltac:(lia) ltac:(lia) ltac:(vm_compute; reflexivity)))
    as (s' & Hrun & _ & ty & meta' & _ & _ & _ & Hres); [vm_compute; reflexivity|].
  exists s', ty, meta'. exact (conj Hrun Hres).
Defined.
