(* ===== verification/PageTree.v ===== *)
(** * Page tables as trees of frames

    What the page tables of arch/riscv/paging.c and arch/arm64/paging.c have in
    common: 512 entries of eight bytes per table, tables of the inner levels
    pointing to those of the next one, and the entries of the last level mapping
    pages.  A page is named by its path, the indices that lead to it from the
    root. *)

From S2P Require Import Prelude Machine Logic Console Boards Sync Str Pmm Heap Slab.

#[local] Open Scope list_scope.
#[local] Open Scope Z_scope.

(** How an architecture writes entries: [node f] points to the table at [f],
    [present] tells entries in use from the others, and [child] reads the
    address back.  Tables are below [top]. *)
Record format := mkFormat {
  node : Z -> Z;
  present : Z -> bool;
  child : Z -> Z;
  top : Z
}.

Class FormatOk (F : format) := {
  node_u64 f : 0 < f < top F -> (4096 | f) -> u64 (node F f);
  node_present f : 0 < f < top F -> (4096 | f) -> present F (node F f) = true;
  node_child f : 0 < f < top F -> (4096 | f) -> child F (node F f) = f;
  zero_absent : present F 0 = false
}.

Section tree.
Context `{Platform} (F : format) (depth : nat).

(** A page: the path to its table, and its index there. *)
Abbreviation page := (list Z * Z)%type.

Definition table_range (pf : list Z * Z) : Z * Z := (pf.2, 4096).

(** The tables [T], by path. *)
Definition tables (T : gmap (list Z) Z) : list (Z * Z) := map table_range (map_to_list T).

Definition index (i : Z) : Prop := 0 <= i < 512.

Record tree_mem (m : memory) (T : gmap (list Z) Z) : Prop := {
  tr_keys : forall p f, T !! p = Some f ->
    (length p < depth)%nat /\ Forall index p /\ 0 < f < top F /\ (4096 | f);
  tr_up : forall p i f, T !! (p ++ [i]) = Some f -> is_Some (T !! p);
  tr_nodes : forall p f i, T !! p = Some f -> (S (length p) < depth)%nat -> index i ->
    match T !! (p ++ [i]) with
    | Some f' => get64 m (f + 8 * i) = node F f'
    | None => present F (get64 m (f + 8 * i)) = false
    end
}.

(** The entry of a page, if there is a table for it and it is in use. *)
Definition entry_of_page (m : memory) (T : gmap (list Z) Z) (pg : page) : option Z :=
  match T !! pg.1 with
  | Some f => let e := get64 m (f + 8 * pg.2) in if present F e then Some e else None
  | None => None
  end.

Definition page_ok (pg : page) : Prop := S (length pg.1) = depth /\ index pg.2.

(** No page that would be in the same table as [pg] is mapped. *)
Definition tableless (M : gmap page Z) (pg : page) : Prop := forall i, M !! (pg.1, i) = None.

(** The tree with the tables [T] rooted at [root], which maps the pages [M]. *)
Record tree_at (s : kstate) (root : Z) (T : gmap (list Z) Z) (M : gmap page Z)
    (cs : list cache_t) (live : list (Z * Z)) : Prop := {
  ta_root : T !! [] = Some root;
  ta_mem : tree_mem (k_mem s) T;
  ta_pages : forall pg, page_ok pg -> M !! pg = entry_of_page (k_mem s) T pg;
  ta_keys : forall pg, is_Some (M !! pg) -> page_ok pg;
  ta_top : mem_phys_base (k_pmm s) + total_frames (k_pmm s) * 4096 <= top F;
  ta_heap : heap s cs (tables T ++ live)
}.
End tree.

Section tree_lemmas.
Context `{Console} (F : format) `{!FormatOk F} (depth : nat).
Abbreviation page := (list Z * Z)%type.
Abbreviation tree_at := (tree_at F depth).

Lemma tables_insert T p f : T !! p = None -> tables (<[p := f]> T) ≡ₚ (f, 4096) :: tables T.
Proof. intros Hp. unfold tables. by rewrite (map_to_list_insert T p f Hp). Qed.

Lemma tables_delete T p f : T !! p = Some f -> tables T ≡ₚ (f, 4096) :: tables (delete p T).
Proof. intros Hp. unfold tables. by rewrite <- (map_to_list_delete T p f Hp). Qed.

Lemma tables_in T p f : T !! p = Some f -> (f, 4096) ∈ tables T.
Proof. intros Hp. apply list_elem_of_fmap. exists (p, f). split; [done|]. by apply elem_of_map_to_list. Qed.

Section at_state.
Context (s : kstate) (root : Z) (T : gmap (list Z) Z) (M : gmap page Z) (cs : list cache_t) (live : list (Z * Z)).
Context (Ht : tree_at s root T M cs live).

Lemma table_owned p f : T !! p = Some f -> owned s f 4096.
Proof.
  intros Hp. apply (heap_owned _ _ _ (f, 4096) (ta_heap _ _ _ _ _ _ _ _ Ht)), elem_of_app. left. by eapply tables_in.
Qed.

(** Tables of different pages are apart. *)
Lemma tables_apart p q f g : T !! p = Some f -> T !! q = Some g -> p <> q -> apart (f, 4096) (g, 4096).
Proof.
  intros Hp Hq Hne. pose proof (ta_heap _ _ _ _ _ _ _ _ Ht) as Hh. apply heap_area_live in Hh as [_ Hs].
  apply separated_app in Hs as (Hs & _ & _). rewrite (tables_delete _ _ _ Hp) in Hs. destruct Hs as [Hs _].
  apply (proj1 (Forall_forall _ _) Hs). apply (tables_in _ q). by rewrite lookup_delete_ne.
Qed.

Lemma slot_valid p f i : T !! p = Some f -> index i -> valid (f + 8 * i) 8 = true.
Proof. intros Hp Hi. pose proof (ow_valid _ _ _ (table_owned _ _ Hp)). unfold index in Hi. solve_valid. Qed.

(** Entries are apart from each other. *)
Lemma slots_apart p q f g i j :
  T !! p = Some f -> T !! q = Some g -> index i -> index j -> (p, i) <> (q, j) ->
  f + 8 * i + 8 <= g + 8 * j \/ g + 8 * j + 8 <= f + 8 * i.
Proof.
  intros Hp Hq Hi Hj Hne. unfold index in *. destruct (decide (p = q)) as [->|Hpq].
  - assert (f = g) as -> by congruence. assert (i <> j) by congruence. lia.
  - pose proof (tables_apart _ _ _ _ Hp Hq Hpq) as Ha. unfold apart in Ha. simpl in Ha. lia.
Qed.
End at_state.

(** The tree is a matter of the memory of its tables. *)
Lemma tree_mem_same m m' T :
  (forall p f i, T !! p = Some f -> index i -> get64 m' (f + 8 * i) = get64 m (f + 8 * i)) ->
  tree_mem F depth m T -> tree_mem F depth m' T.
Proof.
  intros Hm [Hk Hu Hn]. split; [done|done|]. intros p f i Hp Hl Hi. specialize (Hn p f i Hp Hl Hi).
  rewrite (Hm p f i Hp Hi). exact Hn.
Qed.

Lemma entry_same m m' T pg :
  (forall p f i, T !! p = Some f -> index i -> get64 m' (f + 8 * i) = get64 m (f + 8 * i)) ->
  index pg.2 -> entry_of_page F m' T pg = entry_of_page F m T pg.
Proof. intros Hm Hi. unfold entry_of_page. destruct (T !! pg.1) as [f|] eqn:Hp; [|done]. by rewrite (Hm _ _ _ Hp Hi). Qed.

Lemma tables_slot T s s' p f i :
  same_bytes (tables T) s s' -> T !! p = Some f -> index i ->
  get64 (k_mem s') (f + 8 * i) = get64 (k_mem s) (f + 8 * i).
Proof.
  intros Hs Hp Hi. unfold index in Hi. apply (same_bytes_getw _ _ _ f 4096 8 _ Hs (tables_in _ _ _ Hp)); simpl; lia.
Qed.

(** A step of the rest of the kernel. *)
Lemma tree_step s s' root T M cs cs' live live' :
  tree_at s root T M cs live -> same_bytes (tables T) s s' -> heap s' cs' (tables T ++ live') ->
  mem_phys_base (k_pmm s') = mem_phys_base (k_pmm s) -> total_frames (k_pmm s') = total_frames (k_pmm s) ->
  tree_at s' root T M cs' live'.
Proof.
  intros [Hr Hm Hp Hk Htop Hh] Hs Hh' Hb Hf.
  pose proof (fun p f i Hpf Hi => tables_slot T s s' p f i Hs Hpf Hi) as Hg. split; [done| | |done|by rewrite Hb, Hf|done].
  - by eapply tree_mem_same.
  - intros pg Hpg. rewrite Hp by done. symmetry. apply entry_same; [exact Hg|apply Hpg].
Qed.

(** The device trace is not part of it. *)
Lemma tree_same s s' root T M cs live :
  k_mem s' = k_mem s -> k_pmm s' = k_pmm s -> tree_at s root T M cs live -> tree_at s' root T M cs live.
Proof.
  intros Hm Hp Ht. eapply tree_step; [exact Ht| | |by rewrite Hp|by rewrite Hp].
  - unfold same_bytes. rewrite Hm. apply same_bytes_refl.
  - eapply heap_same; [exact Hm|exact Hp|apply Ht].
Qed.

Lemma tree_perm s root T M cs cs' live live' :
  cs ≡ₚ cs' -> live ≡ₚ live' -> tree_at s root T M cs live -> tree_at s root T M cs' live'.
Proof. intros Hc Hl [Hr Hm Hp Hk Htop Hh]. split; try done. by rewrite <- Hc, <- Hl. Qed.

Lemma no_table s root T M cs live pg : tree_at s root T M cs live -> T !! pg.1 = None -> tableless M pg.
Proof.
  intros Ht Hn i. destruct (M !! (pg.1, i)) as [e|] eqn:He; [|done]. exfalso.
  assert (Hok : page_ok depth (pg.1, i)) by (eapply ta_keys; [exact Ht|by exists e]).
  rewrite (ta_pages _ _ _ _ _ _ _ _ Ht _ Hok) in He. unfold entry_of_page in He. cbn [fst] in He. by rewrite Hn in He.
Qed.

(** ** Writing the entry of a page *)

Definition set_page (pg : page) (e : Z) (M : gmap page Z) : gmap page Z :=
  if present F e then <[pg := e]> M else delete pg M.

Lemma set_page_ne pg pg' e M : pg <> pg' -> set_page pg e M !! pg' = M !! pg'.
Proof. intros Hne. unfold set_page. destruct (present F e); [by rewrite lookup_insert_ne|by rewrite lookup_delete_ne]. Qed.

Lemma set_page_eq pg e M : set_page pg e M !! pg = if present F e then Some e else None.
Proof. unfold set_page. destruct (present F e); [by rewrite lookup_insert_eq|by rewrite lookup_delete_eq]. Qed.

Lemma tree_write s root T M cs live p f i e :
  tree_at s root T M cs live -> T !! p = Some f -> S (length p) = depth -> index i -> u64 e ->
  let s' := set_mem s (put64 (k_mem s) (f + 8 * i) e) in
  tree_at s' root T (set_page (p, i) e M) cs live /\ same_bytes live s s'.
Proof.
  intros Ht Hp Hl Hi He s'. pose proof Ht as [Hr Hm Hpg Hk Htop Hh].
  assert (Hw : within [(f + 8 * i, 8)] (tables T)).
  { constructor; [|constructor]. exists f, 4096. split; [by eapply tables_in|]. unfold index in Hi. simpl. lia. }
  assert (Hw' : within [(f + 8 * i, 8)] (tables T ++ live)).
  { eapply Forall_impl; [exact Hw|]. intros r (x & n & Hin & Hx). exists x, n. split; [apply elem_of_app; by left|done]. }
  assert (Hmods : mods [(f + 8 * i, 8)] (k_mem s) (k_mem s')) by apply (mods_putw 8).
  destruct (heap_writes _ _ _ _ _ Hh Hw' Hmods) as [Hh' _].
  assert (Hg : forall q g j, T !! q = Some g -> index j -> (p, i) <> (q, j) ->
            get64 (k_mem s') (g + 8 * j) = get64 (k_mem s) (g + 8 * j)).
  { intros q g j Hq Hj Hne. apply (getw_putw_ne 8 8).
    pose proof (slots_apart _ _ _ _ _ _ Ht p q f g i j Hp Hq Hi Hj Hne). simpl. lia. }
  split; [|by eapply heap_writes_same]. split; [done| | | |done|done].
  - destruct Hm as [Hmk Hmu Hmn]. split; [done|done|]. intros q g j Hq Hlq Hj.
    specialize (Hmn q g j Hq Hlq Hj). rewrite (Hg q g j Hq Hj); [exact Hmn|]. intros [= -> _]. lia.
  - intros [q j] [Hq1 Hq2]. simpl in Hq1, Hq2. destruct (decide ((p, i) = (q, j))) as [[= <- <-]|Hne].
    + rewrite set_page_eq. unfold entry_of_page. simpl. rewrite Hp. by rewrite (getw_putw 8) by (simpl; unfold u64 in He; lia).
    + rewrite set_page_ne by done. rewrite Hpg by done. unfold entry_of_page. cbn [fst snd].
      destruct (T !! q) as [g|] eqn:Hq; [|done]. by rewrite (Hg q g j Hq Hq2 Hne).
  - intros pg Hpgs. destruct (decide ((p, i) = pg)) as [<-|Hne]; [by split|].
    apply Hk. by rewrite set_page_ne in Hpgs.
Qed.

(** ** A new table *)

(** A frame taken from the allocator and filled with zeros. *)
Definition zeroed (s : kstate) (fi : Z) (m : memory) : Prop :=
  mods [(frame_addr s fi, 4096)] (k_mem (taken s fi)) m /\
  forall i, 0 <= i < 4096 -> get8 m (frame_addr s fi + i) = 0.

Lemma heap_zeroed s cs live fi m :
  heap s cs live -> frame_free s fi -> zeroed s fi m ->
  let fr := frame_addr s fi in let s1 := set_mem (taken s fi) m in
  heap s1 cs ((fr, 4096) :: live) /\ same_bytes live s s1 /\
  0 < fr /\ fr + 4096 <= mem_phys_base (k_pmm s) + total_frames (k_pmm s) * 4096 /\ (4096 | fr).
Proof.
  intros Hh Hf [Hm Hz] fr s1. destruct (heap_take _ _ _ _ Hh Hf) as [Hh1 Hk1]. fold fr in Hh1. unfold PAGE_SIZE in Hh1.
  destruct (heap_write _ _ _ _ _ m Hh1 Hm) as [Hh2 Hk2]. fold s1 in Hh2, Hk2. split; [exact Hh2|].
  pose proof (ow_pos _ _ _ (owned_taken s fi (hp_ok _ _ _ Hh) Hf)) as Hpos. split; [|split; [exact Hpos|]].
  - eapply same_bytes_trans.
    + eapply keeps_same; [exact Hk1|by eapply heap_area_live|]. by apply Forall_true; intros; constructor.
    + apply (heap_writes_same _ cs [(fr, 4096)] _ [(fr, 4096)] m Hh1); [|exact Hm].
      constructor; [|constructor]. exists fr, 4096. split; [by left|simpl; lia].
  - destruct Hf as [Hfi _]. unfold fr, frame_addr, PAGE_SIZE in *. split; [lia|].
    apply Z.divide_add_r; [apply (ho_align _ (hp_ok _ _ _ Hh))|by exists fi].
Qed.

Lemma zeroed_slots s fi m i : zeroed s fi m -> index i -> get64 m (frame_addr s fi + 8 * i) = 0.
Proof.
  intros [_ Hz] Hi. unfold index in Hi. apply getw_zero. intros b Hb.
  replace b with (frame_addr s fi + (b - frame_addr s fi)) by lia. apply Hz. simpl in Hb. lia.
Qed.

Lemma tree_frame s root T M cs live fi m :
  tree_at s root T M cs live -> frame_free s fi -> zeroed s fi m ->
  let fr := frame_addr s fi in let s1 := set_mem (taken s fi) m in
  tree_at s1 root T M cs ((fr, 4096) :: live) /\ same_bytes live s s1 /\
  0 < fr < top F /\ (4096 | fr) /\ (forall i, index i -> get64 (k_mem s1) (fr + 8 * i) = 0).
Proof.
  intros Ht Hf Hz fr s1.
  destruct (heap_zeroed _ _ _ _ _ (ta_heap _ _ _ _ _ _ _ _ Ht) Hf Hz) as (Hh & Hb & Hpos & Hhi & Hal).
  fold fr in Hh, Hpos, Hhi, Hal. fold s1 in Hh, Hb. apply same_bytes_app in Hb as [Hb1 Hb2].
  pose proof (ta_top _ _ _ _ _ _ _ _ Ht) as Htop. split; [|split; [done|]].
  - eapply tree_step; [exact Ht|exact Hb1| |done|done]. eapply heap_perm; [reflexivity| |exact Hh]. solve_perm.
  - split; [lia|]. split; [done|]. intros i Hi. by apply zeroed_slots.
Qed.

(** Its entries map nothing, and it is linked from the slot [k] of the table
    [p]. *)
Lemma tree_link s root T M cs live p f k fr :
  tree_at s root T M cs ((fr, 4096) :: live) -> T !! p = Some f -> (S (length p) < depth)%nat -> index k ->
  T !! (p ++ [k]) = None -> 0 < fr < top F -> (4096 | fr) ->
  (forall i, index i -> get64 (k_mem s) (fr + 8 * i) = 0) ->
  let s' := set_mem s (put64 (k_mem s) (f + 8 * k) (node F fr)) in
  tree_at s' root (<[p ++ [k] := fr]> T) M cs live /\ same_bytes live s s'.
Proof.
  intros Ht Hp Hl Hk Hnone Hfr Hal Hz s'. pose proof Ht as [Hr [Hmk Hmu Hmn] Hpg Hks Htop Hh].
  pose proof (node_u64 fr Hfr Hal) as Hu. unfold u64 in Hu.
  assert (Hw : within [(f + 8 * k, 8)] (tables T)).
  { constructor; [|constructor]. exists f, 4096. split; [by eapply tables_in|]. unfold index in Hk. simpl. lia. }
  assert (Hmods : mods [(f + 8 * k, 8)] (k_mem s) (k_mem s')) by apply (mods_putw 8).
  assert (Hw' : within [(f + 8 * k, 8)] (tables T ++ (fr, 4096) :: live)).
  { eapply Forall_impl; [exact Hw|]. intros r (x & n & Hin & Hx). exists x, n. split; [apply elem_of_app; by left|done]. }
  destruct (heap_writes _ _ _ _ _ Hh Hw' Hmods) as [Hh' _].
  pose proof (heap_writes_same _ _ _ _ _ _ Hh Hw Hmods) as Hb. change (set_mem s (k_mem s')) with s' in Hb.
  apply Forall_cons in Hb as [Hbf Hb]. cbn [fst snd] in Hbf.
  assert (Hg : forall q g j, T !! q = Some g -> index j -> (p, k) <> (q, j) ->
            get64 (k_mem s') (g + 8 * j) = get64 (k_mem s) (g + 8 * j)).
  { intros q g j Hq Hj Hne. apply (getw_putw_ne 8 8).
    pose proof (slots_apart _ _ _ _ _ _ Ht p q f g k j Hp Hq Hk Hj Hne). simpl. lia. }
  assert (Hslot : get64 (k_mem s') (f + 8 * k) = node F fr) by (apply (getw_putw 8); simpl; lia).
  assert (Hzero : forall j, index j -> get64 (k_mem s') (fr + 8 * j) = 0).
  { intros j Hj. rewrite <- (Hz j Hj). unfold index in Hj. apply getw_ext. intros b Hb0. apply Hbf. simpl in Hb0. lia. }
  assert (Hnop : forall i, T !! ((p ++ [k]) ++ [i]) = None).
  { intros i. destruct (T !! ((p ++ [k]) ++ [i])) as [g|] eqn:Hg0; [|done].
    apply Hmu in Hg0 as [? Hg0]. congruence. }
  split; [|exact Hb]. split; [| | |exact Hks|exact Htop|].
  - rewrite lookup_insert_ne; [exact Hr|]. by destruct p.
  - split.
    + intros q g Hq. apply lookup_insert_Some in Hq as [[<- <-]|[_ Hq]]; [|by apply Hmk].
      destruct (Hmk _ _ Hp) as (_ & Hpi & _). rewrite length_app. simpl. split; [lia|]. split; [|done].
      apply Forall_app. split; [exact Hpi|by constructor].
    + intros q i g Hq. apply lookup_insert_Some in Hq as [[He <-]|[Hne Hq]].
      * apply app_inj_tail in He as [<- <-]. rewrite lookup_insert_ne; [by exists f|].
        intros He. apply (f_equal length) in He. rewrite length_app in He. simpl in He. lia.
      * destruct (Hmu _ _ _ Hq) as [h Hh0]. destruct (decide (p ++ [k] = q)) as [<-|Hne2].
        -- rewrite lookup_insert_eq. by exists fr.
        -- rewrite lookup_insert_ne by done. by exists h.
    + intros q g i Hq Hlq Hi. apply lookup_insert_Some in Hq as [[<- <-]|[Hne Hq]].
      * rewrite lookup_insert_ne. 2:{ intros He. apply (f_equal length) in He. rewrite !length_app in He. simpl in He. lia. }
        rewrite Hnop, Hzero by done. apply zero_absent.
      * destruct (decide ((p, k) = (q, i))) as [[= <- <-]|Hne2].
        -- rewrite lookup_insert_eq. assert (g = f) as -> by congruence. exact Hslot.
        -- rewrite lookup_insert_ne. 2:{ intros He. apply app_inj_tail in He as [<- <-]. by apply Hne2. }
           rewrite (Hg q g i Hq Hi Hne2). exact (Hmn q g i Hq Hlq Hi).
  - intros [q j] [Hq1 Hq2]. simpl in Hq1, Hq2. rewrite Hpg by (by split). unfold entry_of_page. cbn [fst snd].
    destruct (decide (p ++ [k] = q)) as [<-|Hne].
    + rewrite lookup_insert_eq, Hnone, Hzero, zero_absent by done. done.
    + rewrite lookup_insert_ne by done. destruct (T !! q) as [g|] eqn:Hq; [|done].
      rewrite (Hg q g j Hq Hq2); [done|]. intros [= -> _]. lia.
  - eapply heap_perm; [reflexivity| |exact Hh']. rewrite tables_insert by done. solve_perm.
Qed.
(** A root of zeros maps nothing. *)
Lemma tree_new s root cs live :
  heap s cs ((root, 4096) :: live) -> (0 < depth)%nat -> 0 < root < top F -> (4096 | root) ->
  mem_phys_base (k_pmm s) + total_frames (k_pmm s) * 4096 <= top F ->
  (forall i, 0 <= i < 4096 -> get8 (k_mem s) (root + i) = 0) ->
  tree_at s root {[ [] := root ]} ∅ cs live.
Proof.
  intros Hh Hd Hroot Hal Htop Hz.
  assert (Hz8 : forall i, index i -> get64 (k_mem s) (root + 8 * i) = 0).
  { intros i Hi. unfold index in Hi. apply getw_zero. intros b Hb. replace b with (root + (b - root)) by lia.
    apply Hz. simpl in Hb. lia. }
  split; [by apply lookup_singleton_eq| | |by intros pg [? ?]|done|].
  - split.
    + intros p f Hp. apply lookup_singleton_Some in Hp as [<- <-]. done.
    + intros p i f Hp. apply lookup_singleton_Some in Hp as [Hp _]. by destruct p.
    + intros p f i Hp Hl Hi. apply lookup_singleton_Some in Hp as [<- <-]. rewrite lookup_singleton_ne by done.
      rewrite Hz8 by done. apply zero_absent.
  - intros [p j] [Hp Hj]. rewrite lookup_empty. unfold entry_of_page. cbn [fst snd] in *.
    destruct ({[[] := root]} !! p) as [f|] eqn:Hf; [|done]. apply lookup_singleton_Some in Hf as [<- <-].
    by rewrite Hz8, zero_absent.
  - unfold tables. rewrite map_to_list_singleton. exact Hh.
Qed.

(** [T'] has the tables of [T]. *)
Definition extends (T T' : gmap (list Z) Z) : Prop := forall q g, T !! q = Some g -> T' !! q = Some g.

(** Every table is a frame. *)
Definition framed (s : kstate) (T : gmap (list Z) Z) : Prop :=
  forall p f, T !! p = Some f -> exists i, 0 <= i < total_frames (k_pmm s) /\ f = frame_addr s i.

Lemma framed_same s s' T : same_frames s s' -> framed s T -> framed s' T.
Proof. intros [Hb Hf] Ht p f Hp. destruct (Ht _ _ Hp) as (i & Hi & ->). exists i. unfold frame_addr. by rewrite Hb, Hf. Qed.

(** The entry of a table that is there. *)
Lemma node_entry m T p f k fr :
  tree_mem F depth m T -> T !! p = Some f -> (S (length p) < depth)%nat -> index k ->
  T !! (p ++ [k]) = Some fr ->
  present F (get64 m (f + 8 * k)) = true /\ child F (get64 m (f + 8 * k)) = fr.
Proof.
  intros [Hk _ Hn] Hp Hl Hi Hfr. specialize (Hn p f k Hp Hl Hi). rewrite Hfr in Hn. rewrite Hn.
  destruct (Hk _ _ Hfr) as (_ & _ & Hb & Hal). by split; [apply node_present|apply node_child].
Qed.

(** A new table, from a frame to its link. *)
Lemma tree_grow s root T M cs live p f k fi m :
  tree_at s root T M cs live -> frame_free s fi -> zeroed s fi m -> T !! p = Some f -> (S (length p) < depth)%nat ->
  index k -> T !! (p ++ [k]) = None ->
  let fr := frame_addr s fi in
  let s1 := set_mem (taken s fi) m in
  let s2 := set_mem s1 (put64 (k_mem s1) (f + 8 * k) (node F fr)) in
  let T2 := <[p ++ [k] := fr]> T in
  tree_at s2 root T2 M cs live /\ extends T T2 /\ T2 !! (p ++ [k]) = Some fr /\ same_bytes live s s2 /\
  heap_only s s2 /\ same_frames s s2 /\ (framed s T -> framed s2 T2).
Proof.
  intros Ht Hf Hz Hp Hl Hi Hn fr s1 s2 T2.
  destruct (tree_frame s root T M cs live fi m Ht Hf Hz) as (Ht1 & Hb1 & Hfr & Hal & Hz1).
  destruct (tree_link _ _ _ _ _ _ p f k fr Ht1 Hp Hl Hi Hn Hfr Hal Hz1) as [Ht2 Hb2].
  split; [exact Ht2|]. split; [|split; [by apply lookup_insert_eq|]].
  { intros q g Hq. unfold T2. rewrite lookup_insert_ne; [done|congruence]. }
  split; [by eapply same_bytes_trans|]. split; [by eexists _, _|]. split; [done|].
  intros Hfd q g Hq. apply lookup_insert_Some in Hq as [[_ <-]|[_ Hq]]; [|by apply (framed_same s s2 T (conj eq_refl eq_refl) Hfd q)].
  exists fi. split; [apply Hf|done].
Qed.

(** ** Giving tables back *)

(** The tables at [p] and below it, those of its entries before the [i]-th left
    out. *)
Definition below (p : list Z) (i : Z) (q : list Z) : bool :=
  bool_decide (q = p) || bool_decide (p `prefix_of` q /\ i <= default (-1) (q !! length p)).

Definition subtree (T : gmap (list Z) Z) (p : list Z) (i : Z) : gmap (list Z) Z :=
  filter (fun pf => below p i pf.1 = true) T.

Lemma tables_union T1 T2 : T1 ##ₘ T2 -> tables (T1 ∪ T2) ≡ₚ tables T1 ++ tables T2.
Proof.
  intros Hd. unfold tables. rewrite <- map_app. apply Permutation_map, NoDup_Permutation.
  - apply NoDup_map_to_list.
  - apply NoDup_app. split; [apply NoDup_map_to_list|]. split; [|apply NoDup_map_to_list].
    intros [q g] H1 H2. apply elem_of_map_to_list in H1, H2. by eapply map_disjoint_spec.
  - intros [q g]. rewrite elem_of_app, !elem_of_map_to_list. by apply lookup_union_Some.
Qed.

Lemma subtree_lookup T p i q g : subtree T p i !! q = Some g <-> T !! q = Some g /\ below p i q = true.
Proof. unfold subtree. by rewrite map_lookup_filter_Some. Qed.

Lemma below_spec p i q : below p i q = true <-> q = p \/ exists j r, q = p ++ j :: r /\ i <= j.
Proof.
  unfold below. rewrite orb_true_iff, !bool_decide_eq_true. split.
  - intros [->|[[r ->] Hi]]; [by left|]. destruct r as [|j r]; [left; by rewrite app_nil_r|].
    right. exists j, r. rewrite lookup_app_r, Nat.sub_diag in Hi by lia. by split.
  - intros [->|(j & r & -> & Hi)]; [by left|]. right. split; [by exists (j :: r)|].
    rewrite lookup_app_r, Nat.sub_diag by lia. done.
Qed.

Section subtrees.
Context (m : memory) (T : gmap (list Z) Z) (Hm : tree_mem F depth m T).

Lemma table_up p j r g : T !! (p ++ j :: r) = Some g -> is_Some (T !! (p ++ [j])).
Proof.
  revert g. induction r as [|k r IH] using rev_ind; intros g Hq; [by eexists|].
  rewrite app_comm_cons, app_assoc in Hq. destruct (tr_up _ _ _ _ Hm _ _ _ Hq) as [h Hh]. by eapply IH.
Qed.

Lemma table_index p j r g : T !! (p ++ j :: r) = Some g -> index j.
Proof.
  intros Hq. destruct (tr_keys _ _ _ _ Hm _ _ Hq) as (_ & Hi & _). apply Forall_app in Hi as [_ Hi].
  by apply Forall_cons in Hi as [? _].
Qed.

Lemma below_child p i q : below (p ++ [i]) 0 q = true -> exists r, q = p ++ i :: r.
Proof.
  intros Hb. apply below_spec in Hb as [->|(j & r & -> & _)]; [by exists []|].
  exists (j :: r). by rewrite <- app_assoc.
Qed.

(** The subtree of the [i]-th entry, and the rest. *)
Lemma subtree_split p i :
  subtree T (p ++ [i]) 0 ##ₘ subtree T p (i + 1) /\
  subtree T p i = subtree T (p ++ [i]) 0 ∪ subtree T p (i + 1).
Proof.
  assert (Hd : subtree T (p ++ [i]) 0 ##ₘ subtree T p (i + 1)).
  { apply map_disjoint_spec. intros q g h H1 H2. apply subtree_lookup in H1 as [_ H1], H2 as [_ H2].
    apply below_child in H1 as [r ->]. apply below_spec in H2 as [He|(j & r' & He & Hj)].
    - rewrite <- (app_nil_r p) in He at 2. by apply app_inv_head in He.
    - apply app_inv_head in He. injection He as -> _. lia. }
  split; [exact Hd|]. apply map_eq. intros q. apply option_eq. intros g.
  rewrite lookup_union_Some by done. rewrite !subtree_lookup. rewrite !(below_spec p). split.
  - intros [Hq [->|(j & r & -> & Hj)]]; [right; split; [done|by left]|].
    destruct (decide (j = i)) as [->|Hne].
    + left. split; [done|]. apply below_spec. destruct r as [|k r]; [by left|].
      right. exists k, r. rewrite <- app_assoc. split; [done|].
      change (p ++ i :: k :: r) with (p ++ [i] ++ (k :: r)) in Hq. rewrite app_assoc in Hq.
      apply table_index in Hq. unfold index in Hq. lia.
    + right. split; [done|]. right. exists j, r. split; [done|lia].
  - intros [[Hq Hb]|[Hq Hb]]; (split; [done|]).
    + apply below_child in Hb as [r ->]. right. exists i, r. split; [done|lia].
    + destruct Hb as [->|(j & r & -> & Hj)]; [by left|]. right. exists j, r. split; [done|lia].
Qed.

Lemma subtree_none p i : T !! (p ++ [i]) = None -> subtree T (p ++ [i]) 0 = ∅.
Proof.
  intros Hn. apply map_eq. intros q. rewrite lookup_empty. destruct (_ !! q) as [g|] eqn:Hq; [|done].
  apply subtree_lookup in Hq as [Hq Hb]. apply below_child in Hb as [r ->].
  destruct (table_up _ _ _ _ Hq) as [h Hh]. congruence.
Qed.

(** Past the last entry, and at the last level, only the table itself is
    left. *)
Lemma subtree_self p i f :
  T !! p = Some f -> S (length p) = depth \/ 512 <= i -> subtree T p i = {[p := f]}.
Proof.
  intros Hp Hl. apply map_eq. intros q. apply option_eq. intros g.
  rewrite subtree_lookup, below_spec, lookup_singleton_Some. split; [|intros [<- <-]; split; [done|by left]].
  intros [Hq [->|(j & r & -> & Hj)]]; [split; congruence|]. destruct Hl as [Hl|Hl].
  - destruct (tr_keys _ _ _ _ Hm _ _ Hq) as (Hlen & _). rewrite length_app in Hlen. simpl in Hlen. lia.
  - apply table_index in Hq. unfold index in Hq. lia.
Qed.

Lemma subtree_root : subtree T [] 0 = T.
Proof.
  apply map_eq. intros q. apply option_eq. intros g. rewrite subtree_lookup, below_spec.
  split; [by intros [? _]|]. intros Hq. split; [done|]. destruct q as [|j q]; [by left|]. right.
  exists j, q. split; [done|]. apply (table_index [] j q) in Hq. unfold index in Hq. lia.
Qed.

Lemma tables_split p i : tables (subtree T p i) ≡ₚ tables (subtree T (p ++ [i]) 0) ++ tables (subtree T p (i + 1)).
Proof. destruct (subtree_split p i) as [Hd ->]. by apply tables_union. Qed.
End subtrees.
End tree_lemmas.
