(* ===== verification/RvPaging.v ===== *)
(** * RISC-V page tables: arch/riscv/paging.c and include/mm/rvpaging.hpp

    Three levels of Sv39 tables, walked and filled by [vmm_walk]. *)

From Stdlib Require Import String.
From S2P Require Import Prelude Machine Logic Console Boards Sync Str Boot Pmm Heap Slab PageTree.

#[local] Open Scope string_scope.
#[local] Open Scope list_scope.
#[local] Open Scope Z_scope.

Definition PTE_V : Z := Z.shiftl 1 0.
Definition PTE_R : Z := Z.shiftl 1 1.
Definition PTE_W : Z := Z.shiftl 1 2.
Definition PTE_X : Z := Z.shiftl 1 3.
Definition PTE_U : Z := Z.shiftl 1 4.
Definition PTE_A : Z := Z.shiftl 1 6.
Definition PTE_D : Z := Z.shiftl 1 7.

Definition PAGE_KERNEL_EXEC : Z := Z.lor (Z.lor (Z.lor (Z.lor PTE_V PTE_R) PTE_X) PTE_A) PTE_D.
Definition PAGE_KERNEL_DATA : Z := Z.lor (Z.lor (Z.lor (Z.lor PTE_V PTE_R) PTE_W) PTE_A) PTE_D.
Definition PAGE_TABLE_NODE : Z := PTE_V.

Definition VA_VPN2_SHIFT : Z := 30.
Definition VA_VPN1_SHIFT : Z := 21.
Definition VA_VPN0_SHIFT : Z := 12.
Definition VA_INDEX_MASK : Z := 0x1FF.

Definition SATP_MODE_SV39 : Z := wrap64 (Z.shiftl 8 60).
Definition MAKE_SATP_VAL (pagetable_phys : Z) : Z := Z.lor SATP_MODE_SV39 (Z.shiftr pagetable_phys 12).

Definition pa_to_pte_ppn (pa : Z) : Z := wrap64 (Z.shiftl (Z.shiftr pa 12) 10).
Definition pte_to_pa (pte : Z) : Z := wrap64 (Z.shiftl (Z.shiftr pte 10) 12).

Section rvpaging.
Context `{Platform}.
(** Where the linker puts [kernel_page_table]. *)
Context (kernel_page_table : Z).

Definition vmm_install_page_table (page_table : Z) : M unit :=
  let satp_val := MAKE_SATP_VAL page_table in
  reg_write "satp" satp_val ;;
  instr "sfence.vma zero, zero".

(** The table the entry at [pte] points to, made if it is missing and [alloc];
    the code has these lines once per level. *)
Definition next_table (pte : Z) (alloc : bool) : M (option Z) :=
  e <- load64 pte ;;
  if Z.land e PTE_V =? 0 then
    if alloc then
      frame_pa <- pmm_alloc_frame ;;
      if frame_pa =? 0 then ret None
      else
        memset frame_pa 0 PAGE_SIZE ;;
        store64 pte (Z.lor (pa_to_pte_ppn frame_pa) PAGE_TABLE_NODE) ;;
        ret (Some frame_pa)
    else ret None
  else
    e <- load64 pte ;;
    ret (Some (pte_to_pa e)).

Definition vmm_walk (page_table va : Z) (alloc : bool) : M Z :=
  let vpn2 := Z.land (Z.shiftr va VA_VPN2_SHIFT) VA_INDEX_MASK in
  let vpn1 := Z.land (Z.shiftr va VA_VPN1_SHIFT) VA_INDEX_MASK in
  let vpn0 := Z.land (Z.shiftr va VA_VPN0_SHIFT) VA_INDEX_MASK in
  l1_table <- next_table (page_table + 8 * vpn2) alloc ;;
  match l1_table with
  | None => ret 0
  | Some l1_table =>
      l0_table <- next_table (l1_table + 8 * vpn1) alloc ;;
      match l0_table with
      | None => ret 0
      | Some l0_table => ret (l0_table + 8 * vpn0)
      end
  end.

Definition vmm_virt_to_phys (page_table va : Z) : M Z :=
  pte <- vmm_walk page_table va false ;;
  if pte =? 0 then ret 0
  else
    e <- load64 pte ;;
    if Z.land e PTE_V =? 0 then ret 0
    else
      e <- load64 pte ;;
      let addr := pte_to_pa e in
      ret (Z.lor addr (Z.land va 0xFFF)).

(** Returns [TRUE] as 1 and [FALSE] as 0. *)
Definition vmm_map_page (page_table va pa flags : Z) : M Z :=
  if negb (va mod PAGE_SIZE =? 0) || negb (pa mod PAGE_SIZE =? 0) then ret 0
  else
    pte <- vmm_walk page_table va true ;;
    if pte =? 0 then ret 0
    else
      store64 pte (Z.lor (Z.lor (pa_to_pte_ppn pa) PTE_V) flags) ;;
      ret 1.

Definition vmmk_virt_to_phys (va : Z) : M Z := vmm_virt_to_phys kernel_page_table va.

Definition vmmk_map_page (va pa flags : Z) : M Z := vmm_map_page kernel_page_table va pa flags.

(** One of the loops of [vmm_init]: the pages from [start] up to [stop], mapped
    to themselves. *)
Definition map_pages (start stop flags : Z) (message : string) : M unit :=
  while (fun addr =>
    if addr <? stop then
      r <- vmmk_map_page addr addr flags ;;
      (if r =? 0 then panic "vmm" message [VInt addr] else ret tt) ;;
      ret (inl (wrap64 (addr + PAGE_SIZE)))
    else ret (inr tt)) start.

Definition vmm_init (boot_info : boot_info_t) : M unit :=
  memset kernel_page_table 0 PAGE_SIZE ;;
  map_pages (kernel_image_start boot_info) (kernel_readonly_end boot_info) PAGE_KERNEL_EXEC
    "unable to map ro kernel page at 0x%llx" ;;
  map_pages (ALIGN_UP (kernel_readonly_end boot_info) PAGE_SIZE)
    (wrap64 (machine_ram_base boot_info + machine_ram_total boot_info)) PAGE_KERNEL_DATA
    "unable to map rw kernel page at 0x%llx" ;;
  map_pages 0x10000000 0x10002000 (Z.lor PTE_R PTE_W) "unable to map mmio page at 0x%llx" ;;
  klog_info "vmm" "installing page table" [] ;;
  vmm_install_page_table kernel_page_table ;;
  klog_info "vmm" "paging initialized, page table at 0x%llx" [VInt kernel_page_table].
End rvpaging.

(** ** Entries *)

Definition rv_format : format := {|
  node := fun f => Z.lor (pa_to_pte_ppn f) PAGE_TABLE_NODE;
  present := fun e => negb (Z.land e PTE_V =? 0);
  child := pte_to_pa;
  top := 2 ^ 64
|}.

Lemma ppn_eq pa : 0 <= pa < 2 ^ 64 -> pa_to_pte_ppn pa = pa / 4096 * 2 ^ 10.
Proof.
  intros Hp. unfold pa_to_pte_ppn. rewrite Z.shiftr_div_pow2, Z.shiftl_mul_pow2 by lia. apply wrap64_small.
  unfold u64. change (2 ^ 12) with 4096. Z.div_mod_to_equations; lia.
Qed.

(** An entry for the page at [pa] with the flags [fl]. *)
Lemma pte_eq pa fl : 0 <= pa < 2 ^ 64 -> 0 <= fl < 2 ^ 10 -> Z.lor (pa_to_pte_ppn pa) fl = pa / 4096 * 2 ^ 10 + fl.
Proof. intros Hp Hf. rewrite ppn_eq by done. by apply lor_mul. Qed.

Lemma pte_u64 pa fl : 0 <= pa < 2 ^ 64 -> 0 <= fl < 2 ^ 10 -> u64 (Z.lor (pa_to_pte_ppn pa) fl).
Proof. intros Hp Hf. rewrite pte_eq by done. unfold u64. Z.div_mod_to_equations; lia. Qed.

Lemma pte_pa pa fl : 0 <= pa < 2 ^ 64 -> (4096 | pa) -> 0 <= fl < 2 ^ 10 -> pte_to_pa (Z.lor (pa_to_pte_ppn pa) fl) = pa.
Proof.
  intros Hp [q ->] Hf. rewrite pte_eq by done. unfold pte_to_pa. rewrite Z.shiftr_div_pow2, Z.shiftl_mul_pow2 by lia.
  rewrite Z.div_mul by lia. rewrite Z.div_add_l by lia. rewrite Z.div_small by done.
  rewrite Z.add_0_r. change (2 ^ 12) with 4096. apply wrap64_small. unfold u64. lia.
Qed.

Lemma pte_flags pa fl g : 0 <= pa < 2 ^ 64 -> 0 <= fl < 2 ^ 10 -> 0 <= g < 2 ^ 10 ->
  Z.land (Z.lor (pa_to_pte_ppn pa) fl) g = Z.land fl g.
Proof.
  intros Hp Hf Hg. rewrite pte_eq by done. rewrite (land_mod _ g 10) by lia.
  rewrite Z.add_comm, Z.mod_add by lia. by rewrite Z.mod_small.
Qed.

#[global] Instance rv_format_ok : FormatOk rv_format.
Proof.
  split; simpl; try (intros f Hf Hal).
  - apply pte_u64; [lia|by vm_compute; intuition discriminate].
  - rewrite pte_flags; [done|lia|by vm_compute; intuition discriminate..].
  - apply pte_pa; [lia|done|by vm_compute; intuition discriminate].
  - done.
Qed.

(** The page of an address; bits 39 and up do not count. *)
Definition page_of (va : Z) : list Z * Z :=
  ([Z.land (Z.shiftr va VA_VPN2_SHIFT) VA_INDEX_MASK; Z.land (Z.shiftr va VA_VPN1_SHIFT) VA_INDEX_MASK],
   Z.land (Z.shiftr va VA_VPN0_SHIFT) VA_INDEX_MASK).

Lemma vpn_mod va k : 0 <= k -> Z.land (Z.shiftr va k) VA_INDEX_MASK = va / 2 ^ k mod 512.
Proof. intros Hk. unfold VA_INDEX_MASK. change 0x1FF with (Z.ones 9). by rewrite Z.land_ones, Z.shiftr_div_pow2 by lia. Qed.

Lemma vpn_index va k : 0 <= k -> index (Z.land (Z.shiftr va k) VA_INDEX_MASK).
Proof. intros Hk. rewrite vpn_mod by done. apply Z.mod_pos_bound. lia. Qed.

Lemma page_of_ok va : page_ok 3 (page_of va).
Proof. split; [done|]. by apply vpn_index. Qed.

(** The page of an address is its number modulo 2^27. *)
Lemma page_of_eq va va' : page_of va = page_of va' <-> va / 4096 mod 2 ^ 27 = va' / 4096 mod 2 ^ 27.
Proof.
  assert (Hn : forall v, v / 4096 mod 2 ^ 27 =
    (v / 2 ^ 30 mod 512) * 2 ^ 18 + (v / 2 ^ 21 mod 512) * 2 ^ 9 + v / 2 ^ 12 mod 512).
  { intros v. change (2 ^ 30) with (4096 * 512 * 512). change (2 ^ 21) with (4096 * 512). change (2 ^ 12) with 4096.
    rewrite <- !Z.div_div by lia. generalize (v / 4096). intros x. change (2 ^ 27) with 134217728.
    change (2 ^ 18) with 262144. change (2 ^ 9) with 512. Z.div_mod_to_equations. lia. }
  unfold page_of, VA_VPN2_SHIFT, VA_VPN1_SHIFT, VA_VPN0_SHIFT. rewrite !vpn_mod by lia. rewrite !Hn. split.
  - intros [= -> -> ->]. done.
  - intros He. pose proof (fun k => Z.mod_pos_bound (va / 2 ^ k) 512 ltac:(lia)) as H1.
    pose proof (fun k => Z.mod_pos_bound (va' / 2 ^ k) 512 ltac:(lia)) as H2.
    pose proof (H1 30). pose proof (H1 21). pose proof (H1 12). pose proof (H2 30). pose proof (H2 21). pose proof (H2 12).
    f_equal; [f_equal; [|f_equal]|]; lia.
Qed.

(** ** The walk *)

Section walk.
Context `{Console}.
Abbreviation rv_tree := (tree_at rv_format 3).

Lemma wp_next_table s root T M cs live p f k alloc (Q : option Z -> kstate -> Prop) (E : kstate -> Prop) :
  rv_tree s root T M cs live -> T !! p = Some f -> (S (length p) < 3)%nat -> index k ->
  (forall T' fr s', T' !! (p ++ [k]) = Some fr -> extends T T' -> rv_tree s' root T' M cs live ->
     same_bytes live s s' -> heap_only s s' -> (alloc = false -> s' = s /\ T' = T) -> Q (Some fr) s') ->
  (T !! (p ++ [k]) = None -> (alloc = true -> free_set s = ∅ /\ free_frames (k_pmm s) <> 0) -> Q None s) ->
  (alloc = true -> T !! (p ++ [k]) = None -> forall s', free_frames (k_pmm s') = 0 -> E s') ->
  wp (next_table (f + 8 * k) alloc) s Q E.
Proof.
  intros Ht Hp Hl Hk HQ HQ0 HE. pose proof (slot_valid _ _ _ _ _ _ _ _ Ht p f k Hp Hk) as Hv.
  pose proof (ta_mem _ _ _ _ _ _ _ _ Ht) as Hm. unfold next_table.
  apply wp_bind, wp_load; [done|]. destruct (T !! (p ++ [k])) as [fr|] eqn:Hn.
  - destruct (node_entry rv_format 3 _ _ _ _ _ _ Hm Hp Hl Hk Hn) as [Hpr Hch]. cbn [present child rv_format] in Hpr, Hch.
    apply negb_true_iff in Hpr. rewrite Hpr.
    apply wp_bind, wp_load; [done|]. rewrite Hch. apply wp_ret.
    apply (HQ T); [done|by intros q g|done|apply same_bytes_refl|apply heap_only_refl|done].
  - pose proof (tr_nodes _ _ _ _ Hm p f k Hp Hl Hk) as Hab. rewrite Hn in Hab. cbn [present rv_format] in Hab.
    apply negb_false_iff in Hab. rewrite Hab. destruct alloc; [|by apply wp_ret, HQ0].
    pose proof (ta_heap _ _ _ _ _ _ _ _ Ht) as Hh. pose proof (hp_ok _ _ _ Hh) as Hok.
    destruct (decide (free_frames (k_pmm s) = 0)) as [Hc|Hc].
    { apply wp_bind, wp_alloc_empty; [done|]. intros t. by apply HE. }
    apply wp_bind, wp_alloc_frame; [apply Hok| | |done].
    + intros fi Hf _. pose proof (ow_pos _ _ _ (owned_taken s fi Hok Hf)) as Hpos.
      rewrite (proj2 (Z.eqb_neq _ 0)) by lia. apply wp_bind, wp_memset; [done|by apply (ho_frames _ Hok)|].
      intros m Hmods Hz.
      destruct (tree_grow rv_format 3 s root T M cs live p f k fi m Ht Hf) as (Ht2 & Hext & Hl2 & Hb2 & Ho2 & _); [by split|done..|].
      apply wp_bind, wp_store; [done|]. apply wp_ret.
      eapply HQ; [exact Hl2|exact Hext|exact Ht2|exact Hb2|exact Ho2|done].
    + intros Hf. simpl. apply wp_ret. by apply HQ0.
Qed.

Lemma wp_vmm_walk s root T M cs live va alloc (Q : Z -> kstate -> Prop) (E : kstate -> Prop) :
  rv_tree s root T M cs live ->
  (forall T' f s', T' !! (page_of va).1 = Some f -> rv_tree s' root T' M cs live -> same_bytes live s s' -> heap_only s s' ->
     (alloc = false -> s' = s /\ T' = T) -> Q (f + 8 * (page_of va).2) s') ->
  (forall T' s', rv_tree s' root T' M cs live -> same_bytes live s s' -> heap_only s s' ->
     T !! (page_of va).1 = None ->
     (if alloc then free_set s' = ∅ /\ free_frames (k_pmm s') <> 0 else s' = s) -> Q 0 s') ->
  (alloc = true -> T !! (page_of va).1 = None -> forall s', free_frames (k_pmm s') = 0 -> E s') ->
  wp (vmm_walk root va alloc) s Q E.
Proof.
  intros Ht HQ HQ0 HE. unfold vmm_walk.
  pose proof (vpn_index va VA_VPN2_SHIFT ltac:(done)) as H2'. pose proof (vpn_index va VA_VPN1_SHIFT ltac:(done)) as H1'.
  set (vpn2 := Z.land (Z.shiftr va VA_VPN2_SHIFT) VA_INDEX_MASK) in *.
  set (vpn1 := Z.land (Z.shiftr va VA_VPN1_SHIFT) VA_INDEX_MASK) in *.
  set (vpn0 := Z.land (Z.shiftr va VA_VPN0_SHIFT) VA_INDEX_MASK).
  assert (Hpg : page_of va = ([vpn2; vpn1], vpn0)) by done. rewrite Hpg in *. cbn [fst snd] in *.
  assert (Hup : T !! ([] ++ [vpn2]) = None -> T !! [vpn2; vpn1] = None).
  { intros Hn. destruct (T !! [vpn2; vpn1]) as [g|] eqn:Hg; [|done].
    destruct (tr_up _ _ _ _ (ta_mem _ _ _ _ _ _ _ _ Ht) [vpn2] vpn1 g Hg) as [h Hh]. simpl in Hn. congruence. }
  assert (Hdown : forall T1, extends T T1 -> T1 !! ([vpn2] ++ [vpn1]) = None -> T !! [vpn2; vpn1] = None).
  { intros T1 Hext Hn. destruct (T !! [vpn2; vpn1]) as [g|] eqn:Hg; [|done]. apply Hext in Hg. simpl in Hn. congruence. }
  apply wp_bind. eapply (wp_next_table _ _ _ _ _ _ []); [exact Ht|apply (ta_root _ _ _ _ _ _ _ _ Ht)|simpl; lia|done| | |].
  - intros T1 l1 s1 Hl1 Hext1 Ht1 Hb1 Ho1 Hn1. apply wp_bind.
    eapply (wp_next_table _ _ _ _ _ _ [vpn2]); [exact Ht1|exact Hl1|simpl; lia|done| | |].
    + intros T2 l0 s2 Hl0 Hext2 Ht2 Hb2 Ho2 Hn2. apply wp_ret. apply (HQ T2); [exact Hl0|exact Ht2| | |].
      * by eapply same_bytes_trans.
      * by eapply heap_only_trans.
      * intros Ha. destruct (Hn1 Ha) as [-> ->]. by apply Hn2.
    + intros Hnone Hwhy. apply wp_ret, (HQ0 T1); [exact Ht1|exact Hb1|exact Ho1|by apply (Hdown T1)|].
      destruct alloc; [by apply Hwhy|]. by destruct (Hn1 eq_refl).
    + intros Ha Hnone. apply HE; [done|by apply (Hdown T1)].
  - intros Hnone Hwhy. apply wp_ret, (HQ0 T); [exact Ht|apply same_bytes_refl|apply heap_only_refl|by apply Hup|].
    destruct alloc; [by apply Hwhy|done].
  - intros Ha Hnone. apply HE; [done|by apply Hup].
Qed.
End walk.

(** ** Address spaces *)

(** The page table at [root] maps the pages [M]. *)
Definition address_space `{Platform} (s : kstate) (root : Z) (M : gmap (list Z * Z) Z)
    (cs : list cache_t) (live : list (Z * Z)) : Prop :=
  exists T, tree_at rv_format 3 s root T M cs live.

(** The entry [vmm_map_page] writes, and the address an entry of [M] gives. *)
Definition pte_for (pa flags : Z) : Z := Z.lor (Z.lor (pa_to_pte_ppn pa) PTE_V) flags.

Definition translate (M : gmap (list Z * Z) Z) (va : Z) : Z :=
  match M !! page_of va with
  | Some e => Z.lor (pte_to_pa e) (Z.land va 0xFFF)
  | None => 0
  end.

Section spaces.
Context `{Console}.

Lemma pte_for_ok pa flags :
  0 <= pa < 2 ^ 64 -> 0 <= flags < 2 ^ 10 ->
  u64 (pte_for pa flags) /\ present rv_format (pte_for pa flags) = true /\
  ((4096 | pa) -> pte_to_pa (pte_for pa flags) = pa).
Proof.
  intros Hp Hf. unfold pte_for. rewrite <- Z.lor_assoc.
  assert (Hl : 0 <= Z.lor PTE_V flags < 2 ^ 10) by (by apply lor_bound).
  split; [by apply pte_u64|]. split; [|by intros; apply pte_pa].
  simpl. rewrite pte_flags by done. rewrite Z.land_lor_distr_l. apply negb_true_iff, Z.eqb_neq.
  intros Hz. apply Z.lor_eq_0_iff in Hz. by destruct Hz.
Qed.

Lemma wp_map_page s root M cs live va pa flags (Q : Z -> kstate -> Prop) (E : kstate -> Prop) :
  address_space s root M cs live -> 0 <= pa < 2 ^ 64 -> 0 <= flags < 2 ^ 10 ->
  (~ ((4096 | va) /\ (4096 | pa)) -> Q 0 s) ->
  ((4096 | va) -> (4096 | pa) -> forall s', address_space s' root (<[page_of va := pte_for pa flags]> M) cs live ->
     same_bytes live s s' -> heap_only s s' -> Q 1 s') ->
  ((4096 | va) -> (4096 | pa) -> forall s', address_space s' root M cs live -> same_bytes live s s' -> heap_only s s' ->
     free_set s' = ∅ /\ free_frames (k_pmm s') <> 0 -> tableless M (page_of va) -> Q 0 s') ->
  ((4096 | va) -> (4096 | pa) -> forall s', free_frames (k_pmm s') = 0 -> tableless M (page_of va) -> E s') ->
  wp (vmm_map_page root va pa flags) s Q E.
Proof.
  intros [T Ht] Hp Hf HQ1 HQ2 HQ3 HE. unfold vmm_map_page. change PAGE_SIZE with 4096.
  destruct (Z.eqb_spec (va mod 4096) 0) as [Hva|Hva]; cbn [negb orb].
  2:{ apply wp_ret, HQ1. intros [Hd _]. apply Z.mod_divide in Hd; lia. }
  destruct (Z.eqb_spec (pa mod 4096) 0) as [Hpa|Hpa]; cbn [negb].
  2:{ apply wp_ret, HQ1. intros [_ Hd]. apply Z.mod_divide in Hd; lia. }
  apply Z.mod_divide in Hva, Hpa; [|lia..]. apply wp_bind. eapply wp_vmm_walk; [exact Ht| | |].
  3:{ intros _ Hn s' Hc. apply HE; [done|done|done|]. eapply no_table; [exact Ht|exact Hn]. }
  - intros T' f s' Hl Ht' Hb Ho _. destruct (page_of_ok va) as [Hlen Hi].
    destruct (tr_keys _ _ _ _ (ta_mem _ _ _ _ _ _ _ _ Ht') _ _ Hl) as (_ & _ & Hpos & _). unfold index in Hi.
    rewrite (proj2 (Z.eqb_neq _ 0)) by lia. destruct (pte_for_ok pa flags Hp Hf) as (Hu & Hpr & _).
    apply wp_bind, wp_store; [by apply (slot_valid _ _ _ _ _ _ _ _ Ht' _ _ _ Hl)|]. apply wp_ret.
    destruct (tree_write rv_format 3 _ _ _ _ _ _ _ _ _ _ Ht' Hl Hlen Hi Hu) as [Ht2 Hb2].
    unfold set_page in Ht2. rewrite Hpr in Ht2. apply HQ2; [done|done| | |].
    + exists T'. destruct (page_of va) eqn:He. exact Ht2.
    + by eapply same_bytes_trans.
    + eapply heap_only_trans; [exact Ho|apply heap_only_set_mem].
  - intros T' s' Ht' Hb Ho Hn Hfs. simpl. apply wp_ret, HQ3; [done|done|by exists T'|done|done|done|]. eapply no_table; [exact Ht|exact Hn].
Qed.

Lemma wp_virt_to_phys s root M cs live va (Q : Z -> kstate -> Prop) E :
  address_space s root M cs live -> Q (translate M va) s -> wp (vmm_virt_to_phys root va) s Q E.
Proof.
  intros [T Ht] HQ. destruct (page_of_ok va) as [Hlen Hi]. unfold vmm_virt_to_phys, translate in *.
  rewrite (ta_pages _ _ _ _ _ _ _ _ Ht _ (page_of_ok va)) in HQ. unfold entry_of_page in HQ.
  apply wp_bind. eapply wp_vmm_walk; [exact Ht| | |done].
  - intros T' f s' Hl Ht' _ _ Hs. destruct (Hs eq_refl) as [-> ->]. rewrite Hl in HQ.
    destruct (tr_keys _ _ _ _ (ta_mem _ _ _ _ _ _ _ _ Ht) _ _ Hl) as (_ & _ & Hpos & _). unfold index in Hi.
    rewrite (proj2 (Z.eqb_neq _ 0)) by lia. pose proof (slot_valid _ _ _ _ _ _ _ _ Ht _ _ _ Hl Hi) as Hv.
    apply wp_bind, wp_load; [done|]. revert HQ. cbn [present rv_format].
    destruct (Z.land _ PTE_V =? 0); cbn [negb]; intros HQ; [by apply wp_ret|].
    apply wp_bind, wp_load; [done|]. by apply wp_ret.
  - intros T' s' _ _ _ Hn ->. rewrite Hn in HQ. simpl. by apply wp_ret.
Qed.

Lemma address_space_same s s' root M cs live :
  k_mem s' = k_mem s -> k_pmm s' = k_pmm s -> address_space s root M cs live -> address_space s' root M cs live.
Proof. intros Hm Hp [T Ht]. exists T. by eapply tree_same. Qed.

(** ** The kernel's address space *)

(** [n] pages from [start], mapped to themselves. *)
Fixpoint map_all (n : nat) (start flags : Z) (M : gmap (list Z * Z) Z) : gmap (list Z * Z) Z :=
  match n with
  | O => M
  | S n' => let addr := start + 4096 * Z.of_nat n' in
            <[page_of addr := pte_for addr flags]> (map_all n' start flags M)
  end.

Lemma wp_map_pages s root M cs live start stop flags msg (Q : unit -> kstate -> Prop) (E : kstate -> Prop) :
  address_space s root M cs live -> (4096 | start) -> 0 <= start -> stop + 4096 < 2 ^ 64 -> 0 <= flags < 2 ^ 10 ->
  (forall v, log_ok msg [VInt v] = true) ->
  (forall s', address_space s' root (map_all (Z.to_nat ((stop - start + 4095) / 4096)) start flags M) cs live ->
     same_bytes live s s' -> heap_only s s' -> Q tt s') ->
  (forall s', exhausted s' -> E s') ->
  wp (map_pages root start stop flags msg) s Q E.
Proof.
  intros Ha Hal Hs0 Htop Hfl Hmsg HQ HE. unfold map_pages, vmmk_map_page. change PAGE_SIZE with 4096.
  set (n := Z.to_nat ((stop - start + 4095) / 4096)) in *.
  assert (Hn : stop <= start + 4096 * Z.of_nat n /\ (forall j, (j < n)%nat -> start + 4096 * Z.of_nat j < stop)).
  { unfold n. split; [Z.div_mod_to_equations; lia|]. intros j Hj. Z.div_mod_to_equations; lia. }
  destruct Hn as [Hn1 Hn2].
  apply (wp_while (fun k addr s' => exists j, (j + k = n)%nat /\ addr = start + 4096 * Z.of_nat j /\
    address_space s' root (map_all j start flags M) cs live /\ same_bytes live s s' /\ heap_only s s') n).
  - destruct n as [|n']; [done|]. pose proof (Hn2 n' ltac:(lia)). lia.
  - exists O. split; [lia|]. split; [lia|]. split; [done|]. split; [apply same_bytes_refl|apply heap_only_refl].
  - intros k addr s' (j & Hj & -> & Ha' & Hb' & Ho'). set (addr := start + 4096 * Z.of_nat j).
    destruct (Z.ltb_spec addr stop) as [Hlt|Hge].
    + assert (Hjn : (j < n)%nat) by lia. pose proof (Hn2 j Hjn) as Hlo.
      assert (Hd : (4096 | addr)) by (apply Z.divide_add_r; [done|by exists (Z.of_nat j); lia]).
      apply wp_bind. eapply wp_map_page; [exact Ha'|lia|exact Hfl|intros Hno; by destruct Hno| | |].
      3:{ intros _ _ s2 Hc _. apply HE. by right. }
      * intros _ _ s2 Ha2 Hb2 Ho2. simpl. apply wp_bind, wp_ret, wp_ret. exists (k - 1)%nat. split; [lia|].
        exists (S j). rewrite wrap64_small by (unfold u64; lia). split; [lia|]. split; [lia|].
        split; [exact Ha2|]. split; [by eapply same_bytes_trans|by eapply heap_only_trans].
      * intros _ _ s2 Ha2 Hb2 Ho2 [Hfs _] _. simpl. apply wp_bind, wp_panic; [apply Hmsg|]. intros t. apply HE. by left.
    + apply wp_ret. assert (j = n) as -> by (destruct (decide (j < n)%nat) as [Hjn|]; [pose proof (Hn2 j Hjn); lia|lia]).
      by apply HQ.
Qed.

(** What [map_all] maps, below 2^39. *)
Lemma map_all_lookup n start flags M va :
  0 <= start -> (4096 | start) -> start + 4096 * Z.of_nat n <= 2 ^ 39 -> 0 <= va < 2 ^ 39 ->
  map_all n start flags M !! page_of va =
  if decide (start <= va < start + 4096 * Z.of_nat n) then Some (pte_for (va - va mod 4096) flags) else M !! page_of va.
Proof.
  intros Hs0 [q ->] Htop Hva. induction n as [|n IH]; cbn [map_all].
  { by rewrite decide_False by lia. }
  set (addr := q * 4096 + 4096 * Z.of_nat n) in *.
  assert (Hdiv : addr / 4096 = q + Z.of_nat n).
  { unfold addr. replace (q * 4096 + 4096 * Z.of_nat n) with ((q + Z.of_nat n) * 4096) by lia. by apply Z.div_mul. }
  assert (Hb : forall v, 0 <= v < 2 ^ 39 -> v / 4096 mod 2 ^ 27 = v / 4096).
  { intros v Hv. apply Z.mod_small. change (2 ^ 39) with (4096 * 2 ^ 27) in Hv. Z.div_mod_to_equations. lia. }
  destruct (decide (va / 4096 = q + Z.of_nat n)) as [He|Hne].
  - assert (Hpg : page_of addr = page_of va) by (apply page_of_eq; rewrite !Hb by lia; lia).
    rewrite Hpg, lookup_insert_eq, decide_True by (Z.div_mod_to_equations; lia). f_equal. f_equal.
    Z.div_mod_to_equations; lia.
  - rewrite lookup_insert_ne. 2:{ intros Hpg. apply page_of_eq in Hpg. rewrite !Hb in Hpg by lia. lia. }
    rewrite IH by lia. destruct (decide (q * 4096 <= va < addr)).
    + by rewrite decide_True by lia.
    + rewrite decide_False; [done|]. Z.div_mod_to_equations; lia.
Qed.

(** The pages of a range of addresses, whole. *)
Definition page_range (start stop va : Z) : bool := (start <=? va) && (va <? (stop + 4095) / 4096 * 4096).

(** The address space [vmm_init] builds, as a function of the address: the
    later of its loops win. *)
Definition kernel_entry (bi : boot_info_t) (va : Z) : option Z :=
  let ident flags := Some (pte_for (va - va mod 4096) flags) in
  if page_range 0x10000000 0x10002000 va then ident (Z.lor PTE_R PTE_W)
  else if page_range (ALIGN_UP (kernel_readonly_end bi) 4096) (machine_ram_base bi + machine_ram_total bi) va
  then ident PAGE_KERNEL_DATA
  else if page_range (kernel_image_start bi) (kernel_readonly_end bi) va then ident PAGE_KERNEL_EXEC
  else None.

Lemma map_all_range start stop flags M va :
  0 <= start -> (4096 | start) -> start <= 2 ^ 39 -> stop <= 2 ^ 39 -> 0 <= va < 2 ^ 39 ->
  map_all (Z.to_nat ((stop - start + 4095) / 4096)) start flags M !! page_of va =
  if page_range start stop va then Some (pte_for (va - va mod 4096) flags) else M !! page_of va.
Proof.
  intros Hs Hal Hs39 Ht39 Hva. destruct Hal as [q ->]. unfold page_range.
  assert (Hq : (stop + 4095) / 4096 = q + (stop - q * 4096 + 4095) / 4096).
  { rewrite <- Z.div_add_l by lia. f_equal. lia. }
  rewrite Hq. set (d := (stop - q * 4096 + 4095) / 4096) in *.
  assert (Hd : q * 4096 + 4096 * d <= 2 ^ 39).
  { unfold d. change (2 ^ 39) with (4096 * 2 ^ 27) in *. Z.div_mod_to_equations; lia. }
  rewrite map_all_lookup; [|lia|by exists q| |done].
  - destruct (Z.leb_spec (q * 4096) va), (Z.ltb_spec va ((q + d) * 4096)); simpl;
      first [rewrite decide_True by lia; done|rewrite decide_False by lia; done].
  - destruct (Z_le_gt_dec 0 d); [rewrite Z2Nat.id by lia; lia|]. rewrite (Z2Nat.nonpos d) by lia. lia.
Qed.

Lemma wp_vmm_init s cs live kpt bi (Q : unit -> kstate -> Prop) (E : kstate -> Prop) :
  heap s cs ((kpt, 4096) :: live) -> (4096 | kpt) ->
  (4096 | kernel_image_start bi) -> 0 <= kernel_image_start bi <= 2 ^ 39 -> 0 <= kernel_readonly_end bi < 2 ^ 39 - 4096 ->
  0 <= machine_ram_base bi -> 0 <= machine_ram_total bi -> machine_ram_base bi + machine_ram_total bi <= 2 ^ 39 ->
  (forall M s', address_space s' kpt M cs live ->
     (forall va, 0 <= va < 2 ^ 39 -> M !! page_of va = kernel_entry bi va) ->
     same_bytes live s s' -> RegWrite "satp" (MAKE_SATP_VAL kpt) ∈ k_io s' ->
     (exists m p t, s' = set_io (set_pmm (set_mem s m) p) t) -> Q tt s') ->
  (forall s', exhausted s' -> E s') ->
  wp (vmm_init kpt bi) s Q E.
Proof.
  intros Hh Hal Hk Hkb Hro Hrb Hrt Hram HQ HE. pose proof (heap_owned _ _ _ (kpt, 4096) Hh ltac:(by left)) as Ho.
  destruct Ho as [Hpos Htop Hv _ _]. cbn [fst snd] in *. unfold vmm_init. change PAGE_SIZE with 4096.
  apply wp_bind, wp_memset; [done|done|]. intros m Hm Hz.
  assert (Hw : within [(kpt, 4096)] [(kpt, 4096)]).
  { constructor; [|constructor]. exists kpt, 4096. split; [by left|simpl; lia]. }
  destruct (heap_write _ _ _ _ _ m Hh Hm) as [Hh1 _].
  pose proof (heap_writes_same s cs [(kpt, 4096)] live _ m Hh Hw Hm) as Hb.
  assert (Ha : address_space (set_mem s m) kpt ∅ cs live).
  { exists {[ [] := kpt ]}. refine (tree_new rv_format 3 _ kpt cs live Hh1 _ _ Hal _ Hz); [lia|simpl; lia|].
    pose proof (ho_top _ (hp_ok _ _ _ Hh)) as Ht. unfold PAGE_SIZE in Ht. simpl. lia. }
  destruct (ALIGN_UP_bounds (kernel_readonly_end bi) 12) as [Hup [q Hq]]; [lia|lia|lia|]. change (2 ^ 12) with 4096 in *.
  apply wp_bind. eapply wp_map_pages; [exact Ha|done|lia|lia|by vm_compute; intuition discriminate|done| |exact HE].
  intros s2 Ha2 Hb2 Ho2. rewrite wrap64_small by (unfold u64; lia).
  apply wp_bind. eapply wp_map_pages; [exact Ha2|by exists q|lia|lia|by vm_compute; intuition discriminate|done| |exact HE].
  intros s3 Ha3 Hb3 Ho3.
  apply wp_bind. eapply wp_map_pages; [exact Ha3|by exists 0x10000|lia|lia|by vm_compute; intuition discriminate|done| |exact HE].
  intros s4 Ha4 Hb4 Ho4. apply wp_bind. wp_print. unfold vmm_install_page_table.
  apply wp_bind, wp_bind, wp_modify, wp_modify. apply wp_klog_app; [done|]. intros t'.
  eapply HQ; [eapply address_space_same, Ha4; done|..].
  - intros va Hva. unfold kernel_entry.
    rewrite !map_all_range; [done|..]; first [lia|exact Hk|by exists q|by exists 0x10000].
  - eapply same_bytes_trans; [exact Hb|]. eapply same_bytes_trans; [exact Hb2|]. by eapply same_bytes_trans.
  - apply elem_of_app. right. right. by left.
  - destruct (heap_only_trans _ _ _ Ho2 (heap_only_trans _ _ _ Ho3 Ho4)) as (m' & p & ->). by eexists m', p, _.
Qed.
End spaces.

(** ** Properties *)

Section rv_properties.
Context `{Console}.

(** C7: Mapping a page.  [vmm_map_page] refuses addresses that are not page
    aligned and changes nothing.  Otherwise it returns 1 and the page of [va],
    and no other, has the entry for [pa] with the flags; or it needs a table,
    no page of which is mapped yet, and has no frame for it: with the bitmap
    full and the allocator's counter not 0 it returns 0 and no page's mapping
    has changed, and with the counter at 0, and only then, it panics, as
    [pmm_alloc_frame] does.  When it returns the rest of the memory in use has
    kept its contents. *)
Theorem vmm_map_page_correct s root M cs live va pa flags :
  address_space s root M cs live -> 0 <= pa < 2 ^ 64 -> 0 <= flags < 2 ^ 10 ->
  wp (vmm_map_page root va pa flags) s (fun r s' =>
      same_bytes live s s' /\
      ((r = 0 /\ ~ ((4096 | va) /\ (4096 | pa)) /\ s' = s) \/
       (r = 0 /\ (4096 | va) /\ (4096 | pa) /\ free_set s' = ∅ /\ free_frames (k_pmm s') <> 0 /\ tableless M (page_of va) /\
        address_space s' root M cs live) \/
       (r = 1 /\ (4096 | va) /\ (4096 | pa) /\
        address_space s' root (<[page_of va := pte_for pa flags]> M) cs live)))
    (fun s' => (4096 | va) /\ (4096 | pa) /\ free_frames (k_pmm s') = 0 /\ tableless M (page_of va)).
Proof.
  intros Ha Hp Hf. eapply wp_map_page; [exact Ha|exact Hp|exact Hf| | | |by intros; split_and!].
  - intros Hno. split; [apply same_bytes_refl|by left].
  - intros Hva Hpa s' Ha' Hb _. split; [exact Hb|]. right. right. by split_and!.
  - intros Hva Hpa s' Ha' Hb _ [Hfs Hc] Hn. split; [exact Hb|]. right. left. by split_and!.
Qed.

(** [vmm_virt_to_phys] walks the tables in memory and nevertheless answers
    what the map of pages says, leaving everything as it was: the physical
    address of the mapped page with the offset of [va], or 0. *)
Theorem vmm_virt_to_phys_correct s root M cs live va :
  address_space s root M cs live -> vmm_virt_to_phys root va s = Ok (translate M va) s.
Proof. intros Ha. apply safe_eq. by eapply wp_virt_to_phys. Qed.

Lemma translate_insert M va pa flags va' :
  (4096 | va) -> (4096 | pa) -> 0 <= pa < 2 ^ 64 -> 0 <= flags < 2 ^ 10 ->
  translate (<[page_of va := pte_for pa flags]> M) va' =
  if decide (page_of va = page_of va') then pa + va' mod 4096 else translate M va'.
Proof.
  intros Hva Hpa Hp Hf. unfold translate. case_decide as He.
  - rewrite He, lookup_insert_eq. destruct (pte_for_ok pa flags Hp Hf) as (_ & _ & ->); [|done].
    change 0xFFF with (Z.ones 12). rewrite Z.land_ones by lia. change (2 ^ 12) with 4096.
    destruct Hpa as [q ->]. apply (lor_mul q _ 12); [lia|]. change (2 ^ 12) with 4096. apply Z.mod_pos_bound. lia.
  - by rewrite lookup_insert_ne.
Qed.

(** C27: What is mapped is found.  After [vmm_map_page va pa] succeeds, every
    address of the page of [va], also one whose bits 39 and up are others, is
    translated to the same offset at [pa], and every address of another page as
    before. *)
Theorem vmm_map_translate s root M cs live va pa flags :
  address_space s root M cs live -> 0 <= pa < 2 ^ 64 -> 0 <= flags < 2 ^ 10 ->
  wp (vmm_map_page root va pa flags) s (fun r s' => r = 1 -> forall va',
      vmm_virt_to_phys root va' s' =
      Ok (if decide (va / 4096 mod 2 ^ 27 = va' / 4096 mod 2 ^ 27) then pa + va' mod 4096 else translate M va') s')
    exhausted.
Proof.
  intros Ha Hp Hf. eapply wp_map_page; [exact Ha|exact Hp|exact Hf| | | |by intros _ _ s' Hc _; right].
  - done.
  - intros Hva Hpa s' Ha' _ _ _ va'. apply safe_eq. eapply wp_virt_to_phys; [exact Ha'|].
    rewrite translate_insert by done. split; [|done].
    destruct (decide (page_of va = page_of va')) as [He|He]; rewrite page_of_eq in He; by case_decide.
  - done.
Qed.

(** What the hardware is allowed on the kernel's pages. *)
Definition writable (e : Z) : bool := negb (Z.land e PTE_W =? 0).
Definition executable (e : Z) : bool := negb (Z.land e PTE_X =? 0).
Definition user (e : Z) : bool := negb (Z.land e PTE_U =? 0).

Lemma pte_for_flags pa flags g :
  0 <= pa < 2 ^ 64 -> 0 <= flags < 2 ^ 10 -> 0 <= g < 2 ^ 10 ->
  Z.land (pte_for pa flags) g = Z.land (Z.lor PTE_V flags) g.
Proof. intros. unfold pte_for. rewrite <- Z.lor_assoc. apply pte_flags; [done|by apply lor_bound|done]. Qed.

Lemma page_start va : 0 <= va < 2 ^ 39 -> 0 <= va - va mod 4096 < 2 ^ 64 /\ (4096 | va - va mod 4096).
Proof. intros Hva. split; [Z.div_mod_to_equations; lia|]. exists (va / 4096). Z.div_mod_to_equations; lia. Qed.

(** The kernel maps addresses to themselves, never both writable and
    executable, and never for user mode. *)
Lemma kernel_entry_ok bi va e :
  0 <= va < 2 ^ 39 -> kernel_entry bi va = Some e ->
  pte_to_pa e = va - va mod 4096 /\ writable e && executable e = false /\ user e = false.
Proof.
  intros Hva He. destruct (page_start va Hva) as [Hb Hd].
  assert (Hfl : exists flags, flags ∈ [Z.lor PTE_R PTE_W; PAGE_KERNEL_DATA; PAGE_KERNEL_EXEC] /\
    e = pte_for (va - va mod 4096) flags).
  { unfold kernel_entry in He. repeat (destruct (page_range _ _ va)); try discriminate He; injection He as <-;
      eexists; (split; [|reflexivity]); set_solver. }
  destruct Hfl as (flags & Hin & ->).
  assert (Hf : 0 <= flags < 2 ^ 10 /\
    negb (Z.land (Z.lor PTE_V flags) PTE_W =? 0) && negb (Z.land (Z.lor PTE_V flags) PTE_X =? 0) = false /\
    negb (Z.land (Z.lor PTE_V flags) PTE_U =? 0) = false).
  { repeat (apply elem_of_cons in Hin as [->|Hin]); [..|by apply elem_of_nil in Hin]; by vm_compute; intuition discriminate. }
  destruct Hf as (Hf & Hwx & Hu). destruct (pte_for_ok _ _ Hb Hf) as (_ & _ & Hpa).
  split; [by apply Hpa|]. unfold writable, executable, user.
  rewrite !pte_for_flags by (done || by vm_compute; intuition discriminate). by split.
Qed.

(** C24: The kernel's own address space.  [vmm_init] either panics for want of
    a free frame, or installs in [satp] a page table that gives each address
    below 2^39 the entry [kernel_entry] says, so that [vmm_virt_to_phys] maps the
    image, the memory after it and the UART to themselves and nothing else, and
    that no page is both writable and executable, or open to user mode. *)
Theorem vmm_init_correct s cs live kpt bi :
  heap s cs ((kpt, 4096) :: live) -> (4096 | kpt) ->
  (4096 | kernel_image_start bi) -> 0 <= kernel_image_start bi <= 2 ^ 39 -> 0 <= kernel_readonly_end bi < 2 ^ 39 - 4096 ->
  0 <= machine_ram_base bi -> 0 <= machine_ram_total bi -> machine_ram_base bi + machine_ram_total bi <= 2 ^ 39 ->
  wp (vmm_init kpt bi) s (fun _ s' =>
      RegWrite "satp" (MAKE_SATP_VAL kpt) ∈ k_io s' /\ same_bytes live s s' /\
      exists M, address_space s' kpt M cs live /\ forall va, 0 <= va < 2 ^ 39 ->
        M !! page_of va = kernel_entry bi va /\
        vmm_virt_to_phys kpt va s' = Ok (if kernel_entry bi va is Some _ then va else 0) s' /\
        (forall e, M !! page_of va = Some e -> writable e && executable e = false /\ user e = false))
    exhausted.
Proof.
  intros Hh Hal Hk Hkb Hro Hrb Hrt Hram. eapply wp_vmm_init; [exact Hh|exact Hal|exact Hk|exact Hkb|exact Hro|exact Hrb|exact Hrt|exact Hram| |done].
  intros M s' Ha HM Hb Hio _. split; [exact Hio|]. split; [exact Hb|]. exists M. split; [exact Ha|]. intros va Hva.
  rewrite HM by done. split; [done|]. split; [|by intros e He; destruct (kernel_entry_ok bi va e Hva He)].
  apply safe_eq. eapply wp_virt_to_phys; [exact Ha|]. split; [|done]. unfold translate. rewrite HM by done.
  destruct (kernel_entry bi va) as [e|] eqn:He; [|done]. destruct (kernel_entry_ok bi va e Hva He) as (-> & _ & _).
  destruct (page_start va Hva) as [_ [q Hq]]. rewrite Hq. change 0xFFF with (Z.ones 12). rewrite Z.land_ones by lia.
  change 4096 with (2 ^ 12) at 1. rewrite lor_mul by (try apply Z.mod_pos_bound; lia). change (2 ^ 12) with 4096. lia.
Qed.
End rv_properties.

(** ** Witnesses *)

#[local] Existing Instances riscv_virt riscv_console.

(** The QEMU riscv machine with 16 frames at 0x80300000, frames 0 to 3
    reserved; the kernel's page table is a static of the image at 0x80200000. *)
Definition rv_info : boot_info_t :=
  mkBootInfo 0x80270000 0x80278000 0x80200000 0x80270000 0x80220ABC 0x80000000 0x400000.
Definition rv_table : Z := 0x80211000.

Definition rv_demo : kstate :=
  Eval vm_compute in
    final (mm_boot_init rv_info ;; pmm_init 0x80300000 0x10000 ;; pmm_free_region 0x80300000 0x10000 ;;
           pmm_reserve_region 0x80300000 0x3800) cold_state.

Lemma rv_demo_heap : heap rv_demo [] [(rv_table, 4096)].
Proof. apply heapb_ok. vm_compute. reflexivity. Qed.

Lemma rv_demo_frames : exhausted rv_demo -> False.
Proof.
  intros [He|He]; [|vm_compute in He; discriminate He].
  apply (f_equal (fun F : gset Z => size F)) in He. vm_compute in He. discriminate He.
Qed.

(** The memory of the demonstration reads 0 at its static page table, which is
    therefore an empty address space. *)
Lemma rv_demo_space : address_space rv_demo rv_table ∅ [] [].
Proof.
  exists {[ [] := rv_table ]}.
  assert (Hz : forall i, 0 <= i < 4096 -> get8 (k_mem rv_demo) (rv_table + i) = 0).
  { assert (Hb : map_Forall (fun a _ => a < rv_table \/ rv_table + 4096 <= a) (k_mem rv_demo)).
    { apply (bool_decide_eq_true _). vm_compute. reflexivity. }
    intros i Hi. unfold get8. destruct (k_mem rv_demo !! (rv_table + i)) as [v|] eqn:Hl; [|done].
    pose proof (Hb _ _ Hl) as Ho. simpl in Ho. lia. }
  apply (tree_new rv_format 3 rv_demo rv_table [] [] rv_demo_heap); [lia|by vm_compute|by exists (rv_table / 4096)|by vm_compute|exact Hz].
Qed.

Lemma vmm_map_page_correct_witness :
  exists s', vmm_map_page rv_table 0x12345000 0x80305000 PTE_R rv_demo = Ok 1 s' /\
    address_space s' rv_table {[page_of 0x12345000 := pte_for 0x80305000 PTE_R]} [] [].
Proof.
  destruct (wp_result _ _ _ _ 1
    (vmm_map_page_correct rv_demo rv_table ∅ [] [] 0x12345000 0x80305000 PTE_R rv_demo_space ltac:(lia) ltac:(split; [discriminate|reflexivity])))
    as (s' & Hrun & _ & [(Hr & _)|[(Hr & _)|(_ & _ & _ & Ha)]]); [vm_compute; reflexivity|discriminate Hr|discriminate Hr|].
  exists s'. exact (conj Hrun Ha).
Defined.

Lemma vmm_virt_to_phys_correct_witness : vmm_virt_to_phys rv_table 0x12345678 rv_demo = Ok 0 rv_demo.
Proof. exact (vmm_virt_to_phys_correct rv_demo rv_table ∅ [] [] 0x12345678 rv_demo_space). Defined.

Lemma vmm_map_translate_witness :
  exists s', vmm_map_page rv_table 0x12345000 0x80305000 PTE_R rv_demo = Ok 1 s' /\
    vmm_virt_to_phys rv_table 0x12345678 s' = Ok 0x80305678 s' /\
    vmm_virt_to_phys rv_table (2 ^ 39 + 0x12345678) s' = Ok 0x80305678 s' /\
    vmm_virt_to_phys rv_table 0x12346678 s' = Ok 0 s'.
Proof.
  destruct (wp_result _ _ _ _ 1
    (vmm_map_translate rv_demo rv_table ∅ [] [] 0x12345000 0x80305000 PTE_R rv_demo_space ltac:(lia) ltac:(split; [discriminate|reflexivity])))
    as (s' & Hrun & Hp); [vm_compute; reflexivity|].
  exists s'. exact (conj Hrun (conj (Hp eq_refl 0x12345678) (conj (Hp eq_refl (2 ^ 39 + 0x12345678)) (Hp eq_refl 0x12346678)))).
Defined.

Lemma vmm_init_correct_witness :
  exists s', vmm_init rv_table rv_info rv_demo = Ok tt s' /\
    RegWrite "satp" 0x8000000000080211 ∈ k_io s' /\
    vmm_virt_to_phys rv_table 0x80220ABC s' = Ok 0x80220ABC s' /\
    vmm_virt_to_phys rv_table 0x80400000 s' = Ok 0 s'.
Proof.
  destruct (wp_result _ _ _ _ tt
    (vmm_init_correct rv_demo [] [] rv_table rv_info rv_demo_heap ltac:(by exists 0x80211) ltac:(by exists 0x80200)
       ltac:(simpl; lia) ltac:(simpl; lia) ltac:(simpl; lia) ltac:(simpl; lia) ltac:(simpl; lia)))
    as (s' & Hrun & Hio & _ & M & _ & HM); [vm_compute; reflexivity|].
  exists s'. destruct (HM 0x80220ABC ltac:(lia)) as (_ & H1 & _). destruct (HM 0x80400000 ltac:(lia)) as (_ & H2 & _).
  exact (conj Hrun (conj Hio (conj H1 H2))).
Defined.
