(* ===== verification/ArmPaging.v ===== *)
(** * ARM64 page tables: arch/arm64/paging.c and include/boot/cpu.hpp

    Four levels of tables, filled by [walk_create] and freed by
    [free_table_recursive], one root with an address space identifier (ASID) per
    address space. *)

From Stdlib Require Import String.
From S2P Require Import Prelude Machine Logic Console Boards Sync Str Boot Pmm Heap Slab Kheap PageTree.

#[local] Open Scope string_scope.
#[local] Open Scope list_scope.
#[local] Open Scope Z_scope.

Definition PT_ENTRIES : Z := 512.
Definition PT_LEVELS : Z := 4.
Definition VA_BITS_PER_LEVEL : Z := 9.
Definition PAGE_SHIFT : Z := 12.

Definition PTE_VALID : Z := Z.shiftl 1 0.
Definition PTE_TABLE : Z := Z.shiftl 1 1.

Definition PTE_ATTR_IDX (i : Z) : Z := Z.shiftl (Z.land i 0x7) 2.
Definition PTE_AP_RW_ALL : Z := Z.shiftl 1 6.
Definition PTE_AP_RO_ALL : Z := Z.shiftl 3 6.
Definition PTE_SH_INNER : Z := Z.shiftl 3 8.
Definition PTE_AF : Z := Z.shiftl 1 10.
Definition PTE_NG : Z := Z.shiftl 1 11.
Definition PTE_PXN : Z := Z.shiftl 1 53.
Definition PTE_UXN : Z := Z.shiftl 1 54.

Definition PTE_ADDR_MASK : Z := 0x0000FFFFFFFFF000.
Definition PTE_ADDR (phys : Z) : Z := Z.land phys PTE_ADDR_MASK.

Definition MAIR_IDX_NORMAL : Z := 0.

(** [pagetable_root_t]: its size and the offset of [asid]; [ttbr0_phys] comes
    first. *)
Definition sizeof_pagetable_root : Z := 16.
Definition pt_asid : Z := 8.

Definition PROT_READ : Z := Z.shiftl 1 0.
Definition PROT_WRITE : Z := Z.shiftl 1 1.
Definition PROT_EXEC : Z := Z.shiftl 1 2.

Definition ASID_POOL_SIZE : Z := 256.

Section armpaging.
Context `{Platform}.
(** Where the linker puts the statics. *)
Context (g_asid_used g_asid_lock : Z).

(** -1 when they are all taken; a [bool] is a byte. *)
Definition asid_alloc : M Z :=
  spin_lock g_asid_lock ;;
  r <- for_ret (Z.to_nat (ASID_POOL_SIZE - 1)) 1 (fun i =>
         used <- load8 (g_asid_used + i) ;;
         if used =? 0 then
           store8 (g_asid_used + i) 1 ;;
           spin_unlock g_asid_lock ;;
           ret (Some i)
         else ret None) ;;
  match r with
  | Some i => ret i
  | None => spin_unlock g_asid_lock ;; ret (-1)
  end.

Definition asid_free (asid : Z) : M unit :=
  spin_lock g_asid_lock ;;
  store8 (g_asid_used + asid) 0 ;;
  spin_unlock g_asid_lock.

Definition alloc_table_page : M Z :=
  phys <- pmm_alloc_frame ;;
  if phys =? 0 then ret 0 else memset phys 0 PAGE_SIZE ;; ret phys.

Definition free_table_page (phys : Z) : M unit := pmm_free_frame phys.

Definition level_index (va level : Z) : Z :=
  let shift := PAGE_SHIFT + VA_BITS_PER_LEVEL * (PT_LEVELS - 1 - level) in
  Z.land (Z.shiftr va shift) (PT_ENTRIES - 1).

Definition tlb_invalidate_va_asid (va asid : Z) : M unit :=
  let arg := Z.lor (wrap64 (Z.shiftl asid 48)) (Z.land (Z.shiftr va 12) 0xFFFFFFFFFFF) in
  instr "dsb ishst" ;;
  reg_write "tlbi vae1is" arg ;;
  instr "dsb ish" ;;
  instr "isb".

Definition arch_pagetable_create : M Z :=
  root <- kmalloc sizeof_pagetable_root ;;
  if root =? 0 then ret 0
  else
    l0_phys <- alloc_table_page ;;
    if l0_phys =? 0 then kfree_sized root sizeof_pagetable_root ;; ret 0
    else
      asid <- asid_alloc ;;
      if asid <? 0 then
        free_table_page l0_phys ;;
        kfree_sized root sizeof_pagetable_root ;;
        ret 0
      else
        store64 root l0_phys ;;
        store 2 (root + pt_asid) asid ;;
        ret root.

(** The recursion counts the levels below: [level] is [PT_LEVELS - 1 - n]. *)
Fixpoint free_table_at (n : nat) (table_phys : Z) : M unit :=
  match n with
  | O => ret tt
  | S n' =>
      for_n (Z.to_nat PT_ENTRIES) 0 (fun i =>
        entry <- load64 (table_phys + 8 * i) ;;
        if negb (Z.land entry PTE_VALID =? 0) && negb (Z.land entry PTE_TABLE =? 0)
        then free_table_at n' (Z.land entry PTE_ADDR_MASK)
        else ret tt)
  end ;;
  free_table_page table_phys.

Definition free_table_recursive (table_phys level : Z) : M unit :=
  free_table_at (Z.to_nat (PT_LEVELS - 1 - level)) table_phys.

Definition arch_pagetable_destroy (root : Z) : M unit :=
  ttbr0_phys <- load64 root ;;
  free_table_recursive ttbr0_phys 0 ;;
  asid <- load 2 (root + pt_asid) ;;
  asid_free asid ;;
  kfree_sized root sizeof_pagetable_root.

Fixpoint walk_create_at (n : nat) (table_phys va : Z) : M Z :=
  let idx := level_index va (PT_LEVELS - 1 - Z.of_nat n) in
  match n with
  | O => ret (table_phys + 8 * idx)
  | S n' =>
      e <- load64 (table_phys + 8 * idx) ;;
      ok <- (if Z.land e PTE_VALID =? 0 then
               child_phys <- alloc_table_page ;;
               if child_phys =? 0 then ret false
               else
                 store64 (table_phys + 8 * idx) (Z.lor (Z.lor (PTE_ADDR child_phys) PTE_TABLE) PTE_VALID) ;;
                 ret true
             else ret true) ;;
      if (ok : bool) then
        e <- load64 (table_phys + 8 * idx) ;;
        walk_create_at n' (Z.land e PTE_ADDR_MASK) va
      else ret 0
  end.

Definition walk_create (table_phys va level : Z) : M Z :=
  walk_create_at (Z.to_nat (PT_LEVELS - 1 - level)) table_phys va.

(** The attributes [arch_map_page] gives a page. *)
Definition page_attrs (prot : Z) : Z :=
  let attrs := Z.lor (Z.lor (Z.lor (PTE_ATTR_IDX MAIR_IDX_NORMAL) PTE_SH_INNER) PTE_AF) PTE_NG in
  let attrs := Z.lor attrs (if negb (Z.land prot PROT_WRITE =? 0) then PTE_AP_RW_ALL else PTE_AP_RO_ALL) in
  if Z.land prot PROT_EXEC =? 0 then Z.lor attrs (Z.lor PTE_UXN PTE_PXN) else Z.lor attrs PTE_PXN.

Definition arch_map_page (root va phys prot : Z) : M Z :=
  ttbr0_phys <- load64 root ;;
  pte <- walk_create ttbr0_phys va 0 ;;
  if pte =? 0 then ret (-1)
  else
    store64 pte (Z.lor (Z.lor (Z.lor (PTE_ADDR phys) PTE_TABLE) PTE_VALID) (page_attrs prot)) ;;
    asid <- load 2 (root + pt_asid) ;;
    tlb_invalidate_va_asid va asid ;;
    ret 0.

Definition arch_unmap_page (root va : Z) : M Z :=
  ttbr0_phys <- load64 root ;;
  pte <- walk_create ttbr0_phys va 0 ;;
  if pte =? 0 then ret (-1)
  else
    e <- load64 pte ;;
    if Z.land e PTE_VALID =? 0 then ret (-1)
    else
      store64 pte 0 ;;
      asid <- load 2 (root + pt_asid) ;;
      tlb_invalidate_va_asid va asid ;;
      ret 0.
End armpaging.

(** ** Entries *)

Definition arm_format : format := {|
  node := fun f => Z.lor (Z.lor (PTE_ADDR f) PTE_TABLE) PTE_VALID;
  present := fun e => negb (Z.land e PTE_VALID =? 0);
  child := fun e => Z.land e PTE_ADDR_MASK;
  top := 2 ^ 48
|}.

Lemma land_addr_mask x : Z.land x PTE_ADDR_MASK = x mod 2 ^ 48 - x mod 4096.
Proof.
  change PTE_ADDR_MASK with (Z.land (Z.ones 48) (Z.lnot (Z.ones 12))).
  rewrite Z.land_assoc, Z.land_ones, land_lnot_ones by lia. f_equal. change (2 ^ 12) with 4096.
  change (2 ^ 48) with (4096 * 2 ^ 36). rewrite Z.rem_mul_r by lia.
  rewrite (Z.mul_comm 4096 (_ mod _)), Z.mod_add by lia. apply Z.mod_mod. lia.
Qed.

Lemma pte_addr_aligned f : 0 <= f < 2 ^ 48 -> (4096 | f) -> PTE_ADDR f = f.
Proof.
  intros Hf [q ->]. unfold PTE_ADDR. rewrite land_addr_mask, Z.mod_small, Z.mod_mul by lia. lia.
Qed.

#[global] Instance arm_format_ok : FormatOk arm_format.
Proof.
  assert (Hn : forall f, 0 < f < 2 ^ 48 -> (4096 | f) -> node arm_format f = f + 3).
  { intros f Hf Hal. cbn [node arm_format]. rewrite pte_addr_aligned, <- Z.lor_assoc by (done || lia).
    destruct Hal as [q ->]. apply (lor_mul q 3 12); lia. }
  split; cbn [top arm_format]; try (intros f Hf Hal; rewrite Hn by done).
  - unfold u64. lia.
  - cbn [present arm_format]. rewrite (land_mod _ _ 12) by (vm_compute; intuition discriminate).
    destruct Hal as [q ->]. change (2 ^ 12) with 4096. by rewrite Z.add_comm, Z.mod_add.
  - cbn [child arm_format]. rewrite land_addr_mask. destruct Hal as [q ->].
    rewrite (Z.mod_small _ (2 ^ 48)) by lia. rewrite (Z.add_comm _ 3), Z.mod_add by lia. change (3 mod 4096) with 3. lia.
  - done.
Qed.

(** The entry of a mapped page. *)
Definition page_entry (phys prot : Z) : Z :=
  Z.lor (Z.lor (Z.lor (PTE_ADDR phys) PTE_TABLE) PTE_VALID) (page_attrs prot).

Lemma page_attrs_cases prot :
  page_attrs prot ∈ (w ← [PTE_AP_RW_ALL; PTE_AP_RO_ALL]; x ← [Z.lor PTE_UXN PTE_PXN; PTE_PXN];
    [Z.lor (Z.lor (Z.lor (Z.lor (Z.lor (PTE_ATTR_IDX MAIR_IDX_NORMAL) PTE_SH_INNER) PTE_AF) PTE_NG) w) x]).
Proof. unfold page_attrs. destruct (negb _), (_ =? 0); vm_compute; set_solver. Qed.

Lemma page_entry_ok phys prot :
  u64 (page_entry phys prot) /\ present arm_format (page_entry phys prot) = true /\
  Z.land (page_entry phys prot) PTE_ADDR_MASK = PTE_ADDR phys.
Proof.
  assert (Ha : 0 <= page_attrs prot < 2 ^ 64 /\ Z.land (page_attrs prot) PTE_ADDR_MASK = 0).
  { pose proof (page_attrs_cases prot) as Hc. generalize dependent (page_attrs prot). intros a Hc.
    repeat (apply elem_of_cons in Hc as [->|Hc]); [..|by apply elem_of_nil in Hc]; by vm_compute; intuition discriminate. }
  destruct Ha as [Hb Hm].
  assert (Hp : 0 <= PTE_ADDR phys < 2 ^ 64).
  { unfold PTE_ADDR. rewrite land_addr_mask. change (2 ^ 48) with (4096 * 2 ^ 36). rewrite Z.rem_mul_r by lia.
    pose proof (Z.mod_pos_bound (phys / 4096) (2 ^ 36) ltac:(lia)). lia. }
  unfold page_entry. split; [|split].
  - unfold u64. repeat apply lor_bound; try lia; vm_compute; intuition discriminate.
  - cbn [present arm_format]. apply negb_true_iff, Z.eqb_neq. intros Hz. rewrite !Z.land_lor_distr_l in Hz.
    apply Z.lor_eq_0_iff in Hz as [Hz _]. apply Z.lor_eq_0_iff in Hz as [_ Hz]. discriminate Hz.
  - rewrite !Z.land_lor_distr_l, Hm. change (Z.land PTE_TABLE PTE_ADDR_MASK) with 0.
    change (Z.land PTE_VALID PTE_ADDR_MASK) with 0. rewrite !Z.lor_0_r. unfold PTE_ADDR.
    by rewrite <- Z.land_assoc, Z.land_diag.
Qed.

Lemma level_index_ok va level : level <= 3 -> index (level_index va level).
Proof.
  intros Hl. unfold level_index. change (PT_ENTRIES - 1) with (Z.ones 9). rewrite Z.land_ones by lia.
  apply Z.mod_pos_bound. lia.
Qed.

(** The page of an address; bits 48 and up do not count. *)
Definition arm_page (va : Z) : list Z * Z := (map (level_index va) (seqZ 0 3), level_index va 3).

Lemma arm_page_ok va : page_ok 4 (arm_page va).
Proof. split; [done|]. by apply level_index_ok. Qed.

(** ** The walk *)

Section walk.
Context `{Console}.
Abbreviation arm_tree := (tree_at arm_format 4).

Lemma wp_alloc_table_page s cs live (Q : Z -> kstate -> Prop) (E : kstate -> Prop) :
  heap s cs live ->
  (forall fi m, frame_free s fi -> zeroed s fi m -> 0 < frame_addr s fi -> Q (frame_addr s fi) (set_mem (taken s fi) m)) ->
  (free_set s = ∅ /\ free_frames (k_pmm s) <> 0 -> Q 0 s) -> (forall s', free_frames (k_pmm s') = 0 -> E s') ->
  wp alloc_table_page s Q E.
Proof.
  intros Hh HQ HQ0 HE. pose proof (hp_ok _ _ _ Hh) as Hok. unfold alloc_table_page.
  destruct (decide (free_frames (k_pmm s) = 0)) as [Hc|Hc].
  { apply wp_bind, wp_alloc_empty; [done|]. intros t. by apply HE. }
  apply wp_bind, wp_alloc_frame; [apply Hok| | |done].
  - intros fi Hf _. pose proof (ow_pos _ _ _ (owned_taken s fi Hok Hf)) as Hpos.
    rewrite (proj2 (Z.eqb_neq _ 0)) by lia. apply wp_bind, wp_memset; [done|by apply (ho_frames _ Hok)|].
    intros m Hm Hz. apply wp_ret, HQ; [done|by split|done].
  - intros Hf. simpl. by apply wp_ret, HQ0.
Qed.

Lemma wp_walk_create n s root T M cs live p f va (Q : Z -> kstate -> Prop) (E : kstate -> Prop) :
  arm_tree s root T M cs live -> T !! p = Some f -> (length p + n = 3)%nat ->
  (forall T' g s', T' !! (p ++ map (level_index va) (seqZ (3 - Z.of_nat n) (Z.of_nat n))) = Some g ->
     arm_tree s' root T' M cs live -> same_bytes live s s' -> heap_only s s' -> same_frames s s' ->
     (framed s T -> framed s' T') -> Q (g + 8 * level_index va 3) s') ->
  (forall T' s', arm_tree s' root T' M cs live -> same_bytes live s s' -> heap_only s s' -> same_frames s s' ->
     (framed s T -> framed s' T') -> T !! (p ++ map (level_index va) (seqZ (3 - Z.of_nat n) (Z.of_nat n))) = None ->
     free_set s' = ∅ /\ free_frames (k_pmm s') <> 0 -> Q 0 s') ->
  (forall s', T !! (p ++ map (level_index va) (seqZ (3 - Z.of_nat n) (Z.of_nat n))) = None ->
     free_frames (k_pmm s') = 0 -> E s') ->
  wp (walk_create_at n f va) s Q E.
Proof.
  revert s T p f.
  induction n as [|n IH]; intros s T p f Ht Hp Hlen HQ HQ0 HE; cbn [walk_create_at].
  { apply wp_ret. change (PT_LEVELS - 1 - Z.of_nat 0) with 3.
    eapply (HQ T); try done; [by rewrite app_nil_r|apply same_bytes_refl|apply heap_only_refl]. }
  replace (PT_LEVELS - 1 - Z.of_nat (S n)) with (3 - Z.of_nat (S n)) by (unfold PT_LEVELS; lia).
  set (k := level_index va (3 - Z.of_nat (S n))) in *.
  assert (Hi : index k) by (apply level_index_ok; lia).
  assert (Hseq : map (level_index va) (seqZ (3 - Z.of_nat (S n)) (Z.of_nat (S n))) =
                 k :: map (level_index va) (seqZ (3 - Z.of_nat n) (Z.of_nat n))).
  { rewrite seqZ_cons by lia. simpl. f_equal. f_equal. f_equal; lia. }
  rewrite Hseq in HQ, HQ0, HE. set (rest := map _ (seqZ (3 - Z.of_nat n) _)) in *. pose proof (slot_valid _ _ _ _ _ _ _ _ Ht p f k Hp Hi) as Hv.
  (* the rest of the walk, from a tree that has the next table *)
  assert (Hrest : forall T1 fr s1, extends T T1 -> T1 !! p = Some f -> T1 !! (p ++ [k]) = Some fr -> arm_tree s1 root T1 M cs live ->
     same_bytes live s s1 -> heap_only s s1 -> same_frames s s1 -> (framed s T -> framed s1 T1) ->
     wp (e <- load64 (f + 8 * k) ;; walk_create_at n (Z.land e PTE_ADDR_MASK) va) s1 Q E).
  { intros T1 fr s1 Hext Hp1 Hfr Ht1 Hb1 Ho1 Hf1 Hfd1.
    assert (Hback : T1 !! ((p ++ [k]) ++ rest) = None -> T !! (p ++ k :: rest) = None).
    { rewrite <- app_assoc. intros Hn. destruct (T !! (p ++ k :: rest)) as [g|] eqn:Hg; [|done].
      apply Hext in Hg. simpl in Hn. congruence. }
    apply wp_bind, wp_load; [done|].
    destruct (node_entry arm_format 4 _ _ _ _ _ _ (ta_mem _ _ _ _ _ _ _ _ Ht1) Hp1 ltac:(lia) Hi Hfr) as [_ Hch].
    cbn [child arm_format] in Hch. rewrite Hch.
    apply (IH s1 T1 (p ++ [k])); [exact Ht1|exact Hfr|rewrite length_app; simpl; lia| | |by intros s2 Hn; apply HE, Hback].
    - intros T2 g s2 Hg Ht2 Hb2 Ho2 Hf2 Hfd2. rewrite <- app_assoc in Hg. eapply HQ; [exact Hg|exact Ht2|..]; auto.
      + by eapply same_bytes_trans.
      + by eapply heap_only_trans.
      + by eapply same_frames_trans.
    - intros T2 s2 Ht2 Hb2 Ho2 Hf2 Hfd2 Hn. apply (HQ0 T2); auto.
      + by eapply same_bytes_trans.
      + by eapply heap_only_trans.
      + by eapply same_frames_trans. }
  apply wp_bind, wp_load; [done|]. destruct (T !! (p ++ [k])) as [fr|] eqn:Hn.
  - destruct (node_entry arm_format 4 _ _ _ _ _ _ (ta_mem _ _ _ _ _ _ _ _ Ht) Hp ltac:(lia) Hi Hn) as [Hpr _].
    cbn [present arm_format] in Hpr. apply negb_true_iff in Hpr. rewrite Hpr. apply wp_bind, wp_ret.
    apply (Hrest T fr); auto using same_bytes_refl, heap_only_refl; [by intros q g|done].
  - assert (Hgone : T !! (p ++ k :: rest) = None).
    { destruct (T !! (p ++ k :: rest)) as [g|] eqn:Hg; [|done].
      destruct (table_up arm_format 4 _ _ (ta_mem _ _ _ _ _ _ _ _ Ht) _ _ _ _ Hg) as [h Hh]. congruence. }
    pose proof (tr_nodes _ _ _ _ (ta_mem _ _ _ _ _ _ _ _ Ht) p f k Hp ltac:(lia) Hi) as Hab. rewrite Hn in Hab.
    cbn [present arm_format] in Hab. apply negb_false_iff in Hab. rewrite Hab.
    apply wp_bind, wp_bind. eapply wp_alloc_table_page; [apply Ht| | |by intros s'; apply HE].
    + intros fi m Hf Hz Hpos. rewrite (proj2 (Z.eqb_neq _ 0)) by lia.
      destruct (tree_grow arm_format 4 s root T M cs live p f k fi m Ht Hf Hz Hp ltac:(lia) Hi Hn)
        as (Ht2 & Hext & Hl2 & Hb2 & Ho2 & Hf2 & Hfd2).
      apply wp_bind, wp_store; [done|]. apply wp_ret. apply (Hrest _ _ _ Hext (Hext _ _ Hp) Hl2 Ht2 Hb2 Ho2 Hf2 Hfd2).
    + intros Hf. simpl. apply wp_ret, wp_ret, (HQ0 T); auto using same_bytes_refl, heap_only_refl. done.
Qed.

(** ** Giving tables back *)

Lemma wp_free_table_page s cs live i (Q : unit -> kstate -> Prop) E :
  heap s cs ((frame_addr s i, 4096) :: live) -> 0 <= i < total_frames (k_pmm s) ->
  (forall s', heap s' cs live -> same_bytes live s s' -> heap_only s s' -> same_frames s s' ->
     free_set s' = free_set s ∪ {[i]} -> Q tt s') ->
  wp (free_table_page (frame_addr s i)) s Q E.
Proof.
  intros Hh Hi HQ. pose proof (hp_ok _ _ _ Hh) as Hok. unfold free_table_page.
  pose proof (heap_frame_used s cs live i Hh Hi) as Hu. destruct (heap_release s cs live i Hh Hi) as [Hh' Hk].
  pose proof (ok_base _ (ho_pmm _ Hok)) as Hb.
  apply wp_free_frame; [apply Hok|]. cbv zeta. unfold frame_addr, PAGE_SIZE in *.
  replace ((mem_phys_base (k_pmm s) + i * 4096 - mem_phys_base (k_pmm s)) / 4096) with i.
  2:{ replace (mem_phys_base (k_pmm s) + i * 4096 - mem_phys_base (k_pmm s)) with (i * 4096) by lia. by rewrite Z.div_mul. }
  split; [lia|]. intros _ _. split; [congruence|]. intros _. apply HQ; [exact Hh'| |apply Hk|done|by apply free_set_released].
  by eapply heap_live_same.
Qed.

(** The frames of the tables [T'] are free in [s']. *)
Definition tables_freed (s s' : kstate) (T' : gmap (list Z) Z) : Prop :=
  forall q i, T' !! q = Some (frame_addr s i) -> 0 <= i < total_frames (k_pmm s) -> i ∈ free_set s'.

Lemma tables_freed_frames s s1 s' T' : same_frames s s1 -> tables_freed s1 s' T' -> tables_freed s s' T'.
Proof. intros [Hb Hf] H1 q i Hq Hi. apply (H1 q); [|by rewrite Hf]. unfold frame_addr in *. by rewrite Hb. Qed.

Lemma node_bits f : 0 < f < 2 ^ 48 -> (4096 | f) ->
  let e := node arm_format f in
  negb (Z.land e PTE_VALID =? 0) && negb (Z.land e PTE_TABLE =? 0) = true /\ Z.land e PTE_ADDR_MASK = f.
Proof.
  intros Hf Hal e. split; [|by apply (node_child (F := arm_format))].
  apply andb_true_iff. split; [by apply (node_present (F := arm_format))|]. unfold e. cbn [node arm_format].
  apply negb_true_iff, Z.eqb_neq. intros Hz. rewrite !Z.land_lor_distr_l in Hz.
  apply Z.lor_eq_0_iff in Hz as [Hz _]. apply Z.lor_eq_0_iff in Hz as [_ Hz]. discriminate Hz.
Qed.

Section destroy.
Context (m : memory) (T : gmap (list Z) Z) (cs : list cache_t) (Hm : tree_mem arm_format 4 m T).

(** The tables [T'] still have the contents they have in [m]. *)
Definition intact (s : kstate) (T' : gmap (list Z) Z) : Prop :=
  forall q g i, T' !! q = Some g -> index i -> get64 (k_mem s) (g + 8 * i) = get64 m (g + 8 * i).

Lemma intact_same s s' T1 T2 :
  same_bytes (tables T2) s s' -> (forall q g, T2 !! q = Some g -> T1 !! q = Some g) -> intact s T1 -> intact s' T2.
Proof. intros Hb Hsub Hi q g i Hq Hx. rewrite <- (Hi q g i (Hsub _ _ Hq) Hx). by eapply tables_slot. Qed.

Lemma subtree_child p i q g : subtree T (p ++ [i]) 0 !! q = Some g -> subtree T p i !! q = Some g.
Proof. intros Hq. destruct (subtree_split arm_format 4 m T Hm p i) as [Hd ->]. apply lookup_union_Some; [done|by left]. Qed.

Lemma subtree_next p i q g : subtree T p (i + 1) !! q = Some g -> subtree T p i !! q = Some g.
Proof. intros Hq. destruct (subtree_split arm_format 4 m T Hm p i) as [Hd ->]. apply lookup_union_Some; [done|by right]. Qed.

Lemma subtree_cases p i q g :
  subtree T p i !! q = Some g -> subtree T (p ++ [i]) 0 !! q = Some g \/ subtree T p (i + 1) !! q = Some g.
Proof. destruct (subtree_split arm_format 4 m T Hm p i) as [Hd ->]. by apply lookup_union_Some. Qed.

(** What freeing a subtree promises. *)
Definition frees (s : kstate) (T' : gmap (list Z) Z) (live : list (Z * Z)) (s' : kstate) : Prop :=
  heap s' cs live /\ same_bytes live s s' /\ heap_only s s' /\ same_frames s s' /\
  free_set s ⊆ free_set s' /\ tables_freed s s' T'.

Lemma wp_free_self s p f live (Q : unit -> kstate -> Prop) E :
  heap s cs ((f, 4096) :: live) -> T !! p = Some f -> framed s T ->
  (forall s', frees s {[p := f]} live s' -> Q tt s') -> wp (free_table_page f) s Q E.
Proof.
  intros Hh Hp Hfd HQ. destruct (Hfd _ _ Hp) as (i & Hi & ->). eapply wp_free_table_page; [exact Hh|exact Hi|].
  intros s' Hh' Hb Ho Hf Hfs. apply HQ. unfold frees. rewrite Hfs. split_and!; try done; [set_solver|].
  intros q j Hq Hj. apply lookup_singleton_Some in Hq as [_ He]. unfold frame_addr, PAGE_SIZE in He.
  assert (i = j) as -> by lia. rewrite Hfs. set_solver.
Qed.

Lemma wp_free_table n s p f live (Q : unit -> kstate -> Prop) E :
  T !! p = Some f -> (length p + n = 3)%nat -> framed s T -> intact s (subtree T p 0) ->
  heap s cs (tables (subtree T p 0) ++ live) ->
  (forall s', frees s (subtree T p 0) live s' -> Q tt s') -> wp (free_table_at n f) s Q E.
Proof.
  revert s p f live Q. induction n as [|n IH]; intros s p f live Q Hp Hlen Hfd Hin Hh HQ; cbn [free_table_at].
  { apply wp_bind, wp_ret.
    rewrite (subtree_self arm_format 4 m T Hm p 0 f Hp) in Hh, HQ by (left; lia).
    unfold tables in Hh. rewrite map_to_list_singleton in Hh. eapply wp_free_self; [exact Hh|exact Hp|exact Hfd|exact HQ]. }
  apply wp_bind. change (Z.to_nat PT_ENTRIES) with 512%nat.
  apply (wp_for_n (fun i s' => heap s' cs (tables (subtree T p i) ++ live) /\ intact s' (subtree T p i) /\
    same_bytes live s s' /\ heap_only s s' /\ same_frames s s' /\ free_set s ⊆ free_set s' /\
    forall q j, subtree T p 0 !! q = Some (frame_addr s j) -> 0 <= j < total_frames (k_pmm s) ->
      subtree T p i !! q = None -> j ∈ free_set s')).
  - split_and!; [done|done|apply same_bytes_refl|apply heap_only_refl|done|done|congruence].
  - intros i s' Hi (Hh' & Hin' & Hb' & Ho' & Hf' & Hsub' & Hfr').
    assert (Hpi : subtree T p i !! p = Some f) by (apply subtree_lookup, conj, below_spec; [done|by left]).
    assert (Hx : index i) by (unfold index; lia).
    assert (Hv : valid (f + 8 * i) 8 = true).
    { assert (Ho : owned s' f 4096) by (apply (heap_owned _ _ _ (f, 4096) Hh'), elem_of_app; left; by eapply tables_in).
      pose proof (ow_valid _ _ _ Ho). unfold index in Hx. solve_valid. }
    apply wp_bind, wp_load; [done|]. rewrite (Hin' _ _ _ Hpi Hx).
    pose proof (tr_nodes _ _ _ _ Hm p f i Hp ltac:(lia) Hx) as Hn.
    destruct (T !! (p ++ [i])) as [g|] eqn:Hg.
    + destruct (tr_keys _ _ _ _ Hm _ _ Hg) as (_ & _ & Hgb & Hgal). destruct (node_bits g Hgb Hgal) as [Hbits Hadr].
      rewrite Hn, Hbits, Hadr. rewrite (tables_split arm_format 4 m T Hm p i), <- app_assoc in Hh'.
      eapply (IH s' (p ++ [i])); [exact Hg|rewrite length_app; simpl; lia|by eapply framed_same| |exact Hh'|].
      { intros q h j Hq. apply (Hin' q). by apply subtree_child. }
      intros s2 (Hh2 & Hb2 & Ho2 & Hf2 & Hsub2 & Hfr2). apply same_bytes_app in Hb2 as [Hbt Hbl].
      split_and!; [done|eapply intact_same; [exact Hbt| |exact Hin']; by apply subtree_next|by eapply same_bytes_trans|
        by eapply heap_only_trans|by eapply same_frames_trans|set_solver|].
      intros q j Hq Hj Hnone. destruct (subtree T p i !! q) as [h|] eqn:Hqi.
      * assert (h = frame_addr s j) as -> by (apply subtree_lookup in Hq as [Hq _], Hqi as [Hqi _]; congruence).
        apply subtree_cases in Hqi as [Hqi|Hqi]; [|congruence].
        by apply (tables_freed_frames s s' s2 _ Hf' Hfr2 q).
      * apply Hsub2. by apply (Hfr' q).
    + cbn [present arm_format] in Hn. rewrite Hn. cbn [andb]. apply wp_ret.
      assert (He : subtree T p i = subtree T p (i + 1)).
      { destruct (subtree_split arm_format 4 m T Hm p i) as [_ ->].
        by rewrite (subtree_none arm_format 4 m T Hm p i Hg), (left_id_L ∅ (∪)). }
      rewrite <- He. by split_and!.
  - intros s' (Hh' & _ & Hb' & Ho' & Hf' & Hsub' & Hfr'). cbn [Z.of_nat] in *.
    rewrite (subtree_self arm_format 4 m T Hm p _ f Hp) in Hh', Hfr' by (right; lia).
    unfold tables in Hh'. rewrite map_to_list_singleton in Hh'.
    eapply wp_free_self; [exact Hh'|exact Hp|by eapply framed_same|].
    intros s2 (Hh2 & Hb2 & Ho2 & Hf2 & Hsub2 & Hfr2). apply HQ.
    split_and!; [done|by eapply same_bytes_trans|by eapply heap_only_trans|by eapply same_frames_trans|set_solver|].
    intros q j Hq Hj. destruct (decide (q = p)) as [->|Hne].
    + apply (tables_freed_frames s s' s2 _ Hf' Hfr2 p); [|done]. rewrite lookup_singleton_eq.
      apply subtree_lookup in Hq as [Hq _]. congruence.
    + apply Hsub2. apply (Hfr' q); [done|done|]. by rewrite lookup_singleton_ne.
Qed.
End destroy.
End walk.

(** ** Address space identifiers *)

Section asids.
Context `{Console} (g_asid_used g_asid_lock : Z).

(** The statics of the file. *)
Definition statics : list (Z * Z) := [(g_asid_used, 256); (g_asid_lock, 4)].

(** The identifiers in use are [A], and nobody holds the lock. *)
Definition asids (s : kstate) (A : gset Z) : Prop :=
  get32 (k_mem s) g_asid_lock = 0 /\ forall i, 0 <= i < 256 -> get8 (k_mem s) (g_asid_used + i) = 0 <-> i ∉ A.

Lemma asids_same s s' A : same_bytes statics s s' -> asids s A -> asids s' A.
Proof.
  intros Hb [Hl Hu]. split.
  - rewrite <- Hl. apply (same_bytes_getw statics s s' g_asid_lock 4 4 _ Hb); [right; left|lia|simpl; lia].
  - intros i Hi. rewrite <- (Hu i Hi). replace (get8 (k_mem s') (g_asid_used + i)) with (get8 (k_mem s) (g_asid_used + i)); [done|].
    symmetry. apply (proj1 (Forall_forall _ _) Hb (g_asid_used, 256)); [left|simpl; lia].
Qed.

(** Writes to the statics. *)
Lemma heap_statics s cs live m :
  heap s cs (statics ++ live) -> mods statics (k_mem s) m ->
  heap (set_mem s m) cs (statics ++ live) /\ same_bytes live s (set_mem s m).
Proof.
  intros Hh Hm. assert (Hw : within statics statics).
  { apply Forall_forall. intros [x n] Hin. exists x, n. split; [done|simpl; lia]. }
  split; [|by eapply heap_writes_same].
  apply (heap_writes s cs (statics ++ live) statics m Hh); [|done].
  eapply Forall_impl; [exact Hw|]. intros r (x & n & Hin & Hx). exists x, n. split; [apply elem_of_app; by left|done].
Qed.

Lemma statics_facts s cs live :
  heap s cs (statics ++ live) -> valid g_asid_used 256 = true /\ valid g_asid_lock 4 = true /\
  (g_asid_used + 256 <= g_asid_lock \/ g_asid_lock + 4 <= g_asid_used).
Proof.
  intros Hh. pose proof (heap_owned _ _ _ (g_asid_used, 256) Hh ltac:(apply elem_of_app; left; left)) as H1.
  pose proof (heap_owned _ _ _ (g_asid_lock, 4) Hh ltac:(apply elem_of_app; left; right; left)) as H2.
  split; [apply H1|]. split; [apply H2|].
  assert (Hap : apart (g_asid_used, 256) (g_asid_lock, 4)).
  { eapply heap_apart; [exact Hh|apply elem_of_app; left; left|apply elem_of_app; left; right; left|]. intros [=]; lia. }
  unfold apart in Hap. simpl in Hap. lia.
Qed.

(** Setting the [i]-th flag to [v], between taking and giving back the lock. *)
Definition flag_set (s : kstate) (i v : Z) : memory :=
  put32 (putw 1 (put32 (k_mem s) g_asid_lock 1) (g_asid_used + i) v) g_asid_lock 0.

Lemma flag_set_ok s cs live A A' i v :
  heap s cs (statics ++ live) -> asids s A -> 0 <= i < 256 -> 0 <= v < 2 ^ 8 -> (v = 0 <-> i ∉ A') ->
  (forall j, j <> i -> j ∈ A' <-> j ∈ A) ->
  let s' := set_mem s (flag_set s i v) in
  heap s' cs (statics ++ live) /\ same_bytes live s s' /\ asids s' A' /\ mods statics (k_mem s) (flag_set s i v).
Proof.
  intros Hh [Hl Hu] Hi Hv Hvi Hj s'. destruct (statics_facts _ _ _ Hh) as (_ & _ & Hap).
  assert (Hm : mods statics (k_mem s) (flag_set s i v)).
  { unfold flag_set. eapply mods_step; [|eapply (mods_put_in 4 _ _ _ g_asid_lock 4); [right; left|lia|simpl; lia]].
    eapply mods_step; [|eapply (mods_put_in 1 _ _ _ g_asid_used 256); [left|lia|simpl; lia]].
    eapply (mods_put_in 4 _ _ _ g_asid_lock 4); [right; left|lia|simpl; lia]. }
  destruct (heap_statics _ _ _ _ Hh Hm) as [Hh' Hb]. split; [exact Hh'|]. split; [exact Hb|]. split; [|exact Hm]. split.
  - apply (getw_putw 4). simpl. lia.
  - intros j Hjb. unfold s', flag_set. cbn [set_mem k_mem]. rewrite get8_putw, decide_False by (simpl; lia).
    rewrite get8_put1 by done. destruct (decide (j = i)) as [->|Hne].
    + by rewrite decide_True by lia.
    + rewrite decide_False by lia. rewrite get8_putw, decide_False by (simpl; lia). rewrite (Hu j Hjb), (Hj j Hne). done.
Qed.

(** What [asid_alloc] does: the first identifier not in use, counting from 1,
    is taken. *)
Lemma wp_asid_alloc s cs live A (Q : Z -> kstate -> Prop) E :
  heap s cs (statics ++ live) -> asids s A ->
  (forall i s', 1 <= i < 256 -> i ∉ A -> (forall j, 1 <= j < i -> j ∈ A) -> asids s' ({[i]} ∪ A) ->
     heap s' cs (statics ++ live) -> same_bytes live s s' -> (exists m, s' = set_mem s m) -> Q i s') ->
  (forall s', (forall j, 1 <= j < 256 -> j ∈ A) -> asids s' A ->
     heap s' cs (statics ++ live) -> same_bytes live s s' ->
     (exists m, s' = set_mem s m /\ mods statics (k_mem s) m) -> Q (-1) s') ->
  wp (asid_alloc g_asid_used g_asid_lock) s Q E.
Proof.
  intros Hh Hasid HQ HQ0. pose proof Hasid as [Hl Hu]. destruct (statics_facts _ _ _ Hh) as (Hv1 & Hv2 & Hap).
  unfold asid_alloc. apply wp_bind, wp_spin_lock; [exact Hv2|exact Hl|]. set (s1 := set_mem s _).
  assert (Hread : forall i, 0 <= i < 256 -> getw 1 (k_mem s1) (g_asid_used + i) = get8 (k_mem s) (g_asid_used + i)).
  { intros i Hi. rewrite getw_1. unfold s1. cbn [set_mem k_mem]. by rewrite get8_putw, decide_False by (simpl; lia). }
  apply wp_bind. change (Z.to_nat (ASID_POOL_SIZE - 1)) with 255%nat.
  apply (wp_for_ret (fun i s' => s' = s1 /\ forall j, 1 <= j < i -> j ∈ A)).
  - split; [done|lia].
  - intros i s' Hi [-> HA]. apply wp_bind, wp_load; [solve_valid|]. rewrite Hread by lia.
    destruct (Z.eqb_spec (get8 (k_mem s) (g_asid_used + i)) 0) as [Hz|Hz].
    + apply Hu in Hz; [|lia]. apply wp_bind, wp_store; [solve_valid|].
      apply wp_bind, wp_spin_unlock; [exact Hv2|]. apply wp_ret, wp_ret.
      destruct (flag_set_ok s cs live A ({[i]} ∪ A) i 1 Hh Hasid) as (Hh' & Hb' & Ha' & _); [lia|lia|set_solver|set_solver|].
      apply (HQ i); [lia|exact Hz|exact HA|exact Ha'|exact Hh'|exact Hb'|by eexists].
    + apply wp_ret. split; [done|]. intros j Hj. destruct (decide (j = i)) as [->|]; [|apply HA; lia].
      destruct (decide (i ∈ A)) as [|Hn]; [done|]. apply Hu in Hn; [done|lia].
  - intros s' [-> HA]. apply wp_bind, wp_spin_unlock; [exact Hv2|]. apply wp_ret.
    assert (Hm : mods statics (k_mem s) (put32 (put32 (k_mem s) g_asid_lock 1) g_asid_lock 0)).
    { eapply mods_step; [|eapply (mods_put_in 4 _ _ _ g_asid_lock 4); [right; left|lia|simpl; lia]].
      eapply (mods_put_in 4 _ _ _ g_asid_lock 4); [right; left|lia|simpl; lia]. }
    destruct (heap_statics _ _ _ _ Hh Hm) as [Hh' Hb]. apply HQ0; [done| |exact Hh'|exact Hb|by eexists; split]. split.
    + apply (getw_putw 4). simpl. lia.
    + intros j Hj. rewrite <- (Hu j Hj). unfold s1. cbn [set_mem k_mem].
      by rewrite get8_putw, decide_False, get8_putw, decide_False by (simpl; lia).
Qed.

Lemma wp_asid_free s cs live A i (Q : unit -> kstate -> Prop) E :
  heap s cs (statics ++ live) -> asids s A -> 0 <= i < 256 ->
  (forall s', asids s' (A ∖ {[i]}) -> heap s' cs (statics ++ live) -> same_bytes live s s' ->
     (exists m, s' = set_mem s m /\ mods statics (k_mem s) m) -> Q tt s') ->
  wp (asid_free g_asid_used g_asid_lock i) s Q E.
Proof.
  intros Hh Hasid Hi HQ. pose proof Hasid as [Hl Hu]. destruct (statics_facts _ _ _ Hh) as (Hv1 & Hv2 & Hap).
  unfold asid_free. apply wp_bind, wp_spin_lock; [exact Hv2|exact Hl|]. apply wp_bind, wp_store; [solve_valid|].
  apply wp_spin_unlock; [exact Hv2|].
  destruct (flag_set_ok s cs live A (A ∖ {[i]}) i 0 Hh Hasid) as (Hh' & Hb' & Ha' & Hm); [lia|lia|set_solver|set_solver|].
  apply HQ; [exact Ha'|exact Hh'|exact Hb'|by eexists].
Qed.
End asids.

(** ** Address spaces *)

Section spaces.
Context `{Console} (g_asid_used g_asid_lock : Z).
Abbreviation arm_tree := (tree_at arm_format 4).
Abbreviation statics := (statics g_asid_used g_asid_lock).
Abbreviation asids := (asids g_asid_used g_asid_lock).

(** The [pagetable_root_t] of the block [b] describes the address space [asid]
    that maps the pages [M], next to the blocks [bs], the caches [cs] and the
    memory [live]. *)
Record space (s : kstate) (b : block) (asid : Z) (M : gmap (list Z * Z) Z) (bs : list block) (cs : list cache_t)
    (live : list (Z * Z)) : Prop := {
  sp_init : kheap_initialized (k_kheap s) = true;
  sp_blocks : Forall (block_ok s) (b :: bs);
  sp_size : b_size b = sizeof_pagetable_root;
  sp_asid : getw 2 (k_mem s) (b_hdr b + 16 + pt_asid) = asid;
  sp_tree : exists T ks, map c_addr ks = kmalloc_caches (k_kheap s) /\ map c_size ks = bucket_sizes /\
    framed s T /\
    arm_tree s (get64 (k_mem s) (b_hdr b + 16)) T M (ks ++ cs) (((b :: bs) ≫= extents) ++ live)
}.

(** A block for a root lies in one object of 32 bytes. *)
Lemma root_extents s b : block_ok s b -> b_size b = sizeof_pagetable_root -> extents b = [(b_hdr b, 32)].
Proof.
  intros Hb Hsz. destruct (bk_small _ _ Hb) as [_ Hc]; [rewrite Hsz; unfold sizeof_pagetable_root; lia|].
  unfold extents. rewrite (proj2 (Z.eqb_neq _ _) Hc), Hsz. done.
Qed.

(** The invalidation of a page's translations, most recent first. *)
Definition tlb_events (va asid : Z) : list io_event :=
  [Instr "isb"; Instr "dsb ish";
   RegWrite "tlbi vae1is" (Z.lor (wrap64 (Z.shiftl asid 48)) (Z.land (Z.shiftr va 12) 0xFFFFFFFFFFF));
   Instr "dsb ishst"].

Lemma wp_tlb_invalidate va asid s (Q : unit -> kstate -> Prop) E :
  Q tt (set_io s (tlb_events va asid ++ k_io s)) -> wp (tlb_invalidate_va_asid va asid) s Q E.
Proof. intros HQ. unfold tlb_invalidate_va_asid. apply wp_bind, wp_modify, wp_bind, wp_modify, wp_bind, wp_modify, wp_modify. exact HQ. Qed.

(** A space after a step that changed only its pages. *)
Lemma space_step s s' b asid M M' bs cs live T' ks :
  space s b asid M bs cs live -> map c_addr ks = kmalloc_caches (k_kheap s) -> map c_size ks = bucket_sizes ->
  arm_tree s' (get64 (k_mem s) (b_hdr b + 16)) T' M' (ks ++ cs) (((b :: bs) ≫= extents) ++ live) ->
  framed s' T' -> same_bytes (((b :: bs) ≫= extents) ++ live) s s' -> same_frames s s' -> k_kheap s' = k_kheap s ->
  space s' b asid M' bs cs live.
Proof.
  intros [Hin Hbs Hsz Has _] Ha Hks Ht Hfd Hb [Hfb Hft] Hk. apply same_bytes_app in Hb as [Hb _].
  pose proof (proj1 (Forall_cons _ _ _) Hbs) as [Hb0 _].
  assert (Hg : forall n a, b_hdr b <= a -> a + Z.of_nat n <= b_hdr b + 32 -> getw n (k_mem s') a = getw n (k_mem s) a).
  { intros n a H1 H2. apply (same_bytes_getw _ _ _ (b_hdr b) 32 n a Hb); [|done|done].
    rewrite bind_cons, (root_extents s b Hb0 Hsz). left. }
  split; [by rewrite Hk|by eapply blocks_ok_same|done| |].
  - rewrite Hg by (unfold pt_asid; simpl; lia). done.
  - exists T', ks. rewrite Hk. rewrite (Hg 8%nat (b_hdr b + 16)) by (simpl; lia). done.
Qed.

Lemma heap_only_io s s' : heap_only s s' -> k_io s' = k_io s.
Proof. by intros (m & p & ->). Qed.

Section at_space.
Context (s : kstate) (b : block) (asid : Z) (M : gmap (list Z * Z) Z) (bs : list block) (cs : list cache_t)
  (live : list (Z * Z)) (Hsp : space s b asid M bs cs live).
Abbreviation area := (((b :: bs) ≫= extents) ++ live).
Abbreviation root := (b_hdr b + 16).

Lemma root_range : (b_hdr b, 32) ∈ (b :: bs) ≫= extents /\ 0 < b_hdr b /\ b_hdr b + 32 <= 2 ^ 64 /\ valid (b_hdr b) 32 = true.
Proof.
  destruct Hsp as [Hin Hbs Hsz _ (T & ks & _ & _ & _ & Ht)].
  pose proof (proj1 (Forall_cons _ _ _) Hbs) as [Hb0 _].
  assert (Hr : (b_hdr b, 32) ∈ (b :: bs) ≫= extents) by (rewrite bind_cons, (root_extents s b Hb0 Hsz); left).
  destruct (heap_owned _ _ _ (b_hdr b, 32) (ta_heap _ _ _ _ _ _ _ _ Ht)) as [Hp Htop Hv _ _].
  { apply elem_of_app. right. apply elem_of_app. by left. }
  by split_and!.
Qed.

(** The way to the entry of a page. *)
Lemma wp_page_slot {A} va (k : Z -> Machine.M A) (Q : A -> kstate -> Prop) (E : kstate -> Prop) :
  (forall T' ks g s1, map c_addr ks = kmalloc_caches (k_kheap s) -> map c_size ks = bucket_sizes ->
     T' !! (arm_page va).1 = Some g -> arm_tree s1 (get64 (k_mem s) root) T' M (ks ++ cs) area -> framed s1 T' ->
     same_bytes area s s1 -> heap_only s s1 -> same_frames s s1 -> wp (k (g + 8 * (arm_page va).2)) s1 Q E) ->
  (forall s1, space s1 b asid M bs cs live -> same_bytes area s s1 -> k_io s1 = k_io s ->
     tableless M (arm_page va) -> free_set s1 = ∅ /\ free_frames (k_pmm s1) <> 0 -> wp (k 0) s1 Q E) ->
  (forall s', tableless M (arm_page va) -> free_frames (k_pmm s') = 0 -> E s') ->
  wp (t <- load64 root ;; pte <- walk_create t va 0 ;; k pte) s Q E.
Proof.
  intros HQ HQ0 HE. destruct root_range as (_ & _ & _ & Hv). pose proof (sp_tree _ _ _ _ _ _ _ Hsp) as (T & ks & Ha & Hks & Hfd & Ht).
  apply wp_bind, wp_load; [solve_valid|]. apply wp_bind. change (walk_create (get64 (k_mem s) root) va 0) with (walk_create_at 3 (get64 (k_mem s) root) va).
  eapply (wp_walk_create 3 s); [exact Ht|apply (ta_root _ _ _ _ _ _ _ _ Ht)|done| | |].
  3:{ intros s' Hn. apply HE. eapply no_table; [exact Ht|exact Hn]. }
  - intros T' g s1 Hg Ht1 Hb1 Ho1 Hf1 Hfd1. eapply (HQ T' ks); [exact Ha|exact Hks|exact Hg|exact Ht1|by apply Hfd1|done..].
  - intros T' s1 Ht1 Hb1 Ho1 Hf1 Hfd1 Hn Hfs.
    apply HQ0; [|done|by apply heap_only_io|eapply no_table; [exact Ht|exact Hn]|done].
    eapply space_step; [exact Hsp|exact Ha|exact Hks|exact Ht1|by apply Hfd1|exact Hb1|exact Hf1|by apply heap_only_kheap].
Qed.

(** Writing an entry and invalidating its old translation. *)
Lemma wp_entry_done T' ks g s1 va e (Q : Z -> kstate -> Prop) E :
  map c_addr ks = kmalloc_caches (k_kheap s) -> map c_size ks = bucket_sizes ->
  T' !! (arm_page va).1 = Some g -> arm_tree s1 (get64 (k_mem s) root) T' M (ks ++ cs) area -> framed s1 T' ->
  same_bytes area s s1 -> heap_only s s1 -> same_frames s s1 -> u64 e ->
  (forall s2, space s2 b asid (set_page arm_format (arm_page va) e M) bs cs live -> same_bytes area s s2 ->
     k_io s2 = tlb_events va asid ++ k_io s -> Q 0 s2) ->
  wp (store64 (g + 8 * (arm_page va).2) e ;; a <- load 2 (root + pt_asid) ;; tlb_invalidate_va_asid va a ;; ret 0) s1 Q E.
Proof.
  intros Ha Hks Hg Ht Hfd Hb Ho Hf He HQ. destruct (arm_page_ok va) as [Hlen Hi]. destruct root_range as (Hr & _ & _ & Hv).
  apply wp_bind, wp_store; [by apply (slot_valid _ _ _ _ _ _ _ _ Ht _ _ _ Hg)|].
  destruct (tree_write arm_format 4 _ _ _ _ _ _ _ _ _ e Ht Hg Hlen Hi He) as [Ht2 Hb2]. set (s2 := set_mem s1 _) in *.
  assert (Hb12 : same_bytes area s s2) by (by eapply same_bytes_trans).
  apply wp_bind, wp_load; [unfold pt_asid; solve_valid|].
  assert (Hasid : getw 2 (k_mem s2) (root + pt_asid) = asid).
  { rewrite <- (sp_asid _ _ _ _ _ _ _ Hsp). apply same_bytes_app in Hb12 as [Hb12 _].
    apply (same_bytes_getw _ _ _ (b_hdr b) 32 2 _ Hb12 Hr); unfold pt_asid; simpl; lia. }
  rewrite Hasid. apply wp_bind, wp_tlb_invalidate, wp_ret.
  destruct (arm_page va) as [pth i] eqn:Hpg. cbn [fst snd] in *.
  assert (Hio : k_io s2 = k_io s) by (unfold s2; simpl; by apply heap_only_io).
  apply HQ; [|exact Hb12|unfold set_io; cbn [k_io]; by rewrite Hio].
  eapply space_step; [exact Hsp|exact Ha|exact Hks| |exact (framed_same s1 _ T' (conj eq_refl eq_refl) Hfd)|exact Hb12|exact Hf|].
  - eapply (tree_same _ _ s2); [reflexivity|reflexivity|exact Ht2].
  - unfold s2. simpl. by apply heap_only_kheap.
Qed.
End at_space.

Lemma area_blocks b bs live s s' :
  same_bytes (((b :: bs) ≫= extents) ++ live) s s' -> same_bytes ((bs ≫= extents) ++ live) s s'.
Proof. rewrite bind_cons, <- app_assoc, same_bytes_app. by intros [_ ?]. Qed.

Lemma wp_arch_map_page s b asid M bs cs live va phys prot (Q : Z -> kstate -> Prop) (E : kstate -> Prop) :
  space s b asid M bs cs live ->
  (forall s', same_bytes ((bs ≫= extents) ++ live) s s' ->
     space s' b asid (<[arm_page va := page_entry phys prot]> M) bs cs live -> k_io s' = tlb_events va asid ++ k_io s -> Q 0 s') ->
  (forall s', same_bytes ((bs ≫= extents) ++ live) s s' -> space s' b asid M bs cs live -> k_io s' = k_io s ->
     tableless M (arm_page va) -> free_set s' = ∅ /\ free_frames (k_pmm s') <> 0 -> Q (-1) s') ->
  (forall s', tableless M (arm_page va) -> free_frames (k_pmm s') = 0 -> E s') ->
  wp (arch_map_page (b_hdr b + 16) va phys prot) s Q E.
Proof.
  intros Hsp HQ HQ0 HE. destruct (page_entry_ok phys prot) as (Hu & Hpr & _). unfold arch_map_page.
  eapply (wp_page_slot _ _ _ _ _ _ _ Hsp); [| |exact HE].
  - intros T' ks g s1 Ha Hks Hg Ht Hfd Hb Ho Hf.
    destruct (tr_keys _ _ _ _ (ta_mem _ _ _ _ _ _ _ _ Ht) _ _ Hg) as (_ & _ & Hpos & _).
    destruct (arm_page_ok va) as [_ Hi]. unfold index in Hi.
    rewrite (proj2 (Z.eqb_neq _ 0)) by lia. fold (page_entry phys prot).
    eapply (wp_entry_done _ _ _ _ _ _ _ Hsp); [exact Ha|exact Hks|exact Hg|exact Ht|exact Hfd|exact Hb|exact Ho|exact Hf|exact Hu|].
    intros s2 Hsp2 Hb2 Hio. unfold set_page in Hsp2. rewrite Hpr in Hsp2. apply HQ; [by eapply area_blocks|done..].
  - intros s1 Hsp1 Hb1 Hio Hn Hfs. simpl. apply wp_ret. apply HQ0; [by eapply area_blocks|done..].
Qed.

(** C28: Mapping a page on arm64.  [arch_map_page] gives the page of [va] in the
    space of the root, and no other page, the entry for [phys] with the rights
    [prot], and invalidates the translation of [va] for the identifier of the
    space, by the sequence of barriers the code names.  Only when a table is
    missing, no page of which is mapped then, can it fail: it returns -1, the
    pages as before, when the bitmap is full and the allocator's counter is not
    0, and it panics when the counter is 0, as [pmm_alloc_frame] does.  When it
    returns the memory of everybody else has kept its contents. *)
Theorem arch_map_page_correct s b asid M bs cs live va phys prot :
  space s b asid M bs cs live ->
  wp (arch_map_page (b_hdr b + 16) va phys prot) s (fun r s' =>
      same_bytes ((bs ≫= extents) ++ live) s s' /\
      ((r = 0 /\ space s' b asid (<[arm_page va := page_entry phys prot]> M) bs cs live /\
        k_io s' = tlb_events va asid ++ k_io s) \/
       (r = -1 /\ space s' b asid M bs cs live /\ k_io s' = k_io s /\ tableless M (arm_page va) /\
        free_set s' = ∅ /\ free_frames (k_pmm s') <> 0)))
    (fun s' => tableless M (arm_page va) /\ free_frames (k_pmm s') = 0).
Proof.
  intros Hsp. eapply wp_arch_map_page; [exact Hsp| | |by split].
  - intros s' Hb Hsp' Hio. split; [exact Hb|]. by left.
  - intros s' Hb Hsp' Hio Hn [Hfs Hc]. split; [exact Hb|]. right. by split_and!.
Qed.

(** C9: Unmapping.  [arch_unmap_page] of a mapped page always returns 0, with
    its entry, and no other, removed and its translation invalidated.  Of a
    page that is not mapped it returns -1 and removes nothing, but the tables on
    the way to the page may have been made: it panics when one is missing and
    the allocator's counter is 0, and then only.  When it returns the memory of
    everybody else has kept its contents. *)
Theorem arch_unmap_page_correct s b asid M bs cs live va :
  space s b asid M bs cs live ->
  wp (arch_unmap_page (b_hdr b + 16) va) s (fun r s' =>
      same_bytes ((bs ≫= extents) ++ live) s s' /\
      match M !! arm_page va with
      | Some _ => r = 0 /\ space s' b asid (delete (arm_page va) M) bs cs live /\ k_io s' = tlb_events va asid ++ k_io s
      | None => r = -1 /\ space s' b asid M bs cs live /\ k_io s' = k_io s
      end)
    (fun s' => tableless M (arm_page va) /\ free_frames (k_pmm s') = 0).
Proof.
  intros Hsp. destruct (arm_page_ok va) as [_ Hi]. unfold arch_unmap_page.
  eapply (wp_page_slot _ _ _ _ _ _ _ Hsp); [| |by split].
  - intros T' ks g s1 Ha Hks Hg Ht Hfd Hb Ho Hf.
    destruct (tr_keys _ _ _ _ (ta_mem _ _ _ _ _ _ _ _ Ht) _ _ Hg) as (_ & _ & Hpos & _).
    pose proof (slot_valid _ _ _ _ _ _ _ _ Ht _ _ _ Hg Hi) as Hv. unfold index in Hi.
    rewrite (proj2 (Z.eqb_neq _ 0)) by lia. apply wp_bind, wp_load; [exact Hv|].
    rewrite (ta_pages _ _ _ _ _ _ _ _ Ht _ (arm_page_ok va)). unfold entry_of_page. rewrite Hg. cbn [present arm_format].
    destruct (Z.land _ PTE_VALID =? 0) eqn:He; cbn [negb].
    + apply wp_ret. split; [by eapply area_blocks|]. split; [done|]. split; [|by apply heap_only_io].
      eapply space_step; [exact Hsp|exact Ha|exact Hks|exact Ht|exact Hfd|exact Hb|exact Hf|by apply heap_only_kheap].
    + eapply (wp_entry_done _ _ _ _ _ _ _ Hsp); [exact Ha|exact Hks|exact Hg|exact Ht|exact Hfd|exact Hb|exact Ho|exact Hf|unfold u64; lia|].
      intros s2 Hsp2 Hb2 Hio. split; [by eapply area_blocks|]. by split_and!.
  - intros s1 Hsp1 Hb1 Hio Hn Hfs. simpl. apply wp_ret. split; [by eapply area_blocks|].
    specialize (Hn (arm_page va).2). rewrite <- surjective_pairing in Hn. rewrite Hn. by split_and!.
Qed.

(** ** Creating and destroying address spaces *)

Lemma kheap_rep_back s s' bs cs live ks :
  kheap_initialized (k_kheap s) = true -> Forall (block_ok s) bs -> map c_addr ks = kmalloc_caches (k_kheap s) -> map c_size ks = bucket_sizes ->
  heap s' (ks ++ cs) ((bs ≫= extents) ++ live) -> same_bytes (bs ≫= extents) s s' -> same_frames s s' ->
  k_kheap s' = k_kheap s -> kheap_rep s' bs cs live.
Proof.
  intros Hin Hbs Ha Hks Hh Hb [Hfb Hft] Hk. split; [by rewrite Hk|by eapply blocks_ok_same|].
  exists ks. by rewrite Hk.
Qed.

(** The two stores that fill in the root. *)
Lemma root_written s b bs fr asid live cs ks :
  let s' := set_mem s (putw 2 (put64 (k_mem s) (b_hdr b + 16) fr) (b_hdr b + 16 + pt_asid) asid) in
  block_ok s b -> b_size b = sizeof_pagetable_root -> u64 fr -> 0 <= asid < 2 ^ 16 ->
  heap s (ks ++ cs) (((b :: bs) ≫= extents) ++ live) ->
  heap s' (ks ++ cs) (((b :: bs) ≫= extents) ++ live) /\ same_bytes ((bs ≫= extents) ++ live) s s' /\
  block_ok s' b /\ get64 (k_mem s') (b_hdr b + 16) = fr /\ getw 2 (k_mem s') (b_hdr b + 16 + pt_asid) = asid.
Proof.
  intros s' Hb Hsz Hfr Has Hh. rewrite bind_cons, <- app_assoc, (root_extents s b Hb Hsz) in *. cbn [app] in Hh.
  assert (Hm : mods [(b_hdr b, 32)] (k_mem s) (k_mem s')).
  { eapply mods_step; [|eapply (mods_put_in 2 _ _ _ (b_hdr b) 32); [left|unfold pt_asid; lia|unfold pt_asid; simpl; lia]].
    eapply (mods_put_in 8 _ _ _ (b_hdr b) 32); [left|lia|simpl; lia]. }
  destruct (heap_write _ _ _ _ _ _ Hh Hm) as [Hh' Hk]. split; [exact Hh'|].
  split; [exact (heap_live_same _ _ _ _ _ Hh Hk)|].
  unfold s', pt_asid. cbn [set_mem k_mem]. split; [|split].
  - destruct Hb as [B1 B2 B3 B4 B5]. split; [| |done|done|done]; cbn [set_mem k_mem];
      rewrite (getw_putw_ne 2 8), (getw_putw_ne 8 8) by (simpl; lia); done.
  - rewrite (getw_putw_ne 2 8) by (simpl; lia). apply (getw_putw 8). exact Hfr.
  - apply (getw_putw 2). simpl. lia.
Qed.

(** What happens elsewhere in the heap leaves the free objects of a bucket. *)
Lemma bucket_list_kept s s' b ks cs live live' l :
  block_ok s b -> b_size b <= 2048 -> map c_addr ks = kmalloc_caches (k_kheap s) ->
  heap s (ks ++ cs) live -> heap s' (ks ++ cs) live' ->
  free_objects s (b_cache b) l -> free_objects s' (b_cache b) l.
Proof.
  intros Hb Hsz Ha Hh Hh' Hl. destruct (bk_small _ _ Hb Hsz) as [Hi _]. rewrite <- Ha, list_lookup_fmap in Hi.
  destruct (ks !! _) as [c|] eqn:Hc; [|done]. injection Hi as Hi. rewrite <- Hi in *. apply list_elem_of_lookup_2 in Hc.
  assert (Hin : c ∈ ks ++ cs) by (apply elem_of_app; by left).
  rewrite (free_objects_eq _ _ _ _ Hl (heap_free_objects _ _ _ _ Hh Hin)). exact (heap_free_objects _ _ _ _ Hh' Hin).
Qed.

Lemma bucket_list_there s b ks cs live :
  block_ok s b -> b_size b <= 2048 -> map c_addr ks = kmalloc_caches (k_kheap s) -> heap s (ks ++ cs) live ->
  exists l, free_objects s (b_cache b) l.
Proof.
  intros Hb Hsz Ha Hh. destruct (bk_small _ _ Hb Hsz) as [Hi _]. rewrite <- Ha, list_lookup_fmap in Hi.
  destruct (ks !! _) as [c|] eqn:Hc; [|done]. injection Hi as Hi. rewrite <- Hi. apply list_elem_of_lookup_2 in Hc.
  exists (c_free c). eapply heap_free_objects; [exact Hh|]. apply elem_of_app. by left.
Qed.

(** Giving back the block of a root. *)
Lemma wp_free_root s b bs cs live (Q : unit -> kstate -> Prop) E :
  kheap_rep s (b :: bs) cs live -> b_size b = sizeof_pagetable_root ->
  (forall s', kheap_rep s' bs cs live -> same_bytes ((bs ≫= extents) ++ live) s s' -> free_set s' = free_set s ->
     given_back s b s' -> Q tt s') ->
  wp (kfree_sized (b_hdr b + 16) sizeof_pagetable_root) s Q E.
Proof.
  intros Hr Hsz HQ. pose proof (kfree_sized_run _ _ _ _ _ Hr) as Hrun. rewrite Hsz in Hrun.
  unfold wp. rewrite Hrun. change (wp (kfree (b_hdr b + 16)) s Q E). eapply wp_kfree; [exact Hr|].
  intros s' (Hr' & Hb & _ & Hfs & Hback). apply HQ; [exact Hr'|exact Hb| |exact Hback]. rewrite Hfs. unfold frames_of. rewrite Hsz.
  cbn. by rewrite union_empty_r_L.
Qed.

(** A root filled in describes a space that maps nothing. *)
Lemma space_new s b asid fi bs cs live ks :
  let fr := frame_addr s fi in
  let s' := set_mem s (putw 2 (put64 (k_mem s) (b_hdr b + 16) fr) (b_hdr b + 16 + pt_asid) asid) in
  heap s (ks ++ cs) ((fr, 4096) :: ((b :: bs) ≫= extents) ++ live) -> Forall (block_ok s) (b :: bs) ->
  b_size b = sizeof_pagetable_root -> kheap_initialized (k_kheap s) = true ->
  map c_addr ks = kmalloc_caches (k_kheap s) -> map c_size ks = bucket_sizes ->
  0 <= fi < total_frames (k_pmm s) -> mem_phys_base (k_pmm s) + total_frames (k_pmm s) * 4096 <= 2 ^ 48 ->
  (forall i, 0 <= i < 4096 -> get8 (k_mem s) (fr + i) = 0) -> 0 <= asid < 2 ^ 16 ->
  space s' b asid ∅ bs cs live /\ same_bytes ((bs ≫= extents) ++ live) s s'.
Proof.
  intros fr s' Hh Hbs Hsz Hin Ha Hks Hfi Htop Hz Has.
  pose proof (proj1 (Forall_cons _ _ _) Hbs) as [Hb Hbs'].
  pose proof (hp_ok _ _ _ Hh) as Hok. pose proof (ok_base _ (ho_pmm _ Hok)) as Hbase.
  assert (Hfr : 0 < fr < 2 ^ 48 /\ (4096 | fr)).
  { pose proof (ow_pos _ _ _ (heap_owned _ _ _ (fr, 4096) Hh ltac:(left))) as Hpos. simpl in Hpos.
    unfold fr, frame_addr, PAGE_SIZE in *. split; [lia|].
    apply Z.divide_add_r; [apply (ho_align _ Hok)|by exists fi]. }
  assert (Hh1 : heap s (ks ++ cs) (((b :: bs) ≫= extents) ++ (fr, 4096) :: live)).
  { eapply heap_perm; [reflexivity| |exact Hh]. solve_perm. }
  destruct (root_written s b bs fr asid _ cs ks Hb Hsz ltac:(unfold u64; lia) Has Hh1) as (Hh' & Hsame & Hb' & Hroot & Hasid).
  fold s' in Hh', Hsame, Hb', Hroot, Hasid.
  apply same_bytes_app in Hsame as [Hse Hsl]. apply Forall_cons in Hsl as [Hsf Hsl].
  split; [|by apply same_bytes_app]. split; [done| |done|done|].
  - apply Forall_cons. split; [exact Hb'|]. by eapply (blocks_ok_same s).
  - exists {[ [] := fr ]}, ks. split; [done|]. split; [done|]. split.
    + intros p f Hp. apply lookup_singleton_Some in Hp as [_ <-]. by exists fi.
    + rewrite Hroot. refine (tree_new arm_format 4 s' fr _ _ _ _ (proj1 Hfr) (proj2 Hfr) Htop _); [|lia|].
      * eapply heap_perm; [reflexivity| |exact Hh']. solve_perm.
      * intros i Hi. rewrite <- (Hz i Hi). apply Hsf. simpl. lia.
Qed.

(** Filling in the root. *)
Lemma wp_fill_root s b asid fi bs cs live ks (Q : Z -> kstate -> Prop) E :
  let fr := frame_addr s fi in
  heap s (ks ++ cs) ((fr, 4096) :: ((b :: bs) ≫= extents) ++ live) -> Forall (block_ok s) (b :: bs) ->
  b_size b = sizeof_pagetable_root -> kheap_initialized (k_kheap s) = true ->
  map c_addr ks = kmalloc_caches (k_kheap s) -> map c_size ks = bucket_sizes ->
  0 <= fi < total_frames (k_pmm s) -> mem_phys_base (k_pmm s) + total_frames (k_pmm s) * 4096 <= 2 ^ 48 ->
  (forall i, 0 <= i < 4096 -> get8 (k_mem s) (fr + i) = 0) -> 0 <= asid < 2 ^ 16 ->
  (forall s', space s' b asid ∅ bs cs live -> same_bytes ((bs ≫= extents) ++ live) s s' -> Q (b_hdr b + 16) s') ->
  wp (store64 (b_hdr b + 16) fr ;; store 2 (b_hdr b + 16 + pt_asid) asid ;; ret (b_hdr b + 16)) s Q E.
Proof.
  intros fr Hh Hbs Hsz Hin Ha Hks Hfi Htop Hz Has HQ.
  assert (Hv : valid (b_hdr b) 32 = true).
  { assert (Hob : owned s (b_hdr b) 32); [|apply Hob].
    apply (heap_owned _ _ _ (b_hdr b, 32) Hh). right. apply elem_of_app. left.
    rewrite bind_cons, (root_extents s b); [left|by apply Forall_cons in Hbs as [? _]|done]. }
  apply wp_bind, wp_store; [solve_valid|]. apply wp_bind, wp_store; [unfold pt_asid; solve_valid|]. apply wp_ret.
  rewrite set_mem_mem. cbn [set_mem k_mem].
  destruct (space_new s b asid fi bs cs live ks Hh Hbs Hsz Hin Ha Hks Hfi Htop Hz Has) as [Hsp Hb]. by apply HQ.
Qed.

(** Giving back what a creation that fails has taken. *)
Lemma wp_undo_space s b fi bs cs live ks (Q : Z -> kstate -> Prop) E :
  let fr := frame_addr s fi in
  heap s (ks ++ cs) ((fr, 4096) :: ((b :: bs) ≫= extents) ++ live) -> Forall (block_ok s) (b :: bs) ->
  b_size b = sizeof_pagetable_root -> kheap_initialized (k_kheap s) = true ->
  map c_addr ks = kmalloc_caches (k_kheap s) -> map c_size ks = bucket_sizes ->
  0 <= fi < total_frames (k_pmm s) ->
  (forall s', kheap_rep s' bs cs live -> same_bytes ((bs ≫= extents) ++ live) s s' ->
     free_set s' = free_set s ∪ {[fi]} ->
     (forall l, free_objects s (b_cache b) l -> free_objects s' (b_cache b) (b_hdr b :: l)) -> Q 0 s') ->
  wp (free_table_page fr ;; kfree_sized (b_hdr b + 16) sizeof_pagetable_root ;; ret 0) s Q E.
Proof.
  intros fr Hh Hbs Hsz Hin Ha Hks Hfi HQ.
  apply wp_bind. eapply wp_free_table_page; [exact Hh|exact Hfi|]. intros s1 Hh1 Hb1 Ho1 Hf1 Hfs1.
  assert (Hr1 : kheap_rep s1 (b :: bs) cs live).
  { eapply (kheap_rep_back s); [exact Hin|exact Hbs|exact Ha|exact Hks|exact Hh1| |exact Hf1|by apply heap_only_kheap].
    by apply same_bytes_app in Hb1 as [? _]. }
  apply wp_bind. eapply wp_free_root; [exact Hr1|exact Hsz|]. intros s2 Hr2 Hb2 Hfs2 Hback. apply wp_ret.
  apply HQ; [exact Hr2| |by rewrite Hfs2|].
  2:{ assert (Hle : b_size b <= 2048) by (by rewrite Hsz). intros l Hl. apply (Hback Hle). eapply (bucket_list_kept s s1 b ks cs); [|exact Hle|exact Ha|exact Hh|exact Hh1|exact Hl].
      by apply Forall_cons in Hbs as [? _]. } rewrite bind_cons, <- app_assoc in Hb1. apply same_bytes_app in Hb1 as [_ Hb1].
  by eapply same_bytes_trans.
Qed.

(** Nothing that was taken between [s] and [s'] is missing: the bucket for roots
    has the free objects it had and every frame is as it was; or the bucket was
    empty, and has now all the objects of the one frame it got. *)
Definition undone (s s' : kstate) : Prop :=
  let c := bucket_of s sizeof_pagetable_root in
  exists l0 l, free_objects s c l0 /\ free_objects s' c l /\
    (l = l0 /\ free_set s' = free_set s \/
     l0 = [] /\ exists i, frame_free s i /\ free_set s' = free_set s ∖ {[i]} /\
       l = carve (frame_addr s i + sizeof_frame) 32 (Z.to_nat (per_frame 32))).

(** Why a creation panics: the frame allocator's counter is 0, or the bucket
    for roots is empty and has no frame to grow by. *)
Definition create_panics (s s' : kstate) : Prop :=
  free_frames (k_pmm s') = 0 \/ free_objects s (bucket_of s sizeof_pagetable_root) [] /\ exhausted s'.

Lemma undo_taken s s1 b s' :
  bucket_of s sizeof_pagetable_root = b_cache b ->
  taken_from s (b_cache b) 32 (b_hdr b) s1 -> free_set s' = free_set s1 ->
  (forall l, free_objects s1 (b_cache b) l -> free_objects s' (b_cache b) (b_hdr b :: l)) -> undone s s'.
Proof.
  intros Hc (l0 & l & Hl0 & Hsv & Hl) Hfs Hback. unfold undone. rewrite Hc. exists l0, (b_hdr b :: l).
  split; [exact Hl0|]. split; [by apply Hback|]. rewrite Hfs.
  destruct Hsv as [[-> Hfs1]|(-> & i & Hi & Hcv & Hfs1)]; [by left|]. right. split; [done|]. by exists i.
Qed.

Lemma free_set_zeroed s fi m live cs :
  heap s cs live -> frame_free s fi -> zeroed s fi m -> free_set (set_mem (taken s fi) m) = free_set (taken s fi).
Proof.
  intros Hh Hf [Hm _]. destruct (heap_take _ _ _ _ Hh Hf) as [Hh1 _].
  apply (free_set_set_mem _ _ _ Hm). constructor; [|constructor]. apply apart_sym.
  apply (ow_bitmap _ _ _ (heap_owned _ _ _ (frame_addr s fi, 4096) Hh1 ltac:(left))).
Qed.

Lemma wp_pagetable_create s bs cs live A (Q : Z -> kstate -> Prop) :
  kheap_rep s bs cs (statics ++ live) -> asids s A ->
  mem_phys_base (k_pmm s) + total_frames (k_pmm s) * 4096 <= 2 ^ 48 ->
  (forall s', same_bytes ((bs ≫= extents) ++ live) s s' -> kheap_rep s' bs cs (statics ++ live) -> asids s' A ->
     undone s s' -> (free_set s' = ∅ /\ free_frames (k_pmm s') <> 0 \/ forall i, 1 <= i < 256 -> i ∈ A) -> Q 0 s') ->
  (forall b asid s', same_bytes ((bs ≫= extents) ++ live) s s' -> space s' b asid ∅ bs cs (statics ++ live) ->
     1 <= asid < 256 -> asid ∉ A -> (forall i, 1 <= i < asid -> i ∈ A) -> asids s' ({[asid]} ∪ A) -> Q (b_hdr b + 16) s') ->
  wp (arch_pagetable_create g_asid_used g_asid_lock) s Q (create_panics s).
Proof.
  intros Hr HA Htop HQ0 HQ. unfold arch_pagetable_create, sizeof_pagetable_root. apply wp_bind.
  eapply wp_kmalloc_small; [exact Hr|lia| |by intros s' He1 _ He2; right]. intros hdr c s1 Hhdr Hr1 Hb1 Ho1 Hf1 Htk.
  change (16 * 2 ^ get_bucket_index 16 + 16) with 32 in Htk.
  assert (Hex : exists b, b_size b = sizeof_pagetable_root /\ b_hdr b = hdr /\ b_cache b = c /\ b = mkBlock hdr 16 c) by (by exists (mkBlock hdr 16 c)).
  destruct Hex as (b & Hsz & Hbh & Hbc & Heq). rewrite <- Heq, <- Hbh in *. rewrite <- Hbc in Htk. clear Heq Hbh.
  assert (Hbk1 : block_ok s1 b) by (by eapply rep_block).
  assert (Hca : bucket_of s sizeof_pagetable_root = b_cache b).
  { unfold bucket_of. rewrite <- (heap_only_kheap _ _ Ho1). apply nth_lookup_Some.
    destruct (bk_small _ _ Hbk1) as [Hi _]; rewrite Hsz in *; [done|exact Hi]. }
  pose proof (fun s' => undo_taken s s1 b s' Hca Htk) as Hundo. rewrite (proj2 (Z.eqb_neq _ 0)) by lia.
  pose proof Hb1 as Hb1'. apply same_bytes_app in Hb1' as [Hb1e Hb1l]. apply same_bytes_app in Hb1l as [Hb1s Hb1l].
  pose proof (asids_same _ _ _ _ _ Hb1s HA) as HA1. pose proof Hr1 as [_ Hbs1 (ks & Ha & Hks & Hh1)].
  set (L := ((b :: bs) ≫= extents) ++ statics ++ live) in *.
  apply wp_bind. eapply wp_alloc_table_page; [exact Hh1| | |by intros s' Hc; left].
  2:{ intros [Hfs Hcnt]. simpl. apply wp_bind. eapply wp_free_root; [exact Hr1|exact Hsz|]. intros s2 Hr2 Hb2 Hfs2 Hback. apply wp_ret.
      apply same_bytes_app in Hb2 as [Hb2e Hb2l]. apply same_bytes_app in Hb2l as [Hb2s Hb2l].
      destruct Hback as [Hpm Hback]; [by rewrite Hsz|].
      apply HQ0; [apply same_bytes_app; split; by eapply same_bytes_trans|exact Hr2|by eapply asids_same|by apply Hundo|].
      left. by rewrite Hfs2, Hpm. }
  intros fi m Hff Hz Hfr0. rewrite (proj2 (Z.eqb_neq _ 0)) by lia. set (fr := frame_addr s1 fi) in *.
  destruct (heap_zeroed s1 _ _ fi m Hh1 Hff Hz) as (Hh2 & Hb2 & _ & Hhi & Hal). fold fr in Hh2, Hhi, Hal.
  set (s2 := set_mem (taken s1 fi) m) in *.
  set (base := (bs ≫= extents) ++ live) in *.
  assert (Hb12 : same_bytes statics s1 s2 /\ same_bytes base s1 s2).
  { unfold L in Hb2. apply same_bytes_app in Hb2 as [Hb2e Hb2l]. apply same_bytes_app in Hb2l as [Hb2s Hb2l].
    rewrite bind_cons in Hb2e. apply same_bytes_app in Hb2e as [_ Hb2e]. split; [done|by apply same_bytes_app]. }
  destruct Hb12 as [Hb2s Hb2b]. assert (Hb1b : same_bytes base s s1) by (by apply same_bytes_app).
  pose proof (asids_same _ _ _ _ _ Hb2s HA1) as HA2.
  set (R := (fr, 4096) :: ((b :: bs) ≫= extents) ++ live).
  assert (Hh2' : heap s2 (ks ++ cs) (statics ++ R)).
  { eapply heap_perm; [reflexivity| |exact Hh2]. unfold R, L. solve_perm. }
  assert (Hz2 : forall i, 0 <= i < 4096 -> get8 (k_mem s2) (fr + i) = 0) by (apply Hz).
  assert (Hfi : 0 <= fi < total_frames (k_pmm s1)) by apply Hff.
  (* what the next step leaves alone *)
  assert (Hnext : forall s3, heap s3 (ks ++ cs) (statics ++ R) -> same_bytes R s2 s3 -> (exists m3, s3 = set_mem s2 m3) ->
    Forall (block_ok s3) (b :: bs) /\ heap s3 (ks ++ cs) ((fr, 4096) :: L) /\ same_bytes base s s3 /\
    forall i, 0 <= i < 4096 -> get8 (k_mem s3) (fr + i) = 0).
  { intros s3 Hh3 Hb3 [m3 ->]. apply Forall_cons in Hb3 as [Hbf Hb3]. pose proof Hb3 as Hb3b. apply area_blocks in Hb3b.
    apply same_bytes_app in Hb3 as [Hb3e _]. unfold L in Hb2. apply same_bytes_app in Hb2 as [Hb2e _].
    split; [|split; [|split]].
    - eapply (blocks_ok_same s1); [by eapply same_bytes_trans|done..].
    - eapply heap_perm; [reflexivity| |exact Hh3]. unfold R, L. solve_perm.
    - eapply same_bytes_trans; [exact Hb1b|]. by eapply same_bytes_trans.
    - intros i Hi. rewrite <- (Hz2 i Hi). apply Hbf. simpl. lia. }
  pose proof Hr1 as [Hin1 _ _]. destruct Hf1 as [Hf1b Hf1t].
  apply wp_bind. eapply wp_asid_alloc; [exact Hh2'|exact HA2| |].
  - intros i s3 Hi HiA Hleast HA3 Hh3 Hb3 Hm3. destruct (Hnext s3 Hh3 Hb3 Hm3) as (Hbs3 & Hh3' & Hbb3 & Hz3).
    destruct Hm3 as [m3 ->]. rewrite (proj2 (Z.ltb_ge _ 0)) by lia.
    eapply (wp_fill_root (set_mem s2 m3) b i fi);
      [exact Hh3'|exact Hbs3|exact Hsz|exact Hin1|exact Ha|exact Hks|exact Hfi|simpl; lia|exact Hz3|lia|].
    intros s4 Hsp Hbs4. apply same_bytes_app in Hbs4 as [Hb4e Hb4l]. apply same_bytes_app in Hb4l as [Hb4s Hb4l].
    apply (HQ b i); [|exact Hsp|lia|exact HiA|exact Hleast|eapply asids_same; [exact Hb4s|exact HA3]].
    eapply same_bytes_trans; [exact Hbb3|]. by apply same_bytes_app.
  - intros s3 Hall HA3 Hh3 Hb3 (m3 & -> & Hm3). destruct (Hnext _ Hh3 Hb3 ltac:(by eexists)) as (Hbs3 & Hh3' & Hbb3 & _). simpl.
    assert (Hfs3 : free_set (set_mem s2 m3) = free_set s1 ∖ {[fi]}).
    { rewrite (free_set_set_mem s2 m3 statics Hm3); [unfold s2; by rewrite <- (free_set_taken s1 fi Hff), (free_set_zeroed s1 fi m _ _ Hh1 Hff Hz)|].
      apply Forall_forall. intros [x n] Hin'. apply apart_sym.
      apply (ow_bitmap _ _ _ (heap_owned _ _ _ (x, n) Hh2' ltac:(apply elem_of_app; by left))). }
    eapply (wp_undo_space (set_mem s2 m3) b fi);
      [exact Hh3'|exact Hbs3|exact Hsz|exact Hin1|exact Ha|exact Hks|exact Hfi|].
    intros s4 Hr4 Hb4 Hfs4 Hback. apply same_bytes_app in Hb4 as [Hb4e Hb4l]. apply same_bytes_app in Hb4l as [Hb4s Hb4l].
    apply HQ0; [|exact Hr4|by eapply asids_same| |by right].
    2:{ apply Hundo.
        - rewrite Hfs4, Hfs3, union_comm_L. symmetry. apply union_difference_L. by apply singleton_subseteq_l, elem_of_free_set.
        - intros l Hl. apply Hback. eapply (bucket_list_kept s1 _ b ks cs); [exact Hbk1|by rewrite Hsz|exact Ha|exact Hh1|exact Hh3'|exact Hl]. }
    eapply same_bytes_trans; [exact Hbb3|]. by apply same_bytes_app.
Qed.

(** C29: A new address space.  [arch_pagetable_create] returns a root that maps
    nothing, in memory of its own, with the least identifier from 1 up that no
    space uses; or 0 when all identifiers are taken or no frame is left, and then
    it has given back all it took: the identifiers in use, the free frames and
    the free objects of the root's bucket are what they were, but that a bucket
    that was empty keeps the frame it grew by, with all its objects free, the
    root among them.  It panics only when the frame allocator's counter is 0, or
    when that bucket is empty and there is no frame for it. *)
Theorem arch_pagetable_create_correct s bs cs live A :
  kheap_rep s bs cs (statics ++ live) -> asids s A ->
  mem_phys_base (k_pmm s) + total_frames (k_pmm s) * 4096 <= 2 ^ 48 ->
  wp (arch_pagetable_create g_asid_used g_asid_lock) s (fun r s' =>
      same_bytes ((bs ≫= extents) ++ live) s s' /\
      ((r = 0 /\ kheap_rep s' bs cs (statics ++ live) /\ asids s' A /\ undone s s' /\
        (free_set s' = ∅ /\ free_frames (k_pmm s') <> 0 \/ forall i, 1 <= i < 256 -> i ∈ A)) \/
       exists b asid, r = b_hdr b + 16 /\ space s' b asid ∅ bs cs (statics ++ live) /\
         1 <= asid < 256 /\ asid ∉ A /\ (forall i, 1 <= i < asid -> i ∈ A) /\ asids s' ({[asid]} ∪ A)))
    (create_panics s).
Proof.
  intros Hr HA Htop. eapply wp_pagetable_create; [exact Hr|exact HA|exact Htop| |].
  - intros s' Hb Hr' HA' Hun Hwhy. split; [exact Hb|]. left. by split_and!.
  - intros b asid s' Hb Hsp Hi HiA Hleast HA'. split; [exact Hb|]. right. exists b, asid.
    exact (conj eq_refl (conj Hsp (conj Hi (conj HiA (conj Hleast HA'))))).
Qed.

(** C26: Destroying an address space.  [arch_pagetable_destroy] gives back the
    root, which its cache hands out next, every table of the space at every
    level, whose frames are free afterwards, and the identifier; it takes
    nothing, and the memory of everybody else keeps its contents. *)
Theorem arch_pagetable_destroy_correct s b asid M bs cs live A :
  space s b asid M bs cs (statics ++ live) -> asids s A -> asid < 256 ->
  safe (arch_pagetable_destroy g_asid_used g_asid_lock (b_hdr b + 16)) s (fun _ s' =>
      kheap_rep s' bs cs (statics ++ live) /\ asids s' (A ∖ {[asid]}) /\
      same_bytes ((bs ≫= extents) ++ live) s s' /\ free_set s ⊆ free_set s' /\
      (exists l, free_objects s (b_cache b) l /\ free_objects s' (b_cache b) (b_hdr b :: l)) /\
      exists T ks, arm_tree s (get64 (k_mem s) (b_hdr b + 16)) T M (ks ++ cs) (((b :: bs) ≫= extents) ++ statics ++ live) /\
        tables_freed s s' T).
Proof.
  intros Hsp HA Has. destruct (root_range _ _ _ _ _ _ _ Hsp) as (Hr & Hpos & _ & Hv).
  pose proof Hsp as [Hin Hbs Hsz Hasid (T & ks & Ha & Hks & Hfd & Ht)].
  set (L := ((b :: bs) ≫= extents) ++ statics ++ live) in *.
  unfold arch_pagetable_destroy. apply wp_bind, wp_load; [solve_valid|].
  set (l0 := get64 (k_mem s) (b_hdr b + 16)) in *. apply wp_bind. change (free_table_recursive l0 0) with (free_table_at 3 l0).
  pose proof (ta_mem _ _ _ _ _ _ _ _ Ht) as Hm. pose proof (subtree_root arm_format 4 _ _ Hm) as Hroot.
  eapply (wp_free_table _ _ _ Hm 3 s [] l0 L); [apply (ta_root _ _ _ _ _ _ _ _ Ht)|done|exact Hfd| | |].
  { by intros q g i _ _. } { rewrite Hroot. apply Ht. }
  intros s1 (Hh1 & Hb1 & Ho1 & Hf1 & Hsub1 & Hfr1). rewrite Hroot in Hfr1.
  pose proof (heap_only_kheap _ _ Ho1) as Hk1.
  pose proof Hb1 as Hb1'. unfold L in Hb1'. apply same_bytes_app in Hb1' as [Hb1e Hb1l]. apply same_bytes_app in Hb1l as [Hb1s Hb1l].
  apply wp_bind, wp_load; [unfold pt_asid; solve_valid|].
  assert (Hasid1 : getw 2 (k_mem s1) (b_hdr b + 16 + pt_asid) = asid).
  { rewrite <- Hasid. apply (same_bytes_getw _ _ _ (b_hdr b) 32 2 _ Hb1e Hr); unfold pt_asid; simpl; lia. }
  rewrite Hasid1. assert (Has0 : 0 <= asid) by (rewrite <- Hasid; apply getw_range).
  pose proof (asids_same _ _ _ _ _ Hb1s HA) as HA1.
  assert (Hh1' : heap s1 (ks ++ cs) (statics ++ ((b :: bs) ≫= extents) ++ live)).
  { eapply heap_perm; [reflexivity| |exact Hh1]. unfold L. solve_perm. }
  apply wp_bind. eapply wp_asid_free; [exact Hh1'|exact HA1|lia|]. intros s2 HA2 Hh2 Hb2 Hm2.
  assert (Hk2 : k_kheap s2 = k_kheap s1 /\ same_frames s1 s2 /\ free_set s1 ⊆ free_set s2).
  { destruct Hm2 as (m2 & -> & Hm2). split; [done|]. split; [done|].
    rewrite (free_set_set_mem s1 m2 statics Hm2); [done|]. apply Forall_forall. intros [x n] Hin'. apply apart_sym.
    apply (ow_bitmap _ _ _ (heap_owned _ _ _ (x, n) Hh1' ltac:(apply elem_of_app; by left))). }
  destruct Hk2 as (Hk2 & Hf2 & Hsub2).
  assert (Hr2 : kheap_rep s2 (b :: bs) cs (statics ++ live)).
  { eapply (kheap_rep_back s); [exact Hin|exact Hbs|exact Ha|exact Hks| | |by eapply same_frames_trans|congruence].
    - eapply heap_perm; [reflexivity| |exact Hh2]. solve_perm.
    - apply same_bytes_app in Hb2 as [Hb2e _]. by eapply same_bytes_trans. }
  eapply wp_free_root; [exact Hr2|exact Hsz|]. intros s3 Hr3 Hb3 Hfs3 Hback.
  assert (Hroot3 : exists l, free_objects s (b_cache b) l /\ free_objects s3 (b_cache b) (b_hdr b :: l)).
  { assert (Hle : b_size b <= 2048) by (by rewrite Hsz). pose proof (proj1 (proj1 (Forall_cons _ _ _) Hbs)) as Hbk.
    destruct (bucket_list_there s b ks cs _ Hbk Hle Ha (ta_heap _ _ _ _ _ _ _ _ Ht)) as [l Hl]. exists l. split; [exact Hl|].
    apply (Hback Hle). exact (bucket_list_kept s s2 b ks cs _ _ l Hbk Hle Ha (ta_heap _ _ _ _ _ _ _ _ Ht) Hh2 Hl). }
  apply same_bytes_app in Hb3 as [Hb3e Hb3l]. apply same_bytes_app in Hb3l as [Hb3s Hb3l].
  apply area_blocks in Hb2. apply same_bytes_app in Hb2 as [Hb2e Hb2l].
  rewrite bind_cons in Hb1e. apply same_bytes_app in Hb1e as [_ Hb1e].
  split; [exact Hr3|]. split; [by eapply asids_same|]. split.
  { apply same_bytes_app. split; (eapply same_bytes_trans; [|eassumption]); by eapply same_bytes_trans. }
  rewrite Hfs3. split; [set_solver|]. split; [exact Hroot3|]. exists T, ks. split; [exact Ht|]. intros q i Hq Hi. rewrite Hfs3. apply Hsub2. by apply (Hfr1 q).
Qed.
End spaces.

(** ** Witnesses *)

#[local] Existing Instances arm64_virt arm64_console.

(** The statics, and the kernel heap of the demonstration machine next to
    them. *)
Definition asid_used_demo : Z := 0x40091000.
Definition asid_lock_demo : Z := 0x40091100.
Abbreviation statics_demo := (statics asid_used_demo asid_lock_demo).
Abbreviation asids_demo := (asids asid_used_demo asid_lock_demo).

Lemma pmm_demo_statics : slab_state pmm_demo [] [] (statics_demo ++ []).
Proof. split; [done|]. apply heapb_ok. vm_compute. reflexivity. Qed.

Lemma kheap_demo_statics : exists meta, kheap_rep kheap_demo [] [mkCache 0x40090000 32 meta] (statics_demo ++ []).
Proof.
  unfold kheap_demo. apply (os_final kheap_init pmm_demo tt
    (fun s => exists meta, kheap_rep s [] [mkCache 0x40090000 32 meta] (statics_demo ++ [])) (fun _ => True));
    [|vm_compute; reflexivity].
  apply (wp_kheap_init _ [] (statics_demo ++ []) _ _ pmm_demo_statics eq_refl eq_refl); [|done].
  intros s' meta Hr _ _ _ _. exists meta. exact (kheap_rep_io _ _ _ _ _ Hr).
Qed.

Definition asidsb (s : kstate) (used : list Z) : bool :=
  (get32 (k_mem s) asid_lock_demo =? 0) &&
  forallb (fun i => Bool.eqb (get8 (k_mem s) (asid_used_demo + i) =? 0) (bool_decide (i ∉ used))) (seqZ 0 256).

Lemma asidsb_ok s used : asidsb s used = true -> asids_demo s (list_to_set used).
Proof.
  unfold asidsb. rewrite andb_true_iff, Z.eqb_eq. intros [Hl Hu]. split; [exact Hl|]. intros i Hi.
  rewrite forallb_forall in Hu. specialize (Hu i). rewrite eqb_true_iff in Hu.
  rewrite <- Z.eqb_eq, Hu, bool_decide_eq_true, elem_of_list_to_set; [done|].
  apply list_elem_of_In, elem_of_seqZ. lia.
Qed.

Lemma kheap_demo_asids : asids_demo kheap_demo ∅.
Proof. apply (asidsb_ok kheap_demo []). vm_compute. reflexivity. Qed.

Lemma kheap_demo_top : mem_phys_base (k_pmm kheap_demo) + total_frames (k_pmm kheap_demo) * 4096 <= 2 ^ 48.
Proof. vm_compute. discriminate. Qed.

Lemma space_io s t b asid M bs cs live : space s b asid M bs cs live -> space (set_io s t) b asid M bs cs live.
Proof.
  intros Hsp. pose proof (sp_tree _ _ _ _ _ _ _ Hsp) as (T & ks & Ha & Hks & Hfd & Ht).
  eapply space_step; [exact Hsp|exact Ha|exact Hks|by eapply (tree_same _ _ s)|exact Hfd|apply (same_bytes_refl _ s)|done|done].
Qed.

(** A machine with an address space. *)
Definition space_demo : kstate := final (arch_pagetable_create asid_used_demo asid_lock_demo) kheap_demo.

Lemma least_demo (asid : Z) : 1 <= asid -> (forall i, 1 <= i < asid -> i ∈ (∅ : gset Z)) -> asid = 1.
Proof.
  intros Hi Hleast. destruct (decide (asid = 1)) as [|Hne]; [done|]. specialize (Hleast 1 ltac:(lia)). by apply elem_of_empty in Hleast.
Qed.

Lemma space_demo_space :
  exists b meta, b_hdr b + 16 = 0x40105FE0 /\ space space_demo b 1 ∅ [] [mkCache 0x40090000 32 meta] (statics_demo ++ []).
Proof.
  destruct kheap_demo_statics as [meta Hr]. unfold space_demo.
  apply (os_final _ kheap_demo 0x40105FE0 (fun s => exists b meta, b_hdr b + 16 = 0x40105FE0 /\
    space s b 1 ∅ [] [mkCache 0x40090000 32 meta] (statics_demo ++ [])) (create_panics kheap_demo)); [|vm_compute; reflexivity].
  apply (wp_pagetable_create _ _ kheap_demo [] _ [] ∅ _ Hr kheap_demo_asids kheap_demo_top); [done|].
  intros b asid s' _ Hsp Hi _ Hleast _ Hb. rewrite (least_demo asid (proj1 Hi) Hleast) in Hsp.
  exists b, meta. split; [exact Hb|]. by apply space_io.
Qed.

Lemma arch_pagetable_create_correct_witness :
  exists s' b meta, arch_pagetable_create asid_used_demo asid_lock_demo kheap_demo = Ok 0x40105FE0 s' /\
    b_hdr b + 16 = 0x40105FE0 /\ space s' b 1 ∅ [] [mkCache 0x40090000 32 meta] (statics_demo ++ []).
Proof.
  destruct kheap_demo_statics as [meta Hr].
  destruct (wp_result _ _ _ _ 0x40105FE0
    (arch_pagetable_create_correct asid_used_demo asid_lock_demo kheap_demo [] _ [] ∅ Hr kheap_demo_asids kheap_demo_top))
    as (s' & Hrun & _ & [(Hz & _)|(b & asid & Hb & Hsp & Hi & _ & Hleast & _)]); [vm_compute; reflexivity|discriminate Hz|].
  rewrite (least_demo asid (proj1 Hi) Hleast) in Hsp. exists s', b, meta. exact (conj Hrun (conj (eq_sym Hb) Hsp)).
Defined.

Lemma space_demo_asids : asids_demo space_demo {[1]}.
Proof.
  pose proof (asidsb_ok space_demo [1]) as Ha. cbn [list_to_set] in Ha. rewrite (right_id_L ∅ (∪)) in Ha.
  apply Ha. vm_compute. reflexivity.
Qed.

Lemma arch_map_page_correct_witness :
  exists s' b meta, arch_map_page 0x40105FE0 0x12345000 0x40200000 PROT_READ space_demo = Ok 0 s' /\
    space s' b 1 {[arm_page 0x12345000 := page_entry 0x40200000 PROT_READ]} [] [mkCache 0x40090000 32 meta] (statics_demo ++ []).
Proof.
  destruct space_demo_space as (b & meta & Hb & Hsp).
  pose proof (arch_map_page_correct space_demo b 1 ∅ [] _ _ 0x12345000 0x40200000 PROT_READ Hsp) as Hw. rewrite Hb in Hw.
  destruct (wp_result _ _ _ _ 0 Hw) as (s' & Hrun & _ & [(_ & Hsp' & _)|(Hr & _)]); [vm_compute; reflexivity| |discriminate Hr].
  exists s', b, meta. exact (conj Hrun Hsp').
Defined.

(** The same with a page mapped. *)
Definition mapped_demo : kstate := final (arch_map_page 0x40105FE0 0x12345000 0x40200000 PROT_READ) space_demo.
Definition pages_demo : gmap (list Z * Z) Z := {[arm_page 0x12345000 := page_entry 0x40200000 PROT_READ]}.

Lemma mapped_demo_space :
  exists b meta, b_hdr b + 16 = 0x40105FE0 /\ space mapped_demo b 1 pages_demo [] [mkCache 0x40090000 32 meta] (statics_demo ++ []).
Proof.
  destruct space_demo_space as (b & meta & Hb & Hsp). exists b, meta. split; [exact Hb|]. unfold mapped_demo.
  apply (os_final _ space_demo 0 (fun s => space s b 1 pages_demo [] [mkCache 0x40090000 32 meta] (statics_demo ++ []))
    (fun _ => True)); [|vm_compute; reflexivity].
  rewrite <- Hb. apply (wp_arch_map_page _ b 1 ∅ [] _ _ 0x12345000 0x40200000 PROT_READ _ _ Hsp).
  - intros s' _ Hsp' _ _. by apply space_io.
  - intros s' _ _ _ _ _ Hz. discriminate Hz.
  - intros s' _ _. exact I.
Qed.

(** The page is unmapped; another one is not mapped. *)
Lemma arch_unmap_page_correct_witness :
  exists b meta,
    (exists s', arch_unmap_page 0x40105FE0 0x12345000 mapped_demo = Ok 0 s' /\
       space s' b 1 ∅ [] [mkCache 0x40090000 32 meta] (statics_demo ++ []) /\
       k_io s' = tlb_events 0x12345000 1 ++ k_io mapped_demo) /\
    exists s', arch_unmap_page 0x40105FE0 0x7000000000 mapped_demo = Ok (-1) s' /\
       space s' b 1 pages_demo [] [mkCache 0x40090000 32 meta] (statics_demo ++ []).
Proof.
  destruct mapped_demo_space as (b & meta & Hb & Hsp). exists b, meta.
  pose proof (fun va => arch_unmap_page_correct mapped_demo b 1 pages_demo [] _ _ va Hsp) as Hw. rewrite Hb in Hw. split.
  - assert (Hl : pages_demo !! arm_page 0x12345000 = Some (page_entry 0x40200000 PROT_READ)) by (vm_compute; reflexivity).
    assert (Hd : delete (arm_page 0x12345000) pages_demo = ∅) by (vm_compute; reflexivity).
    pose proof (Hw 0x12345000) as Hw1. rewrite Hl, Hd in Hw1.
    destruct (wp_result _ _ _ _ 0 Hw1) as (s' & Hrun & _ & _ & Hsp' & Hio); [vm_compute; reflexivity|].
    exists s'. exact (conj Hrun (conj Hsp' Hio)).
  - assert (Hl : pages_demo !! arm_page 0x7000000000 = None) by (vm_compute; reflexivity).
    pose proof (Hw 0x7000000000) as Hw1. rewrite Hl in Hw1.
    destruct (wp_result _ _ _ _ (-1) Hw1) as (s' & Hrun & _ & _ & Hsp' & _); [vm_compute; reflexivity|].
    exists s'. exact (conj Hrun Hsp').
Defined.

Lemma arch_pagetable_destroy_correct_witness :
  exists s' meta, arch_pagetable_destroy asid_used_demo asid_lock_demo 0x40105FE0 space_demo = Ok tt s' /\
    kheap_rep s' [] [mkCache 0x40090000 32 meta] (statics_demo ++ []) /\ asids_demo s' ({[1]} ∖ {[1]}).
Proof.
  destruct space_demo_space as (b & meta & Hb & Hsp).
  pose proof (arch_pagetable_destroy_correct asid_used_demo asid_lock_demo space_demo b 1 ∅ [] _ [] _ Hsp space_demo_asids ltac:(lia)) as Hw.
  rewrite Hb in Hw. destruct (wp_result _ _ _ _ tt Hw) as (s' & Hrun & Hr & Ha & _); [vm_compute; reflexivity|].
  exists s', meta. exact (conj Hrun (conj Hr Ha)).
Defined.
