(* ===== verification/Cpu.v ===== *)
(** * The cpu: arch/{arm64,riscv}/{cpu,regswrp}.c, arch/riscv/opensbi.c, include/boot/cpu.hpp

    System registers, the instructions the kernel runs for their effect on the
    machine, and the calls to the firmware.  What a register holds and what the
    firmware answers is the platform's [reg_read]. *)

From Stdlib Require Import String.
From S2P Require Import Prelude Machine Logic Console Boards Str.

#[local] Open Scope string_scope.
#[local] Open Scope list_scope.
#[local] Open Scope Z_scope.

(** ** include/boot/cpu.hpp *)

Definition EXC_TYPE_FIQ : Z := 3.
Definition EXC_TYPE_SERR : Z := 4.
Definition EXC_TYPE_SSI : Z := 1.
Definition EXC_TYPE_STI : Z := 5.

Definition PRIV_SUPERVISOR : Z := 1.

Definition SCAUSE_IS_IRQ (scause : Z) : bool := negb (Z.shiftr (Z.land scause 0x8000000000000000) 63 =? 0).

(** The saved registers, in the order of the fields of the two structs; each
    takes eight bytes. *)
Definition arm64_registers_t : list string :=
  ["x0"; "x1"; "x2"; "x3"; "x4"; "x5"; "x6"; "x7"; "x8"; "x9"; "x10"; "x11"; "x12"; "x13"; "x14"; "x15";
   "x16"; "x17"; "x18"; "x19"; "x20"; "x21"; "x22"; "x23"; "x24"; "x25"; "x26"; "x27"; "x28"; "x29"; "lr"; "sp"].

Definition riscv_registers_t : list string :=
  ["zero"; "ra"; "sp"; "gp"; "tp"; "t0"; "t1"; "t2"; "s0"; "s1"; "a0"; "a1"; "a2"; "a3"; "a4"; "a5";
   "a6"; "a7"; "s2"; "s3"; "s4"; "s5"; "s6"; "s7"; "s8"; "s9"; "s10"; "s11"; "t3"; "t4"; "t5"; "t6"].

(** [riscv_hart_info_t]: [stack], then [hartid]. *)
Definition hi_stack : Z := 0.
Definition hi_hartid : Z := 8.
Definition sizeof_hart_info : Z := 16.

(** A loop that is left by nothing. *)
Definition forever {A} (c : M unit) : M A := while (fun _ : unit => c ;; ret (inl tt)) tt.

Section cpu.
Context `{Platform}.

(** The fields of the struct at [regs], as arguments of a log line. *)
Fixpoint saved_registers (fields : list string) (regs : Z) : M (list varg) :=
  match fields with
  | [] => ret []
  | _ :: rest =>
      v <- load64 regs ;;
      vs <- saved_registers rest (regs + 8) ;;
      ret (VInt v :: vs)
  end.

(** ** arch/arm64/cpu.c *)

Definition cpu_set_vbar_el1 (val : Z) : M unit := reg_write "vbar_el1" val.
Definition cpu_set_vbar_el2 (val : Z) : M unit := reg_write "vbar_el2" val.
Definition cpu_set_vaif (val : Z) : M unit := reg_write "daif" val.

Definition cpu_get_el : M Z := reg_load "CurrentEL".
Definition cpu_get_el_num : M Z := el <- cpu_get_el ;; ret (Z.shiftr el 2).

Definition read_esr_el2 : M Z := reg_load "esr_el2".
Definition read_elr_el2 : M Z := reg_load "elr_el2".
Definition read_esr_el1 : M Z := reg_load "esr_el1".
Definition read_elr_el1 : M Z := reg_load "elr_el1".

Definition arm64_halt {A} : M A := forever (instr "wfe").
Definition arm64_wfi : M unit := instr "isb".
Definition dsbsy : M unit := instr "dsb sy".
Definition dmbsy : M unit := instr "dmb sy".

Definition MACHINE_RAM_SIZE : Z := 0x8000000.

Definition arm64_cpu_get_membase : Z :=
  match board with Opi => 0x00200000 | _ => 0x40080000 end.
Definition arm64_cpu_get_memsize : Z := MACHINE_RAM_SIZE.

(** ** arch/riscv/opensbi.c *)

(** [sbiret_t]: [error] and [value]. *)
Definition sbi_ecall (ext fid arg0 arg1 arg2 arg3 : Z) : M (Z * Z) :=
  reg_write "a0" arg0 ;;
  reg_write "a1" arg1 ;;
  reg_write "a2" arg2 ;;
  reg_write "a3" arg3 ;;
  reg_write "a6" fid ;;
  reg_write "a7" ext ;;
  instr "ecall" ;;
  error <- reg_load "a0" ;;
  value <- reg_load "a1" ;;
  ret (error, value).

Definition sbi_putchar (c : Z) : M unit := sbi_ecall 0x01 0 c 0 0 0 ;; ret tt.

Definition sbi_start_hart (hartid pc priv : Z) : M (Z * Z) := sbi_ecall 0x48534D 0 hartid pc priv 0.

Definition sbi_send_ipi_all : M unit := sbi_ecall 0x04 0 0 0 0 0 ;; ret tt.

(** ** arch/riscv/cpu.c *)

Definition cpu_set_stvec (addr : Z) : M unit := reg_write "stvec" addr.
Definition cpu_set_tp (addr : Z) : M unit := reg_write "tp" addr.

Definition cpu_get_sstatus : M Z := reg_load "sstatus".
Definition cpu_get_sie : M Z := reg_load "sie".
Definition cpu_get_scause : M Z := reg_load "scause".
Definition cpu_get_sepc : M Z := reg_load "sepc".
Definition cpu_get_stval : M Z := reg_load "stval".
Definition cpu_get_tp : M Z := reg_load "tp".

Definition cpu_get_cpu_id : M Z := hart_info <- cpu_get_tp ;; load64 (hart_info + hi_hartid).

Definition cpu_halt_cpu_id (cpu_id : Z) : M unit := sbi_send_ipi_all.

Definition riscv_halt {A} : M A := forever (instr "wfi").

Definition riscv_cpu_get_membase : Z := 0x80000000.
Definition riscv_cpu_get_memsize : Z := MACHINE_RAM_SIZE.

(** ** arch/{arm64,riscv}/regswrp.c *)

(** Either struct: 32 registers of eight bytes. *)
Definition sizeof_registers : Z := 8 * Z.of_nat (length arm64_registers_t).

Section regswrp.
(** The static, and where the compiler keeps the argument [regs]. *)
Context (regframe regs_slot : Z).

(** The source of the copy is [&regs], the argument itself. *)
Definition regs_dump (regs : Z) : M Z :=
  store64 regs_slot regs ;;
  memcpy regframe regs_slot sizeof_registers ;;
  ret regframe.
End regswrp.
End cpu.

(** ** Rules *)

Section rules.
Context `{Platform}.

Lemma wp_reg_load r s (Q : Z -> kstate -> Prop) E :
  Q (reg_read (k_io s) r) (set_io s (RegRead r (reg_read (k_io s) r) :: k_io s)) -> wp (reg_load r) s Q E.
Proof. done. Qed.

Lemma wp_reg_write r v s (Q : unit -> kstate -> Prop) E :
  Q tt (set_io s (RegWrite r v :: k_io s)) -> wp (reg_write r v) s Q E.
Proof. done. Qed.

Lemma wp_instr i s (Q : unit -> kstate -> Prop) E :
  Q tt (set_io s (Instr i :: k_io s)) -> wp (instr i) s Q E.
Proof. done. Qed.

(** A loop whose body always ends never does. *)
Lemma forever_hangs {A} (c : M unit) s : (forall s', exists s'', c s' = Ok tt s'') -> exists s', forever (A := A) c s = Hung s'.
Proof.
  intros Hc. apply (while_stuck (fun _ _ => True)); [done|]. intros [] s' _. destruct (Hc s') as [s'' Hs].
  exists tt, s''. split; [|done]. unfold bind. by rewrite Hs.
Qed.

(** A word whose bytes are copied is copied. *)
Lemma getw_moved n m m' a b :
  (forall i, 0 <= i < Z.of_nat n -> get8 m' (a + i) = get8 m (b + i)) -> getw n m' a = getw n m b.
Proof.
  revert a b. induction n as [|n IH]; intros a b Hc; [done|].
  change (get8 m' a + 2 ^ 8 * getw n m' (a + 1) = get8 m b + 2 ^ 8 * getw n m (b + 1)).
  f_equal; [|f_equal; apply IH; intros i Hi; rewrite <- !Z.add_assoc; apply Hc; lia].
  rewrite <- (Z.add_0_r a), <- (Z.add_0_r b). apply Hc. lia.
Qed.

(** What [regs_dump] puts first in the frame is the pointer it was given, not
    the first register saved there. *)
Lemma regs_dump_pointer regframe regs_slot regs s :
  valid regframe sizeof_registers = true -> valid regs_slot sizeof_registers = true ->
  apart (regframe, sizeof_registers) (regs_slot, sizeof_registers) -> u64 regs ->
  safe (regs_dump regframe regs_slot regs) s
    (fun r s' => r = regframe /\ get64 (k_mem s') regframe = regs).
Proof.
  unfold regs_dump. change sizeof_registers with 256. unfold apart. simpl. intros Hf Hs Ha Hr.
  apply wp_bind, wp_store; [eapply valid_sub; [exact Hs|lia..]|].
  unfold memcpy. apply wp_bind, wp_bind, wp_copy_up; [done|done|done|lia|].
  intros m' [_ Hc]. wp_steps. split; [done|].
  rewrite <- (getw_putw 8 (k_mem s) regs_slot regs) by exact Hr.
  apply getw_moved. intros i Hi. apply Hc. lia.
Qed.
End rules.
