(* ===== verification/Gic.v ===== *)
(** * The interrupt controller: platform/virt/gic.c, include/drivers/gic.hpp

    The distributor and the cpu interface of a GIC, and the table of the
    interrupts' handlers. *)

From Stdlib Require Import String.
From S2P Require Import Prelude Machine Logic Console Boards Cpu.

#[local] Open Scope string_scope.
#[local] Open Scope list_scope.
#[local] Open Scope Z_scope.

Definition GIC_MAX_IRQS : Z := 0xFF.
Definition GIC_ENABLE_GRP0 : Z := 0x01.
Definition GIC_ENABLE_GRP1 : Z := 0x02.
Definition GIC_PRIORITY_ALL : Z := 0xFF.
Definition GIC_PRIORITY_MEDIUM : Z := 0xA0.
Definition GIC_PRODUCT_GIC_400 : Z := 0x002.
Definition GIC_IMPLEMENTER_ARM : Z := 0x43B.
Definition GIC_UNKNOWN_INTERRUPT : Z := 1022.
Definition GIC_SPURIOUS_INTERRUPT : Z := 1023.

Definition GICD_BASE : Z := 0x08000000.
Definition GICC_BASE : Z := 0x08010000.

Definition GICD_CTLR : Z := 0x000.
Definition GICD_TYPER : Z := 0x004.
Definition GICD_IIDR : Z := 0x008.
Definition GICD_IGROUPR (n : Z) : Z := 0x080 + n * 4.
Definition GICD_ISENABLER (n : Z) : Z := 0x100 + n * 4.
Definition GICD_ICENABLER (n : Z) : Z := 0x180 + n * 4.
Definition GICD_ICPENDR (n : Z) : Z := 0x280 + n * 4.
Definition GICD_IPRIORITYR (n : Z) : Z := 0x400 + n * 4.

Definition GICC_CTLR : Z := 0x0000.
Definition GICC_PMR : Z := 0x0004.
Definition GICC_BPR : Z := 0x0008.
Definition GICC_IAR : Z := 0x000C.
Definition GICC_EOIR : Z := 0x0010.

Section gic.
Context `{Platform}.
(** Where the linker puts the statics, an array of function pointers and a
    word. *)
Context (gic_handlers gicc_iar : Z).
(** The function a pointer of the array points to: it takes the value of the
    acknowledge register and the saved registers. *)
Context (call : Z -> Z -> Z -> M Z).

Definition gic_interrupt_ack : M Z :=
  iar <- io_read32 GICC_BASE GICC_IAR ;;
  store32 gicc_iar iar ;;
  iar <- load32 gicc_iar ;;
  ret (Z.land iar 0x3FF).

Definition gic_eoi : M unit :=
  iar <- load32 gicc_iar ;;
  io_write32 GICC_BASE GICC_EOIR iar.

(** The handler's result is an [int32_t]. *)
Definition gic_handle_interrupts (regs : Z) : M unit :=
  irq_id <- gic_interrupt_ack ;;
  if irq_id >=? GIC_UNKNOWN_INTERRUPT then gic_eoi
  else if irq_id =? GIC_SPURIOUS_INTERRUPT then klog_debug "gic" "spurious" []
  else
    handler <- load64 (gic_handlers + 8 * irq_id) ;;
    r <- (if negb (handler =? 0) then iar <- load32 gicc_iar ;; call handler iar regs else ret (-1)) ;;
    gic_eoi ;;
    if r =? -1 then panic "gic" "interrupt handler exited with error" [] else ret tt.

Definition gic_register_interrupt_handler (irq handler : Z) : M unit :=
  store64 (gic_handlers + 8 * irq) handler.

Definition gic_disable_interrupts : M unit :=
  io_write32 GICD_BASE (GICD_ISENABLER 0) 0xFFFFFFFF ;;
  io_write32 GICD_BASE (GICD_ISENABLER 1) 0xFFFFFFFF.

(** The bit of [irq] in a register of 32 interrupts. *)
Definition irq_bit (irq : Z) : Z := Z.shiftl 1 (irq mod 32).

Definition gic_disable_interrupt (irq : Z) : M unit :=
  io_write32 GICD_BASE (GICD_ICENABLER (irq / 32)) (irq_bit irq).

Definition gic_enable_interrupt (irq : Z) : M unit :=
  io_write32 GICD_BASE (GICD_ISENABLER (irq / 32)) (irq_bit irq).

Definition gic_clear_pending (irq : Z) : M unit :=
  io_write32 GICD_BASE (GICD_ICPENDR (irq / 32)) (irq_bit irq).

Definition gic_set_interrupt_priority (irq priority : Z) : M unit :=
  prio <- io_read32 GICD_BASE (GICD_IPRIORITYR (irq / 4)) ;;
  let prio := Z.land prio (wrap32 (Z.lnot (Z.shiftl 0xFF (irq mod 4 * 8)))) in
  let prio := Z.lor prio (Z.shiftl priority (irq mod 4 * 8)) in
  io_write32 GICD_BASE (GICD_IPRIORITYR (irq / 4)) prio.

Definition gic_redirect_irq (irq : Z) : M unit :=
  group <- io_read32 GICD_BASE (GICD_IGROUPR (irq / 32)) ;;
  let group := Z.lor group (irq_bit irq) in
  io_write32 GICD_BASE (GICD_IGROUPR (irq / 32)) group.

Definition gic_allow_interrupts : M unit := io_write32 GICC_BASE GICC_PMR GIC_PRIORITY_ALL.

(** [interrupts_enable] is the one of arch/arm64/interrupts.c. *)
Context (interrupts_enable : bool -> bool -> M unit).

Definition gic_init : M unit :=
  gicd_ctlr <- io_read32 GICD_BASE GICD_CTLR ;;
  io_write32 GICD_BASE GICD_CTLR (Z.lor gicd_ctlr 0x03) ;;
  gicc_ctlr <- io_read32 GICC_BASE GICC_CTLR ;;
  io_write32 GICC_BASE GICC_CTLR (Z.lor gicc_ctlr (Z.lor GIC_ENABLE_GRP0 GIC_ENABLE_GRP1)) ;;
  io_write32 GICC_BASE GICC_BPR 0x00000000 ;;
  gicd_iidr <- io_read32 GICD_BASE GICD_IIDR ;;
  gicd_typer <- io_read32 GICD_BASE GICD_TYPER ;;
  klog_info "gic" "GIC model is %s, implementer %s, %d max irqs"
    [VStr (Some (if Z.land (Z.shiftr gicd_iidr 24) 0x03 =? GIC_PRODUCT_GIC_400 then "GIC-400" else "Unknown"));
     VStr (Some (if Z.land gicd_iidr 0xfff =? GIC_IMPLEMENTER_ARM then "ARM" else "Unknown"));
     VInt (32 * (Z.land gicd_typer 0x1F + 1))] ;;
  gic_allow_interrupts ;;
  interrupts_enable true false.
End gic.

(** ** Properties *)

(** The [j]-th byte of a register. *)
Definition byte_of (x j : Z) : Z := x / 2 ^ (8 * j) mod 2 ^ 8.

Lemma byte_of_testbit x j i : 0 <= j -> 0 <= i < 8 -> Z.testbit (byte_of x j) i = Z.testbit x (8 * j + i).
Proof.
  intros Hj Hi. unfold byte_of. rewrite Z.mod_pow2_bits_low, Z.div_pow2_bits by lia. f_equal. lia.
Qed.

Lemma byte_of_ext x y j : 0 <= j -> (forall i, 0 <= i < 8 -> Z.testbit x (8 * j + i) = Z.testbit y (8 * j + i)) ->
  byte_of x j = byte_of y j.
Proof.
  intros Hj Hb. apply Z.bits_inj'. intros i Hi. destruct (decide (i < 8)).
  - rewrite !byte_of_testbit by lia. apply Hb. lia.
  - unfold byte_of. by rewrite !Z.mod_pow2_bits_high by lia.
Qed.

(** The value [gic_set_interrupt_priority] writes. *)
Definition with_priority (old irq priority : Z) : Z :=
  wrap32 (Z.lor (Z.land old (wrap32 (Z.lnot (Z.shiftl 0xFF (irq mod 4 * 8))))) (Z.shiftl priority (irq mod 4 * 8))).

Lemma with_priority_bytes old irq priority j :
  0 <= old < 2 ^ 32 -> 0 <= priority < 2 ^ 8 -> 0 <= j < 4 ->
  byte_of (with_priority old irq priority) j = if decide (j = irq mod 4) then priority else byte_of old j.
Proof.
  intros Ho Hp Hj. pose proof (Z.mod_pos_bound irq 4 ltac:(lia)) as Hq. set (q := irq mod 4) in *.
  unfold with_priority. fold q. change 0xFF with (Z.ones 8).
  assert (Hbit : forall i, 0 <= i < 8 ->
    Z.testbit (wrap32 (Z.lor (Z.land old (wrap32 (Z.lnot (Z.shiftl (Z.ones 8) (q * 8))))) (Z.shiftl priority (q * 8)))) (8 * j + i) =
    if decide (j = q) then Z.testbit priority i else Z.testbit old (8 * j + i)).
  { intros i Hi. unfold wrap32. rewrite Z.mod_pow2_bits_low by lia. rewrite Z.lor_spec, Z.land_spec.
    rewrite Z.mod_pow2_bits_low, Z.lnot_spec by lia. rewrite !Z.shiftl_spec by lia.
    case_decide as He.
    - subst j. replace (8 * q + i - q * 8) with i by lia. rewrite Z.ones_spec_low by lia. simpl. by rewrite andb_false_r.
    - destruct (decide (j < q)).
      + rewrite (Z.testbit_neg_r priority), (Z.testbit_neg_r (Z.ones 8)) by lia. simpl. by rewrite andb_true_r, orb_false_r.
      + rewrite Z.ones_spec_high by lia. rewrite <- (Z.mod_small priority (2 ^ 8)) by lia.
        rewrite (Z.mod_pow2_bits_high priority 8) by lia. simpl. by rewrite andb_true_r, orb_false_r. }
  case_decide as He.
  - apply Z.bits_inj'. intros i Hi. destruct (decide (i < 8)).
    + rewrite byte_of_testbit by lia. by rewrite Hbit by lia.
    + unfold byte_of. rewrite Z.mod_pow2_bits_high by lia.
      rewrite <- (Z.mod_small priority (2 ^ 8)) by lia. by rewrite Z.mod_pow2_bits_high by lia.
  - apply byte_of_ext; [lia|]. intros i Hi. by rewrite Hbit by lia.
Qed.

Section priority.
Context `{Platform}.

(** C40: The priority of an interrupt is one byte of a register that four
    interrupts share: [gic_set_interrupt_priority] reads the register once,
    writes it once, with the byte of the interrupt set to the priority and the
    other three as they were read. *)
Theorem gic_set_interrupt_priority_correct irq priority s :
  0 <= irq < 256 -> 0 <= priority < 256 ->
  exists new, let a := GICD_BASE + GICD_IPRIORITYR (irq / 4) in
    gic_set_interrupt_priority irq priority s =
      Ok tt (set_io s (IoWrite a new :: IoRead a (dev_read (k_io s) a) :: k_io s)) /\
    forall j, 0 <= j < 4 ->
      byte_of new j = if decide (j = irq mod 4) then priority else byte_of (wrap32 (dev_read (k_io s) a)) j.
Proof.
  intros Hi Hp. set (a := GICD_BASE + GICD_IPRIORITYR (irq / 4)). cbv zeta.
  exists (with_priority (wrap32 (dev_read (k_io s) a)) irq priority). split.
  - unfold gic_set_interrupt_priority, io_read32, io_write32, bind, ret, dev_load, dev_write, modify.
    assert (Ha : wrap64 (GICD_BASE + GICD_IPRIORITYR (irq / 4)) = a).
    { apply wrap64_small. unfold a, u64, GICD_BASE, GICD_IPRIORITYR. Z.div_mod_to_equations; lia. }
    by rewrite Ha.
  - intros j Hj. apply with_priority_bytes; [apply wrap32_range|exact Hp|exact Hj].
Qed.

End priority.

Section gic_properties.
Context `{Console} (gic_handlers gicc_iar : Z) (call : Z -> Z -> Z -> M Z).

(** What acknowledging leaves: the register read, and its value kept. *)
Definition acked (s : kstate) : kstate :=
  let a := GICC_BASE + GICC_IAR in
  let raw := dev_read (k_io s) a in
  set_mem (set_io s (IoRead a raw :: k_io s)) (put32 (k_mem s) gicc_iar (wrap32 raw)).

Definition ended (v : Z) (s : kstate) : kstate := set_io s (IoWrite (GICC_BASE + GICC_EOIR) v :: k_io s).

Lemma wp_gic_eoi s v (Q : unit -> kstate -> Prop) E :
  valid gicc_iar 4 = true -> get32 (k_mem s) gicc_iar = v -> 0 <= v < 2 ^ 32 -> Q tt (ended v s) -> wp (gic_eoi gicc_iar) s Q E.
Proof.
  intros Hv Hg Hu HQ. unfold gic_eoi. apply wp_bind, wp_load; [done|]. rewrite Hg. apply wp_modify.
  unfold ended in HQ. rewrite wrap32_small by done. exact HQ.
Qed.

(** Acknowledging gives the number of the interrupt. *)
Lemma ack_run s :
  valid gicc_iar 4 = true ->
  gic_interrupt_ack gicc_iar s = Ok (Z.land (wrap32 (dev_read (k_io s) (GICC_BASE + GICC_IAR))) 0x3FF) (acked s).
Proof.
  intros Hv. set (v := wrap32 _).
  assert (Hiar : get32 (k_mem (acked s)) gicc_iar = v) by (apply (getw_putw 4), wrap32_range).
  apply safe_eq. unfold gic_interrupt_ack, io_read32. change (wrap64 (GICC_BASE + GICC_IAR)) with (GICC_BASE + GICC_IAR).
  apply wp_bind, wp_bind. unfold dev_load, wp at 1. apply wp_ret, wp_bind, wp_store; [done|]. fold v.
  change (set_mem _ _) with (acked s). apply wp_bind, wp_load; [done|]. rewrite Hiar. by apply wp_ret.
Qed.

(** C35: An interrupt is acknowledged once and ended once.
    [gic_handle_interrupts] reads the acknowledge register once; whatever the
    handler does, if it leaves the value kept in [gicc_iar] alone, that same
    value is then written to the end-of-interrupt register, once and last.  A
    handler is called, with that value, for numbers below 1022 only, and its
    result -1, or its absence, makes the kernel panic.  For the 255 interrupts
    the table has slots for, it is the handler of the interrupt's own number.
    Nothing checks the number against the table's length: for 255 to 1021 the
    word that happens to lie that far after the table is taken for a slot, and
    when there is no memory there the access faults. *)
Theorem gic_handle_interrupts_correct regs s (R : Z -> kstate -> Prop) E :
  valid gicc_iar 4 = true -> valid gic_handlers (8 * GIC_MAX_IRQS) = true ->
  let v := wrap32 (dev_read (k_io s) (GICC_BASE + GICC_IAR)) in
  let id := Z.land v 0x3FF in
  let slot := gic_handlers + 8 * id in
  let h := get64 (k_mem (acked s)) slot in
  (id < 1022 -> valid slot 8 = true -> h <> 0 ->
     wp (call h v regs) (acked s) (fun r s' => get32 (k_mem s') gicc_iar = v /\ R r s') E) ->
  if (id <? 1022) && negb (valid slot 8)
  then GIC_MAX_IRQS <= id /\ gic_handle_interrupts gic_handlers gicc_iar call regs s = Fault (acked s)
  else wp (gic_handle_interrupts gic_handlers gicc_iar call regs) s
    (fun _ s' => if 1022 <=? id then s' = ended v (acked s)
                 else h <> 0 /\ exists r s1, r <> -1 /\ R r s1 /\ s' = ended v s1)
    (fun s' => id < 1022 /\ ((h = 0 /\ exists t, s' = set_io (acked s) t) \/
                             (exists s1 t, R (-1) s1 /\ s' = set_io s1 t) \/ E s')).
Proof.
  intros Hv1 Hv2 v id slot h Hcall.
  assert (Hvb : 0 <= v < 2 ^ 32) by apply wrap32_range.
  assert (Hid : 0 <= id < 1024).
  { unfold id. change 0x3FF with (Z.ones 10). rewrite Z.land_ones by lia. apply Z.mod_pos_bound. lia. }
  pose proof (ack_run s Hv1) as Hack. fold v id in Hack.
  destruct ((id <? 1022) && negb (valid slot 8)) eqn:Hc.
  { apply andb_true_iff in Hc as [Hlt%Z.ltb_lt Hbad%negb_true_iff]. split.
    - destruct (decide (id < GIC_MAX_IRQS)) as [Hin|]; [|lia]. exfalso. unfold slot, GIC_MAX_IRQS in *.
      rewrite (valid_sub _ _ _ _ Hv2) in Hbad by lia. discriminate Hbad.
    - unfold gic_handle_interrupts. rewrite (run_bind _ _ _ _ _ Hack).
      unfold GIC_UNKNOWN_INTERRUPT, GIC_SPURIOUS_INTERRUPT. destruct (Z.geb_spec id 1022); [lia|].
      rewrite (proj2 (Z.eqb_neq _ _)) by lia. fold slot. unfold bind, load. change (Z.of_nat 8) with 8. by rewrite Hbad. }
  assert (Hiar : get32 (k_mem (acked s)) gicc_iar = v) by (by apply (getw_putw 4)).
  unfold gic_handle_interrupts. apply wp_bind, (wp_run _ _ _ _ _ _ Hack).
  unfold GIC_UNKNOWN_INTERRUPT, GIC_SPURIOUS_INTERRUPT. destruct (Z.geb_spec id 1022) as [Hge|Hlt].
  { rewrite (proj2 (Z.leb_le _ _)) by lia. by eapply wp_gic_eoi. }
  rewrite (proj2 (Z.leb_gt _ _)) by lia. rewrite (proj2 (Z.eqb_neq _ _)) by lia.
  rewrite (proj2 (Z.ltb_lt _ _)) in Hc by lia. apply negb_false_iff in Hc.
  apply wp_bind, wp_load; [exact Hc|]. fold slot h.
  apply wp_bind. destruct (Z.eqb_spec h 0) as [Hh|Hh]; cbn [negb].
  - apply wp_ret, wp_bind. eapply wp_gic_eoi; [done|exact Hiar|done|]. simpl. wp_print. split; [lia|]. left.
    split; [done|]. by eexists.
  - apply wp_bind, wp_load; [done|]. rewrite Hiar. eapply wp_mono; [by apply Hcall| |].
    + intros r s1 [Hi HR]. apply wp_bind. eapply wp_gic_eoi; [done|exact Hi|done|].
      destruct (Z.eqb_spec r (-1)) as [->|Hr].
      * wp_print. split; [lia|]. right. left. by eexists s1, _.
      * apply wp_ret. split; [done|]. by exists r, s1.
    + intros s1 HE. split; [lia|]. by right; right.
Qed.
End gic_properties.

(** ** Witnesses *)

Definition handlers_demo : Z := 0x40094000.
Definition iar_demo : Z := 0x40093000.

(** A machine whose interrupt controller has [raw] in its acknowledge register,
    and that has memory for the 255 slots of the table and the word only. *)
Definition arm64_raised (raw : Z) : Platform := {|
  arch := ARM64; board := Virt;
  ranges := [(handlers_demo, 8 * GIC_MAX_IRQS); (iar_demo, 4)];
  dev_read := fun _ a => if a =? GICC_BASE + GICC_IAR then raw else 0;
  reg_read := fun _ _ => 0;
  dump_register := fun _ _ => 0;
  cpu_id := 0;
  cache_metadata_cache := 0x40090000;
  g_om := 0x40092000
|}.

Lemma raised_console raw : Console (H := arm64_raised raw).
Proof. apply (@virt_console (arm64_raised raw)). by left. Qed.

#[local] Instance arm64_pending : Platform := arm64_raised 30.

Definition gic_demo : kstate :=
  Eval vm_compute in final (gic_register_interrupt_handler handlers_demo 30 0x40081000) cold_state.

Lemma gic_set_interrupt_priority_correct_witness :
  exists new, gic_set_interrupt_priority 30 GIC_PRIORITY_MEDIUM cold_state =
      Ok tt (set_io cold_state [IoWrite 0x0800041C new; IoRead 0x0800041C 0]) /\ byte_of new 2 = 0xA0.
Proof.
  destruct (gic_set_interrupt_priority_correct 30 GIC_PRIORITY_MEDIUM cold_state ltac:(lia) ltac:(unfold GIC_PRIORITY_MEDIUM; lia))
    as (new & Hrun & Hb).
  exists new. exact (conj Hrun (Hb 2 ltac:(lia))).
Defined.

(** Interrupt 30 has a handler; the slot of interrupt 300 is outside memory. *)
Lemma gic_handle_interrupts_correct_witness :
  (exists s', gic_handle_interrupts (H := arm64_raised 30) handlers_demo iar_demo (fun _ _ _ => ret 0) 0 gic_demo = Ok tt s' /\
     k_io s' = [IoWrite 0x08010010 30; IoRead 0x0801000C 30]) /\
  exists s', gic_handle_interrupts (H := arm64_raised 300) handlers_demo iar_demo (fun _ _ _ => ret 0) 0 gic_demo = Fault s'.
Proof.
  pose proof (fun raw => @gic_handle_interrupts_correct (arm64_raised raw) (raised_console raw) handlers_demo iar_demo
    (fun _ _ _ => ret 0) 0 gic_demo (fun _ s' => s' = acked (H := arm64_raised raw) iar_demo gic_demo) (fun _ => False) eq_refl eq_refl) as Hw.
  split.
  - pose proof (Hw 30 ltac:(intros _ _ _; apply wp_ret; split; vm_compute; reflexivity)) as H30.
    change (Z.land _ 0x3FF) with 30 in H30. cbv zeta in H30.
    destruct (wp_result _ _ _ _ tt H30) as (s' & Hrun & _ & r & s1 & _ & -> & ->); [vm_compute; reflexivity|].
    eexists. split; [exact Hrun|]. reflexivity.
  - pose proof (Hw 300 ltac:(intros _ Hbad; vm_compute in Hbad; discriminate Hbad)) as H300.
    destruct H300 as [_ Hrun]. eexists. exact Hrun.
Defined.
