(* ===== verification/Timer.v ===== *)
(** * The timers: arch/{arm64,riscv}/timer.c, include/drivers/timer.hpp

    Both count their interrupts in a static, [global_ticks], that [timer_wait]
    watches.  Interrupts come between two reads of it: what the machine does
    there is the parameter [interrupts]. *)

From Stdlib Require Import String.
From S2P Require Import Prelude Machine Logic Console Boards Cpu Gic.

#[local] Open Scope string_scope.
#[local] Open Scope list_scope.
#[local] Open Scope Z_scope.

Definition TIMER_IRQ_ID : Z := 30.
Definition TIMER_FREQ : Z := 100.
Definition TO_KHZ (hz : Z) : Z := hz / 1000.
Definition TIMER_ENABLE : Z := 0x01.

Section timer.
Context `{Platform}.
(** Where the linker puts the static. *)
Context (global_ticks : Z).

(** [global_ticks++] *)
Definition tick : M unit :=
  t <- load64 global_ticks ;; store64 global_ticks (wrap64 (t + 1)).

(** The same text in both files; [interrupts] happens before each read. *)
Definition timer_wait (interrupts : M unit) (ticks : Z) : M unit :=
  t <- load64 global_ticks ;;
  let stop := wrap64 (t + ticks) in
  while (fun _ : unit =>
    interrupts ;;
    t <- load64 global_ticks ;;
    if t <? stop then ret (inl tt) else ret (inr tt)) tt.

(** ** arch/arm64/timer.c *)

Definition timer_get_core_frequency : M Z := reg_load "cntfrq_el0".
Definition timer_set_frequency (freq : Z) : M unit := reg_write "cntp_tval_el0" freq.

Definition arm64_timer_disable : M unit :=
  value <- reg_load "cntp_ctl_el0" ;;
  reg_write "cntp_ctl_el0" (Z.land value (wrap64 (Z.lnot TIMER_ENABLE))).

Definition arm64_timer_enable : M unit :=
  value <- reg_load "cntp_ctl_el0" ;;
  reg_write "cntp_ctl_el0" (Z.lor value TIMER_ENABLE).

Definition timer_unmask : M unit :=
  ctrl <- reg_load "cntp_ctl_el0" ;;
  reg_write "cntp_ctl_el0" (Z.land ctrl (wrap64 (Z.lnot (Z.shiftl 1 1)))).

Definition timer_mask : M unit :=
  ctrl <- reg_load "cntp_ctl_el0" ;;
  reg_write "cntp_ctl_el0" (Z.lor ctrl (Z.shiftl 1 1)).

Definition arm64_timer_handler (iar regs : Z) : M Z :=
  timer_mask ;;
  tick ;;
  freq <- timer_get_core_frequency ;;
  let reload_ticks := freq / TIMER_FREQ in
  timer_set_frequency reload_ticks ;;
  klog_info "timer" "interrupt" [] ;;
  ret 0.

(** [gic_handlers] as in the interrupt controller, and the address of
    [timer_handler]. *)
Definition arm64_timer_init (gic_handlers timer_handler : Z) : M unit :=
  freq <- timer_get_core_frequency ;;
  klog_info "timer" "core frequency: %d kHz" [VInt (TO_KHZ freq)] ;;
  gic_register_interrupt_handler gic_handlers TIMER_IRQ_ID timer_handler ;;
  gic_enable_interrupt TIMER_IRQ_ID ;;
  gic_set_interrupt_priority TIMER_IRQ_ID GIC_PRIORITY_MEDIUM ;;
  timer_set_frequency (freq / TIMER_FREQ) ;;
  timer_unmask ;;
  arm64_timer_enable.

(** ** arch/riscv/timer.c *)

Definition timer_set_cmp (cmp_value : Z) : M unit := reg_write "stimecmp" cmp_value.
Definition timer_get_time : M Z := reg_load "time".
Definition timer_get_cmp : M Z := reg_load "stimecmp".

Definition riscv_timer_handler (regs : Z) : M unit :=
  tick ;;
  cmp_value <- timer_get_cmp ;;
  timer_set_cmp (wrap64 (cmp_value + TIMER_FREQ * 100)) ;;
  instr "fence.i" ;;
  instr "fence".

Definition riscv_timer_disable : M unit := reg_write "csrc sie" 0x20.
Definition riscv_timer_enable : M unit := reg_write "csrs sie" 0x20.

Definition riscv_timer_init : M unit :=
  timer_value <- timer_get_time ;;
  store64 global_ticks 0 ;;
  let timer_value := wrap64 (timer_value + TIMER_FREQ * 100) in
  timer_set_cmp timer_value ;;
  riscv_timer_enable ;;
  klog_info "timer" "enabled timer: time=%d" [VInt timer_value].
End timer.

(** ** Properties *)

Section timer_properties.
Context `{Platform} (global_ticks : Z).

Definition ticks (s : kstate) : Z := get64 (k_mem s) global_ticks.

Lemma wp_tick s (Q : unit -> kstate -> Prop) E :
  valid global_ticks 8 = true ->
  (forall s', s' = set_mem s (k_mem s') -> ticks s' = wrap64 (ticks s + 1) -> Q tt s') -> wp (tick global_ticks) s Q E.
Proof.
  intros Hv HQ. unfold tick. wp_steps. apply HQ; [done|]. unfold ticks. simpl. apply (getw_putw 8). apply wrap64_range.
Qed.

(** The wait, for a machine that takes a timer interrupt every so often: [I n]
    says that one comes within [n] more reads. *)
Lemma wp_timer_wait (I : nat -> kstate -> Prop) (B : nat) (interrupts : M unit) E
    (fair : forall n s, I n s -> wp interrupts s (fun _ s' =>
       (exists n', (n' < n)%nat /\ I n' s' /\ ticks s' = ticks s) \/
       (exists n', (n' <= B)%nat /\ I n' s' /\ ticks s' = wrap64 (ticks s + 1))) E) n k s :
  valid global_ticks 8 = true -> I n s -> (n <= B)%nat -> 0 < k -> ticks s + k < 2 ^ 64 ->
  (k + 1) * (Z.of_nat B + 1) < 2 ^ 64 ->
  wp (timer_wait global_ticks interrupts k) s (fun _ s' => ticks s' = ticks s + k /\ exists n', I n' s') E.
Proof.
  intros Hv HI Hn Hk Htop Hfuel. unfold timer_wait. apply wp_bind, wp_load; [done|]. fold (ticks s).
  pose proof (get64_u64 (k_mem s) global_ticks) as Hu. fold (ticks s) in Hu. unfold u64 in Hu.
  rewrite wrap64_small by (unfold u64; lia). set (stop := ticks s + k).
  apply (wp_while (fun m _ s' => exists n', I n' s' /\ (n' <= B)%nat /\ ticks s <= ticks s' < stop /\
    (Z.to_nat (stop - ticks s') * (B + 1) + n' <= m)%nat) (Z.to_nat k * (B + 1) + n)).
  - nia.
  - exists n. split; [exact HI|]. split; [exact Hn|]. unfold stop. split; [lia|].
    replace (ticks s + k - ticks s) with k by lia. lia.
  - intros m [] s' (n' & HI' & Hn' & Hb & Hm). apply wp_bind. eapply wp_weaken; [by apply (fair n')|].
    intros [] s2 [(n2 & Hlt & HI2 & Ht)|(n2 & Hle & HI2 & Ht)]; apply wp_bind, wp_load; try done; fold (ticks s2); rewrite Ht.
    + destruct (Z.ltb_spec (ticks s') stop); [|lia]. apply wp_ret. exists (m - 1)%nat.
      split; [lia|]. exists n2. rewrite Ht. split; [exact HI2|]. split; [lia|]. split; [lia|]. lia.
    + rewrite wrap64_small in * by (unfold u64; lia).
      destruct (Z.ltb_spec (ticks s' + 1) stop) as [Hlt|Hge]; apply wp_ret.
      * exists (m - 1)%nat.
        assert (Hstep : (Z.to_nat (stop - ticks s') = S (Z.to_nat (stop - (ticks s' + 1))))%nat) by lia.
        rewrite Hstep in Hm. split; [lia|]. exists n2. rewrite Ht. split; [exact HI2|]. split; [lia|]. split; [lia|]. lia.
      * split; [rewrite Ht; unfold stop in *; lia|by exists n2].
Qed.

(** C39: [timer_wait] waits for its ticks.  Suppose the machine is fair: between
    two reads of the counter at most one timer interrupt is taken, and [I n]
    says that one is taken within [n] more reads, never more than [B].  Then
    [timer_wait ticks] returns, after exactly that many interrupts. *)
Theorem timer_wait_returns (I : nat -> kstate -> Prop) (B : nat) (interrupts : M unit) E
    (fair : forall n s, I n s -> wp interrupts s (fun _ s' =>
       (exists n', (n' < n)%nat /\ I n' s' /\ ticks s' = ticks s) \/
       (exists n', (n' <= B)%nat /\ I n' s' /\ ticks s' = wrap64 (ticks s + 1))) E) n k s :
  valid global_ticks 8 = true -> I n s -> (n <= B)%nat -> 0 < k -> ticks s + k < 2 ^ 64 ->
  (k + 1) * (Z.of_nat B + 1) < 2 ^ 64 ->
  wp (timer_wait global_ticks interrupts k) s (fun _ s' => ticks s' = ticks s + k /\ exists n', I n' s') E.
Proof. apply (wp_timer_wait I B interrupts E fair). Qed.

(** Without timer interrupts [timer_wait] never returns. *)
Theorem timer_wait_hangs (interrupts : M unit) k s :
  (forall s', exists s'', interrupts s' = Ok tt s'' /\ ticks s'' = ticks s') ->
  valid global_ticks 8 = true -> 0 < k -> ticks s + k < 2 ^ 64 ->
  exists s', timer_wait global_ticks interrupts k s = Hung s'.
Proof.
  intros Hint Hv Hk Htop. pose proof (get64_u64 (k_mem s) global_ticks) as Hu. fold (ticks s) in Hu. unfold u64 in Hu.
  assert (Hload : forall s', load64 global_ticks s' = Ok (ticks s') s') by (intros s'; apply safe_eq; by apply wp_load).
  unfold timer_wait, bind at 1. rewrite Hload. rewrite wrap64_small by (unfold u64; lia).
  apply (while_stuck (fun _ s' => ticks s' = ticks s)); [done|]. intros [] s' Hs'. destruct (Hint s') as (s2 & Hrun & Ht).
  exists tt, s2. split; [|congruence]. unfold bind. rewrite Hrun, Hload. destruct (Z.ltb_spec (ticks s2) (ticks s + k)); [done|lia].
Qed.

(** A timer interrupt of RISC-V counts one tick and asks for the next
    interrupt 10000 timer counts after the last one asked for. *)
Theorem riscv_timer_handler_correct regs s :
  valid global_ticks 8 = true ->
  exists m, riscv_timer_handler global_ticks regs s =
    Ok tt (set_io (set_mem s m)
      (Instr "fence" :: Instr "fence.i" :: RegWrite "stimecmp" (wrap64 (reg_read (k_io s) "stimecmp" + 10000)) ::
       RegRead "stimecmp" (reg_read (k_io s) "stimecmp") :: k_io s)) /\
    mods [(global_ticks, 8)] (k_mem s) m /\ get64 m global_ticks = wrap64 (ticks s + 1).
Proof.
  intros Hv. exists (put64 (k_mem s) global_ticks (wrap64 (ticks s + 1))). split; [|split].
  - unfold riscv_timer_handler, tick, bind at 1 2, load at 1. change (Z.of_nat 8) with 8. rewrite Hv.
    unfold store. change (Z.of_nat 8) with 8. by rewrite Hv.
  - apply (mods_putw 8).
  - apply (getw_putw 8). apply wrap64_range.
Qed.
End timer_properties.

(** ** Witnesses *)

#[local] Existing Instances riscv_virt riscv_console.

Definition ticks_demo : Z := 0x80213000.

Lemma riscv_ticks_fair n s : n = 0%nat -> wp (riscv_timer_handler ticks_demo 0) s (fun _ s' =>
  (exists n', (n' < n)%nat /\ n' = 0%nat /\ ticks ticks_demo s' = ticks ticks_demo s) \/
  (exists n', (n' <= 0)%nat /\ n' = 0%nat /\ ticks ticks_demo s' = wrap64 (ticks ticks_demo s + 1))) (fun _ => False).
Proof.
  intros ->. unfold riscv_timer_handler. apply wp_bind, wp_tick; [done|]. intros s' _ Ht.
  apply wp_bind, wp_reg_load, wp_bind, wp_reg_write, wp_bind, wp_instr, wp_instr. right. by exists 0%nat.
Qed.

(** The wait of [kernel_main], with an interrupt at each read. *)
Lemma timer_wait_returns_witness :
  exists s', timer_wait ticks_demo (riscv_timer_handler ticks_demo 0) 2330 cold_state = Ok tt s' /\ ticks ticks_demo s' = 2330.
Proof.
  destruct (proj1 (safe_run _ _ _) (@timer_wait_returns riscv_virt ticks_demo (fun n _ => n = 0%nat) 0 (riscv_timer_handler ticks_demo 0)
    (fun _ => False) riscv_ticks_fair 0 2330 cold_state eq_refl eq_refl ltac:(lia) ltac:(lia) ltac:(vm_compute; reflexivity) ltac:(vm_compute; reflexivity)))
    as ([] & s' & Hrun & Ht & _).
  exists s'. exact (conj Hrun Ht).
Defined.

Lemma timer_wait_hangs_witness : exists s', timer_wait ticks_demo (ret tt) 1 cold_state = Hung s'.
Proof.
  apply (timer_wait_hangs ticks_demo (ret tt) 1 cold_state); [|reflexivity|lia|vm_compute; reflexivity].
  intros s'. exists s'. split; reflexivity.
Defined.

Lemma riscv_timer_handler_correct_witness :
  exists m, riscv_timer_handler ticks_demo 0 cold_state =
    Ok tt (set_io (set_mem cold_state m)
      [Instr "fence"; Instr "fence.i"; RegWrite "stimecmp" 10000; RegRead "stimecmp" 0]) /\
    get64 m ticks_demo = 1.
Proof.
  destruct (@riscv_timer_handler_correct riscv_virt ticks_demo 0 cold_state eq_refl) as (m & Hrun & _ & Ht).
  exists m. exact (conj Hrun Ht).
Defined.
