(* ===== verification/Interrupts.v ===== *)
(** * Exceptions and interrupts: arch/{arm64,riscv}/interrupts.c

    The C side of the exception vectors: which exception goes to which
    handler. *)

From Stdlib Require Import String Ascii.
From S2P Require Import Prelude Machine Logic Console Boards Cpu Gic Timer.

#[local] Open Scope string_scope.
#[local] Open Scope list_scope.
#[local] Open Scope Z_scope.

(** ** arch/arm64/interrupts.c *)

Definition arm64_exception_format : string :=
  "EL%d EXCEPTION %d: ESR=0x%x, ELR=0x%x" ++ endl ++
  "x0 =0x%x  x1 =0x%x x2 =0x%x  x3 =0x%x" ++ endl ++
  "x4 =0x%x  x5 =0x%x x6 =0x%x  x7 =0x%x" ++ endl ++
  "x8 =0x%x  x9 =0x%x x10=0x%x  x11=0x%x" ++ endl ++
  "x12=0x%x  x13=0x%x x14=0x%x  x15=0x%x" ++ endl ++
  "x16=0x%x  x17=0x%x x18=0x%x  x19=0x%x" ++ endl ++
  "x20=0x%x  x21=0x%x x22=0x%x  x23=0x%x" ++ endl ++
  "x24=0x%x  x25=0x%x x26=0x%x  x27=0x%x" ++ endl ++
  "x28=0x%x  fp =0x%x lr =0x%x  sp =0x%x".

Section arm64.
Context `{Platform}.

Definition interrupts_set_vbar (val : Z) : M unit :=
  el_num <- cpu_get_el_num ;;
  let el := wrap32 el_num in
  if el =? 1 then cpu_set_vbar_el1 val
  else if el =? 2 then cpu_set_vbar_el2 val
  else klog_critical "cpu" "setting vbar failed! unsupported exception level=%d" [VInt el].

Definition arm64_interrupts_enable (irq fiq : bool) : M unit :=
  let value := Z.lor (if irq then 1 else 0) (if fiq then 2 else 0) in
  daif <- reg_load "daif" ;;
  let daif := Z.land (wrap32 daif) (wrap32 (Z.lnot value)) in
  reg_write "daif" daif.

(** [vectors] is the address of the vector table; [enable_exceptions] is in
    arch/arm64/exceptions.S. *)
Definition arm64_interrupts_init (vectors : Z) (enable_exceptions : M unit) : M unit :=
  klog_info "boot" "enabling exceptions..." [] ;;
  interrupts_set_vbar vectors ;;
  enable_exceptions.

Context (gic_handlers gicc_iar : Z) (call : Z -> Z -> Z -> M Z).

Definition arm64_exception_handler (exc_type regs : Z) : M unit :=
  el_num <- cpu_get_el_num ;;
  let el := wrap32 el_num in
  syndrome <- (if el =? 1 then esr <- read_esr_el1 ;; elr <- read_elr_el1 ;; ret (esr, elr)
               else if el =? 2 then esr <- read_esr_el2 ;; elr <- read_elr_el2 ;; ret (esr, elr)
               else ret (0, 0)) ;;
  let '(esr, elr) := syndrome in
  if exc_type =? EXC_TYPE_FIQ then gic_handle_interrupts gic_handlers gicc_iar call regs
  else if exc_type =? EXC_TYPE_SERR then
    saved <- saved_registers arm64_registers_t regs ;;
    klog_critical "cpu" arm64_exception_format ([VInt el; VInt exc_type; VInt esr; VInt elr] ++ saved) ;;
    forever (instr "wfe")
  else klog_warn "cpu" "unknown exception type %d" [VInt exc_type].
End arm64.

(** ** arch/riscv/interrupts.c *)

Definition riscv_exception_format : string :=
  "%c-MODE EXCEPTION %d: SCAUSE=0x%llx, SEPC=0x%llx, STVAL=0x%llx" ++ endl ++
  "x0 =0x%llx  ra =0x%llx sp =0x%llx  gp =0x%llx" ++ endl ++
  "tp =0x%llx  t0 =0x%llx t1 =0x%llx  t2 =0x%llx" ++ endl ++
  "s0 =0x%llx  s1 =0x%llx a0 =0x%llx  a1 =0x%llx" ++ endl ++
  "a2 =0x%llx  a3 =0x%llx a4 =0x%llx  a5 =0x%llx" ++ endl ++
  "a6 =0x%llx  a7 =0x%llx s2 =0x%llx  s3 =0x%llx" ++ endl ++
  "s4 =0x%llx  s5 =0x%llx s6 =0x%llx  s7 =0x%llx" ++ endl ++
  "s8 =0x%llx  s9 =0x%llx s10=0x%llx  s11=0x%llx" ++ endl ++
  "t3 =0x%llx  t4 =0x%llx t5 =0x%llx  t6 =0x%llx".

Section riscv.
Context `{Platform}.

Definition interrupts_set_tvec (val : Z) : M unit := cpu_set_stvec val.

(** The arguments are not used. *)
Definition riscv_interrupts_enable (irq fiq : bool) : M unit :=
  reg_write "csrs sie" 0x02 ;;
  reg_write "csrs sstatus" 0x02.

Definition riscv_interrupts_init (trap_vector : Z) : M unit :=
  klog_info "boot" "enabling exceptions..." [] ;;
  interrupts_set_tvec trap_vector ;;
  riscv_interrupts_enable false false.

Definition cause (scause : Z) : Z := Z.land scause 0x7FFFFFFFFFFFFFFF.

Context (global_ticks : Z).

Definition riscv_exception_handler (usermode regs : Z) : M unit :=
  reg_write "csrc sip" 0x02 ;;
  scause <- cpu_get_scause ;;
  sepc <- cpu_get_sepc ;;
  stval <- cpu_get_stval ;;
  if negb (SCAUSE_IS_IRQ scause) then
    when ((cause scause =? 15) || (cause scause =? 13) || (cause scause =? 12))
      (klog_critical "cpu" "page fault at 0x%llx" [VInt stval]) ;;
    saved <- saved_registers riscv_registers_t regs ;;
    klog_critical "cpu" riscv_exception_format
      ([VInt (char_code (if usermode =? 1 then "U"%char else "S"%char)); VInt (cause scause); VInt scause; VInt sepc; VInt stval]
       ++ saved) ;;
    panic "cpu" "exception" []
  else if cause scause =? EXC_TYPE_SSI then riscv_halt
  else if cause scause =? EXC_TYPE_STI then riscv_timer_handler global_ticks regs
  else ret tt.
End riscv.

(** ** Properties *)

Section saved.
Context `{Platform}.

Fixpoint saved_values (fields : list string) (m : memory) (regs : Z) : list varg :=
  match fields with
  | [] => []
  | _ :: rest => VInt (get64 m regs) :: saved_values rest m (regs + 8)
  end.

Lemma wp_saved_registers fields regs s (Q : list varg -> kstate -> Prop) E :
  valid regs (8 * Z.of_nat (length fields)) = true -> Q (saved_values fields (k_mem s) regs) s ->
  wp (saved_registers fields regs) s Q E.
Proof.
  revert regs Q. induction fields as [|f fields IH]; intros regs Q Hv HQ; simpl saved_registers; [by apply wp_ret|].
  cbn [length] in Hv. rewrite Nat2Z.inj_succ in Hv. apply wp_bind, wp_load; [solve_valid|].
  apply wp_bind, IH; [solve_valid|]. by apply wp_ret.
Qed.
End saved.

Section interrupt_properties.
Context `{Console}.

(** On arm64 [interrupts_enable] does not enable interrupts: it writes
    back the mask register with bits 0 and 1 cleared, which mask nothing, and
    leaves the bits above, the masks of IRQ (7) and FIQ (6) among them, as they
    were. *)
Theorem arm64_interrupts_enable_masks irq fiq s :
  exists w, let d := wrap32 (reg_read (k_io s) "daif") in
    arm64_interrupts_enable irq fiq s =
      Ok tt (set_io s (RegWrite "daif" w :: RegRead "daif" (reg_read (k_io s) "daif") :: k_io s)) /\
    (forall i, 2 <= i < 32 -> Z.testbit w i = Z.testbit d i) /\
    Z.testbit w 0 = Z.testbit d 0 && negb irq /\ Z.testbit w 1 = Z.testbit d 1 && negb fiq.
Proof.
  cbv zeta. set (value := Z.lor (if irq then 1 else 0) (if fiq then 2 else 0)).
  exists (Z.land (wrap32 (reg_read (k_io s) "daif")) (wrap32 (Z.lnot value))). split; [reflexivity|].
  assert (Hbit : forall i v, 0 <= i < 32 -> Z.testbit (Z.land (wrap32 (reg_read (k_io s) "daif")) (wrap32 (Z.lnot v))) i =
    Z.testbit (wrap32 (reg_read (k_io s) "daif")) i && negb (Z.testbit v i)).
  { intros i v Hi. rewrite Z.land_spec. unfold wrap32 at 2. by rewrite Z.mod_pow2_bits_low, Z.lnot_spec by lia. }
  split; [|split].
  - intros i Hi. rewrite Hbit by lia.
    assert (Hz : Z.testbit value i = false).
    { destruct (Z.eq_dec i 2) as [->|]; [by destruct irq, fiq|]. apply Z.bits_above_log2; [by destruct irq, fiq|].
      destruct irq, fiq; simpl; lia. }
    by rewrite Hz, andb_true_r.
  - rewrite Hbit by lia. by destruct irq, fiq.
  - rewrite Hbit by lia. by destruct irq, fiq.
Qed.

Lemma arm64_format_ok m regs a b c d :
  log_ok arm64_exception_format ([VInt a; VInt b; VInt c; VInt d] ++ saved_values arm64_registers_t m regs) = true.
Proof. reflexivity. Qed.

Lemma riscv_format_ok m regs a b c d e :
  log_ok riscv_exception_format ([VInt a; VInt b; VInt c; VInt d; VInt e] ++ saved_values riscv_registers_t m regs) = true.
Proof. reflexivity. Qed.

(** A log line and nothing else. *)
Lemma klog_run level sub format args s :
  log_ok format args = true -> exists t, klog level sub format args s = Ok tt (set_io s t).
Proof.
  intros Hl. assert (Hw : safe (klog level sub format args) s (fun _ s' => exists t, s' = set_io s t)).
  { apply wp_klog; [done|]. intros t. by exists t. }
  apply safe_run in Hw as ([] & s' & Hrun & t & ->). by exists t.
Qed.

Lemma saved_run fields regs s :
  valid regs (8 * Z.of_nat (length fields)) = true ->
  saved_registers fields regs s = Ok (saved_values fields (k_mem s) regs) s.
Proof. intros Hv. apply safe_eq. by apply wp_saved_registers. Qed.

(** What the arm64 kernel does with an exception.  A FIQ goes to the
    interrupt controller's handler; an SError is logged with the saved registers
    and the cpu stops for good; anything else, an IRQ (type 2) too, is only
    logged: no device is asked, and the memory does not change. *)
Theorem arm64_exception_dispatch gic_handlers gicc_iar call exc_type regs s :
  valid regs 256 = true ->
  (exc_type = EXC_TYPE_FIQ -> exists t,
     arm64_exception_handler gic_handlers gicc_iar call exc_type regs s =
     gic_handle_interrupts gic_handlers gicc_iar call regs (set_io s t)) /\
  (exc_type = EXC_TYPE_SERR -> exists s', arm64_exception_handler gic_handlers gicc_iar call exc_type regs s = Hung s') /\
  (exc_type <> EXC_TYPE_FIQ -> exc_type <> EXC_TYPE_SERR -> exists t,
     arm64_exception_handler gic_handlers gicc_iar call exc_type regs s = Ok tt (set_io s t)).
Proof.
  intros Hv.
  assert (Hpre : exists el esr elr t, forall k : Z * Z -> M unit,
    (syndrome <- (if wrap32 el =? 1 then esr <- read_esr_el1 ;; elr <- read_elr_el1 ;; ret (esr, elr)
                  else if wrap32 el =? 2 then esr <- read_esr_el2 ;; elr <- read_elr_el2 ;; ret (esr, elr)
                  else ret (0, 0)) ;; k syndrome)
      (set_io s (RegRead "CurrentEL" (reg_read (k_io s) "CurrentEL") :: k_io s)) = k (esr, elr) (set_io s t) /\
    el = Z.shiftr (reg_read (k_io s) "CurrentEL") 2).
  { eexists. destruct (wrap32 (Z.shiftr (reg_read (k_io s) "CurrentEL") 2) =? 1) eqn:H1;
      [|destruct (wrap32 (Z.shiftr (reg_read (k_io s) "CurrentEL") 2) =? 2) eqn:H2];
      eexists _, _, _; intros k; (split; [|reflexivity]); rewrite H1, ?H2; reflexivity. }
  destruct Hpre as (el & esr & elr & t & Hpre).
  assert (Hrun : arm64_exception_handler gic_handlers gicc_iar call exc_type regs s =
    (if exc_type =? EXC_TYPE_FIQ then gic_handle_interrupts gic_handlers gicc_iar call regs
     else if exc_type =? EXC_TYPE_SERR then
       saved <- saved_registers arm64_registers_t regs ;;
       klog_critical "cpu" arm64_exception_format ([VInt (wrap32 el); VInt exc_type; VInt esr; VInt elr] ++ saved) ;;
       forever (instr "wfe")
     else klog_warn "cpu" "unknown exception type %d" [VInt exc_type]) (set_io s t)).
  { destruct (Hpre (fun _ => ret tt)) as [_ Hel]. rewrite Hel in *. unfold arm64_exception_handler.
    exact (proj1 (Hpre _)). }
  rewrite Hrun. split; [|split].
  - intros ->. by exists t.
  - intros ->. change (EXC_TYPE_SERR =? EXC_TYPE_FIQ) with false. rewrite Z.eqb_refl.
    unfold bind at 1. rewrite saved_run by done. unfold bind.
    destruct (klog_run Critical_ "cpu" arm64_exception_format
      ([VInt (wrap32 el); VInt EXC_TYPE_SERR; VInt esr; VInt elr] ++ saved_values arm64_registers_t (k_mem (set_io s t)) regs)
      (set_io s t) (arm64_format_ok _ _ _ _ _ _)) as [t' Hk].
    unfold klog_critical. rewrite Hk. apply forever_hangs. intros s'. by eexists.
  - intros Hf Hs. rewrite (proj2 (Z.eqb_neq _ _) Hf), (proj2 (Z.eqb_neq _ _) Hs).
    destruct (klog_run Warning_ "cpu" "unknown exception type %d" [VInt exc_type] (set_io s t) eq_refl) as [t' Hk].
    unfold klog_warn. rewrite Hk. by exists t'.
Qed.

(** C34: What the RISC-V kernel does with a trap, by [scause].  A timer
    interrupt runs [timer_handler]; a software interrupt stops the cpu for good;
    other interrupts are ignored; an exception is logged with the saved
    registers and the kernel panics, so that no trap handler returns to the code
    that faulted. *)
Theorem riscv_exception_dispatch global_ticks usermode regs s :
  valid regs 256 = true ->
  let scause := reg_read (RegWrite "csrc sip" 0x02 :: k_io s) "scause" in
  exists t, let s1 := set_io s t in let run := riscv_exception_handler global_ticks usermode regs s in
    (SCAUSE_IS_IRQ scause = true -> cause scause = EXC_TYPE_STI -> run = riscv_timer_handler global_ticks regs s1) /\
    (SCAUSE_IS_IRQ scause = true -> cause scause = EXC_TYPE_SSI -> exists s', run = Hung s') /\
    (SCAUSE_IS_IRQ scause = true -> cause scause <> EXC_TYPE_STI -> cause scause <> EXC_TYPE_SSI -> run = Ok tt s1) /\
    (SCAUSE_IS_IRQ scause = false -> exists s', run = Panicked s').
Proof.
  intros Hv. cbv zeta. set (t0 := RegWrite "csrc sip" 0x02 :: k_io s).
  set (scause := reg_read t0 "scause"). set (t1 := RegRead "scause" scause :: t0).
  set (t2 := RegRead "sepc" (reg_read t1 "sepc") :: t1). set (t3 := RegRead "stval" (reg_read t2 "stval") :: t2).
  exists t3.
  assert (Hrun : riscv_exception_handler global_ticks usermode regs s =
    (if negb (SCAUSE_IS_IRQ scause) then
       when ((cause scause =? 15) || (cause scause =? 13) || (cause scause =? 12))
         (klog_critical "cpu" "page fault at 0x%llx" [VInt (reg_read t2 "stval")]) ;;
       saved <- saved_registers riscv_registers_t regs ;;
       klog_critical "cpu" riscv_exception_format
         ([VInt (char_code (if usermode =? 1 then "U"%char else "S"%char)); VInt (cause scause); VInt scause;
           VInt (reg_read t1 "sepc"); VInt (reg_read t2 "stval")] ++ saved) ;;
       panic "cpu" "exception" []
     else if cause scause =? EXC_TYPE_SSI then riscv_halt
     else if cause scause =? EXC_TYPE_STI then riscv_timer_handler global_ticks regs
     else ret tt) (set_io s t3)) by reflexivity.
  rewrite Hrun. split; [|split; [|split]].
  - intros -> ->. done.
  - intros -> ->. cbn [negb]. rewrite Z.eqb_refl. unfold riscv_halt. apply forever_hangs. intros s'. by eexists.
  - intros -> H1 H2. cbn [negb]. by rewrite (proj2 (Z.eqb_neq _ _) H1), (proj2 (Z.eqb_neq _ _) H2).
  - intros ->. cbn [negb].
    assert (Hw : forall s', k_mem s' = k_mem s -> exists s'', (saved <- saved_registers riscv_registers_t regs ;;
       klog_critical "cpu" riscv_exception_format
         ([VInt (char_code (if usermode =? 1 then "U"%char else "S"%char)); VInt (cause scause); VInt scause;
           VInt (reg_read t1 "sepc"); VInt (reg_read t2 "stval")] ++ saved) ;;
       panic (A := unit) "cpu" "exception" []) s' = Panicked s'').
    { intros s' _. unfold bind at 1. rewrite saved_run by done. unfold bind.
      destruct (klog_run Critical_ "cpu" riscv_exception_format
        ([VInt (char_code (if usermode =? 1 then "U"%char else "S"%char)); VInt (cause scause); VInt scause;
           VInt (reg_read t1 "sepc"); VInt (reg_read t2 "stval")] ++ saved_values riscv_registers_t (k_mem s') regs)
        s' (riscv_format_ok _ _ _ _ _ _ _)) as [t' Hk].
      unfold klog_critical. rewrite Hk.
      assert (Hp : wp (panic (A := unit) "cpu" "exception" []) (set_io s' t') (fun _ _ => False) (fun _ => True)) by (by wp_print).
      apply wp_cases in Hp as [(? & ? & _ & [])|(s'' & Hs'' & _)]. by exists s''. }
    destruct (_ || _); unfold when, bind at 1.
    + destruct (klog_run Critical_ "cpu" "page fault at 0x%llx" [VInt (reg_read t2 "stval")] (set_io s t3) eq_refl) as [t' Hk].
      unfold klog_critical at 1. rewrite Hk. by apply Hw.
    + by apply Hw.
Qed.
End interrupt_properties.

(** ** Witnesses *)

Lemma arm64_exception_dispatch_witness :
  exists t, arm64_exception_handler (H := arm64_virt) 0x40094000 0x40093000 (fun _ _ _ => ret 0) 2 0x40095000 cold_state =
    Ok tt (set_io cold_state t).
Proof.
  destruct (@arm64_exception_dispatch arm64_virt arm64_console 0x40094000 0x40093000 (fun _ _ _ => ret 0) 2 0x40095000 cold_state eq_refl)
    as (_ & _ & H). exact (H ltac:(discriminate) ltac:(discriminate)).
Defined.

(** The QEMU riscv machine when [scause] says a timer interrupt. *)
Definition riscv_timer_pending : Platform := {|
  arch := RISCV; board := VirtRV;
  ranges := [(0x80200000, 0x1000000)];
  dev_read := fun _ _ => 0;
  reg_read := fun _ r => if String.eqb r "scause" then 2 ^ 63 + 5 else 0;
  dump_register := fun _ _ => 0;
  cpu_id := 0;
  cache_metadata_cache := 0x80210000;
  g_om := 0x80212000
|}.

Lemma riscv_timer_pending_console : @Console riscv_timer_pending.
Proof. apply virt_console. by right. Qed.

Lemma riscv_exception_dispatch_witness :
  exists t, riscv_exception_handler (H := riscv_timer_pending) 0x80213000 0 0x80214000 cold_state =
      riscv_timer_handler (H := riscv_timer_pending) 0x80213000 0x80214000 (set_io cold_state t).
Proof.
  destruct (@riscv_exception_dispatch riscv_timer_pending riscv_timer_pending_console 0x80213000 0 0x80214000 cold_state eq_refl)
    as (t & Hsti & _). exists t. exact (Hsti eq_refl eq_refl).
Defined.

Lemma arm64_interrupts_enable_masks_witness :
  exists w, arm64_interrupts_enable (H := arm64_virt) true false cold_state =
    Ok tt (set_io cold_state [RegWrite "daif" w; RegRead "daif" 0]) /\ Z.testbit w 7 = false.
Proof.
  destruct (@arm64_interrupts_enable_masks arm64_virt true false cold_state) as (w & Hrun & Hb & _).
  exists w. exact (conj Hrun (Hb 7 ltac:(lia))).
Defined.
