(* ===== verification/Main.v ===== *)
(** * Start-up: base/kernel.c, arch/{arm64,riscv}/bootstrap.c, arch/riscv/user.c

    The entry points the assembly jumps to, and how they compose the rest of the
    kernel.  Assembly and link-time addresses are parameters. *)

From Stdlib Require Import String.
From S2P Require Import Prelude Machine Logic Console Boards Sync Str Boot Pmm Heap Slab Kheap Mm Hash Ob Cap ObTest.
From S2P Require Import PageTree RvPaging Cpu Gic Timer Interrupts.

#[local] Open Scope string_scope.
#[local] Open Scope list_scope.
#[local] Open Scope Z_scope.

(** ** arch/riscv/user.c *)

Definition usercode : list Z :=
  [0x37; 0x05; 0x00; 0x10; 0x93; 0x05; 0x10; 0x06; 0x23; 0x00; 0xb5; 0x00; 0x23; 0x80; 0xb5; 0x00].

Section user.
Context `{Platform}.
(** The array [usercode] of the image, the trampoline, and the place of the page
    table in the stack frame, whose contents nobody has set. *)
Context (usercode_addr trampoline_start user_page_table : Z).
(** arch/riscv/usermode.S *)
Context (enter_usermode : Z -> Z -> Z -> M unit).

Definition create_user_process : M unit :=
  code <- pmm_alloc_frame ;;
  memcpy code usercode_addr (Z.of_nat (length usercode)) ;;
  vmm_map_page user_page_table code code (Z.lor PAGE_KERNEL_EXEC PTE_U) ;;
  vmm_map_page user_page_table trampoline_start trampoline_start PAGE_KERNEL_EXEC ;;
  vmm_map_page user_page_table 0x10000000 0x10000000 (Z.lor (Z.lor PTE_R PTE_W) PTE_U) ;;
  klog_info "user" "switching to user mode, trampoline address=0x%llx" [VInt trampoline_start] ;;
  enter_usermode code (wrap64 (code + 1024)) user_page_table.
End user.

(** ** base/kernel.c *)

Section kernel.
Context `{Platform}.
Context (kernel_page_table global_ticks : Z) (interrupts : M unit) (create_addr destroy_addr test_name : Z).
(** arch/riscv/user.c has the only definition of it. *)
Context (create_user_process : M unit).

(** [kernel_main] to the end of [timer_wait], and from there to its last loop. *)
Definition kernel_memory (boot_info : boot_info_t) : M unit :=
  klog_info "kern" "initializing kernel" [] ;;
  mm_init boot_info ;;
  match arch with
  | RISCV => vmm_init kernel_page_table boot_info
  | ARM64 => ret tt
  end ;;
  timer_wait global_ticks interrupts 2330.

Definition kernel_objects : M unit :=
  ob_init ;;
  object_test create_addr destroy_addr test_name ;;
  create_user_process.

Definition kernel_start (boot_info : boot_info_t) : M unit :=
  kernel_memory boot_info ;; kernel_objects.

Definition kernel_main (boot_info : boot_info_t) : M unit :=
  kernel_start boot_info ;; forever (ret tt).
End kernel.

(** ** arch/arm64/bootstrap.c *)

(** The symbols of the link scripts. *)
Record image := mkImage {
  heap_start : Z;
  heap_end : Z;
  text_start : Z;
  text_end : Z;
  rodata_end : Z
}.

Section arm64.
Context `{Platform} (im : image).
Context (gic_handlers gicc_iar : Z) (call : Z -> Z -> Z -> M Z) (vectors : Z) (enable_exceptions : M unit).
Context (kernel_main : boot_info_t -> M unit).

(** The other fields of the static [early_info] are zero. *)
Definition arm64_early_info : boot_info_t :=
  mkBootInfo (heap_start im) (heap_end im) (text_start im) 0 0 arm64_cpu_get_membase arm64_cpu_get_memsize.

Definition arm64_boot_main : M unit :=
  klog_info "boot" "starting Vectra Kernel" [] ;;
  el <- cpu_get_el_num ;;
  klog_info "cpu" "running in EL%d mode" [VInt el] ;;
  arm64_interrupts_init vectors enable_exceptions ;;
  gic_init arm64_interrupts_enable ;;
  klog_info "boot" "found boot heap to be : start=0x%x, end=0x%x" [VInt (heap_start im); VInt (heap_end im)] ;;
  kernel_main arm64_early_info ;;
  forever (ret tt).
End arm64.

(** ** arch/riscv/bootstrap.c *)

Section riscv.
Context `{Platform} (im : image).
(** The statics [bootstrap_cpu], [boot_hart_info] and [boot_spinlock]. *)
Context (bootstrap_cpu boot_hart_info boot_spinlock : Z).
Context (trap_vector global_ticks : Z) (kernel_main : boot_info_t -> M unit).

Definition riscv_early_info : boot_info_t :=
  mkBootInfo (heap_start im) (heap_end im) (text_start im) (text_end im) (rodata_end im)
    riscv_cpu_get_membase riscv_cpu_get_memsize.

(** What the first hart does before it calls [kernel_main]. *)
Definition riscv_boot_first (hartid : Z) : M unit :=
  klog_info "early" "booting from cpu %d" [VInt hartid] ;;
  klog_info "boot" "starting Vectra Kernel" [] ;;
  klog_info "boot" "found boot heap to be : start=0x%x, end=0x%x" [VInt (heap_start im); VInt (heap_end im)] ;;
  klog_info "boot" "memory map: kernel base=0x%x, kernel end=0x%x" [VInt (text_start im); VInt (text_end im)] ;;
  riscv_interrupts_init trap_vector ;;
  riscv_timer_init global_ticks ;;
  spin_lock_init boot_spinlock ;;
  klog_info "boot" "booting secondary cpus.." [] ;;
  store64 bootstrap_cpu hartid ;;
  (* the loop over the other harts ends at [hart < 0] *)
  for_n 0 0 (fun hart => boot_cpu <- load64 bootstrap_cpu ;;
    if negb (hart =? boot_cpu) then sbi_start_hart hart (text_start im) PRIV_SUPERVISOR ;; ret tt else ret tt).

(** [boot_hart_info->hartid] is the field of the first element.  Nothing
    compares [hartid] with MAX_CPUS (32), the length of the array. *)
Definition riscv_boot_main (hartid : Z) : M unit :=
  cpu_set_tp (wrap64 (boot_hart_info + sizeof_hart_info * hartid)) ;;
  store64 (boot_hart_info + hi_hartid) hartid ;;
  sp <- reg_load "sp" ;;
  store64 (boot_hart_info + hi_stack) sp ;;
  boot_cpu <- load64 bootstrap_cpu ;;
  if negb (boot_cpu =? wrap64 (-1)) then
    sbi_send_ipi_all ;;
    spin_lock boot_spinlock ;;
    klog_info "early" "hello from cpu %d" [VInt hartid] ;;
    spin_unlock boot_spinlock ;;
    forever (ret tt)
  else
    riscv_boot_first hartid ;;
    kernel_main riscv_early_info ;;
    forever (ret tt).
End riscv.

(** ** Properties *)

(** An event of a trace that has grown since. *)
Ltac in_trace :=
  repeat first [apply list_elem_of_here | apply list_elem_of_further | apply elem_of_app; right].

Ltac boot_step :=
  lazymatch goal with
  | |- wp (bind _ _) _ _ _ => apply wp_bind
  | |- wp (klog_info _ _ _) _ _ _ => apply wp_klog_app; [reflexivity|intros ?]
  | |- wp (reg_write _ _) _ _ _ => apply wp_reg_write
  | |- wp (reg_load _) _ _ _ => apply wp_reg_load
  | |- wp (store _ _ _) _ _ _ => apply wp_store; [assumption|]
  | |- wp (for_n 0 _ _) _ _ _ => apply wp_ret
  end.

Section boot_harts.
Context `{Console} (im : image) (bootstrap_cpu boot_hart_info boot_spinlock trap_vector global_ticks : Z).
Context (statics_valid : Forall (fun r => valid r.1 r.2 = true)
  [(boot_hart_info, 16); (bootstrap_cpu, 8); (boot_spinlock, 4); (global_ticks, 8)]).
Context (statics_apart : separated
  [(boot_hart_info, 16); (bootstrap_cpu, 8); (boot_spinlock, 4); (global_ticks, 8)]).

Lemma wp_boot_first hartid s (Q : unit -> kstate -> Prop) E :
  u64 hartid ->
  (forall s', mods [(bootstrap_cpu, 8); (boot_spinlock, 4); (global_ticks, 8)] (k_mem s) (k_mem s') ->
     get64 (k_mem s') bootstrap_cpu = hartid -> get32 (k_mem s') boot_spinlock = 0 -> ticks global_ticks s' = 0 ->
     (forall e, e ∈ k_io s -> e ∈ k_io s') ->
     RegWrite "stvec" trap_vector ∈ k_io s' -> RegWrite "csrs sie" 0x20 ∈ k_io s' -> Q tt s') ->
  wp (riscv_boot_first im bootstrap_cpu boot_spinlock trap_vector global_ticks hartid) s Q E.
Proof.
  intros Hh HQ. unfold riscv_boot_first, riscv_interrupts_init, riscv_timer_init, spin_lock_init.
  unfold interrupts_set_tvec, riscv_interrupts_enable, riscv_timer_enable, timer_get_time, timer_set_cmp, cpu_set_stvec.
  rewrite !Forall_cons in statics_valid. simpl in statics_valid. destruct statics_valid as (_ & Hb & Hl & Ht & _).
  unfold separated, apart in statics_apart. rewrite !Forall_cons in statics_apart. simpl in statics_apart.
  repeat boot_step. apply HQ; cbn [set_io set_mem k_mem k_io].
  - intros b Ho. rewrite !outside_cons in Ho. by rewrite !get8_putw, !decide_False by lia.
  - by apply (getw_putw 8).
  - rewrite (getw_putw_ne 8 4) by lia. apply (getw_putw 4). lia.
  - unfold ticks. cbn [set_io set_mem k_mem]. rewrite (getw_putw_ne 8 8), (getw_putw_ne 4 8) by lia.
    apply (getw_putw 8). lia.
  - intros e He. in_trace. exact He.
  - in_trace.
  - in_trace.
Qed.

(** The line of a hart that comes later. *)
Definition hello_line (hartid : Z) : list Z :=
  header_text Info_ "early" ++ crlf "hello from cpu " ++ signed_text (signed 32 hartid) ++ [13; 10].

Lemma sends_hello hartid : sends (klog_info "early" "hello from cpu %d" [VInt hartid]) (hello_line hartid).
Proof.
  unfold hello_line. rewrite (app_assoc (crlf _)).
  eapply klog_sends; [vm_compute; reflexivity|]. cbn [render conv_text fmap option_fmap option_map].
  by rewrite app_nil_r.
Qed.

Lemma forever_at {A} s : forever (A := A) (ret tt) s = Hung s.
Proof. apply while_at. intros y. by exists tt. Qed.

(** How a later hart ends, from the state [s] in which it has told the others:
    it sends its line, and nothing else, while it holds the lock; or it waits
    for the lock, if that is taken. *)
Definition says_hello (hartid : Z) (s : kstate) (run : outcome unit) : Prop :=
  if get32 (k_mem s) boot_spinlock =? 0 then
    exists s1, putcs (hello_line hartid) (set_mem s (put32 (k_mem s) boot_spinlock 1)) = Ok tt s1 /\
      run = Hung (set_mem s1 (put32 (k_mem s1) boot_spinlock 0))
  else run = Hung (set_mem s (put32 (k_mem s) boot_spinlock 1)).

(** A hart that comes later. *)
Lemma hello_hangs hartid s :
  exists s1, sbi_send_ipi_all s = Ok tt s1 /\ k_mem s1 = k_mem s /\
    says_hello hartid s1 ((sbi_send_ipi_all ;; spin_lock boot_spinlock ;; klog_info "early" "hello from cpu %d" [VInt hartid] ;;
              spin_unlock boot_spinlock ;; forever (A := unit) (ret tt)) s).
Proof.
  pose proof statics_valid as Hv. rewrite !Forall_cons in Hv. simpl in Hv. destruct Hv as (_ & _ & Hl & _).
  assert (Hs : exists s1, sbi_send_ipi_all s = Ok tt s1 /\ k_mem s1 = k_mem s) by (eexists; split; reflexivity).
  destruct Hs as (s1 & Hs & Hm). exists s1. split; [exact Hs|]. split; [exact Hm|].
  rewrite (run_bind _ _ _ _ _ Hs). clear Hs Hm. unfold says_hello.
  destruct (Z.eqb_spec (get32 (k_mem s1) boot_spinlock) 0) as [Hfree|Hheld].
  - assert (Hlock : spin_lock boot_spinlock s1 = Ok tt (set_mem s1 (put32 (k_mem s1) boot_spinlock 1))).
    { apply safe_eq. by apply wp_spin_lock. }
    rewrite (run_bind _ _ _ _ _ Hlock). destruct (putcs_io (hello_line hartid) (set_mem s1 (put32 (k_mem s1) boot_spinlock 1))) as [t Ht].
    eexists. split; [exact Ht|]. rewrite <- (sends_hello hartid) in Ht. rewrite (run_bind _ _ _ _ _ Ht).
    match goal with |- (_ ;; _) ?st = _ => assert (Hun : spin_unlock boot_spinlock st = Ok tt (set_mem st (put32 (k_mem st) boot_spinlock 0))) end.
    { apply safe_eq. by apply wp_spin_unlock. }
    rewrite (run_bind _ _ _ _ _ Hun). apply forever_at.
  - unfold bind. by rewrite (while_held_hangs boot_spinlock s1 Hl Hheld).
Qed.

(** The state once a hart has set [tp] and its two fields. *)
Definition boot_entered (hartid : Z) (s : kstate) : kstate :=
  let io := RegWrite "tp" (wrap64 (boot_hart_info + sizeof_hart_info * hartid)) :: k_io s in
  let sp := reg_read io "sp" in
  set_io (set_mem s (put64 (put64 (k_mem s) (boot_hart_info + hi_hartid) hartid) (boot_hart_info + hi_stack) sp))
    (RegRead "sp" sp :: io).

(** What every hart does first, before it looks whether another came before. *)
Lemma boot_entry hartid s (k : Z -> M unit) :
  u64 hartid ->
  let s1 := boot_entered hartid s in
    (cpu_set_tp (wrap64 (boot_hart_info + sizeof_hart_info * hartid)) ;;
     store64 (boot_hart_info + hi_hartid) hartid ;;
     sp <- reg_load "sp" ;;
     store64 (boot_hart_info + hi_stack) sp ;;
     boot_cpu <- load64 bootstrap_cpu ;; k boot_cpu) s = k (get64 (k_mem s) bootstrap_cpu) s1 /\
    mods [(boot_hart_info, 16)] (k_mem s) (k_mem s1) /\
    get64 (k_mem s1) (boot_hart_info + hi_hartid) = hartid /\
    RegWrite "tp" (wrap64 (boot_hart_info + sizeof_hart_info * hartid)) ∈ k_io s1.
Proof.
  intros Hh. unfold boot_entered. pose proof statics_valid as Hv. rewrite !Forall_cons in Hv. simpl in Hv. destruct Hv as (Hi & Hb & _).
  pose proof statics_apart as Ha. unfold separated, apart in Ha. rewrite !Forall_cons in Ha. simpl in Ha.
  unfold hi_hartid, hi_stack, cpu_set_tp, reg_write, reg_load, modify, bind.
  rewrite (store_run 8) by solve_valid. rewrite (store_run 8) by solve_valid. rewrite (load_run 8) by solve_valid.
  cbn [set_io set_mem k_mem k_io]. rewrite !(getw_putw_ne 8 8 _ _ bootstrap_cpu) by lia.
  split; [reflexivity|]. split; [|split; [|in_trace]].
  - intros b Ho. rewrite !outside_cons in Ho. by rewrite !get8_putw, !decide_False by lia.
  - rewrite (getw_putw_ne 8 8) by lia. by apply (getw_putw 8).
Qed.

(** C23: Entry of a RISC-V hart, on a board whose console is ready.  The first
    one to come sets up its traps and its timer, frees the lock, leaves its
    number in [bootstrap_cpu] and calls [kernel_main] with the boot information.
    Every later one writes its [tp] and its fields, tells the others by one
    interrupt, and then: with the lock free it takes it, sends the line "hello
    from cpu" with its number and nothing else, and releases it, or with the
    lock taken it waits for it; and it spins for ever there, without having
    changed anything else and without reaching [kernel_main]. *)
Theorem riscv_boot_main_correct kernel_main hartid s :
  u64 hartid ->
  let run := riscv_boot_main im bootstrap_cpu boot_hart_info boot_spinlock trap_vector global_ticks kernel_main hartid s in
  (get64 (k_mem s) bootstrap_cpu = 2 ^ 64 - 1 ->
     exists s1, run = (kernel_main (riscv_early_info im) ;; forever (ret tt)) s1 /\
       get64 (k_mem s1) bootstrap_cpu = hartid /\ get32 (k_mem s1) boot_spinlock = 0 /\ ticks global_ticks s1 = 0 /\
       get64 (k_mem s1) (boot_hart_info + hi_hartid) = hartid /\
       RegWrite "tp" (wrap64 (boot_hart_info + sizeof_hart_info * hartid)) ∈ k_io s1 /\
       RegWrite "stvec" trap_vector ∈ k_io s1 /\ RegWrite "csrs sie" 0x20 ∈ k_io s1) /\
  (get64 (k_mem s) bootstrap_cpu <> 2 ^ 64 - 1 ->
     exists s1, sbi_send_ipi_all (boot_entered hartid s) = Ok tt s1 /\ k_mem s1 = k_mem (boot_entered hartid s) /\
       says_hello hartid s1 run).
Proof.
  intros Hh run. pose proof statics_valid as Hv. rewrite !Forall_cons in Hv. simpl in Hv. destruct Hv as (_ & _ & Hl & _).
  pose proof statics_apart as Ha. unfold separated in Ha. simpl in Ha. destruct Ha as (Ha & _).
  unfold run, riscv_boot_main. clear run.
  match goal with |- context [bind (load64 bootstrap_cpu) ?k] =>
    destruct (boot_entry hartid s k Hh) as (Hrun & Hm & Hid & Htp); rewrite Hrun; clear Hrun end.
  set (s1 := boot_entered hartid s) in *.
  rewrite !Forall_cons in Ha. destruct Ha as (Hab & Hal & _).
  split; intros Hc.
  - rewrite Hc. cbn [negb]. change (negb (2 ^ 64 - 1 =? wrap64 (-1))) with false. cbn iota.
    assert (Hw : safe (riscv_boot_first im bootstrap_cpu boot_spinlock trap_vector global_ticks hartid) s1 (fun _ s2 =>
      get64 (k_mem s2) bootstrap_cpu = hartid /\ get32 (k_mem s2) boot_spinlock = 0 /\ ticks global_ticks s2 = 0 /\
      get64 (k_mem s2) (boot_hart_info + hi_hartid) = hartid /\
      RegWrite "tp" (wrap64 (boot_hart_info + sizeof_hart_info * hartid)) ∈ k_io s2 /\
      RegWrite "stvec" trap_vector ∈ k_io s2 /\ RegWrite "csrs sie" 0x20 ∈ k_io s2)).
    { apply wp_boot_first; [done|]. intros s2 Hm2 H1 H2 H3 Hio H4 H5. split_and!; try done; [|by apply Hio].
      rewrite <- Hid. eapply mods_getw; [exact Hm2|]. pose proof statics_apart as Ha. unfold separated, apart in Ha.
      rewrite !Forall_cons in Ha. unfold hi_hartid. simpl in Ha.
      apply Forall_cons_2; [|apply Forall_cons_2; [|apply Forall_cons_2; [|apply Forall_nil_2]]]; unfold apart; simpl; lia. }
    apply safe_run in Hw as ([] & s2 & Hrun & HP). exists s2. split; [|exact HP]. exact (run_bind _ _ _ _ _ Hrun).
  - apply Z.eqb_neq in Hc. change (wrap64 (-1)) with (2 ^ 64 - 1). rewrite Hc. cbn [negb].
    apply hello_hangs.
Qed.
End boot_harts.

(** A kernel image of 480 KiB at the start of 1 MiB of memory, its read-only
    part 64 KiB. *)
Definition main_info (image : Z) : boot_info_t :=
  mkBootInfo (image + 0x70000) (image + 0x78000) image (image + 0x70000) (image + 0x10000) image 0x100000.

Section boot_riscv.
#[local] Existing Instance riscv_virt.

Definition table_at : Z := 0x80215000.
Definition ticks_at : Z := 0x80211000.
Definition user_table_at : Z := 0x80214000.

(** The kernel on the QEMU riscv machine, with a timer interrupt at each poll of
    [timer_wait], and the jump to user mode seen as a write of [sepc]. *)
Definition riscv_kernel_start : M unit :=
  kernel_start table_at ticks_at (riscv_timer_handler ticks_at 0) 0x80201000 0x80202000 0x80203000
    (create_user_process 0x80203000 0x80204000 user_table_at (fun pc _ _ => reg_write "sepc" pc))
    (main_info 0x80200000).

Definition answers {A} `{EqDecision A} (o : outcome A) (a : A) : bool :=
  match o with Ok a' _ => bool_decide (a = a') | _ => false end.

(** A run that ended with the jump to [code] ([boots]), and the same as a
    proposition. *)
Definition boots (o : outcome unit) (code : Z) : bool :=
  match o with
  | Ok _ s =>
      g_test_destroyed s && (ticks ticks_at s =? 2330) &&
      bool_decide (hd_error (k_io s) = Some (RegWrite "sepc" code)) &&
      existsb (fun e => bool_decide (e = RegWrite "satp" (MAKE_SATP_VAL table_at))) (k_io s) &&
      answers (vmm_virt_to_phys user_table_at code s) code &&
      answers (vmm_virt_to_phys table_at code s) code &&
      bool_decide (map (fun i => get8 (k_mem s) (code + i)) (seqZ 0 16) = map (fun i => get8 (k_mem s) (0x80203000 + i)) (seqZ 0 16))
  | _ => false
  end.

Definition booted (s : kstate) (code : Z) : Prop :=
  g_test_destroyed s = true /\ ticks ticks_at s = 2330 /\
  hd_error (k_io s) = Some (RegWrite "sepc" code) /\
  RegWrite "satp" (MAKE_SATP_VAL table_at) ∈ k_io s /\
  (exists s', vmm_virt_to_phys user_table_at code s = Ok code s') /\
  (exists s', vmm_virt_to_phys table_at code s = Ok code s') /\
  forall i, 0 <= i < 16 -> get8 (k_mem s) (code + i) = get8 (k_mem s) (0x80203000 + i).

Lemma answers_ok {A} `{EqDecision A} (o : outcome A) a : answers o a = true -> exists s', o = Ok a s'.
Proof. destruct o as [a' s'| | |]; simpl; try done. intros ->%bool_decide_eq_true. by exists s'. Qed.

Lemma boots_ok o code : boots o code = true -> exists s, o = Ok tt s /\ booted s code.
Proof.
  destruct o as [[] s| | |]; try done. unfold boots. rewrite !andb_true_iff. intros ((((((Hd & Ht) & Hh) & Hs) & Hu) & Hk) & Hc).
  apply Z.eqb_eq in Ht. apply bool_decide_eq_true in Hh, Hc. apply answers_ok in Hu, Hk.
  apply existsb_exists in Hs as (e & Hin & He). apply bool_decide_eq_true in He as ->. apply list_elem_of_In in Hin.
  exists s. unfold booted. split_and!; try done. intros i Hi.
  apply (f_equal (fun l => l !! Z.to_nat i)) in Hc. change (map ?f ?l) with (f <$> l) in Hc.
  rewrite !list_lookup_fmap, lookup_seqZ_lt in Hc by lia. injection Hc as Hc. by rewrite Z.add_0_l, Z2Nat.id in Hc by lia.
Qed.

(** The RISC-V kernel starts.  From a cold machine [kernel_main] gets
    through everything before its last loop: the kernel's page table is
    installed, the wait ends with 2330 interrupts counted, the object test
    destroyed its object, and the last thing done is the jump to the frame the
    user code was copied to, which both page tables map to itself. *)
Theorem riscv_kernel_starts : exists s code, riscv_kernel_start cold_state = Ok tt s /\ booted s code.
Proof.
  assert (Hb : boots (riscv_kernel_start cold_state) 0x80299000 = true) by (vm_compute; reflexivity).
  destruct (boots_ok _ _ Hb) as (s & Hrun & Hs). exists s, 0x80299000. exact (conj Hrun Hs).
Qed.
End boot_riscv.

Section boot_arm64.
#[local] Existing Instance arm64_virt.

Definition reaches_wait (o : outcome unit) : bool :=
  match o with Ok _ s => ticks 0x40091800 s =? 0 | _ => false end.

Lemma reaches_wait_ok o : reaches_wait o = true -> exists s, o = Ok tt s /\ ticks 0x40091800 s = 0.
Proof. destruct o as [[] s| | |]; try done. intros Ht%Z.eqb_eq. by exists s. Qed.

Lemma run_prefix (c d k : M unit) s s1 : (c ;; d) s = Ok tt s1 -> (c ;; d ;; k) s = k s1.
Proof. unfold bind. destruct (c s) as [[] s0| | |]; try done. by intros ->. Qed.

Lemma run_hung (c d : M unit) s s' : c s = Hung s' -> (c ;; d) s = Hung s'.
Proof. unfold bind. by intros ->. Qed.

(** The arm64 kernel does not start.  Its [boot_main] leaves the timer off;
    while the interrupts the cpu takes do not count ticks, [kernel_main] never
    gets past [timer_wait]: neither the object manager nor anything after it is
    ever reached. *)
Theorem arm64_kernel_stalls interrupts kpt create_addr destroy_addr test_name create_user_process :
  (forall s', exists s'', interrupts s' = Ok tt s'' /\ ticks 0x40091800 s'' = ticks 0x40091800 s') ->
  exists s', kernel_main kpt 0x40091800 interrupts create_addr destroy_addr test_name create_user_process
    (info_at 0x40080000) cold_state = Hung s'.
Proof.
  intros Hint.
  assert (Hw : reaches_wait ((klog_info "kern" "initializing kernel" [] ;; mm_init (info_at 0x40080000)) cold_state) = true)
    by (vm_compute; reflexivity).
  destruct (reaches_wait_ok _ Hw) as (s1 & Hrun & Ht).
  destruct (@timer_wait_hangs arm64_virt 0x40091800 interrupts 2330 s1 Hint eq_refl ltac:(lia) ltac:(lia)) as [s' Hh].
  exists s'. apply run_hung. unfold kernel_start. apply run_hung. unfold kernel_memory. rewrite (run_prefix _ _ _ _ _ Hrun).
  exact Hh.
Qed.
End boot_arm64.

(** ** Witnesses *)

Lemma arm64_kernel_stalls_witness :
  exists s', kernel_main (H := arm64_virt) 0 0x40091800 (ret tt) 0x40081000 0x40082000 0x40083000 (ret tt)
    (info_at 0x40080000) cold_state = Hung s'.
Proof.
  apply (arm64_kernel_stalls (ret tt) 0 0x40081000 0x40082000 0x40083000 (ret tt)). intros s'. exists s'. split; reflexivity.
Defined.

(** Hart 3 comes first, then hart 1. *)
Lemma riscv_boot_main_correct_witness :
  let im := mkImage 0x80270000 0x80278000 0x80200000 0x80270000 0x80210000 in
  let start b := set_mem cold_state (put64 ∅ 0x80210100 b) in
  let run hartid b := riscv_boot_main (H := riscv_virt) im 0x80210100 0x80210200 0x80210108 0x80201000 0x80210110
                        (fun _ => ret tt) hartid (start b) in
  (exists s1, run 3 (2 ^ 64 - 1) = (ret tt ;; forever (ret tt)) s1 /\ get64 (k_mem s1) 0x80210100 = 3) /\
  (exists s1 s2, putcs (H := riscv_virt) (hello_line 1) s1 = Ok tt s2 /\
     run 1 3 = Hung (set_mem s2 (put32 (k_mem s2) 0x80210108 0))).
Proof.
  intros im start run.
  assert (Hv : Forall (fun r => valid (H := riscv_virt) r.1 r.2 = true)
    [(0x80210200, 16); (0x80210100, 8); (0x80210108, 4); (0x80210110, 8)]) by (repeat constructor).
  assert (Ha : separated [(0x80210200, 16); (0x80210100, 8); (0x80210108, 4); (0x80210110, 8)])
    by (simpl; repeat split; repeat constructor; unfold apart; simpl; lia).
  destruct (@riscv_boot_main_correct riscv_virt riscv_console im _ _ _ 0x80201000 _ Hv Ha (fun _ => ret tt) 3 (start (2 ^ 64 - 1)))
    as [H3 _]; [unfold u64; lia|].
  destruct (@riscv_boot_main_correct riscv_virt riscv_console im _ _ _ 0x80201000 _ Hv Ha (fun _ => ret tt) 1 (start 3))
    as [_ H1]; [unfold u64; lia|].
  split.
  - destruct H3 as (s1 & Hrun & Hb & _); [by vm_compute|]. exists s1. exact (conj Hrun Hb).
  - destruct H1 as (s1 & _ & Hm & Hsay); [by vm_compute|]. unfold says_hello in Hsay.
    assert (Hfree : get32 (k_mem s1) 0x80210108 = 0) by (rewrite Hm; vm_compute; reflexivity).
    rewrite Hfree in Hsay. destruct Hsay as (s2 & Hsay & Hrun). eexists _, s2. exact (conj Hsay Hrun).
Defined.
