(* ===== verification/Start.v ===== *)
(** * The start of the kernel on any machine

    What [kernel_main] of base/kernel.c reaches on RISC-V, for any memory layout
    the loader describes and any pattern of timer interrupts: the theorems of
    the components put together.  [Main.v] has the code, and runs of it on
    concrete machines. *)

From S2P Require Import Prelude Machine Logic Console Boards Sync Str Boot Pmm Heap Slab Kheap Mm Hash Ob ObSpec Cap ObTest.
From S2P Require Import PageTree RvPaging Cpu Gic Timer Interrupts Main.

#[local] Open Scope list_scope.
#[local] Open Scope Z_scope.

Section start.
Context `{Console} (kpt global_ticks : Z).

(** What a timer interrupt may do: change the counter, and talk to devices. *)
Definition tick_only (s s' : kstate) : Prop :=
  exists m t, s' = set_io (set_mem s m) t /\ mods [(global_ticks, 8)] (k_mem s) m /\ forall e, e ∈ k_io s -> e ∈ t.

Lemma tick_only_refl s : tick_only s s.
Proof. exists (k_mem s), (k_io s). split; [by destruct s|]. split; [apply mods_refl|done]. Qed.

Lemma tick_only_trans s1 s2 s3 : tick_only s1 s2 -> tick_only s2 s3 -> tick_only s1 s3.
Proof.
  intros (m & t & -> & Hm & Ht) (m' & t' & -> & Hm' & Ht'). exists m', t'. split; [done|].
  split; [intros b Hb; rewrite (Hm' b Hb); by apply Hm|]. intros e He. by apply Ht', Ht.
Qed.

(** The kernel's statics, and its memory once paging is on: its own page table
    with the tables [T], the heap, and the statics next to it. *)
Definition statics (live : list (Z * Z)) : list (Z * Z) :=
  (g_om, sizeof_object_manager) :: (global_ticks, 8) :: live.

Record memory_ready (bi : boot_info_t) (live : list (Z * Z)) (T : gmap (list Z) Z) (M : gmap (list Z * Z) Z)
    (meta : list Z) (s : kstate) : Prop := {
  mr_space : exists cs, tree_at rv_format 3 s kpt T M cs (statics live);
  mr_maps : forall va, 0 <= va < 2 ^ 39 -> M !! page_of va = kernel_entry bi va;
  mr_heap : kheap_rep s [] [mkCache cache_metadata_cache 32 meta] (tables T ++ statics live);
  mr_meta : cache_meta_initialized s = true;
  mr_satp : RegWrite "satp" (MAKE_SATP_VAL kpt) ∈ k_io s
}.

(** What [vmm_init] needs of the image and of the memory the loader found: page
    alignment, and addresses that Sv39 can name. *)
Record rv_layout (bi : boot_info_t) : Prop := {
  rl_table : (4096 | kpt);
  rl_image : (4096 | kernel_image_start bi);
  rl_start : 0 <= kernel_image_start bi <= 2 ^ 39;
  rl_readonly : 0 <= kernel_readonly_end bi < 2 ^ 39 - 4096;
  rl_base : 0 <= machine_ram_base bi;
  rl_total : 0 <= machine_ram_total bi;
  rl_top : machine_ram_base bi + machine_ram_total bi <= 2 ^ 39
}.

(** It survives the interrupts. *)
Lemma memory_ready_tick bi live T M meta s s' :
  memory_ready bi live T M meta s -> tick_only s s' ->
  memory_ready bi live T M meta s' /\ same_bytes live s s'.
Proof.
  intros [(cs & Ht) Hmaps Hh Hi Hsatp] (m & t & -> & Hm & Hio).
  assert (Hw : within [(global_ticks, 8)] [(global_ticks, 8)]).
  { constructor; [|constructor]. exists global_ticks, 8. split; [by left|simpl; lia]. }
  assert (Hp : tables T ++ statics live ≡ₚ [(global_ticks, 8)] ++ tables T ++ (g_om, sizeof_object_manager) :: live).
  { unfold statics. rewrite perm_swap. symmetry. apply (Permutation_middle (tables T)). }
  eapply kheap_rep_equiv in Hh; [|reflexivity|exact Hp].
  destruct (kheap_writes _ _ _ _ _ _ m Hh Hw Hm) as [Hh' Hb]. cbn [mbind list_bind app] in Hb.
  apply same_bytes_app in Hb as [HbT Hb]. apply Forall_cons in Hb as [_ Hb].
  eapply kheap_rep_equiv in Hh'; [|reflexivity|symmetry; exact Hp].
  split; [|exact Hb]. split; [|exact Hmaps|by apply kheap_rep_io|exact Hi|by apply Hio].
  destruct Hh' as [_ _ (ks & _ & _ & Hk)]. eexists. eapply tree_same; [..|eapply tree_step; [exact Ht|exact HbT| |done|done]]; [done|done|].
  exact Hk.
Qed.

(** The page table is built in the heap [mm_init] left. *)
Lemma wp_paging s bi meta live (Q : unit -> kstate -> Prop) (E : kstate -> Prop) :
  kheap_rep s [] [mkCache cache_metadata_cache 32 meta] ((kpt, 4096) :: statics live) ->
  cache_meta_initialized s = true -> rv_layout bi ->
  (forall T M s', memory_ready bi live T M meta s' -> same_bytes (statics live) s s' ->
     g_test_destroyed s' = g_test_destroyed s -> Q tt s') ->
  (forall s', exhausted s' -> E s') ->
  wp (vmm_init kpt bi) s Q E.
Proof.
  intros [Hin _ (ks & Ha & Hks & Hh)] Hi [] HQ HE. cbn [mbind list_bind app] in Hh.
  eapply wp_vmm_init; [exact Hh|done..| |exact HE]. intros M s' [T Ht] HM Hb Hio (m & p & t & Hs').
  assert (Hk : k_kheap s' = k_kheap s) by (by rewrite Hs'). apply (HQ T M); [|exact Hb|by rewrite Hs'].
  split; [by exists (ks ++ [mkCache cache_metadata_cache 32 meta])|exact HM| |by rewrite Hs'|exact Hio].
  split; [by rewrite Hk|constructor|]. exists ks. rewrite Hk. split; [done|]. split; [done|]. apply (ta_heap _ _ _ _ _ _ _ _ Ht).
Qed.

Lemma mm_pre_io s bi live u : mm_pre s bi live -> mm_pre (set_io s u) bi live.
Proof. intros [[] ? ?]. by split; [split|..]. Qed.

(** ** Properties *)

Section memory.
Context (interrupts : M unit) (I : nat -> kstate -> Prop) (B : nat).
(** [I n s]: from [s] a timer interrupt is taken within [n] more polls, and [n]
    is never above [B]. *)
Context (polls : forall n s, I n s -> safe interrupts s (fun _ s' => tick_only s s' /\
  ((exists n', (n' < n)%nat /\ I n' s' /\ ticks global_ticks s' = ticks global_ticks s) \/
   (exists n', (n' <= B)%nat /\ I n' s' /\ ticks global_ticks s' = wrap64 (ticks global_ticks s + 1))))).
Context (soon : forall s, exists n, (n <= B)%nat /\ I n s).

(** C21: The first half of [kernel_main].  On a RISC-V machine with memory behind
    every frame the allocator is given and a byte of the bitmap for each
    ([mm_pre], which asks for more memory than this repository's loaders
    describe: [Mm.mm_frames_past_ram]), with timer interrupts coming at least
    every [B] polls, the kernel gets through [mm_init], [vmm_init] and [timer_wait]: the
    heap is ready, the kernel's own page table is installed and maps what
    [kernel_entry] says, exactly 2330 interrupts were taken, and no static of
    others has changed.  It panics only when frames run out. *)
Theorem kernel_memory_correct s bi live :
  arch = RISCV -> mm_pre s bi ((kpt, 4096) :: statics live) -> rv_layout bi ->
  ticks global_ticks s + 2330 < 2 ^ 64 -> 2331 * (Z.of_nat B + 1) < 2 ^ 64 ->
  wp (kernel_memory kpt global_ticks interrupts bi) s (fun _ s' =>
      (exists T M meta, memory_ready bi live T M meta s') /\
      ticks global_ticks s' = ticks global_ticks s + 2330 /\ same_bytes live s s' /\
      g_test_destroyed s' = g_test_destroyed s)
    exhausted.
Proof.
  intros Harch Hpre Hlay Htop Hfuel. unfold kernel_memory. apply wp_bind. wp_print.
  apply wp_bind. eapply wp_mm_init; [by apply mm_pre_io|].
  intros s1 meta Hr1 Hi1 Hb1 Hg1. apply Forall_cons in Hb1 as [_ Hb1].
  rewrite Harch. apply wp_bind. eapply wp_paging; [exact Hr1|exact Hi1|exact Hlay| |done].
  intros T M s2 Hready Hb2 Hg2.
  assert (Hb12 : same_bytes (statics live) s s2) by (by eapply same_bytes_trans).
  assert (Ht2 : ticks global_ticks s2 = ticks global_ticks s).
  { apply (same_bytes_getw _ _ _ global_ticks 8 8 _ Hb12); [right; by left|lia|simpl; lia]. }
  assert (Hv : valid global_ticks 8 = true).
  { pose proof (mp_image _ _ _ (mp_layout _ _ _ Hpre)) as Himg. unfold statics in Himg. rewrite !Forall_cons in Himg. by apply Himg. }
  destruct (soon s2) as (n & Hn & HI).
  eapply wp_weaken.
  - apply (wp_timer_wait global_ticks (fun n s' => I n s' /\ tick_only s2 s') B interrupts exhausted) with (n := n);
      [|exact Hv|split; [exact HI|apply tick_only_refl]|exact Hn|lia|lia|lia].
    intros k s3 [HI3 Ho3]. eapply safe_wp; [by apply polls|].
    intros [] s4 (Ho4 & [(k' & H1' & H2' & H3')|(k' & H1' & H2' & H3')]); [left|right]; exists k';
      (split; [done|]); (split; [split; [done|by eapply tick_only_trans]|done]).
  - intros [] s3 (Ht3 & n3 & _ & Ho3).
    destruct (memory_ready_tick _ _ _ _ _ _ _ Hready Ho3) as [Hready3 Hb3].
    apply Forall_cons in Hb12 as [_ Hb12]. apply Forall_cons in Hb12 as [_ Hb12].
    split; [by exists T, M, meta|]. split; [lia|]. split; [by eapply same_bytes_trans|].
    destruct Ho3 as (m & t' & -> & _). cbn [set_io set_mem g_test_destroyed]. by rewrite Hg2, Hg1.
Qed.
End memory.

(** C22: The second half of [kernel_main].  From a ready heap with a frame left,
    [ob_init] makes the object manager, its test registers a type and ends in
    one of its three ways ([test_result]), and [create_user_process] is called
    with that and with every other static as it was; whatever that call ends in
    is what the kernel ends in.  Before it there is no invalid access and no
    endless loop; there may be a panic for lack of frames. *)
Theorem kernel_objects_correct create_addr destroy_addr test_name create_user_process s meta live
    (Q : unit -> kstate -> Prop) :
  kheap_rep s [] [mkCache cache_metadata_cache 32 meta] ((g_om, sizeof_object_manager) :: live) ->
  cache_meta_initialized s = true -> free_set s <> ∅ -> g_test_destroyed s = false ->
  u64 create_addr -> u64 destroy_addr -> create_addr <> 0 -> destroy_addr <> 0 ->
  (forall ty meta' s', t_create ty = create_addr -> t_destroy ty = destroy_addr ->
     test_result create_addr destroy_addr [ty] [] 1 [mkCache cache_metadata_cache 32 meta'] live s' ->
     same_bytes live s s' -> wp create_user_process s' Q (fun _ => True)) ->
  wp (kernel_objects create_addr destroy_addr test_name create_user_process) s Q (fun _ => True).
Proof.
  intros Hr Hi Hf Hg Huc Hud Hc0 Hd0 HQ. unfold kernel_objects. apply wp_bind.
  eapply (wp_ob_init (H0 := test_callbacks create_addr destroy_addr)); [exact Hr|exact Hi|exact Hf| |done].
  intros meta1 s1 Hr1 Hb1 Ho1. cbn [mbind list_bind app] in Hb1.
  assert (Hi1 : cache_meta_initialized s1 = true) by (destruct Ho1 as (m & p & ->); exact Hi).
  apply wp_bind. eapply (wp_object_test create_addr destroy_addr test_name); [exact Hr1|exact Hi1|simpl; lia|lia|exact Huc|exact Hud|exact Hc0|exact Hd0| | |done].
  - by rewrite (heap_test _ _ Ho1).
  - intros ty meta' s2 H1' H2' _ Hres Hb2 _. eapply HQ; [exact H1'|exact H2'|exact Hres|by eapply same_bytes_trans].
Qed.
End start.

(** ** Witnesses *)

(** The RISC-V machine of Main.v, with a timer interrupt at every poll. *)
Lemma start_mm_pre :
  mm_pre (H := riscv_virt) cold_state (main_info 0x80200000) ((table_at, 4096) :: statics (H := riscv_virt) ticks_at []).
Proof.
  split; [split|vm_compute; discriminate|];
    [reflexivity|reflexivity|reflexivity|reflexivity|simpl; lia| |simpl; lia|simpl; lia|reflexivity|
     vm_compute; discriminate|reflexivity| | |].
  - exists 0x80200. reflexivity.
  - apply separatedb_ok. reflexivity.
  - repeat constructor; vm_compute; intuition discriminate.
  - intros i Hi. change (image_frames (main_info 0x80200000)) with 120 in Hi.
    change (managed (main_info 0x80200000)) with 256 in Hi. simpl kernel_image_start.
    apply (valid_sub (H := riscv_virt) 0x80200000 0x1000000); [reflexivity|lia|lia].
Qed.

Lemma start_polls (n : nat) s :
  n = 0%nat -> safe (riscv_timer_handler (H := riscv_virt) ticks_at 0) s (fun _ s' => tick_only ticks_at s s' /\
    ((exists n', (n' < n)%nat /\ n' = 0%nat /\ ticks ticks_at s' = ticks ticks_at s) \/
     (exists n', (n' <= 0)%nat /\ n' = 0%nat /\ ticks ticks_at s' = wrap64 (ticks ticks_at s + 1)))).
Proof.
  intros _. destruct (@riscv_timer_handler_correct riscv_virt ticks_at 0 s eq_refl) as (m & Hrun & Hm & Ht).
  eapply wp_run; [exact Hrun|]. split.
  - eexists m, _. split; [reflexivity|]. split; [exact Hm|]. intros e He. do 4 right. exact He.
  - right. exists 0%nat. split; [lia|]. split; [done|exact Ht].
Qed.

Lemma start_layout : rv_layout table_at (main_info 0x80200000).
Proof. split; simpl; try lia; [exists 0x80215|exists 0x80200]; reflexivity. Qed.

Lemma kernel_memory_correct_witness :
  exists s' T M meta, kernel_memory (H := riscv_virt) table_at ticks_at (riscv_timer_handler (H := riscv_virt) ticks_at 0)
      (main_info 0x80200000) cold_state = Ok tt s' /\
    memory_ready (H := riscv_virt) table_at ticks_at (main_info 0x80200000) [] T M meta s' /\ ticks ticks_at s' = 2330.
Proof.
  destruct (wp_result _ _ _ _ tt (@kernel_memory_correct riscv_virt riscv_console table_at ticks_at
    (riscv_timer_handler (H := riscv_virt) ticks_at 0) (fun n _ => n = 0%nat) 0 start_polls
    (fun _ => ex_intro _ 0%nat (conj (le_n 0) eq_refl)) cold_state (main_info 0x80200000) []
    eq_refl start_mm_pre start_layout ltac:(vm_compute; reflexivity) ltac:(vm_compute; reflexivity)))
    as (s' & Hrun & (T & M & meta & Hready) & Ht & _ & _); [vm_compute; reflexivity|].
  exists s', T, M, meta. exact (conj Hrun (conj Hready Ht)).
Defined.

(** The arm64 machine of ObSpec.v after [mm_init]; no process is started. *)
Lemma kernel_objects_correct_witness :
  exists s' ty meta, kernel_objects (H := arm64_virt) 0x40081000 0x40082000 0x40083000 (ret tt) mm_demo = Ok tt s' /\
    test_result (H := arm64_virt) 0x40081000 0x40082000 [ty] [] 1 [mkCache 0x40090000 32 meta] [] s'.
Proof.
  destruct mm_demo_rep as [meta Hr].
  destruct (wp_result _ _ _ _ tt (@kernel_objects_correct arm64_virt arm64_console 0x40081000 0x40082000 0x40083000
    (ret tt) mm_demo meta []
    (fun _ s' => exists ty meta', test_result (H := arm64_virt) 0x40081000 0x40082000 [ty] [] 1 [mkCache 0x40090000 32 meta'] [] s')
    Hr mm_demo_meta mm_demo_frames ltac:(vm_compute; reflexivity) ltac:(unfold u64; lia) ltac:(unfold u64; lia) ltac:(lia) ltac:(lia)
    (fun ty meta' s' _ _ Hres _ => ex_intro _ ty (ex_intro _ meta' Hres))))
    as (s' & Hrun & ty & meta' & Hres); [vm_compute; reflexivity|].
  exists s', ty, meta'. exact (conj Hrun Hres).
Defined.
